(* ===== verification/_CoqProject ===== *)
-Q . S2P
Prelude.v
Strconv.v
Net.v
Quote.v
Bencode.v
BencodeFacts.v
BencodeTheorems.v
Bitfield.v
Wire.v
PieceQueue.v
PieceQueueFacts.v
PieceQueueTheorems.v
Workers.v
Torrent.v
Paths.v
Storage.v
StorageTheorems.v
Dht.v
DhtTheorems.v
Extension.v
ExtensionTheorems.v
Client.v
ClientTheorems.v
Engine.v
EngineTheorems.v
Utp.v
UtpTheorems.v
Tracker.v
TrackerTheorems.v
Magnet.v
Queue.v
QueueTheorems.v
RestartTheorems.v
DhtNode.v
DhtNodeTheorems.v
Upload.v
UploadTheorems.v
Bus.v
BusTheorems.v
Mse.v
MseTheorems.v
Webseed.v
WebseedTheorems.v
DownloadTheorems.v
Announcer.v
Text.v
Resolve.v
ResolveTheorems.v
Attempt.v
AttemptTheorems.v
Lifecycle.v
LifecycleTheorems.v
Listener.v
Config.v
ConfigTheorems.v
Rpc.v
RpcTheorems.v
Daemon.v
Swarm.v
SwarmTheorems.v
Connect.v
ConnectTheorems.v
OneShot.v
OneShotTheorems.v
Portmap.v
PortmapTheorems.v
Display.v
DisplayTheorems.v
Rates.v
Metrics.v
MetricsTheorems.v
Host.v
