(* ===== verification/Prelude.v ===== *)
(** * stor: a verification development of the BitTorrent client [stor]

    [stor] is a BitTorrent client and daemon written in Go.  This library models
    its core as executable definitions that follow the source function by function
    and proves what makes each part correct.  File names below are relative to the
    repository.

    ** The program and its model

    A torrent is described by a bencoded metainfo file ([bencode/],
    [torrent/torrent.go]), or by a magnet link whose metainfo is fetched from a
    peer ([magnet/metadata.go] over the extension protocol [peer/ext*.go]).  The
    engine ([engine/]) keeps the torrents in a queue, saves them as records and
    runs one session per torrent; its download
    ([download/download.go]) starts a worker per peer and per web seed.  A worker speaks the wire
    protocol ([peer/message.go], [peer/handshake.go]), takes pieces from a shared
    queue ([download/piecequeue.go]), downloads them block by block and sends them
    to a collector that writes them to the torrent's files
    ([storage/multifile.go]).  Data already on disk is found by
    [storage/verify.go].  The uploader ([download/upload.go]) serves other peers
    under the choking algorithm of [download/peermgr.go].  Connections run over TCP
    or uTP ([utp/]), in the clear or encrypted ([mse/]).  Peers come from trackers
    ([tracker/], asked by [engine/announcer.go]), peer exchange ([peer/pex.go]) and
    the DHT ([dht/]).  What happens is published on an event bus ([events/]).  The
    daemon ([daemon/]) serves the engine over HTTP with its settings in a
    configuration file, and maps its port on the gateway ([engine/portmap.go]);
    the command line ([cmd/stor/main.go]) starts it, or downloads one torrent
    without it.

    - [Prelude]: errors as a sum type with its monad, integers of 32 and 64 bits
      with their wrap-around, bytes, big-endian numbers, slices and [copy], the
      order of byte strings; the tactics and hints of the library.
    - [Strconv], [Net], [Paths]: the parts of Go's [strconv], [net] and
      [path/filepath] the code uses.
    - [Bencode] ([bencode/decode.go], [encode.go]): decoder with its limits on
      depth, sizes and items, encoder; [BencodeFacts] its theory,
      [BencodeTheorems] its properties.
    - [Bitfield], [Wire] ([peer/message.go], [peer/handshake.go]): messages,
      framing on a byte stream, payloads, handshake.
    - [PieceQueue] ([download/piecequeue.go]): all methods of the queue;
      [PieceQueueFacts] the representation invariant, [PieceQueueTheorems] the
      properties and the refinement of the availability counts to the swarm.
    - [Workers] ([download/download.go], [runWorkers] and
      [DownloadWithParams]): workers and collector as an interleaving of atomic
      steps on shared state (queue, result channel, written pieces).
    - [Client] and [ClientTheorems] ([download/download.go], [Client] and
      [DownloadPiece]): one peer connection over the sequence of messages it
      receives.
    - [Torrent] ([torrent/torrent.go], and [mustReencode] of
      [engine/session.go]): parser of metainfo and its stored form.
    - [Storage], [StorageTheorems] ([storage/]): the multi-file writer over a
      map of files, preallocation, verification.
    - [Dht], [DhtTheorems] ([dht/id.go], [table.go], [krpc.go], [persist.go]):
      identifiers, routing table, messages, saved nodes.
    - [Extension], [ExtensionTheorems] ([peer/extension.go], [extconn.go],
      [pex.go], [magnet/metadata.go]): extension handshake and messages over a
      connection, peer exchange, metadata transfer.
    - [Engine], [EngineTheorems] ([engine/skip_mask.go], [file_progress.go],
      [session.go], [stall_detector.go], [sanitize.go]): file selection, file
      progress and completion, state changes, stall detection, name check.
    - [Utp], [UtpTheorems] ([utp/]): packets, connection, reordering,
      retransmission, LEDBAT window, dial and listener; two connections and the
      network between them as a step relation.
    - [Tracker], [TrackerTheorems] ([tracker/]): HTTP and UDP announces, their
      answers, the address filter.  [Magnet] ([magnet/magnet.go]): link parser.
    - [Queue], [QueueTheorems], [RestartTheorems] ([engine/engine.go],
      [engine/store.go], start and end of sessions in [engine/session.go]): the
      engine's torrents, their queue and their records.
    - [DhtNode], [DhtNodeTheorems] ([dht/node.go]): packets, tokens, pending
      queries, bootstrap and the iterative lookup.
    - [Upload], [UploadTheorems] ([download/upload.go], [peermgr.go]): serving a
      peer, choking, the life of incoming connections and [Stop].
    - [Bus], [BusTheorems] ([events/]): publications, subscriptions and their ends as
      interleaved steps.
    - [Mse], [MseTheorems] ([mse/mse.go]): RC4, key exchange and handshake.
    - [Webseed], [WebseedTheorems] ([download/webseed.go]): pieces over HTTP;
      [DownloadTheorems]: the writes of a whole download, from peers and web seeds to
      the file.
    - [Announcer] ([engine/announcer.go], [download/progress.go]): counters,
      rounds of announces, timers.
    - [Text], [Quote]: the parts of Go's [strings], [fmt], [unicode/utf8],
      [strconv] quoting and the strings of [encoding/json] the code uses.
    - [Resolve], [ResolveTheorems] ([engine/session.go]): metainfo and peers of a
      session, from a file, a link or the record; [Attempt], [AttemptTheorems]: the
      goroutines of one attempt to fetch metadata.
    - [Lifecycle], [LifecycleTheorems] ([engine/session.go]): a session from its
      start over the phases of [run] to the end of its goroutine, with pause, resume
      and shutdown, as a step function; [Listener] ([engine/listener.go]): routing of
      incoming connections.
    - [Swarm], [SwarmTheorems] ([download/download.go], [runWorkers]): the pool of
      peers, its semaphores, the retry loop and the closing of channels;
      [Connect], [ConnectTheorems]: dialling and the handshakes of one connection.
    - [OneShot], [OneShotTheorems] ([cmd/stor/main.go], [DownloadToFile]): the
      one-shot mode; [Portmap], [PortmapTheorems] ([engine/portmap.go]): SSDP, SOAP,
      NAT-PMP and the mapper beside its gateway.
    - [Config], [ConfigTheorems] ([daemon/config.go]): the configuration file;
      [Rpc], [RpcTheorems] ([daemon/rpc.go]): the JSON-RPC methods; [Daemon]
      ([daemon/daemon.go]): routes, key and cross-origin headers.
    - [Display], [DisplayTheorems] ([download/peerinfo.go], [Snap], [Files] and
      [PeerList] of [engine/session.go], [GetStats] of [engine/engine.go]): what a
      user is shown; [Rates] ([download/rate.go]): the sampler of transfer rates;
      [Metrics], [MetricsTheorems] ([daemon/metrics.go], [sse.go], [pidfile.go]):
      metrics page, event frames, process file; [Host] ([Start] and [Stop] of
      [engine/engine.go]): the engine's goroutines and their end.

    ** What the theorems show

    - Download: a download that returns success has written every piece it had to
      fetch, with verified data ([Download_success]); no piece is lost on the way
      ([No_piece_lost]); whatever peers and web seeds send, only wanted pieces with
      verified data are written, each at its offset, and the file holds every piece
      received ([Writes_are_verified]).  The check-then-complete race of two workers in
      endgame is proved to lose a piece ([Endgame_race_loses_piece]), which is why
      the first theorem assumes that no piece arrives twice.  One connection
      returns only data with the right hash ([DownloadPiece_sound]) and fetches
      the piece from an honest peer, requesting each block once
      ([DownloadPiece_complete]).
    - Queue: the invariant of its maps and buckets holds after any sequence of
      operations; [Pick] chooses an eligible piece, by the mode in force the lowest,
      a prioritised or a rarest one, and fails only when there is none; a piece is
      not handed out twice before endgame; completed pieces stay completed; the
      availability counts are those of the connected peers.
    - Storage: reading and writing across files is reading and writing one flat
      array; every path stays below the base directory; preallocation gives every
      file its length; [VerifyPieces] finds exactly the pieces whose data has the
      right hash, for single files and multi-file torrents alike (proved against
      the interface [ReadAtReader] with its law [ReadsStream], of which both are
      instances).
    - Codecs: bencode, wire messages, handshakes, peer exchange, KRPC and compact
      nodes are read back as written; what the bencode decoder accepts is within
      its limits, re-encodes to the canonical form of the same value, and the
      decoder always returns.
    - Metainfo: what [Parse] accepts is well formed, with the hash of the raw info
      dictionary when the file is canonical ([Parse_sound]); metainfo stored for a magnet
      link is read back with the same name, pieces and files.  Metadata fetched
      from a peer has the announced size and the requested hash, and a peer that
      answers suffices to get it.
    - DHT: over the life of a node its tables hold at most eight nodes per bucket,
      at their distance, without duplicates, one table per address family
      ([DHT_invariant]); [Closest] returns the nearest nodes in order; a lookup is
      bounded whatever is answered ([Lookup_bounds]), asks the nearest unasked nodes
      ([Round_closest]), and a query, its answer and its delivery compose
      ([FindNode_exchange]).
    - Engine: the bytes counted for a file and the file-completion events are exactly
      those the definitions in terms of bytes demand, and so is the skip mask but for
      empty files strictly inside a piece ([SkipMask_exact]).  The queue
      positions are the places of one list on which every operation acts as it
      says ([Queue_refines]); exactly the first waiting torrents are started
      ([StartQueued_spec]); a restart restores torrents and queue from the saved
      records, with the JSON encoding of their strings ([Restart_restores]); a failing operation changes nothing
      ([Engine_errors]).
    - uTP: the receiver with its 16-bit numbers behaves as one with unbounded
      numbers ([Utp_receive_equiv]); whatever the network loses, repeats or
      reorders, and also when the sender gives up or its writes fail, what is read is a
      prefix of what was written ([Utp_transfer]), and after any loss of packets in flight
      the retransmissions of what is still buffered bring all of it
      ([Utp_completes]).
    - Trackers and magnet links: the UDP exchange follows BEP 15, every outcome has
      its cause, the address filter keeps exactly the public addresses; links are
      read as written.
    - Upload: a peer gets only what it asked for in requests read while it was not
      choked, with checking, choking and writing as separate steps ([Serve_sound]; a
      block may still leave after the choke, [block_after_choke]); uploading and
      downloading clients compose ([Seed_leech]); a
      rechoke keeps the fastest peers ([Rechoke_spec]); nothing is served after
      [Stop] ([Stop_leaves_nothing]).
    - Events, encryption, web seeds: a publication does at each recipient what its
      filter, room and end demand, and every event is accounted for once per recipient
      ([Bus_accounting]); the handshake with a responder that sends neither PadB nor early
      data gives matching streams however the network splits the data
      ([Mse_handshake]); a web seed's
      piece is the torrent's range ([Webseed_exact]).

    - Sessions: over any sequence of steps a session's state, references and
      registration fit its phase as long as a resume has not started a second goroutine
      beside the first ([Session_invariant]; the engine allows it, [resume_overlaps]);
      pieces downloaded before a pause are taken over by the next start
      ([Resume_keeps_pieces]); a session whose context is cancelled takes at most
      seventeen more steps of its own and always has the next one when the call it waits
      in returns, which is not claimed ([Session_stops]); a peer that serves a torrent's
      metadata suffices to get its info and hashes ([Magnet_metadata]), and an attempt to
      fetch it returns ([Attempt_returns]).
    - Pool of peers: no channel is closed under a sender, semaphores and peer counts
      balance ([Swarm_safe]), and once the context is done the pool's steps are bounded
      but for firings of the retry timer and new peers, and some goroutine can go on
      until the pool is closed ([Swarm_winds_down]).
    - Daemon: the configuration file is read back as written ([Config_roundtrip]); when
      requests come one at a time, engine and configuration agree and a changed setting
      survives a restart ([Settings_survive]; concurrent calls can break it,
      [concurrent_setConfig_diverges]); a
      refused call changes nothing and has the error code of its cause
      ([Rpc_errors]); nothing but the user interface is served without the key
      ([Auth_required]); the metrics page is read back as written, whatever its
      labels ([Metrics_page]); [Stop] leaves nothing open, nothing running
      that did not start after the wait for the sessions, and nothing unsaved if its own
      save succeeds ([Host_stop_clean]).
    - One-shot mode and port mapping: success means a file with every piece verified
      ([OneShot_success]); a stopped mapper leaves no mapping but in the listed cases
      ([Portmap_stop_clean]); the NAT-PMP exchange ([Natpmp_exchange]) and the search
      of the device tree follow their protocols.
    - Display: the progress of the files adds up to the complete pieces
      ([Files_account]), the statistics count each torrent once ([Stats_exact]), the
      sampler's list is that of the live registrations ([Rates_account]).

    Lemmas next to the theorems show behaviour the code does not intend, each on a
    concrete run: for example [stop_misses_handshaking_peer],
    [pause_while_verifying_lost], [padding_breaks_handshake], [Listener_misroutes],
    [huge_interval_wraps], [oneshot_name_escapes], [take_over_loses].

    ** Conventions, bounds and fuel

    Go's [int] and [int64] are integers [Z]; [i64] is applied where the code's
    arithmetic could wrap around, so that the theorems state the range they need.
    SHA-1 and SHA-256 are parameters.  Map iteration order and [rand.Intn] are arguments
    with what the language promises of them as classes ([MapOrder], [RandIntN]).
    Methods that hold a mutex throughout are atomic steps.  Loops that are not
    structural recursions carry fuel computed from their input: twice the length
    plus one for the bencode decoder (proved sufficient by [Decode_total]), the
    length of the input for reading messages, the number of blocks left for the
    request loop ([fill_fuel_enough]), eight for the bits of a byte, the size of
    the reorder buffer for flushing it, the length for base32, quoting and
    unquoting, and a list of labels.  A DHT lookup takes at most the ten rounds of
    the code, a NAT-PMP request its four tries, the wait for a previous daemon its
    twenty tests; a line of the configuration file is limited to the 64 KB of the
    scanner.  Concurrent code is modelled by its critical
    sections, channel operations and [select]s as steps taken in any order.

    ** Not modelled

    Sockets, timers and deadlines: what arrives, fails or expires is an argument or
    a step.  SHA-1 and SHA-256, DNS, the HTTP client, URL, XML and JSON parsing (but
    the strings of the records), the file server and IP address parsing are parameters.  Floating-point numbers are
    elements of a type that is a parameter too: averages, ratios and their formatting
    are not computed.  Log output, terminal output ([Progress.String]) and profiling
    have no model, nor have the user interface ([ui/]) and the browser extension,
    which are not Go. *)

From Stdlib Require Export ZArith Lia.
From Stdlib Require Export Strings.Byte.
From stdpp Require Export sorting strings numbers gmap base tactics list.

(** ** Scopes, notations *)

Declare Scope go_scope.
Delimit Scope go_scope with go.

(** [len l]: Go's built-in [len], an [int]. *)
Abbreviation len l := (Z.of_nat (length l)).

(** ** Errors: Go's [(value, error)] pairs as a sum *)

Inductive result (E A : Type) : Type :=
  | Ok (a : A)
  | Err (e : E).
Arguments Ok {E A} a.
Arguments Err {E A} e.

#[export] Instance result_ret (E : Type) : MRet (result E) := fun A a => Ok a.
#[export] Instance result_bind (E : Type) : MBind (result E) := fun A B f m =>
  match m with Ok a => f a | Err e => Err e end.
#[export] Instance result_fmap (E : Type) : FMap (result E) := fun A B f m =>
  match m with Ok a => Ok (f a) | Err e => Err e end.

#[export] Instance result_eq_dec {E A} `{EqDecision E, EqDecision A} : EqDecision (result E A).
Proof. solve_decision. Defined.

Definition is_ok {E A} (r : result E A) : bool :=
  match r with Ok _ => true | Err _ => false end.

(** An error of one package wrapped by another ([fmt.Errorf("...: %w", err)]). *)
Definition map_err {E E' A} (f : E -> E') (r : result E A) : result E' A :=
  match r with Ok a => Ok a | Err e => Err (f e) end.

Section Result.
Context {E A B : Type}.

Lemma bind_ok_inv (m : result E A) (f : A -> result E B) (b : B) :
  (m ≫= f) = Ok b -> exists a, m = Ok a /\ f a = Ok b.
Proof. destruct m as [a|e]; simpl; [eauto | discriminate]. Qed.

Lemma bind_ok_iff (m : result E A) (f : A -> result E B) (b : B) :
  (m ≫= f) = Ok b <-> exists a, m = Ok a /\ f a = Ok b.
Proof. split; [apply bind_ok_inv | intros (a & -> & Hf); exact Hf]. Qed.

Lemma map_err_ok_iff {E' : Type} (f : E -> E') (r : result E A) (a : A) :
  map_err f r = Ok a <-> r = Ok a.
Proof. destruct r; simpl; split; congruence. Qed.
End Result.

(** Guarded early return: [if !b { return err }]. *)
Definition guard_or {E} (b : bool) (e : E) : result E () :=
  if b then Ok tt else Err e.

Lemma guard_or_ok {E} (b : bool) (e : E) u :
  guard_or b e = Ok u <-> b = true.
Proof. unfold guard_or; destruct b, u; split; congruence. Qed.

(** [x, ok := ...; if !ok { return err }] *)
Definition or_err {E A} (o : option A) (e : E) : result E A :=
  match o with Some a => Ok a | None => Err e end.

Lemma or_err_ok {E A} (o : option A) (e : E) a : or_err o e = Ok a <-> o = Some a.
Proof. destruct o; simpl; split; congruence. Qed.

(** A [for] loop that appends one result per element and returns at the first
    error. *)
Fixpoint traverse {E A B} (f : A -> result E B) (l : list A) : result E (list B) :=
  match l with
  | [] => Ok []
  | x :: l => y ← f x; ys ← traverse f l; Ok (y :: ys)
  end.

Lemma traverse_ok {E A B} (f : A -> result E B) l ys :
  traverse f l = Ok ys <-> Forall2 (fun x y => f x = Ok y) l ys.
Proof.
  revert ys. induction l as [|x l IH]; intros ys; simpl.
  - split; [intros [= <-]; constructor|by inversion 1].
  - split.
    + intros (y & Hy & (ys' & Hl & [= <-])%bind_ok_inv)%bind_ok_inv.
      constructor; [done|by apply IH].
    + inversion 1 as [|? ? ? ? Hx Hl]; subst. rewrite Hx. simpl.
      apply IH in Hl. by rewrite Hl.
Qed.

Lemma traverse_fmap {E A B} (f : A -> result E B) (g : B -> A) ys :
  (forall y, y ∈ ys -> f (g y) = Ok y) -> traverse f (g <$> ys) = Ok ys.
Proof.
  intros H. apply traverse_ok. apply Forall2_fmap_l, Forall_Forall2_diag, Forall_forall. done.
Qed.

(** ** Machine integers *)

Section Machine.
Local Open Scope Z_scope.

(** Unsigned and two's-complement truncation to a width. *)
Definition wrapu (w z : Z) : Z := z mod 2 ^ w.
Definition wraps (w z : Z) : Z := (z + 2 ^ (w - 1)) mod 2 ^ w - 2 ^ (w - 1).

Definition MinInt64 : Z := - 2 ^ 63.
Definition MaxInt64 : Z := 2 ^ 63 - 1.

(** [int] and [int64] arithmetic wraps around at 64 bits. *)
Definition i64 (z : Z) : Z := wraps 64 z.
Definition in_i64 (z : Z) : Prop := MinInt64 <= z <= MaxInt64.

#[global] Instance in_i64_dec z : Decision (in_i64 z).
Proof. unfold in_i64. apply _. Defined.

Lemma wrapu_range w z : 0 <= w -> 0 <= wrapu w z < 2 ^ w.
Proof. intros. apply Z.mod_pos_bound. lia. Qed.

Lemma wrapu_id w z : 0 <= z < 2 ^ w -> wrapu w z = z.
Proof. apply Z.mod_small. Qed.

Lemma i64_id z : in_i64 z -> i64 z = z.
Proof.
  unfold in_i64, i64, wraps, MinInt64, MaxInt64. intros.
  change (64 - 1) with 63. rewrite Z.mod_small; lia.
Qed.

Lemma i64_range z : in_i64 (i64 z).
Proof.
  unfold in_i64, i64, wraps, MinInt64, MaxInt64. change (64 - 1) with 63.
  pose proof (Z.mod_pos_bound (z + 2 ^ 63) (2 ^ 64)). lia.
Qed.

Lemma i64_add_l a b : i64 (i64 a + b) = i64 (a + b).
Proof.
  unfold i64, wraps. f_equal.
  replace ((a + 2 ^ (64 - 1)) mod 2 ^ 64 - 2 ^ (64 - 1) + b + 2 ^ (64 - 1)) with ((a + 2 ^ (64 - 1)) mod 2 ^ 64 + b) by lia.
  rewrite Z.add_mod_idemp_l by lia. f_equal. lia.
Qed.

Lemma i64_idem z : i64 (i64 z) = i64 z.
Proof. apply i64_id, i64_range. Qed.

Lemma i64_plus a b c : i64 a = i64 b -> i64 (a + c) = i64 (b + c).
Proof. intros H. by rewrite <- (i64_add_l a), H, i64_add_l. Qed.
End Machine.

(** ** Bytes and byte strings

    A Go [byte] is [Init.Byte.byte]; a [[]byte] and a [string] are both lists of
    bytes. *)

Abbreviation bytes := (list byte).

#[export] Instance byte_eq_dec : EqDecision byte := Byte.byte_eq_dec.

Section Bytes.
Local Open Scope Z_scope.

(** Value of a byte, and truncation [byte(z)]. *)
Definition u8 (b : byte) : Z := Z.of_N (Byte.to_N b).
Definition byte_of_Z (z : Z) : byte :=
  match Byte.of_N (Z.to_N (z mod 256)) with Some b => b | None => x00 end.

Lemma u8_range b : 0 <= u8 b < 256.
Proof.
  unfold u8. pose proof (Byte.to_N_bounded b). lia.
Qed.

Lemma u8_byte_of_Z z : u8 (byte_of_Z z) = z mod 256.
Proof.
  unfold u8, byte_of_Z. pose proof (Z.mod_pos_bound z 256 ltac:(lia)) as Hz.
  destruct (Byte.of_N _) eqn:E.
  - apply Byte.to_of_N in E. rewrite E. lia.
  - apply Byte.of_N_None_iff in E. lia.
Qed.

Lemma byte_of_Z_u8 b : byte_of_Z (u8 b) = b.
Proof.
  unfold byte_of_Z. rewrite Z.mod_small by apply u8_range.
  unfold u8. rewrite N2Z.id, Byte.of_to_N. reflexivity.
Qed.

Lemma u8_inj b1 b2 : u8 b1 = u8 b2 -> b1 = b2.
Proof. intros H. rewrite <- (byte_of_Z_u8 b1), H. apply byte_of_Z_u8. Qed.

Lemma byte_of_Z_mod z : byte_of_Z (z mod 256) = byte_of_Z z.
Proof. unfold byte_of_Z. rewrite Z.mod_mod by lia. reflexivity. Qed.
End Bytes.

#[export] Instance byte_inhabited : Inhabited byte := populate x00.

#[export] Instance byte_countable : Countable byte :=
  inj_countable Byte.to_N Byte.of_N Byte.of_to_N.

#[export] Instance u8_injective : Inj (=) (=) u8 := u8_inj.

(** A Go string literal. *)
Definition lit (s : string) : bytes := String.list_byte_of_string s.

(** Two filters that agree on the elements. *)
Lemma filter_ext_in {A} (P Q : A -> Prop) {HP : forall x, Decision (P x)} {HQ : forall x, Decision (Q x)}
    (l : list A) : (forall x, x ∈ l -> P x <-> Q x) -> filter P l = filter Q l.
Proof.
  induction l as [|x l IH]; intros H; [done|]. rewrite !filter_cons.
  assert (Hx : P x <-> Q x) by (apply H; left). rewrite IH by (intros; apply H; by right).
  destruct (decide (P x)), (decide (Q x)); tauto.
Qed.

(** ** Slices

    [slice l a b] is Go's [l[a:b]] for [0 <= a <= b <= len l]. *)
Definition slice {A} (l : list A) (a b : Z) : list A :=
  take (Z.to_nat (b - a)) (drop (Z.to_nat a) l).

(** [copy(dst[off:], src)] into a destination long enough to hold it. *)
Definition splice {A} (l : list A) (off : nat) (src : list A) : list A :=
  take off l ++ src ++ drop (off + length src) l.

Section Slices.
Context {A : Type}.
Implicit Types l : list A.

Lemma length_slice l a b :
  (0 <= a <= b)%Z -> (b <= len l)%Z -> length (slice l a b) = Z.to_nat (b - a).
Proof. intros. unfold slice. rewrite length_take, length_drop. lia. Qed.

Lemma slice_app_l l1 l2 a b :
  (0 <= a <= b)%Z -> (b <= len l1)%Z -> slice (l1 ++ l2) a b = slice l1 a b.
Proof.
  intros. unfold slice. rewrite drop_app_le by lia.
  rewrite take_app_le; [done | rewrite length_drop; lia].
Qed.

Lemma slice_mid l1 l2 l3 a b :
  a = len l1 -> b = (len l1 + len l2)%Z -> slice (l1 ++ l2 ++ l3) a b = l2.
Proof.
  intros -> ->. unfold slice. rewrite Nat2Z.id, drop_app_length.
  rewrite take_app_length' by lia. done.
Qed.

Lemma slice_prefix l1 l2 b : b = len l1 -> slice (l1 ++ l2) 0 b = l1.
Proof. intros ->. apply (slice_mid [] l1 l2); simpl; lia. Qed.

Lemma slice_suffix l1 l2 a : a = len l1 -> slice (l1 ++ l2) a (len (l1 ++ l2)) = l2.
Proof.
  intros ->. rewrite <- (app_nil_r l2) at 1. apply slice_mid; [done|].
  rewrite length_app. lia.
Qed.

(** A slice to the end of its list is a suffix of it. *)
Lemma slice_to_end l a :
  (0 <= a <= len l)%Z -> exists l1, l = l1 ++ slice l a (len l) /\ len l1 = a.
Proof.
  intros Ha. exists (take (Z.to_nat a) l). unfold slice.
  rewrite (take_ge (drop _ _)) by (rewrite length_drop; lia).
  rewrite take_drop, length_take. split; [done|lia].
Qed.

Lemma slice_split l k : (0 <= k <= len l)%Z -> slice l 0 k ++ slice l k (len l) = l.
Proof.
  intros Hk. unfold slice. rewrite Z.sub_0_r. cbn [Z.to_nat]. rewrite drop_0.
  rewrite (take_ge (drop _ _)) by (rewrite length_drop; lia). apply take_drop.
Qed.

(** A slice of a slice. *)
Lemma slice_slice l a b c d :
  (0 <= a)%Z -> (0 <= c <= d)%Z -> (d <= b - a)%Z -> slice (slice l a b) c d = slice l (a + c) (a + d).
Proof.
  intros Ha Hc Hd. unfold slice. rewrite skipn_firstn_comm, drop_drop, take_take.
  f_equal; [lia|]. f_equal. lia.
Qed.

Lemma slice_full l : slice l 0 (len l) = l.
Proof. unfold slice. rewrite Z.sub_0_r, drop_0. apply take_ge. lia. Qed.

Lemma length_splice l off src :
  (off + length src <= length l)%nat -> length (splice l off src) = length l.
Proof.
  intros. unfold splice. rewrite !length_app, length_take, length_drop. lia.
Qed.

Lemma take_drop_splice l off src :
  (off + length src <= length l)%nat ->
  take (length src) (drop off (splice l off src)) = src.
Proof.
  intros. unfold splice.
  rewrite drop_app_length' by (rewrite length_take; lia).
  apply take_app_length.
Qed.

Lemma splice_nil l off : splice l off [] = l.
Proof. unfold splice. simpl. rewrite Nat.add_0_r. apply take_drop. Qed.

Lemma splice_app l1 l2 off src :
  (off + length src <= length l1)%nat ->
  splice (l1 ++ l2) off src = splice l1 off src ++ l2.
Proof.
  intros. unfold splice. rewrite take_app_le, drop_app_le by lia.
  by rewrite <- !(assoc_L (++)).
Qed.

Lemma splice_app_r l1 l2 off src :
  (length l1 <= off)%nat ->
  splice (l1 ++ l2) off src = l1 ++ splice l2 (off - length l1) src.
Proof.
  intros. unfold splice. rewrite take_app_ge, drop_app_ge by lia.
  rewrite <- !(assoc_L (++)). do 3 f_equal. f_equal. lia.
Qed.

(** Writing a block that crosses the boundary of two regions writes its two
    halves. *)
Lemma splice_app_split l1 l2 off src :
  (off <= length l1)%nat ->
  splice (l1 ++ l2) off src =
  splice l1 off (take (length l1 - off) src) ++
  (if decide (length src <= length l1 - off)%nat then l2
   else splice l2 0 (drop (length l1 - off) src)).
Proof.
  intros Hoff. case_decide as Hs.
  - rewrite (take_ge src) by lia. apply splice_app. lia.
  - unfold splice. rewrite take_app_le by lia.
    rewrite (drop_ge l1) by (rewrite length_take; lia).
    rewrite drop_app_ge by lia. rewrite take_0, app_nil_r; simpl.
    rewrite <- !(assoc_L (++)). f_equal.
    rewrite (assoc_L (++) (take _ src)), take_drop. do 2 f_equal.
    rewrite length_drop. lia.
Qed.
End Slices.

(** ** Big-endian integers ([encoding/binary].BigEndian) *)

Section BigEndian.
Local Open Scope Z_scope.

(** [PutUint16/32/64]: the [n] low bytes of [z], most significant first. *)
Fixpoint be_put (n : nat) (z : Z) : bytes :=
  match n with
  | O => []
  | S n' => byte_of_Z (z / 256 ^ Z.of_nat n') :: be_put n' z
  end.

(** [Uint16/32/64] of all the bytes of a slice. *)
Fixpoint be_get (l : bytes) : Z :=
  match l with
  | [] => 0
  | b :: l' => u8 b * 256 ^ len l' + be_get l'
  end.

Lemma length_be_put n z : length (be_put n z) = n.
Proof. induction n; simpl; auto. Qed.

Lemma be_get_range l : 0 <= be_get l < 256 ^ len l.
Proof.
  induction l as [|b l IH]; [simpl; lia|].
  cbn [be_get length]. rewrite Nat2Z.inj_succ, Z.pow_succ_r by lia.
  pose proof (u8_range b). nia.
Qed.

Lemma be_get_put n z : be_get (be_put n z) = z mod 256 ^ Z.of_nat n.
Proof.
  induction n as [|n IH]; [simpl; symmetry; apply Z.mod_1_r|].
  cbn [be_put be_get]. rewrite IH, length_be_put, u8_byte_of_Z.
  rewrite Nat2Z.inj_succ, Z.pow_succ_r by lia.
  assert (0 < 256 ^ Z.of_nat n) by lia.
  rewrite (Z.mul_comm 256), Z.rem_mul_r by lia. lia.
Qed.

Lemma be_put_mod n z : be_put n (z mod 256 ^ Z.of_nat n) = be_put n z.
Proof.
  assert (H : forall m, (m <= n)%nat ->
            be_put m (z mod 256 ^ Z.of_nat n) = be_put m z).
  { induction m as [|m IH]; intros Hm; [done|]. cbn [be_put].
    rewrite IH by lia. f_equal.
    replace (Z.of_nat n) with (Z.of_nat m + Z.of_nat (n - m)) by lia.
    rewrite Z.pow_add_r by lia.
    rewrite Z.rem_mul_r, (Z.mul_comm (256 ^ Z.of_nat m)), Z.div_add by lia.
    rewrite (Z.div_small (z mod _)), Z.add_0_l by (apply Z.mod_pos_bound; lia).
    rewrite <- byte_of_Z_mod.
    replace (Z.of_nat (n - m)) with (Z.succ (Z.of_nat (n - m - 1))) by lia.
    rewrite Z.pow_succ_r, Z.rem_mul_r, (Z.mul_comm 256), Z.mod_add, Z.mod_mod by lia.
    apply byte_of_Z_mod. }
  by apply H.
Qed.

Lemma be_put_get l : be_put (length l) (be_get l) = l.
Proof.
  induction l as [|b l IH]; [done|]. cbn [length be_put be_get].
  pose proof (be_get_range l).
  f_equal.
  - rewrite Z.div_add_l, Z.div_small by lia. rewrite Z.add_0_r. apply byte_of_Z_u8.
  - rewrite <- be_put_mod, Z.add_comm, Z.mod_add, Z.mod_small by lia. exact IH.
Qed.

Lemma be_get_put_id n z : 0 <= z < 256 ^ Z.of_nat n -> be_get (be_put n z) = z.
Proof. intros. rewrite be_get_put. by apply Z.mod_small. Qed.

Lemma be_put_get_len n l : length l = n -> be_put n (be_get l) = l.
Proof. intros <-. apply be_put_get. Qed.
End BigEndian.

(** ** Order on Go strings: bytewise lexicographic *)

Section StringOrder.
Local Open Scope Z_scope.

(** Go's [a < b] on strings. *)
Fixpoint bytes_ltb (a b : bytes) : bool :=
  match a, b with
  | _, [] => false
  | [], _ :: _ => true
  | x :: a', y :: b' =>
      if u8 x <? u8 y then true else if u8 y <? u8 x then false else bytes_ltb a' b'
  end.

Definition bytes_le (a b : bytes) : Prop := bytes_ltb b a = false.

#[global] Instance bytes_le_dec : RelDecision bytes_le.
Proof. intros a b. unfold bytes_le. apply _. Defined.

Lemma bytes_ltb_irrefl a : bytes_ltb a a = false.
Proof. induction a as [|x a IH]; [done|]. simpl. by rewrite Z.ltb_irrefl. Qed.

Lemma bytes_ltb_trans a b c :
  bytes_ltb a b = true -> bytes_ltb b c = true -> bytes_ltb a c = true.
Proof.
  revert b c. induction a as [|x a IH]; intros [|y b] [|z c]; simpl; try done.
  repeat (case_match; rewrite ?Z.ltb_lt, ?Z.ltb_ge in *; try done; try lia).
  eauto.
Qed.

Lemma bytes_ltb_total a b : bytes_ltb a b = true \/ a = b \/ bytes_ltb b a = true.
Proof.
  revert b. induction a as [|x a IH]; intros [|y b]; simpl; auto.
  destruct (Z.ltb_spec (u8 x) (u8 y)); [auto|].
  destruct (Z.ltb_spec (u8 y) (u8 x)); [auto|].
  assert (x = y) as -> by (apply u8_inj; lia).
  destruct (IH b) as [?|[->|?]]; auto.
Qed.

Lemma bytes_ltb_asym a b : bytes_ltb a b = true -> bytes_ltb b a = false.
Proof.
  intros H. destruct (bytes_ltb b a) eqn:E; [|done].
  pose proof (bytes_ltb_trans _ _ _ H E) as C. by rewrite bytes_ltb_irrefl in C.
Qed.

#[global] Instance bytes_le_total_order : TotalOrder bytes_le.
Proof.
  unfold bytes_le. split; [split; [split|]|].
  - intros a. apply bytes_ltb_irrefl.
  - intros a b c Hba Hcb. destruct (bytes_ltb c a) eqn:E; [|done].
    destruct (bytes_ltb_total a b) as [H|[->|H]]; [|congruence|congruence].
    pose proof (bytes_ltb_trans _ _ _ E H). congruence.
  - intros a b Hba Hab. destruct (bytes_ltb_total a b) as [|[|]]; congruence.
  - intros a b. unfold strict. destruct (bytes_ltb_total a b) as [H|[->|H]]; [left| auto | right; right];
      rewrite H, (bytes_ltb_asym _ _ H); auto.
Qed.

Lemma bytes_le_ne_ltb a b : bytes_le a b -> a <> b -> bytes_ltb a b = true.
Proof.
  unfold bytes_le. intros H Hne. destruct (bytes_ltb_total a b) as [|[|]]; congruence.
Qed.
End StringOrder.

(** [sort.Strings]. *)
Definition sort_strings (l : list bytes) : list bytes := merge_sort bytes_le l.

(** ** Loops that append to a buffer *)

Lemma foldl_bind_app {E A} (f : bytes -> A -> result E bytes) (g : A -> bytes) l buf :
  (forall x b, x ∈ l -> f b x = Ok (b ++ g x)) ->
  foldl (fun acc x => b ← acc; f b x) (Ok buf) l = Ok (buf ++ concat (g <$> l)).
Proof.
  revert buf. induction l as [|x l IH]; intros buf Hf; [by rewrite app_nil_r|].
  cbn [foldl]. cbn [mbind result_bind]. rewrite Hf by set_solver.
  rewrite IH by set_solver. cbn [fmap list_fmap concat]. by rewrite (assoc_L (++)).
Qed.

Lemma foldl_bind_ok {E A} (f : bytes -> A -> result E bytes) l r out :
  foldl (fun acc x => b ← acc; f b x) r l = Ok out ->
  (exists b, r = Ok b) /\ (forall x, x ∈ l -> exists b b', f b x = Ok b').
Proof.
  revert r. induction l as [|x l IH]; intros r H; cbn [foldl] in H.
  { split; [eauto|]. intros x Hx. by apply elem_of_nil in Hx. }
  apply IH in H as [[b' Hb'] Hl]. apply bind_ok_inv in Hb' as (b & -> & Hb).
  split; [eauto|]. intros y [->|Hy]%elem_of_cons; eauto.
Qed.

(** ** Filters that keep everything or nothing *)

Section Filters.
Context {A : Type} (P : A -> Prop) `{!forall x, Decision (P x)}.

Lemma filter_all (l : list A) : (forall x, x ∈ l -> P x) -> filter P l = l.
Proof.
  induction l as [|x l IH]; intros HP; [done|].
  rewrite filter_cons_True by (apply HP; left). f_equal. apply IH. intros y Hy. apply HP. by right.
Qed.

Lemma filter_none (l : list A) : (forall x, x ∈ l -> ~ P x) -> filter P l = [].
Proof.
  induction l as [|x l IH]; intros HP; [done|].
  rewrite filter_cons_False by (apply HP; left). apply IH. intros y Hy. apply HP. by right.
Qed.
End Filters.

(** ** Automation *)

Create HintDb stor.
Create Rewrite HintDb stor.
#[export] Hint Resolve u8_range be_get_range wrapu_range i64_range : stor.
#[export] Hint Rewrite @length_app @length_take @length_drop @length_replicate
  length_be_put @length_map : stor.

(** Invert the monadic steps of a computation known to succeed. *)
Ltac inv_ok :=
  repeat match goal with
  | H : (_ ≫= _) = Ok _ |- _ =>
      let a := fresh "a" in let E := fresh "E" in
      apply bind_ok_inv in H as (a & E & H)
  | H : guard_or _ _ = Ok _ |- _ => apply guard_or_ok in H
  | H : map_err _ _ = Ok _ |- _ => apply map_err_ok_iff in H
  | H : or_err _ _ = Ok _ |- _ => apply or_err_ok in H
  | H : Ok _ = Ok _ |- _ => injection H as H
  | H : Err _ = Ok _ |- _ => discriminate H
  | H : Ok _ = Err _ |- _ => discriminate H
  | H : mret _ = Ok _ |- _ => unfold mret, result_ret in H
  | H : (_, _) = (_, _) |- _ => injection H as H
  end.

(** Reflect the boolean tests of the code into propositions. *)
Ltac bool_prop :=
  repeat match goal with
  | H : (_ && _) = true |- _ => apply andb_true_iff in H as [? ?]
  | H : (_ || _) = false |- _ => apply orb_false_iff in H as [? ?]
  | H : negb _ = true |- _ => apply negb_true_iff in H
  | H : negb _ = false |- _ => apply negb_false_iff in H
  | H : (_ <? _)%Z = true |- _ => apply Z.ltb_lt in H
  | H : (_ <? _)%Z = false |- _ => apply Z.ltb_ge in H
  | H : (_ <=? _)%Z = true |- _ => apply Z.leb_le in H
  | H : (_ <=? _)%Z = false |- _ => apply Z.leb_gt in H
  | H : (_ =? _)%Z = true |- _ => apply Z.eqb_eq in H
  | H : (_ =? _)%Z = false |- _ => apply Z.eqb_neq in H
  | H : bool_decide _ = true |- _ => apply bool_decide_eq_true in H
  | H : bool_decide _ = false |- _ => apply bool_decide_eq_false in H
  end.

(** Lengths of byte-string expressions. *)
Ltac len_lia := autorewrite with stor in *; simpl length in *; try lia.

(** Look a literal key up in a map literal. *)
Ltac map_lookup :=
  repeat first [ rewrite lookup_insert_eq
               | rewrite lookup_insert_ne by (vm_compute; discriminate)
               | rewrite lookup_singleton_eq
               | rewrite lookup_singleton_ne by (vm_compute; discriminate)
               | rewrite lookup_empty ].

(** ** Sums over lists *)

Local Open Scope Z_scope.

Fixpoint wsum {A} (f : A -> Z) (l : list A) : Z := match l with [] => 0 | x :: l => f x + wsum f l end.

Section Sums.
Context {A : Type} (f : A -> Z).

Lemma wsum_app l1 l2 : wsum f (l1 ++ l2) = wsum f l1 + wsum f l2.
Proof. induction l1; cbn; lia. Qed.

Lemma wsum_insert l i x y : l !! i = Some x -> wsum f (<[i := y]> l) = wsum f l - f x + f y.
Proof.
  revert i. induction l as [|z l IH]; intros [|i] H; cbn in *; simplify_eq; [lia|]. rewrite IH by done. lia.
Qed.

Lemma wsum_nonneg l : (forall x, 0 <= f x) -> 0 <= wsum f l.
Proof. intros H. induction l as [|x l IH]; cbn; [done|]. specialize (H x). lia. Qed.

Lemma wsum_lookup l i x : l !! i = Some x -> (forall x, 0 <= f x) -> f x <= wsum f l.
Proof.
  revert i. induction l as [|y l IH]; intros [|i] H Hf; cbn in *; simplify_eq.
  - pose proof (wsum_nonneg l Hf). lia.
  - specialize (IH i H Hf). specialize (Hf y). lia.
Qed.

Lemma wsum_zero l : (forall x, 0 <= f x) -> wsum f l = 0 -> Forall (fun x => f x = 0) l.
Proof.
  intros H. induction l as [|x l IH]; cbn; intros E; [done|]. specialize (H x) as Hx. pose proof (wsum_nonneg l H).
  constructor; [lia|]. apply IH. lia.
Qed.
End Sums.

Lemma wsum_ext {A} (f g : A -> Z) l : Forall (fun x => f x = g x) l -> wsum f l = wsum g l.
Proof. induction 1; cbn; lia. Qed.
