(* ===== verification/Strconv.v ===== *)
(** * The parts of Go's [strconv] the program relies on

    [itoa] is [strconv.AppendInt(_, n, 10)] / [Itoa]; [parse_int64] is
    [strconv.ParseInt(s, 10, 64)] (and [Atoi], [int] being 64 bits wide): an
    optional sign, at least one digit, nothing but digits, and a value in the
    range of [int64].  Any [error] is [None]. *)

From S2P Require Import Prelude.
Local Open Scope Z_scope.

Section Digits.

Definition is_digit (b : byte) : bool := (48 <=? u8 b) && (u8 b <=? 57).
Definition digit (d : Z) : byte := byte_of_Z (48 + d).

Fixpoint digits_fuel (fuel : nat) (z : Z) : bytes :=
  match fuel with
  | O => []
  | S f => if z <? 10 then [digit z] else digits_fuel f (z / 10) ++ [digit (z mod 10)]
  end.

(** Decimal digits of [z >= 0]; [z < 2 ^ fuel] makes the fuel sufficient. *)
Definition digits (z : Z) : bytes := digits_fuel (S (Z.to_nat (Z.log2 z))) z.

Definition itoa (z : Z) : bytes :=
  if z <? 0 then x2d :: digits (- z) else digits z.

Definition digits_value (s : bytes) : Z :=
  foldl (fun acc b => acc * 10 + (u8 b - 48)) 0 s.

Definition parse_uint (s : bytes) : option Z :=
  if bool_decide (s = []) then None
  else if forallb is_digit s then Some (digits_value s) else None.

Definition parse_int64 (s : bytes) : option Z :=
  let '(neg, ds) :=
    match s with
    | c :: s' => if Byte.eqb c x2d then (true, s')
                 else if Byte.eqb c x2b then (false, s') else (false, s)
    | [] => (false, [])
    end in
  n ← parse_uint ds;
  let v := if neg : bool then - n else n in
  if (MinInt64 <=? v) && (v <=? MaxInt64) then Some v else None.
End Digits.

Section DigitsFacts.

Lemma byte_eqb_true a b : Byte.eqb a b = true <-> a = b.
Proof. split; [apply Byte.byte_dec_bl | apply Byte.byte_dec_lb]. Qed.

Lemma byte_eqb_false a b : Byte.eqb a b = false <-> a <> b.
Proof.
  rewrite <- byte_eqb_true. destruct (Byte.eqb a b); split; congruence.
Qed.

Lemma u8_digit d : 0 <= d < 10 -> u8 (digit d) = 48 + d.
Proof. intros. unfold digit. rewrite u8_byte_of_Z. apply Z.mod_small. lia. Qed.

Lemma is_digit_digit d : 0 <= d < 10 -> is_digit (digit d) = true.
Proof. intros. unfold is_digit. rewrite u8_digit by lia. lia. Qed.

Lemma digits_value_app s1 s2 :
  digits_value (s1 ++ s2) = digits_value s1 * 10 ^ len s2 + digits_value s2.
Proof.
  unfold digits_value. rewrite foldl_app. generalize (foldl (fun acc b => acc * 10 + (u8 b - 48)) 0 s1).
  induction s2 as [|b s2 IH] using rev_ind; intros a; [simpl; lia|].
  rewrite !foldl_app; simpl. rewrite (IH a), length_app.
  replace (Z.of_nat (length s2 + length [b])) with (Z.succ (len s2)) by (simpl; lia).
  rewrite Z.pow_succ_r by lia. lia.
Qed.

Lemma digits_fuel_spec fuel z :
  0 <= z < 2 ^ Z.of_nat fuel ->
  fuel <> O ->
  digits_value (digits_fuel fuel z) = z /\
  forallb is_digit (digits_fuel fuel z) = true /\
  digits_fuel fuel z <> [].
Proof.
  revert z. induction fuel as [|f IH]; intros z Hz Hf; [done|].
  cbn [digits_fuel]. destruct (Z.ltb_spec z 10).
  - cbn [forallb]. rewrite is_digit_digit by lia.
    unfold digits_value; simpl. rewrite u8_digit by lia. split_and!; [lia|done|done].
  - assert (f <> O) by (intros ->; simpl in Hz; lia).
    rewrite Nat2Z.inj_succ, Z.pow_succ_r in Hz by lia.
    assert (0 < 2 ^ Z.of_nat f) by lia. pose proof (Z.mod_pos_bound z 10 ltac:(lia)).
    destruct (IH (z / 10)) as (Hv & Hd & Hne); [|done|].
    { split; [apply Z.div_pos; lia|].
      apply Z.div_lt_upper_bound; lia. }
    rewrite digits_value_app, Hv, forallb_app, Hd. cbn [forallb].
    rewrite is_digit_digit by lia. unfold digits_value; simpl. rewrite u8_digit by lia.
    split_and!; [|done|by destruct (digits_fuel f (z / 10))].
    change (10 ^ 1) with 10. pose proof (Z.div_mod z 10). lia.
Qed.

Lemma digits_spec z :
  0 <= z ->
  digits_value (digits z) = z /\ forallb is_digit (digits z) = true /\ digits z <> [].
Proof.
  intros Hz. apply digits_fuel_spec; [|done]. split; [done|].
  rewrite Nat2Z.inj_succ, Z2Nat.id by apply Z.log2_nonneg.
  destruct (Z.eq_dec z 0) as [->|]; [done|]. apply Z.log2_spec. lia.
Qed.

Lemma parse_uint_digits z : 0 <= z -> parse_uint (digits z) = Some z.
Proof.
  intros Hz. unfold parse_uint. destruct (digits_spec z Hz) as (Hv & Hd & Hne).
  rewrite bool_decide_eq_false_2, Hd, Hv by done. done.
Qed.

(** A decimal numeral has no leading zero unless it is ["0"]. *)
Lemma digits_fuel_head fuel z :
  0 < z < 2 ^ Z.of_nat fuel ->
  exists b s, digits_fuel fuel z = b :: s /\ is_digit b = true /\ b <> x30.
Proof.
  revert z. induction fuel as [|f IH]; intros z Hz; [simpl in Hz; lia|].
  cbn [digits_fuel]. destruct (Z.ltb_spec z 10).
  - exists (digit z), []. split_and!; [done|apply is_digit_digit; lia|].
    intros E. apply (f_equal u8) in E. rewrite u8_digit in E by lia.
    change (u8 x30) with 48 in E. lia.
  - rewrite Nat2Z.inj_succ, Z.pow_succ_r in Hz by lia.
    assert (0 < 2 ^ Z.of_nat f) by lia.
    destruct (IH (z / 10)) as (b & s & -> & ? & ?).
    { split; [apply Z.div_str_pos; lia | apply Z.div_lt_upper_bound; lia]. }
    eexists b, _; simpl; eauto.
Qed.

Lemma digits_head z :
  0 < z -> exists b s, digits z = b :: s /\ is_digit b = true /\ b <> x30.
Proof.
  intros Hz. apply digits_fuel_head. split; [done|].
  rewrite Nat2Z.inj_succ, Z2Nat.id by apply Z.log2_nonneg.
  apply Z.log2_spec. lia.
Qed.

Lemma digits_zero : digits 0 = [x30].
Proof. reflexivity. Qed.

Lemma is_digit_not_sign b : is_digit b = true -> b <> x2d /\ b <> x2b.
Proof. intros H. split; intros ->; vm_compute in H; discriminate. Qed.

Lemma forallb_digit_cons b s :
  forallb is_digit (b :: s) = true -> is_digit b = true /\ forallb is_digit s = true.
Proof. intros H. apply andb_true_iff in H. done. Qed.

Lemma digits_cons z : 0 <= z -> exists b s, digits z = b :: s /\ is_digit b = true.
Proof.
  intros Hz. destruct (digits_spec z Hz) as (_ & Hd & Hne).
  destruct (digits z) as [|b s]; [done|]. apply forallb_digit_cons in Hd as [? _]. eauto.
Qed.

(** ParseInt reads back what AppendInt wrote. *)
Lemma parse_int64_itoa z : in_i64 z -> parse_int64 (itoa z) = Some z.
Proof.
  unfold in_i64, itoa. intros Hz. destruct (Z.ltb_spec z 0) as [Hneg|Hpos].
  - unfold parse_int64. rewrite (proj2 (byte_eqb_true x2d x2d)) by done.
    rewrite parse_uint_digits by lia. cbn [mbind option_bind].
    rewrite Z.opp_involutive. case_match; [done|lia].
  - destruct (digits_cons z Hpos) as (b & s & E & Hb).
    destruct (is_digit_not_sign b Hb) as [H1 H2].
    unfold parse_int64. pose proof (parse_uint_digits z Hpos) as Hp. rewrite E in Hp |- *.
    rewrite (proj2 (byte_eqb_false b x2d)), (proj2 (byte_eqb_false b x2b)) by done.
    rewrite Hp. cbn [mbind option_bind]. case_match; [done|lia].
Qed.

Lemma parse_int64_range s z : parse_int64 s = Some z -> in_i64 z.
Proof.
  unfold parse_int64, in_i64. intros H.
  destruct (match s with [] => _ | _ => _ end) as [neg ds].
  destruct (parse_uint ds) as [n|]; [|done]. cbn [mbind option_bind] in H.
  case_match; [simplify_eq; lia|done].
Qed.
End DigitsFacts.
