(* ===== verification/Net.v ===== *)
(** * The parts of Go's [net] package the program relies on

    [net.IP] is a byte slice; [To4] and [To16] recognise the 4-byte form, the
    16-byte form and the IPv4-mapped 16-byte form.  [String] is the textual form
    used as a key: dotted decimal for IPv4, RFC 5952 for IPv6. *)

From S2P Require Import Prelude Strconv.
Set Warnings "-clear-no-such-hyp".
Local Open Scope Z_scope.

Abbreviation IP := bytes.

Definition v4InV6Prefix : bytes := replicate 10 x00 ++ [xff; xff].

Definition To4 (ip : IP) : option IP :=
  if len ip =? 4 then Some ip
  else if (len ip =? 16) && bool_decide (take 12 ip = v4InV6Prefix) then Some (drop 12 ip)
  else None.

Definition To16 (ip : IP) : option IP :=
  if len ip =? 4 then Some (v4InV6Prefix ++ ip)
  else if len ip =? 16 then Some ip
  else None.

(** ** Textual form *)

Definition hex_digit (d : Z) : byte := if d <? 10 then byte_of_Z (48 + d) else byte_of_Z (87 + d).

Fixpoint strip_zeros (ds : list Z) : list Z :=
  match ds with
  | d :: ((_ :: _) as ds') => if d =? 0 then strip_zeros ds' else ds
  | _ => ds
  end.

(** A 16-bit group without leading zeros. *)
Definition hex_group (z : Z) : bytes :=
  hex_digit <$> strip_zeros [z / 4096 mod 16; z / 256 mod 16; z / 16 mod 16; z mod 16].

Fixpoint groups (ip : IP) : list Z :=
  match ip with a :: b :: ip => (u8 a * 256 + u8 b) :: groups ip | _ => [] end.

(** Length of the run of zero groups at the head. *)
Fixpoint zero_run (gs : list Z) : nat :=
  match gs with g :: gs => if g =? 0 then S (zero_run gs) else 0%nat | [] => 0%nat end.

(** Start and length of the first longest run of zero groups. *)
Fixpoint longest_run (gs : list Z) (i : nat) : nat * nat :=
  match gs with
  | [] => (i, 0%nat)
  | _ :: gs' =>
      let '(s, n) := longest_run gs' (S i) in
      if (n <=? zero_run gs)%nat then (i, zero_run gs) else (s, n)
  end.

Fixpoint join_with (c : bytes) (ss : list bytes) : bytes :=
  match ss with [] => [] | [s] => s | s :: ss => s ++ c ++ join_with c ss end.

Definition ipv6_string (ip : IP) : bytes :=
  let gs := groups ip in
  let '(s, n) := longest_run gs 0 in
  let str l := join_with (lit ":") (hex_group <$> l) in
  if (2 <=? n)%nat then str (take s gs) ++ lit "::" ++ str (drop (s + n) gs) else str gs.

Definition ipv4_string (ip : IP) : bytes := join_with (lit ".") (itoa <$> (u8 <$> ip)).

Definition ip_String (ip : IP) : bytes :=
  match To4 ip with
  | Some ip4 => ipv4_string ip4
  | None => if len ip =? 16 then ipv6_string ip else lit "?"
  end.

Lemma To4_length ip ip4 : To4 ip = Some ip4 -> length ip4 = 4%nat.
Proof.
  unfold To4. destruct (Z.eqb_spec (len ip) 4); [intros [= <-]; lia|].
  destruct (Z.eqb_spec (len ip) 16); simpl; [|done]. case_bool_decide; [|done].
  intros [= <-]. rewrite length_drop. lia.
Qed.

Lemma To4_4 ip : length ip = 4%nat -> To4 ip = Some ip.
Proof. intros H. unfold To4. by rewrite (proj2 (Z.eqb_eq _ _)) by lia. Qed.

Lemma To16_length ip ip16 : To16 ip = Some ip16 -> length ip16 = 16%nat.
Proof.
  unfold To16. destruct (Z.eqb_spec (len ip) 4).
  - intros [= <-]. simpl length. lia.
  - destruct (Z.eqb_spec (len ip) 16); [|done]. intros [= <-]. lia.
Qed.

Lemma To16_16 ip : length ip = 16%nat -> To16 ip = Some ip.
Proof.
  intros H. unfold To16. rewrite (proj2 (Z.eqb_neq _ 4)), (proj2 (Z.eqb_eq _ 16)) by lia. done.
Qed.

(** ** Fixed-size records *)

(** [n] records of [k] bytes each. *)
Fixpoint chunks (k n : nat) (data : bytes) : list bytes :=
  match n with O => [] | S n => take k data :: chunks k n (drop k data) end.

Lemma chunks_concat k (rs : list bytes) :
  Forall (fun r => length r = k) rs -> chunks k (length rs) (concat rs) = rs.
Proof.
  induction 1 as [|r rs Hr Hrs IH]; [done|]. cbn [length concat chunks].
  rewrite take_app_length', drop_app_length' by done. by rewrite IH.
Qed.

Lemma concat_length_k k (rs : list bytes) :
  Forall (fun r => length r = k) rs -> length (concat rs) = (k * length rs)%nat.
Proof.
  induction 1 as [|r rs Hr Hrs IH]; simpl; [lia|]. rewrite length_app, IH, Hr. lia.
Qed.

Lemma chunks_length k n data : length (chunks k n data) = n.
Proof. revert data. induction n; intros; simpl; auto. Qed.

Lemma chunks_lookup k n data i r :
  chunks k n data !! i = Some r ->
  (i < n)%nat /\ r = slice data (Z.of_nat k * Z.of_nat i) (Z.of_nat k * Z.of_nat i + Z.of_nat k).
Proof.
  revert data i. induction n as [|n IH]; intros data i; [done|]. destruct i as [|i]; cbn.
  - intros [= <-]. split; [lia|]. unfold slice.
    replace (Z.to_nat (Z.of_nat k * Z.of_nat 0)) with 0%nat by lia.
    rewrite drop_0. f_equal. lia.
  - intros [Hi ->]%IH. split; [lia|]. unfold slice. rewrite drop_drop. f_equal; [lia|]. f_equal. lia.
Qed.
