(* ===== verification/Quote.v ===== *)
(** * Quoted strings: the parts of Go's [unicode/utf8] and [strconv] used by the daemon

    Decoding and encoding of UTF-8, [strconv.Quote] (the verb [%q]) and
    [strconv.Unquote] for double quotes.  Which characters above U+00FF are printable is a
    parameter: the round trip holds whatever the tables say. *)

From S2P Require Import Prelude Strconv Net.
Set Warnings "-clear-no-such-hyp".
Local Open Scope Z_scope.

(** ** UTF-8 *)

Definition RuneError : Z := 0xFFFD.
Definition MaxRune : Z := 0x10FFFF.
Definition ValidRune (r : Z) : bool := ((0 <=? r) && (r <? 0xD800)) || ((0xDFFF <? r) && (r <=? MaxRune)).

Definition between (lo hi : Z) (b : byte) : bool := (lo <=? u8 b) && (u8 b <=? hi).
Definition low (b : byte) : Z := u8 b - 0x80.

(** [utf8.DecodeRuneInString]: the rune and its width; [RuneError] of width 1 is an invalid byte. *)
Definition DecodeRune (s : bytes) : Z * nat :=
  match s with
  | [] => (RuneError, 0%nat)
  | b0 :: s1 =>
      let c := u8 b0 in
      if c <? 0x80 then (c, 1%nat)
      else if (0xC2 <=? c) && (c <=? 0xDF) then
        match s1 with
        | b1 :: _ => if between 0x80 0xBF b1 then ((c - 0xC0) * 64 + low b1, 2%nat) else (RuneError, 1%nat)
        | _ => (RuneError, 1%nat)
        end
      else if (0xE0 <=? c) && (c <=? 0xEF) then
        match s1 with
        | b1 :: b2 :: _ =>
            if between (if c =? 0xE0 then 0xA0 else 0x80) (if c =? 0xED then 0x9F else 0xBF) b1 && between 0x80 0xBF b2
            then ((c - 0xE0) * 4096 + low b1 * 64 + low b2, 3%nat) else (RuneError, 1%nat)
        | _ => (RuneError, 1%nat)
        end
      else if (0xF0 <=? c) && (c <=? 0xF4) then
        match s1 with
        | b1 :: b2 :: b3 :: _ =>
            if between (if c =? 0xF0 then 0x90 else 0x80) (if c =? 0xF4 then 0x8F else 0xBF) b1 &&
               between 0x80 0xBF b2 && between 0x80 0xBF b3
            then ((c - 0xF0) * 262144 + low b1 * 4096 + low b2 * 64 + low b3, 4%nat) else (RuneError, 1%nat)
        | _ => (RuneError, 1%nat)
        end
      else (RuneError, 1%nat)
  end.

(** [utf8.AppendRune] of a valid rune. *)
Definition AppendRune (r : Z) : bytes :=
  if r <? 0x80 then [byte_of_Z r]
  else if r <? 0x800 then [byte_of_Z (0xC0 + r / 64); byte_of_Z (0x80 + r mod 64)]
  else if r <? 0x10000 then [byte_of_Z (0xE0 + r / 4096); byte_of_Z (0x80 + r / 64 mod 64); byte_of_Z (0x80 + r mod 64)]
  else [byte_of_Z (0xF0 + r / 262144); byte_of_Z (0x80 + r / 4096 mod 64); byte_of_Z (0x80 + r / 64 mod 64); byte_of_Z (0x80 + r mod 64)].

(** ** Strings in JSON

    [encoding/json] writes a string so that it is read back, except that an invalid byte is written as U+FFFD. *)

Fixpoint valid_runes (fuel : nat) (s : bytes) : bytes :=
  match fuel, s with
  | S fuel, _ :: _ =>
      let '(r, w) := DecodeRune s in
      (if bool_decide (w = 1%nat) && (r =? RuneError) then AppendRune RuneError else take w s) ++ valid_runes fuel (drop w s)
  | _, _ => []
  end.
Definition json_string (s : bytes) : bytes := valid_runes (length s) s.

(** [utf8.ValidString]. *)
Fixpoint all_valid (fuel : nat) (s : bytes) : bool :=
  match fuel, s with
  | S fuel, _ :: _ =>
      let '(r, w) := DecodeRune s in negb (bool_decide (w = 1%nat) && (r =? RuneError)) && all_valid fuel (drop w s)
  | _, _ => true
  end.
Definition ValidString (s : bytes) : bool := all_valid (length s) s.

(** ** [strconv.Quote] *)

Fixpoint hex_digits (n : nat) (r : Z) : bytes :=
  match n with O => [] | S n => hex_digits n (r / 16) ++ [hex_digit (r mod 16)] end.

Definition short_escapes : list (Z * byte) := [(7, x61); (8, x62); (12, x66); (10, x6e); (13, x72); (9, x74); (11, x76)].

Section Quote.
Context (print_above : Z -> bool).

Definition IsPrint (r : Z) : bool :=
  if r <=? 0xFF then ((0x20 <=? r) && (r <? 0x7F)) || ((0xA1 <=? r) && negb (r =? 0xAD)) else print_above r.

Definition appendEscapedRune (r : Z) : bytes :=
  if (r =? 34) || (r =? 92) then [x5c; byte_of_Z r]
  else if IsPrint r then AppendRune r
  else match list_find (fun e => e.1 = r) short_escapes with
       | Some (_, (_, c)) => [x5c; c]
       | None => if (r <? 0x20) || (r =? 0x7F) then x5c :: x78 :: hex_digits 2 r
                 else if r <? 0x10000 then x5c :: x75 :: hex_digits 4 r else x5c :: x55 :: hex_digits 8 r
       end.

Definition quote_rune (s : bytes) (b : byte) : bytes :=
  let '(r, w) := DecodeRune s in
  if bool_decide (w = 1%nat) && (r =? RuneError) then x5c :: x78 :: hex_digits 2 (u8 b) else appendEscapedRune r.

(** Every round takes at least one byte. *)
Fixpoint quote_body (fuel : nat) (s : bytes) : bytes :=
  match fuel, s with
  | S fuel, b :: _ => quote_rune s b ++ quote_body fuel (drop (DecodeRune s).2 s)
  | _, _ => []
  end.

Definition Quote (s : bytes) : bytes := x22 :: quote_body (length s) s ++ [x22].
End Quote.

(** ** [strconv.Unquote] of a string that starts with a double quote *)

Definition unhex (b : byte) : option Z :=
  let c := u8 b in
  if (48 <=? c) && (c <=? 57) then Some (c - 48)
  else if (97 <=? c) && (c <=? 102) then Some (c - 87)
  else if (65 <=? c) && (c <=? 70) then Some (c - 55) else None.

Definition add_hex (v : option Z) (b : byte) : option Z := v ← v; x ← unhex b; Some (v * 16 + x).
Definition hex_value (s : bytes) : option Z := foldl add_hex (Some 0) s.

Definition hex_escape (n : nat) (s : bytes) : option (Z * bytes) :=
  if bool_decide (length s < n)%nat then None else v ← hex_value (take n s); Some (v, drop n s).

Definition octal (b : byte) : option Z := if between 48 55 b then Some (u8 b - 48) else None.

(** The rune, whether it was given as more than a byte, and the rest. *)
Definition UnquoteChar (s : bytes) : option (Z * bool * bytes) :=
  match s with
  | [] => None
  | c :: s' =>
      if Byte.eqb c x22 then None
      else if 0x80 <=? u8 c then let '(r, w) := DecodeRune s in Some (r, true, drop w s)
      else if negb (Byte.eqb c x5c) then Some (u8 c, false, s')
      else match s' with
           | [] => None
           | e :: s'' =>
               if Byte.eqb e x78 then '(v, t) ← hex_escape 2 s''; Some (v, false, t)
               else if Byte.eqb e x75 then '(v, t) ← hex_escape 4 s''; if ValidRune v then Some (v, true, t) else None
               else if Byte.eqb e x55 then '(v, t) ← hex_escape 8 s''; if ValidRune v then Some (v, true, t) else None
               else if Byte.eqb e x5c || Byte.eqb e x22 then Some (u8 e, false, s'')
               else match list_find (fun p => p.2 = e) short_escapes with
                    | Some (_, (r, _)) => Some (r, false, s'')
                    | None =>
                        match octal e, s'' with
                        | Some a, b :: c :: t =>
                            b ← octal b; c ← octal c; let v := a * 64 + b * 8 + c in if 255 <? v then None else Some (v, false, t)
                        | _, _ => None
                        end
                    end
           end
  end.

Fixpoint unquote_body (fuel : nat) (s : bytes) : option bytes :=
  match fuel, s with
  | S fuel, c :: rest =>
      if Byte.eqb c x22 then if bool_decide (rest = []) then Some [] else None
      else if Byte.eqb c x0a then None
      else '(r, multibyte, rem) ← UnquoteChar s;
           out ← unquote_body fuel rem;
           Some ((if (r <? 0x80) || negb multibyte then [byte_of_Z r] else AppendRune r) ++ out)
  | _, _ => None
  end.

Definition Unquote (s : bytes) : option bytes :=
  match s with c :: rest => if Byte.eqb c x22 then unquote_body (length rest) rest else None | [] => None end.

(** ** Facts *)

Ltac split_if :=
  match goal with
  | |- context [if ?b then _ else _] => destruct b eqn:?
  end.

Ltac to_arith :=
  rewrite ?andb_true_iff, ?orb_true_iff, ?andb_false_iff, ?orb_false_iff, ?negb_true_iff, ?negb_false_iff,
    ?Z.leb_le, ?Z.leb_gt, ?Z.ltb_lt, ?Z.ltb_ge, ?Z.eqb_eq, ?Z.eqb_neq in *.

Lemma byte_of_Z_is b z : z = u8 b -> byte_of_Z z = b.
Proof. intros ->. apply byte_of_Z_u8. Qed.

Ltac div_lia := Z.to_euclidean_division_equations; lia.
Ltac ltb_true := rewrite (proj2 (Z.ltb_lt _ _)) by div_lia.
Ltac ltb_false := rewrite (proj2 (Z.ltb_ge _ _)) by div_lia.

Lemma AppendRune_two c x : 0xC2 <= c <= 0xDF -> 0x80 <= x <= 0xBF ->
  let r := (c - 0xC0) * 64 + (x - 0x80) in ValidRune r = true /\ AppendRune r = [byte_of_Z c; byte_of_Z x].
Proof.
  intros Hc Hx r. subst r. split; [unfold ValidRune, MaxRune; to_arith; lia|].
  unfold AppendRune. ltb_false. ltb_true. repeat f_equal; div_lia.
Qed.

Lemma AppendRune_three c x y : 0xE0 <= c <= 0xEF -> (if c =? 0xE0 then 0xA0 else 0x80) <= x <= (if c =? 0xED then 0x9F else 0xBF) ->
  0x80 <= y <= 0xBF ->
  let r := (c - 0xE0) * 4096 + (x - 0x80) * 64 + (y - 0x80) in
  ValidRune r = true /\ AppendRune r = [byte_of_Z c; byte_of_Z x; byte_of_Z y].
Proof.
  intros Hc Hx Hy r. subst r. destruct (Z.eqb_spec c 0xE0), (Z.eqb_spec c 0xED); try lia;
  (split; [unfold ValidRune, MaxRune; to_arith; lia|]); unfold AppendRune; do 2 ltb_false; ltb_true; repeat f_equal; div_lia.
Qed.

Lemma AppendRune_four c x y z : 0xF0 <= c <= 0xF4 -> (if c =? 0xF0 then 0x90 else 0x80) <= x <= (if c =? 0xF4 then 0x8F else 0xBF) ->
  0x80 <= y <= 0xBF -> 0x80 <= z <= 0xBF ->
  let r := (c - 0xF0) * 262144 + (x - 0x80) * 4096 + (y - 0x80) * 64 + (z - 0x80) in
  ValidRune r = true /\ AppendRune r = [byte_of_Z c; byte_of_Z x; byte_of_Z y; byte_of_Z z].
Proof.
  intros Hc Hx Hy Hz r. subst r. destruct (Z.eqb_spec c 0xF0), (Z.eqb_spec c 0xF4); try lia;
  (split; [unfold ValidRune, MaxRune; to_arith; lia|]); unfold AppendRune; do 3 ltb_false; repeat f_equal; div_lia.
Qed.

(** What decoding says of the bytes it read. *)
Definition decoded (s : bytes) (b : byte) (r : Z) (w : nat) : Prop :=
  (w = 1%nat /\ r = RuneError /\ 0x80 <= u8 b) \/
  (ValidRune r = true /\ AppendRune r = take w s /\ (0 < w <= length s)%nat /\ (0x80 <= u8 b -> (1 < w)%nat)).

Lemma DecodeRune_sound b t : decoded (b :: t) b (DecodeRune (b :: t)).1 (DecodeRune (b :: t)).2.
Proof.
  pose proof (u8_range b) as Hb. unfold DecodeRune, between, low.
  destruct (Z.ltb_spec (u8 b) 0x80) as [Hlt|Hge].
  { right. cbn [fst snd]. unfold ValidRune, AppendRune. rewrite (proj2 (Z.ltb_lt (u8 b) 0x80)) by lia.
    split_and!; [to_arith; lia|cbn [take]; by rewrite byte_of_Z_u8|cbn; lia|cbn; lia|lia]. }
  assert (Hbad : decoded (b :: t) b (RuneError, 1%nat).1 (RuneError, 1%nat).2) by (left; split_and!; [done..|lia]).
  destruct ((0xC2 <=? u8 b) && (u8 b <=? 0xDF)) eqn:E2; [|destruct ((0xE0 <=? u8 b) && (u8 b <=? 0xEF)) eqn:E3;
    [|destruct ((0xF0 <=? u8 b) && (u8 b <=? 0xF4)) eqn:E4; [|exact Hbad]]].
  - destruct t as [|b1 t]; [exact Hbad|]. split_if; [|exact Hbad]. to_arith. right. cbn [fst snd].
    destruct (AppendRune_two (u8 b) (u8 b1)) as [Hv Ha]; [lia..|]. rewrite !byte_of_Z_u8 in Ha.
    split_and!; [exact Hv|exact Ha|cbn; lia|cbn; lia|lia].
  - destruct t as [|b1 [|b2 t]]; [exact Hbad..|]. match goal with |- context [if ?x && ?y then _ else _] => destruct (x && y) eqn:E end; [|exact Hbad]. to_arith. destruct E as [[]]. right. cbn [fst snd].
    destruct (AppendRune_three (u8 b) (u8 b1) (u8 b2)) as [Hv Ha]; [lia|done|lia|]. rewrite !byte_of_Z_u8 in Ha.
    split_and!; [exact Hv|exact Ha|cbn; lia|cbn; lia|lia].
  - destruct t as [|b1 [|b2 [|b3 t]]]; [exact Hbad..|]. match goal with |- context [if ?x && ?y then _ else _] => destruct (x && y) eqn:E end; [|exact Hbad]. to_arith. destruct E as [[[] ?]]. right. cbn [fst snd].
    destruct (AppendRune_four (u8 b) (u8 b1) (u8 b2) (u8 b3)) as [Hv Ha]; [lia|done|lia..|]. rewrite !byte_of_Z_u8 in Ha.
    split_and!; [exact Hv|exact Ha|cbn; lia|cbn; lia|lia].
Qed.

Lemma u8_byte z : 0 <= z < 256 -> u8 (byte_of_Z z) = z.
Proof. intros. rewrite u8_byte_of_Z. by apply Z.mod_small. Qed.

(** Decoding reads back a valid rune, whatever follows. *)
Lemma DecodeRune_append r s : ValidRune r = true -> DecodeRune (AppendRune r ++ s) = (r, length (AppendRune r)).
Proof.
  intros Hv. unfold ValidRune, MaxRune in Hv. to_arith.
  unfold AppendRune. destruct (Z.ltb_spec r 0x80); [|destruct (Z.ltb_spec r 0x800); [|destruct (Z.ltb_spec r 0x10000)]];
  cbn [app length]; unfold DecodeRune, between, low; rewrite !u8_byte by div_lia.
  - by ltb_true.
  - ltb_false. rewrite !(proj2 (Z.leb_le _ _)) by div_lia. cbn [andb]. f_equal. div_lia.
  - ltb_false. rewrite (proj2 (Z.leb_gt _ 0xDF)) by div_lia. rewrite andb_false_r.
    rewrite (proj2 (Z.leb_le 0xE0 _)), (proj2 (Z.leb_le _ 0xEF)) by div_lia. cbn [andb].
    destruct (Z.eqb_spec (0xE0 + r / 4096) 0xE0), (Z.eqb_spec (0xE0 + r / 4096) 0xED); try lia;
    rewrite !(proj2 (Z.leb_le _ _)) by div_lia; cbn [andb]; f_equal; div_lia.
  - ltb_false. rewrite (proj2 (Z.leb_gt _ 0xDF)), (proj2 (Z.leb_gt _ 0xEF)) by div_lia. rewrite !andb_false_r.
    rewrite (proj2 (Z.leb_le 0xF0 _)), (proj2 (Z.leb_le _ 0xF4)) by div_lia. cbn [andb].
    destruct (Z.eqb_spec (0xF0 + r / 262144) 0xF0), (Z.eqb_spec (0xF0 + r / 262144) 0xF4); try lia;
    rewrite !(proj2 (Z.leb_le _ _)) by div_lia; cbn [andb]; f_equal; div_lia.
Qed.

(** *** Quoting *)

Lemma length_hex_digits n : forall r, length (hex_digits n r) = n.
Proof. induction n as [|n IH]; intros r; [done|]. cbn [hex_digits]. rewrite length_app, IH. cbn [length]. lia. Qed.

Lemma unhex_digit d : 0 <= d < 16 -> unhex (hex_digit d) = Some d.
Proof.
  intros Hd. assert (H : Forall (fun d => unhex (hex_digit d) = Some d) (seqZ 0 16)) by (repeat constructor).
  rewrite Forall_forall in H. apply H, elem_of_seqZ. lia.
Qed.

Lemma hex_digits_value n : forall r v, foldl add_hex (Some v) (hex_digits n r) = Some (v * 16 ^ Z.of_nat n + r mod 16 ^ Z.of_nat n).
Proof.
  induction n as [|n IH]; intros r v; cbn [hex_digits foldl].
  - rewrite Z.mod_1_r. f_equal. lia.
  - rewrite foldl_app, IH. cbn [foldl add_hex mbind option_bind]. rewrite unhex_digit by (apply Z.mod_pos_bound; lia).
    cbn [mbind option_bind]. f_equal. rewrite Nat2Z.inj_succ, Z.pow_succ_r by lia.
    rewrite (Z.rem_mul_r r 16) by lia. lia.
Qed.

Lemma hex_escape_digits n r s : 0 <= r < 16 ^ Z.of_nat n -> hex_escape n (hex_digits n r ++ s) = Some (r, s).
Proof.
  intros Hr. unfold hex_escape. rewrite bool_decide_false by (rewrite length_app, length_hex_digits; lia).
  rewrite take_app_length', drop_app_length' by (symmetry; apply length_hex_digits). unfold hex_value. rewrite hex_digits_value.
  cbn [mbind option_bind]. rewrite Z.mod_small by done. by f_equal.
Qed.

Lemma AppendRune_head r : ValidRune r = true -> 0x80 <= r -> exists b t, AppendRune r = b :: t /\ 0x80 <= u8 b.
Proof.
  intros Hv Hr. unfold ValidRune, MaxRune in Hv. to_arith. unfold AppendRune. ltb_false.
  destruct (Z.ltb_spec r 0x800); [|destruct (Z.ltb_spec r 0x10000)]; eexists _, _; (split; [done|]); rewrite u8_byte; div_lia.
Qed.

Lemma byte_eqb_ne a b : u8 a <> u8 b -> Byte.eqb a b = false.
Proof. intros H. apply byte_eqb_false. by intros ->. Qed.

Section QuoteFacts.
Context (print_above : Z -> bool).
Local Abbreviation appendEscapedRune := (appendEscapedRune print_above).
Local Abbreviation quote_rune := (quote_rune print_above).
Local Abbreviation quote_body := (quote_body print_above).

(** One step of [unquote_body] undoes one escape. *)
Definition undone (chunk out : bytes) : Prop := forall fuel s,
  unquote_body (S fuel) (chunk ++ s) = (out ++.) <$> unquote_body fuel s.

Lemma undone_hex c n r (out : bytes) : (c = x78 /\ n = 2%nat /\ out = [byte_of_Z r]) \/
    ((c = x75 /\ n = 4%nat \/ c = x55 /\ n = 8%nat) /\ ValidRune r = true /\ out = AppendRune r) ->
  0 <= r < 16 ^ Z.of_nat n -> undone (x5c :: c :: hex_digits n r) out.
Proof.
  intros Hc Hr fuel s. cbn [app unquote_body].
  assert (HU : UnquoteChar (x5c :: c :: hex_digits n r ++ s) = Some (r, negb (Byte.eqb c x78), s)).
  { unfold UnquoteChar. destruct Hc as [(-> & -> & _)|[[[-> ->]|[-> ->]] [Hv _]]];
      cbn -[hex_escape hex_digits]; rewrite hex_escape_digits by done; cbn [mbind option_bind]; by rewrite ?Hv. }
  rewrite HU. cbn [Byte.eqb]. cbn [mbind option_bind].
  destruct Hc as [(-> & -> & ->)|[Hc [Hv ->]]].
  - cbn [negb]. rewrite orb_true_r. by destruct (unquote_body fuel s).
  - assert (E : (if (r <? 128) || negb (negb (Byte.eqb c x78)) then [byte_of_Z r] else AppendRune r) = AppendRune r).
    { unfold AppendRune. destruct (r <? 0x80) eqn:E; [done|]. by destruct Hc as [[-> _]|[-> _]]. }
    rewrite E. by destruct (unquote_body fuel s).
Qed.

Lemma undone_byte c : u8 c < 0x80 -> c <> x22 -> c <> x0a -> c <> x5c -> undone [c] [c].
Proof.
  intros Hc Hq Hn Hb fuel s. cbn [app unquote_body UnquoteChar].
  rewrite (proj2 (byte_eqb_false c x22)), (proj2 (byte_eqb_false c x0a)), (proj2 (byte_eqb_false c x5c)) by done.
  rewrite (proj2 (Z.leb_gt _ _)) by lia. cbn [negb mbind option_bind]. rewrite (proj2 (Z.ltb_lt _ _)) by lia.
  cbn [orb]. rewrite byte_of_Z_u8. by destruct (unquote_body fuel s).
Qed.

Lemma undone_rune r : ValidRune r = true -> 0x80 <= r -> undone (AppendRune r) (AppendRune r).
Proof.
  intros Hv Hr fuel s. destruct (AppendRune_head r Hv Hr) as (b & t & E & Hb).
  pose proof (DecodeRune_append r s Hv) as Hd.
  assert (HU : UnquoteChar (AppendRune r ++ s) = Some (r, true, s)).
  { rewrite E in *. cbn [app] in *. unfold UnquoteChar. rewrite byte_eqb_ne by (change (u8 x22) with 34; lia).
    rewrite (proj2 (Z.leb_le _ _)) by done. rewrite Hd. do 2 f_equal. change (b :: t ++ s) with ((b :: t) ++ s). apply drop_app_length. }
  rewrite E at 1. cbn [app unquote_body]. change (b :: t ++ s) with ((b :: t) ++ s). rewrite <- E, HU.
  rewrite !byte_eqb_ne by (change (u8 x22) with 34; change (u8 x0a) with 10; lia). cbn [mbind option_bind].
  rewrite (proj2 (Z.ltb_ge _ _)) by done. cbn [orb negb]. by destruct (unquote_body fuel s).
Qed.

Lemma undone_pair c r : (forall s, UnquoteChar (x5c :: c :: s) = Some (r, false, s)) -> undone [x5c; c] [byte_of_Z r].
Proof.
  intros H fuel s. cbn [app unquote_body]. rewrite H. cbn [Byte.eqb mbind option_bind negb]. rewrite orb_true_r.
  by destruct (unquote_body fuel s).
Qed.

Lemma undone_short i r c : short_escapes !! i = Some (r, c) -> undone [x5c; c] [byte_of_Z r].
Proof.
  intros H. apply undone_pair. intros s. unfold short_escapes in H.
  do 7 (destruct i as [|i]; [injection H as <- <-; reflexivity|]). done.
Qed.

Lemma undone_escaped r : ValidRune r = true -> undone (appendEscapedRune r) (AppendRune r).
Proof.
  intros Hv. assert (Hr : 0 <= r <= MaxRune) by (unfold ValidRune, MaxRune in *; to_arith; lia). unfold MaxRune in Hr.
  assert (Hsmall : r < 0x80 -> AppendRune r = [byte_of_Z r]) by (intros; unfold AppendRune; by ltb_true).
  unfold Quote.appendEscapedRune. destruct ((r =? 34) || (r =? 92)) eqn:Eq.
  { to_arith. rewrite Hsmall by lia. destruct Eq as [-> | ->]; by apply undone_pair. }
  to_arith. destruct Eq. destruct (IsPrint print_above r) eqn:Ep.
  { destruct (Z.ltb_spec r 0x80); [|by apply undone_rune]. rewrite Hsmall by done.
    unfold IsPrint in Ep. rewrite (proj2 (Z.leb_le _ _)) in Ep by lia. to_arith.
    apply undone_byte; [by rewrite u8_byte by lia|..]; intros E%(f_equal u8); rewrite u8_byte in E by lia; vm_compute in E; lia. }
  destruct (list_find _ _) as [[i [r' c]]|] eqn:Ef.
  { apply list_find_Some in Ef as (Hi & E & _). cbn in E. subst r'. rewrite Hsmall; [by eapply undone_short|].
    clear -Hi. unfold short_escapes in Hi. do 7 (destruct i as [|i]; [by injection Hi as <- <-|]). done. }
  destruct ((r <? 0x20) || (r =? 0x7F)) eqn:E1.
  { to_arith. rewrite Hsmall by lia. apply undone_hex; [by left|]. change (16 ^ Z.of_nat 2) with 256. lia. }
  destruct (Z.ltb_spec r 0x10000); (apply undone_hex; [by auto 6|]).
  - change (16 ^ Z.of_nat 4) with 0x10000. lia.
  - change (16 ^ Z.of_nat 8) with 0x100000000. lia.
Qed.

Lemma undone_quote_rune b t : undone (quote_rune (b :: t) b) (take (DecodeRune (b :: t)).2 (b :: t)).
Proof.
  pose proof (DecodeRune_sound b t) as Hd. unfold Quote.quote_rune. destruct (DecodeRune (b :: t)) as [r w]. cbn [fst snd] in *.
  destruct Hd as [(-> & -> & Hb)|(Hv & Ha & Hw & Hb)].
  - rewrite bool_decide_true by done. cbn [andb]. rewrite Z.eqb_refl. cbn [take].
    rewrite <- (byte_of_Z_u8 b) at 2. pose proof (u8_range b). apply undone_hex; [by left|done].
  - rewrite <- Ha. assert (E : bool_decide (w = 1%nat) && (r =? RuneError) = false).
    { destruct (bool_decide_reflect (w = 1%nat)) as [->|]; [|done]. cbn [andb]. apply Z.eqb_neq. intros ->.
      apply (f_equal length) in Ha. revert Ha. by vm_compute. }
    rewrite E. by apply undone_escaped.
Qed.

Lemma quote_rune_length b t : (0 < length (quote_rune (b :: t) b))%nat.
Proof.
  destruct (quote_rune (b :: t) b) eqn:E; [|cbn; lia]. pose proof (undone_quote_rune b t 0%nat [x22]) as H. rewrite E in H.
  cbn in H. done.
Qed.

Lemma DecodeRune_width b t : (0 < (DecodeRune (b :: t)).2 <= length (b :: t))%nat.
Proof. destruct (DecodeRune_sound b t) as [(-> & _)|(_ & _ & ? & _)]; [cbn; lia|done]. Qed.

Lemma valid_runes_id n : forall s, (length s <= n)%nat -> all_valid n s = true -> valid_runes n s = s.
Proof.
  induction n as [|n IH]; intros [|b t] Hl Hv; cbn [length] in Hl; [done|lia|done|]. cbn [valid_runes all_valid] in *.
  pose proof (DecodeRune_width b t) as Hw. destruct (DecodeRune (b :: t)) as [r w]. cbn [snd] in Hw.
  apply andb_true_iff in Hv as [->%negb_true_iff Hv]. rewrite IH; [apply take_drop| |done].
  rewrite length_drop. cbn [length] in *. lia.
Qed.

Lemma json_string_valid s : ValidString s = true -> json_string s = s.
Proof. intros H. by apply valid_runes_id. Qed.

Lemma ascii_valid s : Forall (fun b => u8 b < 0x80) s -> ValidString s = true.
Proof.
  unfold ValidString. induction 1 as [|b s Hb _ IH]; [done|]. cbn [length all_valid DecodeRune].
  rewrite (proj2 (Z.ltb_lt _ _) Hb). assert (E : (u8 b =? RuneError) = false) by (apply Z.eqb_neq; unfold RuneError; lia).
  rewrite E, andb_false_r. cbn [negb andb drop]. exact IH.
Qed.

Lemma unquote_quote_body n : forall s fuel, (length s <= n)%nat -> (length (quote_body n s) < fuel)%nat ->
  unquote_body fuel (quote_body n s ++ [x22]) = Some s.
Proof.
  induction n as [|n IH]; intros s fuel Hs Hf; destruct s as [|b t]; cbn [Quote.quote_body] in *;
    try (destruct fuel; [cbn in *; lia|done]); [cbn in Hs; lia|].
  destruct fuel as [|fuel]; [cbn in *; lia|]. rewrite <- (assoc_L (++)). rewrite undone_quote_rune.
  pose proof (quote_rune_length b t). pose proof (DecodeRune_width b t). rewrite length_app in Hf.
  rewrite IH; [cbn [fmap option_fmap option_map]; by rewrite take_drop| |lia].
  rewrite length_drop. cbn [length] in *. lia.
Qed.

(** [Unquote] undoes [Quote], on every string of bytes. *)
Lemma Unquote_Quote s : Unquote (Quote print_above s) = Some s.
Proof. unfold Unquote, Quote. cbn [Byte.eqb]. apply unquote_quote_body; [done|]. rewrite length_app. cbn [length]. lia. Qed.
End QuoteFacts.

(** *** What a quoted string looks like *)

(** A piece of a quoted string: no newline, and a quote only behind a backslash. *)
Definition chunk_ok (c : bytes) : Prop := (x0a ∉ c) /\ ((x22 ∉ c) \/ c = [x5c; x22]).

Lemma chunk_ok_bytes c : Forall (fun b => u8 b <> 10 /\ u8 b <> 34) c -> chunk_ok c.
Proof.
  intros H. rewrite Forall_forall in H.
  split; [|left]; intros Hin; destruct (H _ Hin) as [H1 H2]; vm_compute in H1, H2; done.
Qed.

Lemma hex_digit_plain d : 0 <= d < 16 -> u8 (hex_digit d) <> 10 /\ u8 (hex_digit d) <> 34.
Proof.
  intros Hd. assert (H : Forall (fun d => u8 (hex_digit d) <> 10 /\ u8 (hex_digit d) <> 34) (seqZ 0 16)).
  { repeat constructor; by vm_compute. }
  rewrite Forall_forall in H. apply H, elem_of_seqZ. lia.
Qed.

Lemma hex_digits_plain n : forall r, Forall (fun b => u8 b <> 10 /\ u8 b <> 34) (hex_digits n r).
Proof.
  induction n as [|n IH]; intros r; [constructor|]. cbn [hex_digits]. apply Forall_app. split; [apply IH|].
  constructor; [|done]. apply hex_digit_plain, Z.mod_pos_bound. lia.
Qed.

Lemma AppendRune_plain r : ValidRune r = true -> 0x80 <= r -> Forall (fun b => u8 b <> 10 /\ u8 b <> 34) (AppendRune r).
Proof.
  intros Hv Hr. unfold ValidRune, MaxRune in Hv. to_arith. unfold AppendRune. ltb_false.
  destruct (Z.ltb_spec r 0x800); [|destruct (Z.ltb_spec r 0x10000)]; repeat constructor; rewrite u8_byte; div_lia.
Qed.

Lemma hex_chunk c n r : u8 c <> 10 /\ u8 c <> 34 -> chunk_ok (x5c :: c :: hex_digits n r).
Proof. intros Hc. apply chunk_ok_bytes. constructor; [by vm_compute|]. constructor; [done|]. apply hex_digits_plain. Qed.

Lemma escaped_chunk print_above r : ValidRune r = true -> chunk_ok (appendEscapedRune print_above r).
Proof.
  intros Hv. assert (Hr : 0 <= r <= MaxRune) by (unfold ValidRune, MaxRune in *; to_arith; lia). unfold MaxRune in Hr.
  unfold appendEscapedRune. destruct ((r =? 34) || (r =? 92)) eqn:Eq.
  { to_arith. destruct Eq as [-> | ->]; [split; [|by right]; set_solver|]. apply chunk_ok_bytes. by repeat constructor. }
  to_arith. destruct Eq. destruct (IsPrint print_above r) eqn:Ep.
  { apply chunk_ok_bytes. destruct (Z.ltb_spec r 0x80); [|by apply AppendRune_plain].
    unfold IsPrint in Ep. rewrite (proj2 (Z.leb_le _ _)) in Ep by lia. to_arith.
    unfold AppendRune. ltb_true. repeat constructor; rewrite u8_byte; lia. }
  destruct (list_find _ _) as [[i [r' c]]|] eqn:Ef.
  { apply list_find_Some in Ef as (Hi & _ & _). apply chunk_ok_bytes. clear -Hi. unfold short_escapes in Hi.
    do 7 (destruct i as [|i]; [injection Hi as <- <-; repeat constructor; by vm_compute|]). done. }
  destruct (_ || _); [|destruct (r <? 0x10000)]; apply hex_chunk; by vm_compute.
Qed.

Lemma quote_body_chunks print_above n : forall s, exists cs, quote_body print_above n s = concat cs /\ Forall chunk_ok cs.
Proof.
  induction n as [|n IH]; intros [|b t]; [by exists []..|]. cbn [quote_body].
  destruct (IH (drop (DecodeRune (b :: t)).2 (b :: t))) as (cs & -> & Hcs).
  exists (quote_rune print_above (b :: t) b :: cs). split; [done|]. constructor; [|done].
  unfold quote_rune. pose proof (DecodeRune_sound b t) as Hd. destruct (DecodeRune (b :: t)) as [r w]. cbn [fst snd] in *.
  destruct Hd as [(-> & -> & _)|(Hv & _)].
  - rewrite bool_decide_true by done. cbn [andb]. rewrite Z.eqb_refl. apply hex_chunk. by vm_compute.
  - destruct (_ && _); [|by apply escaped_chunk]. apply hex_chunk. by vm_compute.
Qed.
