(* ===== verification/Bencode.v ===== *)
(** * [bencode]: the codec ([bencode/decode.go], [bencode/encode.go])

    The Go values the codec exchanges ([any]), the decoder with its
    denial-of-service limits, and the encoder.  The two loops of [decodeList]
    and [decodeDict] and the recursion of [decodeValue] share one fuel; [2 * len
    data + 1] is enough (every step but the one from a loop to a value consumes
    a byte), which [Decode_total] turns into a theorem. *)

From S2P Require Import Prelude Strconv.
Set Warnings "-register-all".
Local Open Scope Z_scope.

(** ** Dynamic values *)

(** The dynamic types the codec distinguishes; [AOther] stands for a value of
    any other dynamic type ([nil], [bool], [map[string]int64], ...). *)
Inductive any : Type :=
  | AStr (s : bytes)
  | ABytes (b : bytes)
  | AInt64 (n : Z)
  | AInt (n : Z)
  | AList (l : list any)
  | AMap (m : gmap bytes any)
  | AOther.

(** ** Decoder *)

(** The two sentinel errors of the package ([fmt.Errorf("%w: ...")] wraps one of
    them); [OutOfFuel] is the model's own. *)
Inductive decode_error := ErrUnexpectedEnd | ErrInvalidFormat | OutOfFuel.

#[export] Instance decode_error_eq_dec : EqDecision decode_error.
Proof. solve_decision. Defined.

Definition MaxStringLength : Z := 64 * 1024 * 1024.
Definition MaxCollectionSize : Z := 1000000.
Definition MaxDecodeDepth : Z := 100.
Definition MaxTotalItems : Z := 2000000.

(** The scan for the colon of a string header. *)
Fixpoint find_colon (data : bytes) (i : Z) : result decode_error Z :=
  match data with
  | [] => Err ErrInvalidFormat
  | b :: data' =>
      if Byte.eqb b x3a then Ok i
      else if negb (is_digit b) then Err ErrInvalidFormat
      else find_colon data' (i + 1)
  end.

Definition decodeString (data : bytes) : result decode_error (bytes * bytes) :=
  colonIdx ← find_colon data 0;
  match parse_int64 (slice data 0 colonIdx) with
  | None => Err ErrInvalidFormat
  | Some length =>
      if length <? 0 then Err ErrInvalidFormat
      else if MaxStringLength <? length then Err ErrInvalidFormat
      else
        let start := colonIdx + 1 in
        let end_ := start + length in
        if len data <? end_ then Err ErrUnexpectedEnd
        else Ok (slice data start end_, slice data end_ (len data))
  end.

(** Index of the first ['e'] of [data[i:]], counted from [i]. *)
Fixpoint find_e (data : bytes) (i : Z) : option Z :=
  match data with
  | [] => None
  | b :: data' => if Byte.eqb b x65 then Some i else find_e data' (i + 1)
  end.

Definition decodeInt (data : bytes) : result decode_error (Z * bytes) :=
  match find_e (slice data 1 (len data)) 1 with
  | None => Err ErrUnexpectedEnd
  | Some endIdx =>
      let numStr := slice data 1 endIdx in
      if bool_decide (numStr = []) then Err ErrInvalidFormat
      else if (1 <? len numStr) && bool_decide (numStr !! 0%nat = Some x30)
      then Err ErrInvalidFormat
      else if bool_decide (numStr = [x2d; x30]) then Err ErrInvalidFormat
      else if (2 <? len numStr) && bool_decide (numStr !! 0%nat = Some x2d)
              && bool_decide (numStr !! 1%nat = Some x30)
      then Err ErrInvalidFormat
      else match parse_int64 numStr with
           | None => Err ErrInvalidFormat
           | Some n => Ok (n, slice data (endIdx + 1) (len data))
           end
  end.

(** [decodeValue] and the loops of [decodeList] and [decodeDict]; the counter
    behind [totalItems *int] is passed through. *)
Fixpoint decodeValue (fuel : nat) (data : bytes) (depth totalItems : Z)
    : result decode_error (any * bytes * Z) :=
  match fuel with
  | O => Err OutOfFuel
  | S fuel =>
      match data with
      | [] => Err ErrUnexpectedEnd
      | c :: rest =>
          if MaxDecodeDepth <? depth then Err ErrInvalidFormat
          else if Byte.eqb c x69 then
            '(n, r) ← decodeInt data; Ok (AInt64 n, r, totalItems)
          else if Byte.eqb c x6c then decodeList fuel rest [] depth totalItems
          else if Byte.eqb c x64 then decodeDict fuel rest ∅ [] depth totalItems
          else if is_digit c then
            '(s, r) ← decodeString data; Ok (AStr s, r, totalItems)
          else Err ErrInvalidFormat
      end
  end
with decodeList (fuel : nat) (rest : bytes) (list : list any) (depth totalItems : Z)
    : result decode_error (any * bytes * Z) :=
  match fuel with
  | O => Err OutOfFuel
  | S fuel =>
      match rest with
      | [] => Err ErrUnexpectedEnd
      | c :: rest' =>
          if Byte.eqb c x65 then Ok (AList list, rest', totalItems)
          else if MaxCollectionSize <=? len list then Err ErrInvalidFormat
          else
            let totalItems := totalItems + 1 in
            if MaxTotalItems <? totalItems then Err ErrInvalidFormat
            else
              '(val, remaining, totalItems) ← decodeValue fuel rest (depth + 1) totalItems;
              decodeList fuel remaining (list ++ [val]) depth totalItems
      end
  end
with decodeDict (fuel : nat) (rest : bytes) (dict : gmap bytes any) (prevKey : bytes)
    (depth totalItems : Z) : result decode_error (any * bytes * Z) :=
  match fuel with
  | O => Err OutOfFuel
  | S fuel =>
      match rest with
      | [] => Err ErrUnexpectedEnd
      | c :: rest' =>
          if Byte.eqb c x65 then Ok (AMap dict, rest', totalItems)
          else if MaxCollectionSize <=? Z.of_nat (size dict) then Err ErrInvalidFormat
          else
            let totalItems := totalItems + 1 in
            if MaxTotalItems <? totalItems then Err ErrInvalidFormat
            else if negb (is_digit c) then Err ErrInvalidFormat
            else
              '(key, remaining) ← decodeString rest;
              if (0 <? Z.of_nat (size dict)) && bytes_ltb key prevKey then Err ErrInvalidFormat
              else if bool_decide (remaining = []) then Err ErrUnexpectedEnd
              else
                '(val, remaining2, totalItems) ← decodeValue fuel remaining (depth + 1) totalItems;
                decodeDict fuel remaining2 (<[key := val]> dict) key depth totalItems
      end
  end.

Definition decode_fuel (data : bytes) : nat := S (2 * length data).

Definition Decode (data : bytes) : result decode_error any :=
  '(val, _, _) ← decodeValue (decode_fuel data) data 0 0; Ok val.

Definition DecodeBytes (data : bytes) : result decode_error (any * Z) :=
  '(val, rest, _) ← decodeValue (decode_fuel data) data 0 0; Ok (val, len data - len rest).

(** ** Encoder *)

Inductive encode_error := UnsupportedType.

#[export] Instance encode_error_eq_dec : EqDecision encode_error.
Proof. solve_decision. Defined.

Definition encodeString (buf s : bytes) : bytes := buf ++ itoa (len s) ++ [x3a] ++ s.
Definition encodeBytes (buf b : bytes) : bytes := buf ++ itoa (len b) ++ [x3a] ++ b.
Definition encodeInt (buf : bytes) (n : Z) : bytes := buf ++ [x69] ++ itoa n ++ [x65].

(** The loop of [encodeDict] over the sorted keys, given the encoder of the
    value under each key. *)
Definition encodeDict_loop (encs : gmap bytes (bytes -> result encode_error bytes))
    (keys : list bytes) (buf : bytes) : result encode_error bytes :=
  foldl (fun acc k =>
           b ← acc;
           from_option (fun enc => enc (encodeString b k)) (Err UnsupportedType) (encs !! k))
        (Ok buf) keys.

Fixpoint encodeValue (v : any) (buf : bytes) : result encode_error bytes :=
  match v with
  | AStr s => Ok (encodeString buf s)
  | ABytes b => Ok (encodeBytes buf b)
  | AInt64 n => Ok (encodeInt buf n)
  | AInt n => Ok (encodeInt buf n)
  | AList l =>
      b ← foldl (fun acc x => b ← acc; encodeValue x b) (Ok (buf ++ [x6c])) l;
      Ok (b ++ [x65])
  | AMap d =>
      let keys := sort_strings (elements (dom d)) in
      b ← encodeDict_loop (encodeValue <$> d) keys (buf ++ [x64]);
      Ok (b ++ [x65])
  | AOther => Err UnsupportedType
  end.

Definition Encode (v : any) : result encode_error bytes := encodeValue v [].

(** ** Type assertions on decoded values *)

(** [v.(string)], [v.(int64)], [v.([]any)], [v.(map[string]any)] on a value that
    may be missing from its map. *)
Definition as_str (v : option any) : option bytes :=
  match v with Some (AStr s) => Some s | _ => None end.
Definition as_int64 (v : option any) : option Z :=
  match v with Some (AInt64 n) => Some n | _ => None end.
Definition as_list (v : option any) : option (list any) :=
  match v with Some (AList l) => Some l | _ => None end.
Definition as_map (v : option any) : option (gmap bytes any) :=
  match v with Some (AMap m) => Some m | _ => None end.
