(* ===== verification/BencodeFacts.v ===== *)
(** * Theory of the codec

    A canonical-encoding function [enc] the encoder refines, the values within
    the decoder's limits ([fits]), and the inductions behind the codec's
    theorems (which are stated in [BencodeTheorems]). *)

From S2P Require Import Prelude Strconv Bencode.
Local Open Scope Z_scope.

(** ** Induction on values *)

Fixpoint any_size (v : any) : nat :=
  match v with
  | AList l => S (sum_list_with any_size l)
  | AMap m => S (map_fold (fun _ x acc => any_size x + acc)%nat O m)
  | _ => 1
  end.

Lemma any_size_in_list x l : x ∈ l -> (any_size x < any_size (AList l))%nat.
Proof.
  intros Hx. simpl. induction Hx as [y l'|y z l' Hin IH]; simpl; lia.
Qed.

Lemma any_size_in_map (k : bytes) (x : any) (m : gmap bytes any) :
  m !! k = Some x -> (any_size x < any_size (AMap m))%nat.
Proof.
  intros Hk. simpl.
  rewrite (map_fold_delete_L (fun _ x acc => any_size x + acc)%nat O k x m); [lia| |done].
  intros. lia.
Qed.

Lemma any_nested_ind (P : any -> Prop)
  (Hstr : forall s, P (AStr s)) (Hbytes : forall b, P (ABytes b))
  (Hint64 : forall n, P (AInt64 n)) (Hint : forall n, P (AInt n))
  (Hlist : forall l, (forall x, x ∈ l -> P x) -> P (AList l))
  (Hmap : forall m : gmap bytes any, (forall k x, m !! k = Some x -> P x) -> P (AMap m))
  (Hother : P AOther) : forall v, P v.
Proof.
  intros v. remember (any_size v) as n eqn:Hn. revert v Hn.
  induction n as [n IH] using lt_wf_ind. intros [] ->; auto.
  - apply Hlist. intros x Hx. eapply IH; [|done]. by apply any_size_in_list.
  - apply Hmap. intros k x Hx. eapply IH; [|done]. by eapply any_size_in_map.
Qed.

(** ** The entries of a map in key order *)

Section SortedPairs.
Context {A : Type}.
Implicit Types m : gmap bytes A.

Definition sorted_keys m : list bytes := sort_strings (elements (dom m)).
Definition sorted_pairs m : list (bytes * A) :=
  omap (fun k => pair k <$> m !! k) (sorted_keys m).

Lemma sorted_keys_perm m : sorted_keys m ≡ₚ elements (dom m).
Proof. apply merge_sort_Permutation. Qed.

Lemma elem_of_sorted_keys m k : k ∈ sorted_keys m <-> is_Some (m !! k).
Proof. rewrite sorted_keys_perm, elem_of_elements, elem_of_dom. done. Qed.

Lemma sorted_keys_NoDup m : NoDup (sorted_keys m).
Proof. rewrite sorted_keys_perm. apply NoDup_elements. Qed.

Lemma sorted_keys_sorted m : StronglySorted bytes_le (sorted_keys m).
Proof. apply StronglySorted_merge_sort; apply _. Qed.

Lemma sorted_keys_strict m : StronglySorted (fun a b => bytes_ltb a b = true) (sorted_keys m).
Proof.
  pose proof (sorted_keys_sorted m) as Hs. pose proof (sorted_keys_NoDup m) as Hn.
  induction Hs as [|k ks Hks IH Hk]; constructor.
  - apply IH. by apply NoDup_cons in Hn as [_ ?].
  - apply NoDup_cons in Hn as [Hnin _]. rewrite Forall_forall in Hk |- *.
    intros k' Hk'. apply bytes_le_ne_ltb; [auto|]. by intros ->.
Qed.

Lemma elem_of_sorted_pairs m k x : (k, x) ∈ sorted_pairs m <-> m !! k = Some x.
Proof.
  unfold sorted_pairs. rewrite list_elem_of_omap. split.
  - intros (k' & _ & Hk'). destruct (m !! k') eqn:E; simplify_eq/=. done.
  - intros Hk. exists k. rewrite elem_of_sorted_keys, Hk. split; [eauto|done].
Qed.

Lemma sorted_pairs_keys m : (sorted_pairs m).*1 = sorted_keys m.
Proof.
  unfold sorted_pairs.
  assert (Hin : Forall (fun k => is_Some (m !! k)) (sorted_keys m)).
  { apply Forall_forall. intros k. apply elem_of_sorted_keys. }
  induction Hin as [|k ks [x Hx] Hks IH]; [done|].
  cbn [omap list_omap]. rewrite Hx. cbn [fmap option_fmap option_map list_fmap fst].
  by rewrite IH.
Qed.

Lemma sorted_pairs_NoDup m : NoDup (sorted_pairs m).
Proof. apply (NoDup_fmap_1 fst). rewrite sorted_pairs_keys. apply sorted_keys_NoDup. Qed.

Lemma sorted_pairs_perm m : sorted_pairs m ≡ₚ map_to_list m.
Proof.
  apply NoDup_Permutation; [apply sorted_pairs_NoDup | apply NoDup_map_to_list |].
  intros [k x]. by rewrite elem_of_sorted_pairs, elem_of_map_to_list.
Qed.

Lemma list_to_map_sorted_pairs m : list_to_map (sorted_pairs m) = m.
Proof.
  rewrite <- (list_to_map_to_list m) at 2. apply list_to_map_proper.
  - rewrite sorted_pairs_keys. apply sorted_keys_NoDup.
  - apply sorted_pairs_perm.
Qed.

Lemma length_sorted_pairs m : length (sorted_pairs m) = size m.
Proof. rewrite sorted_pairs_perm. by rewrite length_map_to_list. Qed.
End SortedPairs.

Lemma sorted_keys_fmap {A B} (f : A -> B) (m : gmap bytes A) : sorted_keys (f <$> m) = sorted_keys m.
Proof. unfold sorted_keys. by rewrite dom_fmap_L. Qed.

Lemma sorted_pairs_fmap {A B} (f : A -> B) (m : gmap bytes A) :
  sorted_pairs (f <$> m) = (fun kx => (kx.1, f kx.2)) <$> sorted_pairs m.
Proof.
  unfold sorted_pairs. rewrite sorted_keys_fmap.
  induction (sorted_keys m) as [|k ks IH]; [done|].
  cbn [omap list_omap]. rewrite lookup_fmap.
  destruct (m !! k); cbn [fmap option_fmap option_map list_fmap fst snd]; rewrite IH; done.
Qed.

(** ** The canonical encoding *)

Definition enc_str (s : bytes) : bytes := itoa (len s) ++ [x3a] ++ s.

Fixpoint enc (v : any) : bytes :=
  match v with
  | AStr s | ABytes s => enc_str s
  | AInt64 n | AInt n => [x69] ++ itoa n ++ [x65]
  | AList l => [x6c] ++ concat (enc <$> l) ++ [x65]
  | AMap m =>
      [x64] ++ concat ((fun kx => enc_str kx.1 ++ kx.2) <$> sorted_pairs (enc <$> m)) ++ [x65]
  | AOther => []
  end.

(** Encoding of the entries of a map, and its unfolding. *)
Definition enc_pair (kx : bytes * any) : bytes := enc_str kx.1 ++ enc kx.2.

Lemma enc_map m : enc (AMap m) = [x64] ++ concat (enc_pair <$> sorted_pairs m) ++ [x65].
Proof.
  cbn [enc]. rewrite sorted_pairs_fmap, <- list_fmap_compose. done.
Qed.

(** Values without a dynamic type the encoder rejects. *)
Inductive supported : any -> Prop :=
  | supported_str s : supported (AStr s)
  | supported_bytes b : supported (ABytes b)
  | supported_int64 n : supported (AInt64 n)
  | supported_int n : supported (AInt n)
  | supported_list l : (forall x, x ∈ l -> supported x) -> supported (AList l)
  | supported_map (m : gmap bytes any) :
      (forall k x, m !! k = Some x -> supported x) -> supported (AMap m).

Lemma encodeValue_enc v : supported v -> forall buf, encodeValue v buf = Ok (buf ++ enc v).
Proof.
  induction v as [s|b|n|n|l IH|m IH|] using any_nested_ind; intros Hv buf;
    inversion Hv; subst; try done.
  - cbn [encodeValue].
    rewrite (foldl_bind_app (fun b x => encodeValue x b) enc) by eauto.
    cbn [mbind result_bind enc]. by rewrite <- !(assoc_L (++)).
  - cbn [encodeValue]. unfold encodeDict_loop. rewrite enc_map.
    rewrite (foldl_bind_app
      (fun b k => from_option (fun e => e (encodeString b k)) (Err UnsupportedType)
                    ((encodeValue <$> m) !! k))
      (fun k => enc_str k ++ default [] (enc <$> m !! k))).
    + cbn [mbind result_bind]. rewrite <- !(assoc_L (++)). do 5 f_equal.
      fold (sorted_keys m). rewrite <- sorted_pairs_keys, <- list_fmap_compose.
      apply list_fmap_ext. intros i [k x] Hi. unfold enc_pair; simpl.
      apply list_elem_of_lookup_2, elem_of_sorted_pairs in Hi. by rewrite Hi.
    + intros k b Hk. apply (elem_of_sorted_keys m) in Hk as [x Hx].
      rewrite lookup_fmap, Hx. cbn [fmap option_fmap option_map from_option default].
      rewrite (IH k x Hx) by eauto. unfold encodeString, enc_str.
      by rewrite <- !(assoc_L (++)).
Qed.

Lemma encodeValue_supported v : forall buf out, encodeValue v buf = Ok out -> supported v.
Proof.
  induction v as [s|b|n|n|l IH|m IH|] using any_nested_ind; intros buf out H; constructor || done.
  - cbn [encodeValue] in H. apply bind_ok_inv in H as (b & H & _).
    apply (foldl_bind_ok (fun b x => encodeValue x b)) in H as [_ H].
    intros x Hx. destruct (H x Hx) as (? & ? & ?). eauto.
  - cbn [encodeValue] in H. apply bind_ok_inv in H as (b & H & _).
    apply (foldl_bind_ok (fun b k => from_option (fun e => e (encodeString b k))
      (Err UnsupportedType) ((encodeValue <$> m) !! k))) in H as [_ H].
    intros k x Hk. destruct (H k) as (b1 & b2 & Hb); [apply (elem_of_sorted_keys m); eauto|].
    rewrite lookup_fmap, Hk in Hb. eapply IH; [exact Hk | exact Hb].
Qed.

(** ** Values within the decoder's limits *)

Inductive fits : Z -> any -> Prop :=
  | fits_str d s : d <= MaxDecodeDepth -> len s <= MaxStringLength -> fits d (AStr s)
  | fits_int d n : d <= MaxDecodeDepth -> in_i64 n -> fits d (AInt64 n)
  | fits_list d l :
      d <= MaxDecodeDepth -> len l <= MaxCollectionSize ->
      (forall x, x ∈ l -> fits (d + 1) x) -> fits d (AList l)
  | fits_map d (m : gmap bytes any) :
      d <= MaxDecodeDepth -> Z.of_nat (size m) <= MaxCollectionSize ->
      (forall k x, m !! k = Some x -> len k <= MaxStringLength) ->
      (forall k x, m !! k = Some x -> fits (d + 1) x) ->
      fits d (AMap m).

Lemma fits_depth d v : fits d v -> d <= MaxDecodeDepth.
Proof. by inversion 1. Qed.

Lemma fits_supported v : forall d, fits d v -> supported v.
Proof.
  induction v as [s|b|n|n|l IH|m IH|] using any_nested_ind;
    intros d Hv; inversion Hv; subst; constructor; eauto.
Qed.

(** Number of collection items of a value, the quantity [totalItems] counts. *)
Fixpoint items (v : any) : Z :=
  match v with
  | AList l => foldr (fun x acc => 1 + items x + acc) 0 l
  | AMap m => map_fold (fun _ x acc => 1 + items x + acc) 0 m
  | _ => 0
  end.

(** Items of the entries of a map, in any order. *)
Definition items_pairs (l : list (bytes * any)) : Z :=
  foldr (fun kx acc => 1 + items kx.2 + acc) 0 l.

Lemma items_pairs_perm l1 l2 : l1 ≡ₚ l2 -> items_pairs l1 = items_pairs l2.
Proof. induction 1; simpl in *; lia. Qed.

Lemma items_map m : items (AMap m) = items_pairs (sorted_pairs m).
Proof.
  cbn [items]. rewrite map_fold_foldr, (items_pairs_perm _ _ (sorted_pairs_perm m)).
  induction (map_to_list m) as [|[k x] l IH]; simpl; [done | by rewrite IH].
Qed.

Lemma items_pairs_nonneg_if l : (forall kx, kx ∈ l -> 0 <= items kx.2) -> 0 <= items_pairs l.
Proof.
  induction l as [|kx l IH]; simpl; intros Hin; [lia|].
  pose proof (Hin kx ltac:(set_solver)). specialize (IH ltac:(set_solver)). lia.
Qed.

Lemma items_nonneg v : 0 <= items v.
Proof.
  induction v as [s|b|n|n|l IH|m IH|] using any_nested_ind; try (simpl; lia).
  - cbn [items]. induction l as [|x l IHl]; simpl; [lia|].
    pose proof (IH x ltac:(set_solver)). specialize (IHl ltac:(set_solver)). lia.
  - rewrite items_map. apply items_pairs_nonneg_if.
    intros [k x] Hk%elem_of_sorted_pairs. eauto.
Qed.

Lemma items_pairs_nonneg l : 0 <= items_pairs l.
Proof. apply items_pairs_nonneg_if. intros. apply items_nonneg. Qed.

(** ** Decoding the pieces of a canonical encoding *)

Lemma find_colon_digits ds t i :
  forallb is_digit ds = true -> find_colon (ds ++ x3a :: t) i = Ok (i + len ds).
Proof.
  revert i. induction ds as [|b ds IH]; intros i Hd; [simpl; f_equal; lia|].
  apply forallb_digit_cons in Hd as [Hb Hd]. cbn [find_colon app].
  destruct (Byte.eqb b x3a) eqn:E.
  { apply byte_eqb_true in E as ->. vm_compute in Hb. done. }
  rewrite Hb. cbn [negb]. rewrite IH by done. f_equal. simpl length. lia.
Qed.

Lemma itoa_nonneg z : 0 <= z -> itoa z = digits z.
Proof. intros. unfold itoa. case_match; [lia|done]. Qed.

Lemma decodeString_enc s rest :
  len s <= MaxStringLength -> decodeString (enc_str s ++ rest) = Ok (s, rest).
Proof.
  intros Hs. unfold decodeString, enc_str.
  pose proof (itoa_nonneg (len s) ltac:(lia)) as Ei. rewrite Ei.
  destruct (digits_spec (len s) ltac:(lia)) as (_ & Hd & _).
  set (ds := digits (len s)) in *.
  rewrite <- !(assoc_L (++)). cbn [app]. rewrite find_colon_digits by done.
  cbn [mbind result_bind]. rewrite slice_prefix by lia.
  rewrite <- Ei at 1. rewrite parse_int64_itoa; last first.
  { unfold in_i64, MinInt64, MaxInt64, MaxStringLength in *. lia. }
  do 2 (case_match; [lia|]).
  rewrite length_app. cbn [length]. rewrite length_app.
  rewrite (proj2 (Z.ltb_ge _ _)) by lia. do 2 f_equal.
  - change (ds ++ x3a :: s ++ rest) with (ds ++ [x3a] ++ s ++ rest).
    rewrite (assoc_L (++)). apply slice_mid; rewrite length_app; simpl; lia.
  - change (ds ++ x3a :: s ++ rest) with (ds ++ [x3a] ++ s ++ rest).
    rewrite !(assoc_L (++)). unfold slice. rewrite take_ge by (rewrite length_drop, !length_app; simpl; lia).
    rewrite drop_app_length'; [done|]. rewrite !length_app; simpl; lia.
Qed.

Lemma find_e_app s t i :
  x65 ∉ s -> find_e (s ++ x65 :: t) i = Some (i + len s).
Proof.
  revert i. induction s as [|b s IH]; intros i Hs; [simpl; f_equal; lia|].
  cbn [find_e app]. apply not_elem_of_cons in Hs as [Hb Hs].
  rewrite (proj2 (byte_eqb_false b x65)) by done. rewrite IH by done. f_equal. simpl length. lia.
Qed.

Lemma digits_no_e z : 0 <= z -> x65 ∉ digits z.
Proof.
  intros Hz He. destruct (digits_spec z Hz) as (_ & Hd & _).
  rewrite forallb_forall in Hd. specialize (Hd x65 (proj1 (list_elem_of_In _ _) He)). done.
Qed.

(** Shape of a numeral: no leading zero, no negative zero. *)
Lemma itoa_shape n :
  itoa n = [x30] \/
  (exists b s, itoa n = b :: s /\ is_digit b = true /\ b <> x30) \/
  (exists b s, itoa n = x2d :: b :: s /\ is_digit b = true /\ b <> x30).
Proof.
  unfold itoa. destruct (Z.ltb_spec n 0).
  - right; right. destruct (digits_head (- n)) as (b & s & -> & ?); [lia|]. eauto.
  - destruct (Z.eq_dec n 0) as [->|]; [by left|]. right; left. apply digits_head. lia.
Qed.

Lemma itoa_no_e n : x65 ∉ itoa n.
Proof.
  unfold itoa. case_match; bool_prop; [|apply digits_no_e; lia].
  apply not_elem_of_cons. split; [done | apply digits_no_e; lia].
Qed.

Lemma decodeInt_enc n rest :
  in_i64 n -> decodeInt ([x69] ++ itoa n ++ [x65] ++ rest) = Ok (n, rest).
Proof.
  intros Hn. unfold decodeInt.
  rewrite slice_suffix by done. cbn [app]. rewrite find_e_app by apply itoa_no_e.
  change (x69 :: itoa n ++ x65 :: rest) with ([x69] ++ itoa n ++ [x65] ++ rest).
  rewrite slice_mid by done.
  assert (Hrest : slice ([x69] ++ itoa n ++ [x65] ++ rest) (1 + len (itoa n) + 1)
                    (len ([x69] ++ itoa n ++ [x65] ++ rest)) = rest).
  { rewrite !(assoc_L (++)). apply slice_suffix. rewrite !length_app. simpl. lia. }
  rewrite Hrest, parse_int64_itoa by done.
  destruct (itoa_shape n) as [->|[(b & s & -> & Hb & H0)|(b & s & -> & Hb & H0)]]; [done| |];
    cbn [lookup list_lookup]; repeat case_match; bool_prop; simplify_eq; try done.
Qed.

(** ** Decoding a canonical encoding *)

(** First byte of an encoding: it selects the decoder's branch. *)
Lemma enc_str_head s : exists c t, enc_str s = c :: t /\ is_digit c = true.
Proof.
  unfold enc_str. rewrite itoa_nonneg by lia.
  destruct (digits_cons (len s) ltac:(lia)) as (b & t & -> & ?). simpl. eauto.
Qed.

Lemma enc_head d v : fits d v -> exists c t, enc v = c :: t /\ c <> x65.
Proof.
  intros Hv. destruct Hv as [d s ??| | |]; [|cbn [enc app]; eauto..].
  destruct (enc_str_head s) as (c & t & E & Hc). exists c, t. split; [done|].
  intros ->. by vm_compute in Hc.
Qed.

(** [decodeValue] reads the encoding of [v] back. *)
Definition reads_back (v : any) : Prop :=
  forall fuel depth total rest,
    fits depth v -> total + items v <= MaxTotalItems ->
    (2 * length (enc v ++ rest) + 1 <= fuel)%nat ->
    decodeValue fuel (enc v ++ rest) depth total = Ok (v, rest, total + items v).

Lemma decodeList_reads_back l :
  (forall x, x ∈ l -> reads_back x) ->
  forall acc fuel depth total rest,
    (forall x, x ∈ l -> fits (depth + 1) x) ->
    len acc + len l <= MaxCollectionSize ->
    total + items (AList l) <= MaxTotalItems ->
    (2 * length (concat (enc <$> l) ++ x65 :: rest) + 2 <= fuel)%nat ->
    decodeList fuel (concat (enc <$> l) ++ x65 :: rest) acc depth total =
    Ok (AList (acc ++ l), rest, total + items (AList l)).
Proof.
  induction l as [|x l IH]; intros Hrb acc fuel depth total rest Hfit Hlen Htot Hfuel;
    (destruct fuel as [|fuel]; [lia|]).
  - simpl. rewrite app_nil_r, Z.add_0_r. done.
  - destruct (enc_head _ _ (Hfit x ltac:(set_solver))) as (c & t & Ec & Hc).
    pose proof (items_nonneg x). pose proof (items_nonneg (AList l)).
    change (items (AList (x :: l))) with (1 + items x + items (AList l)) in *.
    cbn [fmap list_fmap concat] in Hfuel |- *. rewrite <- (assoc_L (++)) in Hfuel |- *.
    cbn [decodeList]. rewrite Ec at 1. cbn [app].
    rewrite (proj2 (byte_eqb_false c x65)) by done.
    cbn [length] in Hlen. rewrite (proj2 (Z.leb_gt _ _)) by lia.
    rewrite (proj2 (Z.ltb_ge _ _)) by lia.
    assert (Hdec : decodeValue fuel (enc x ++ concat (enc <$> l) ++ x65 :: rest)
      (depth + 1) (total + 1) = Ok (x, concat (enc <$> l) ++ x65 :: rest, total + 1 + items x)).
    { apply Hrb; [set_solver | by apply Hfit; set_solver | lia | lia]. }
    rewrite Hdec. cbn [mbind result_bind].
    rewrite Ec in Hfuel. cbn [app length] in Hfuel. rewrite length_app in Hfuel.
    rewrite IH; [|set_solver|set_solver|rewrite length_app; simpl; lia|lia|lia].
    rewrite <- (assoc_L (++)). cbn [app]. do 2 f_equal. lia.
Qed.

Lemma decodeDict_reads_back l :
  (forall kx, kx ∈ l -> reads_back kx.2) ->
  StronglySorted (fun a b => bytes_ltb a b = true) l.*1 ->
  forall dict prev fuel depth total rest,
    (forall k x, (k, x) ∈ l -> len k <= MaxStringLength /\ fits (depth + 1) x) ->
    (forall k, k ∈ l.*1 -> dict !! k = None) ->
    (dict = ∅ \/ forall k, k ∈ l.*1 -> bytes_ltb prev k = true) ->
    Z.of_nat (size dict) + len l <= MaxCollectionSize ->
    total + items_pairs l <= MaxTotalItems ->
    (2 * length (concat (enc_pair <$> l) ++ x65 :: rest) + 2 <= fuel)%nat ->
    decodeDict fuel (concat (enc_pair <$> l) ++ x65 :: rest) dict prev depth total =
    Ok (AMap (list_to_map l ∪ dict), rest, total + items_pairs l).
Proof.
  induction l as [|[k x] l IH];
    intros Hrb Hsort dict prev fuel depth total rest Hfit Hfresh Hprev Hlen Htot Hfuel;
    (destruct fuel as [|fuel]; [lia|]).
  { simpl. rewrite (left_id_L ∅ (∪)), Z.add_0_r. done. }
  destruct (enc_str_head k) as (c & t & Ec & Hc).
  assert (c <> x65) by (intros ->; by vm_compute in Hc).
  destruct (Hfit k x ltac:(left)) as [Hk Hx].
  destruct (enc_head _ _ Hx) as (cx & tx & Ex & _).
  pose proof (items_nonneg x). pose proof (items_pairs_nonneg l).
  change (items_pairs ((k, x) :: l)) with (1 + items x + items_pairs l) in *.
  change (concat (enc_pair <$> (k, x) :: l)) with ((enc_str k ++ enc x) ++ concat (enc_pair <$> l)) in *.
  rewrite <- !(assoc_L (++)) in Hfuel |- *.
  set (tail := concat (enc_pair <$> l) ++ x65 :: rest) in *.
  cbn [decodeDict]. rewrite Ec at 1. cbn [app].
  rewrite (proj2 (byte_eqb_false c x65)) by done. rewrite Hc. cbn [negb].
  cbn [length] in Hlen. rewrite (proj2 (Z.leb_gt _ _)) by lia.
  rewrite (proj2 (Z.ltb_ge _ _)) by lia.
  rewrite decodeString_enc by done. cbn [mbind result_bind].
  replace ((0 <? Z.of_nat (size dict)) && bytes_ltb k prev) with false; last first.
  { destruct Hprev as [->|Hprev]; [by rewrite map_size_empty|].
    rewrite (bytes_ltb_asym prev k) by (apply Hprev; left). by rewrite andb_false_r. }
  rewrite bool_decide_eq_false_2 by (by rewrite Ex).
  rewrite !length_app, Ec in Hfuel. cbn [length] in Hfuel.
  pose proof (Hrb (k, x) ltac:(left) fuel (depth + 1) (total + 1) tail Hx) as Hdec.
  cbn [snd] in Hdec. rewrite Hdec by (rewrite ?length_app; lia).
  cbn [mbind result_bind]. cbn [fmap list_fmap fst] in Hsort, Hfresh.
  apply StronglySorted_inv in Hsort as [Hsort Hall]. rewrite Forall_forall in Hall.
  assert (Hnk : k ∉ l.*1).
  { intros Hin. specialize (Hall k Hin). by rewrite bytes_ltb_irrefl in Hall. }
  unfold tail. rewrite IH.
  - cbn [list_to_map foldr]. rewrite <- insert_union_l, insert_union_r
      by (by apply not_elem_of_list_to_map_1). do 2 f_equal. lia.
  - intros kx Hkx. apply Hrb. by right.
  - done.
  - intros k' x' Hk'. apply Hfit. by right.
  - intros k' Hk'. rewrite lookup_insert_ne by (by intros ->). apply Hfresh. by right.
  - by right.
  - rewrite map_size_insert_None by (apply Hfresh; left). lia.
  - lia.
  - fold tail. lia.
Qed.

Lemma enc_reads_back v : reads_back v.
Proof.
  induction v as [s|b|n|n|l IH|m IH|] using any_nested_ind;
    intros [|fuel] depth total rest Hfit Htot Hfuel; try lia; try (by inversion Hfit).
  - destruct (enc_str_head s) as (c & t & Ec & Hc). inversion Hfit; subst.
    pose proof (decodeString_enc s rest ltac:(done)) as Hdec.
    cbn [enc items] in *. rewrite Z.add_0_r. rewrite Ec in *. cbn [app] in *. cbn [decodeValue].
    rewrite (proj2 (Z.ltb_ge _ _)) by done.
    do 3 (rewrite (proj2 (byte_eqb_false c _)) by (intros ->; by vm_compute in Hc)).
    rewrite Hc, Hdec. done.
  - inversion Hfit; subst. pose proof (decodeInt_enc n rest ltac:(done)) as Hdec.
    cbn [enc items] in *. rewrite Z.add_0_r, <- !(assoc_L (++)) in *. cbn [app] in *.
    cbn [decodeValue]. rewrite (proj2 (Z.ltb_ge _ _)) by done. cbn [Byte.eqb]. 
    rewrite Hdec. done.
  - inversion Hfit; subst. cbn [enc] in Hfuel |- *. rewrite <- !(assoc_L (++)) in *. cbn [app] in *.
    cbn [decodeValue]. rewrite (proj2 (Z.ltb_ge _ _)) by done. cbn [Byte.eqb].
    rewrite decodeList_reads_back; [done|done|done|simpl; lia|done|cbn [length] in Hfuel; lia].
  - inversion Hfit; subst. rewrite enc_map, items_map in *. rewrite <- !(assoc_L (++)) in *.
    cbn [app] in *. cbn [decodeValue]. rewrite (proj2 (Z.ltb_ge _ _)) by done.
    rewrite decodeDict_reads_back with (l := sorted_pairs m).
    + by rewrite list_to_map_sorted_pairs, (right_id_L ∅ (∪)).
    + intros [k x] Hk%elem_of_sorted_pairs. eauto.
    + rewrite sorted_pairs_keys. apply sorted_keys_strict.
    + intros k x Hk%elem_of_sorted_pairs. eauto.
    + intros. apply lookup_empty.
    + by left.
    + rewrite map_size_empty, length_sorted_pairs. lia.
    + done.
    + cbn [length] in Hfuel. lia.
Qed.

(** ** Soundness of the decoder *)

(** What is left after a successful step is a proper suffix of the input. *)
Definition consumes (data rest : bytes) : Prop := exists p, p <> [] /\ data = p ++ rest.

Lemma consumes_length data rest : consumes data rest -> (length rest < length data)%nat.
Proof. intros ([|b p] & Hp & ->); [done|]. rewrite length_app. simpl. lia. Qed.

Lemma consumes_cons c rest : consumes (c :: rest) rest.
Proof. by exists [c]. Qed.

Lemma consumes_trans a b c : consumes a b -> consumes b c -> consumes a c.
Proof.
  intros (p & Hp & ->) (q & Hq & ->). exists (p ++ q). rewrite (assoc_L (++)).
  split; [|done]. by destruct p.
Qed.

Lemma consumes_slice data a :
  0 < a <= len data -> consumes data (slice data a (len data)).
Proof.
  intros Ha. destruct (slice_to_end data a ltac:(lia)) as (p & E & Hp).
  exists p. split; [|done]. intros ->. simpl in Hp. lia.
Qed.

Lemma find_colon_range data i j : find_colon data i = Ok j -> i <= j < i + len data.
Proof.
  revert i. induction data as [|b data IH]; intros i H; [done|].
  cbn [find_colon] in H. repeat case_match; simplify_eq; cbn [length]; [lia|].
  apply IH in H. lia.
Qed.

Lemma decodeString_sound data s rest :
  decodeString data = Ok (s, rest) -> len s <= MaxStringLength /\ consumes data rest.
Proof.
  unfold decodeString. intros H. apply bind_ok_inv in H as (j & Hj & H).
  apply find_colon_range in Hj.
  destruct (parse_int64 _) as [n|]; [|done].
  destruct (Z.ltb_spec n 0); [done|]. destruct (Z.ltb_spec MaxStringLength n); [done|].
  destruct (Z.ltb_spec (len data) (j + 1 + n)); [done|]. injection H as <- <-.
  rewrite length_slice by lia. split; [lia | apply consumes_slice; lia].
Qed.

Lemma find_e_range data i j : find_e data i = Some j -> i <= j < i + len data.
Proof.
  revert i. induction data as [|b data IH]; intros i H; [done|].
  cbn [find_e] in H. case_match; simplify_eq; cbn [length]; [lia|].
  apply IH in H. lia.
Qed.

Lemma decodeInt_sound data n rest :
  decodeInt data = Ok (n, rest) -> data <> [] -> in_i64 n /\ consumes data rest.
Proof.
  unfold decodeInt. intros H Hne.
  assert (1 <= len data) by (destruct data; [done | simpl length; lia]).
  destruct (find_e _ 1) as [j|] eqn:Ej; [|done]. apply find_e_range in Ej.
  rewrite length_slice in Ej by lia.
  repeat case_match; simplify_eq. split; [by eapply parse_int64_range|].
  apply consumes_slice. lia.
Qed.

Lemma items_app l1 l2 : items (AList (l1 ++ l2)) = items (AList l1) + items (AList l2).
Proof. cbn [items]. rewrite foldr_app. induction l1; simpl; lia. Qed.

Lemma items_insert_le (m : gmap bytes any) (k : bytes) (x : any) :
  items (AMap (<[k := x]> m)) <= items (AMap m) + 1 + items x.
Proof.
  assert (Hins : forall m' : gmap bytes any, m' !! k = None ->
            items (AMap (<[k := x]> m')) = items (AMap m') + 1 + items x).
  { intros m' Hk. cbn [items]. rewrite map_fold_insert_L; [lia| |done]. intros. lia. }
  destruct (m !! k) as [y|] eqn:Hk; [|rewrite Hins by done; lia].
  rewrite <- insert_delete_eq, Hins by apply lookup_delete_eq.
  rewrite <- (insert_delete_id m k y Hk) at 2.
  assert (items (AMap (<[k := y]> (delete k m))) = items (AMap (delete k m)) + 1 + items y).
  { cbn [items]. rewrite map_fold_insert_L; [lia| |apply lookup_delete_eq]. intros. lia. }
  pose proof (items_nonneg y). lia.
Qed.

(** Outcome of one decoding step started with the counter at [total]. *)
Definition sound_step (depth total base : Z) (data : bytes) (out : any * bytes * Z) : Prop :=
  let '(v, rest, total') := out in
  fits depth v /\ total + items v <= total' + base /\
  (total <= MaxTotalItems -> total' <= MaxTotalItems) /\ consumes data rest.

Lemma fits_list_snoc d l x :
  fits d (AList l) -> fits (d + 1) x -> len l < MaxCollectionSize -> fits d (AList (l ++ [x])).
Proof.
  inversion 1; subst. intros Hx Hl. constructor; [done|rewrite length_app; simpl; lia|].
  intros y [?|Hy%list_elem_of_singleton]%elem_of_app; subst; auto.
Qed.

Lemma fits_empty_map d : d <= MaxDecodeDepth -> fits d (AMap ∅).
Proof.
  intros Hd. constructor; [done|by vm_compute|..]; intros k x; by rewrite lookup_empty.
Qed.

Lemma fits_map_insert (d : Z) (m : gmap bytes any) (k : bytes) (x : any) :
  fits d (AMap m) -> fits (d + 1) x -> len k <= MaxStringLength ->
  Z.of_nat (size m) < MaxCollectionSize -> fits d (AMap (<[k := x]> m)).
Proof.
  inversion 1; subst. intros Hx Hk Hm. constructor; [done| | |].
  - rewrite map_size_insert. destruct (m !! k); unfold id; lia.
  - intros k' x' [[<- <-]|[_ ?]]%lookup_insert_Some; eauto.
  - intros k' x' [[<- <-]|[_ ?]]%lookup_insert_Some; eauto.
Qed.

Lemma decode_sound fuel :
  (forall data depth total out,
    decodeValue fuel data depth total = Ok out -> sound_step depth total 0 data out) /\
  (forall rest acc depth total out,
    decodeList fuel rest acc depth total = Ok out -> fits depth (AList acc) ->
    sound_step depth total (items (AList acc)) rest out) /\
  (forall rest dict prev depth total out,
    decodeDict fuel rest dict prev depth total = Ok out -> fits depth (AMap dict) ->
    sound_step depth total (items (AMap dict)) rest out).
Proof.
  induction fuel as [|fuel (IHv & IHl & IHd)]; [done|]. split_and!.
  - intros [|c rest] depth total out H; [done|]. cbn [decodeValue] in H.
    destruct (Z.ltb_spec MaxDecodeDepth depth); [done|].
    destruct (Byte.eqb c x69).
    { apply bind_ok_inv in H as ([n r] & E & H). injection H as <-.
      apply decodeInt_sound in E as [? ?]; [|done]. simpl. split_and!; [by constructor|lia|lia|done]. }
    destruct (Byte.eqb c x6c).
    { apply IHl in H; [|constructor; [done|done|set_solver]].
      destruct out as [[v r] t']. destruct H as (? & ? & ? & ?). simpl in *.
      split_and!; [done|lia|done|]. eapply consumes_trans; [apply consumes_cons|done]. }
    destruct (Byte.eqb c x64).
    { apply IHd in H; [|constructor; [done|by rewrite map_size_empty|set_solver|set_solver]].
      destruct out as [[v r] t']. destruct H as (? & ? & ? & ?). cbn [items] in *.
      rewrite map_fold_empty in *.
      split_and!; [done|lia|done|]. eapply consumes_trans; [apply consumes_cons|done]. }
    destruct (is_digit c); [|done].
    apply bind_ok_inv in H as ([s r] & E & H). injection H as <-.
    apply decodeString_sound in E as [? ?]. simpl. split_and!; [by constructor|lia|lia|done].
  - intros [|c rest] acc depth total out H Hacc; [done|]. cbn [decodeList] in H.
    destruct (Byte.eqb c x65).
    { injection H as <-. split_and!; [done|lia|done|apply consumes_cons]. }
    destruct (Z.leb_spec MaxCollectionSize (len acc)); [done|].
    destruct (Z.ltb_spec MaxTotalItems (total + 1)); [done|].
    apply bind_ok_inv in H as ([[x r] t1] & E & H).
    apply IHv in E as (? & ? & ? & ?). apply IHl in H; [|by apply fits_list_snoc].
    destruct out as [[v r'] t']. destruct H as (? & ? & ? & ?).
    rewrite items_app in *. cbn [items foldr] in *.
    split_and!; [done|lia|lia|by eapply consumes_trans].
  - intros [|c rest] dict prev depth total out H Hdict; [done|]. cbn [decodeDict] in H.
    destruct (Byte.eqb c x65).
    { injection H as <-. split_and!; [done|lia|done|apply consumes_cons]. }
    destruct (Z.leb_spec MaxCollectionSize (Z.of_nat (size dict))); [done|].
    destruct (Z.ltb_spec MaxTotalItems (total + 1)); [done|].
    destruct (negb (is_digit c)); [done|].
    apply bind_ok_inv in H as ([k r1] & E1 & H). apply decodeString_sound in E1 as [? ?].
    destruct ((0 <? Z.of_nat (size dict)) && bytes_ltb k prev); [done|].
    destruct (bool_decide (r1 = [])); [done|].
    apply bind_ok_inv in H as ([[x r2] t1] & E & H).
    apply IHv in E as (? & ? & ? & ?). apply IHd in H; [|by apply fits_map_insert].
    destruct out as [[v r'] t']. destruct H as (? & ? & ? & ?).
    pose proof (items_insert_le dict k x).
    split_and!; [done|lia|lia|by do 2 (eapply consumes_trans; [done|])].
Qed.

(** ** The fuel suffices *)

Lemma find_colon_fuel data i : find_colon data i <> Err OutOfFuel.
Proof.
  revert i. induction data as [|b data IH]; intros i; cbn [find_colon]; [done|].
  repeat case_match; done.
Qed.

Lemma decodeString_fuel data : decodeString data <> Err OutOfFuel.
Proof.
  unfold decodeString. pose proof (find_colon_fuel data 0).
  destruct (find_colon data 0) as [j|e]; cbn [mbind result_bind]; [|congruence].
  repeat case_match; done.
Qed.

Lemma decodeInt_fuel data : decodeInt data <> Err OutOfFuel.
Proof. unfold decodeInt. repeat case_match; done. Qed.

Lemma decode_fuel_suffices fuel :
  (forall data depth total, (2 * length data + 1 <= fuel)%nat ->
    decodeValue fuel data depth total <> Err OutOfFuel) /\
  (forall rest acc depth total, (2 * length rest + 2 <= fuel)%nat ->
    decodeList fuel rest acc depth total <> Err OutOfFuel) /\
  (forall rest dict prev depth total, (2 * length rest + 2 <= fuel)%nat ->
    decodeDict fuel rest dict prev depth total <> Err OutOfFuel).
Proof.
  induction fuel as [|fuel (IHv & IHl & IHd)]; [split_and!; intros; lia|].
  assert (Hnext : forall data depth total x r t,
    decodeValue fuel data depth total = Ok (x, r, t) -> (length r < length data)%nat).
  { intros * H. apply (proj1 (decode_sound fuel)) in H as (_ & _ & _ & H).
    by apply consumes_length. }
  split_and!.
  - intros [|c rest] depth total Hf; [done|]. cbn [decodeValue length] in *.
    repeat (case_match; try done); try (apply IHl; lia); try (apply IHd; lia).
    + pose proof (decodeInt_fuel (c :: rest)). destruct (decodeInt _) as [[]|]; [done|].
      cbn [mbind result_bind]. congruence.
    + pose proof (decodeString_fuel (c :: rest)). destruct (decodeString _) as [[]|]; [done|].
      cbn [mbind result_bind]. congruence.
  - intros [|c rest] acc depth total Hf; [done|]. cbn [decodeList].
    do 3 (case_match; [done|]).
    pose proof (IHv (c :: rest) (depth + 1) (total + 1) ltac:(lia)).
    destruct (decodeValue _ _ _ _) as [[[x r] t]|] eqn:E; cbn [mbind result_bind]; [|congruence].
    apply Hnext in E. apply IHl. lia.
  - intros [|c rest] dict prev depth total Hf; [done|]. cbn [decodeDict].
    do 4 (case_match; [done|]).
    pose proof (decodeString_fuel (c :: rest)).
    destruct (decodeString _) as [[k r1]|] eqn:E1; cbn [mbind result_bind]; [|congruence].
    do 2 (case_match; [done|]).
    apply decodeString_sound in E1 as [_ E1%consumes_length].
    pose proof (IHv r1 (depth + 1) (total + 1) ltac:(lia)).
    destruct (decodeValue _ _ _ _) as [[[x r] t]|] eqn:E; cbn [mbind result_bind]; [|congruence].
    apply Hnext in E. apply IHd. lia.
Qed.

(** ** Whole-input facts, the codec's interface to its clients *)

Lemma Decode_enc v rest :
  fits 0 v -> items v <= MaxTotalItems -> Decode (enc v ++ rest) = Ok v.
Proof.
  intros Hf Hi. unfold Decode.
  rewrite (enc_reads_back v) by (auto; unfold decode_fuel; lia). done.
Qed.

Lemma DecodeBytes_enc v rest :
  fits 0 v -> items v <= MaxTotalItems -> DecodeBytes (enc v ++ rest) = Ok (v, len (enc v)).
Proof.
  intros Hf Hi. unfold DecodeBytes.
  rewrite (enc_reads_back v) by (auto; unfold decode_fuel; lia).
  cbn [mbind result_bind]. rewrite length_app. do 2 f_equal. lia.
Qed.

Lemma Encode_enc v : supported v -> Encode v = Ok (enc v).
Proof. intros Hv. unfold Encode. by rewrite encodeValue_enc. Qed.

Lemma Decode_fits data v : Decode data = Ok v -> fits 0 v /\ items v <= MaxTotalItems.
Proof.
  unfold Decode. intros H. apply bind_ok_inv in H as ([[x r] t] & E & H).
  injection H as ->. apply (proj1 (decode_sound _)) in E as (? & ? & Ht & ?).
  split; [done|]. specialize (Ht ltac:(done)). lia.
Qed.

(** What the codec promises to the packages that put values on the wire. *)
Class Codec (A E : Type) (dom : A -> Prop) (put : A -> bytes) (get : bytes -> result E A) : Prop :=
  codec_roundtrip a : dom a -> get (put a) = Ok a.

#[export] Instance bencode_codec :
  Codec any decode_error (fun v => fits 0 v /\ items v <= MaxTotalItems) enc Decode.
Proof. intros v [Hf Hi]. rewrite <- (app_nil_r (enc v)). by apply Decode_enc. Qed.

(** Decide [fits] for a concrete value built from map and list literals. *)
Ltac fits_tac :=
  lazymatch goal with
  | |- fits _ (AStr _) => apply fits_str; by vm_compute
  | |- fits _ (AInt64 _) => apply fits_int; [|split]; by vm_compute
  | |- fits _ (AMap ∅) => apply fits_empty_map; by vm_compute
  | |- fits _ (AMap (<[_ := _]> _)) =>
      apply fits_map_insert; [fits_tac|fits_tac|by vm_compute|by vm_compute]
  | |- fits _ (AMap {[_ := _]}) => rewrite <- insert_empty; fits_tac
  | |- fits _ (AList _) =>
      apply fits_list; [by vm_compute|by vm_compute|apply Forall_forall;
        repeat (apply Forall_cons; split); [fits_tac..|by apply Forall_nil] ]
  end.
