(* ===== verification/BencodeTheorems.v ===== *)
(** * The codec's properties *)

From S2P Require Import Prelude Strconv Bencode BencodeFacts.
Local Open Scope Z_scope.

(** C22: a value within the decoder's limits (string lengths, collection sizes,
    nesting depth, total number of items, 64-bit integers) is encoded without
    error, and decoding the encoding, whatever bytes follow it, gives the value
    back and consumes exactly the encoding. *)
Theorem Bencode_roundtrip (v : any) :
  fits 0 v -> items v <= MaxTotalItems ->
  exists b, Encode v = Ok b /\
    forall rest, Decode (b ++ rest) = Ok v /\ DecodeBytes (b ++ rest) = Ok (v, len b).
Proof.
  intros Hf Hi. exists (enc v). split; [apply Encode_enc; by eapply fits_supported|].
  intros rest. split; [by apply Decode_enc | by apply DecodeBytes_enc].
Qed.

Lemma Bencode_roundtrip_witness :
  exists b, Encode (AMap (<[lit "a" := AList [AInt64 (-7); AStr (lit "xy")]]> ∅)) = Ok b /\
    forall rest,
      Decode (b ++ rest) = Ok (AMap (<[lit "a" := AList [AInt64 (-7); AStr (lit "xy")]]> ∅)) /\
      DecodeBytes (b ++ rest) =
        Ok (AMap (<[lit "a" := AList [AInt64 (-7); AStr (lit "xy")]]> ∅), len b).
Proof.
  apply Bencode_roundtrip; [|by vm_compute].
  constructor; [done|by vm_compute| |].
  - intros k x [[<- <-]|[_ H]]%lookup_insert_Some; [by vm_compute|by rewrite lookup_empty in H].
  - intros k x [[<- <-]|[_ H]]%lookup_insert_Some; [|by rewrite lookup_empty in H].
    constructor; [done|done|].
    intros y [->|[->|Hy%elem_of_nil]%elem_of_cons]%elem_of_cons; [| |done].
    + constructor; [done|]. unfold in_i64, MinInt64, MaxInt64. lia.
    + constructor; [done|]. by vm_compute.
Defined.

(** Whatever [Decode] accepts can be encoded again, and the encoding (which
    need not be the input) decodes to the same value: re-encoding a decoded
    dictionary, as [torrent.Parse] does for the info hash, is meaningful. *)
Lemma Decode_reencodes (data : bytes) (v : any) :
  Decode data = Ok v -> exists b, Encode v = Ok b /\ Decode b = Ok v.
Proof.
  intros [Hf Hi]%Decode_fits. exists (enc v).
  split; [apply Encode_enc; by eapply fits_supported|].
  rewrite <- (app_nil_r (enc v)). by apply Decode_enc.
Qed.

Lemma Decode_reencodes_witness :
  exists b, Encode (AList [AInt64 5; AStr (lit "abc")]) = Ok b /\
            Decode b = Ok (AList [AInt64 5; AStr (lit "abc")]).
Proof. apply (Decode_reencodes (lit "li+5e03:abce")). by vm_compute. Defined.

(** The limits hold of every decoded value: no string above 64 MB, no
    collection above a million entries, nesting at most 100, at most two
    million items in all, integers in [int64]; and [DecodeBytes] reports at
    least one and at most all of the input bytes as consumed. *)
Lemma Decode_within_limits (data : bytes) (v : any) (n : Z) :
  DecodeBytes data = Ok (v, n) ->
  fits 0 v /\ items v <= MaxTotalItems /\ 0 < n <= len data.
Proof.
  unfold DecodeBytes. intros H. apply bind_ok_inv in H as ([[x r] t] & E & H).
  injection H as -> <-. apply (proj1 (decode_sound _)) in E as (? & ? & Ht & Hc).
  specialize (Ht ltac:(done)). apply consumes_length in Hc. split_and!; [done|lia|lia|lia].
Qed.

Lemma Decode_within_limits_witness :
  fits 0 (AStr (lit "spam")) /\ items (AStr (lit "spam")) <= MaxTotalItems /\ 0 < 6 <= 9.
Proof. apply (Decode_within_limits (lit "4:spami1e")). by vm_compute. Defined.

(** C23: decoding terminates on every input with a value or with one of the
    package's two errors; the model's fuel is never exhausted. *)
Theorem Decode_total (data : bytes) :
  (exists v, Decode data = Ok v) \/
  Decode data = Err ErrUnexpectedEnd \/ Decode data = Err ErrInvalidFormat.
Proof.
  assert (H : decodeValue (decode_fuel data) data 0 0 <> Err OutOfFuel).
  { apply (proj1 (decode_fuel_suffices _)). unfold decode_fuel. lia. }
  unfold Decode. destruct (decodeValue _ _ _ _) as [[[v r] t]|[]];
    cbn [mbind result_bind]; eauto; congruence.
Qed.

(** The encoder fails exactly on the values that contain a dynamic type it
    does not support, and otherwise emits the canonical form of the value
    (dictionary keys in increasing order, shortest numerals). *)
Lemma Encode_spec (v : any) :
  (Encode v = Err UnsupportedType <-> ~ supported v) /\
  (supported v -> Encode v = Ok (enc v)).
Proof.
  split; [|apply Encode_enc]. split.
  - intros H Hs. rewrite Encode_enc in H by done. discriminate.
  - intros Hs. destruct (Encode v) as [b|[]] eqn:E; [|done].
    destruct Hs. by eapply encodeValue_supported.
Qed.

Lemma Encode_spec_witness :
  Encode (AList [AInt 3; AOther]) = Err UnsupportedType /\ Encode (AInt 3) = Ok (lit "i3e").
Proof.
  split.
  - apply (proj1 (Encode_spec (AList [AInt 3; AOther]))). inversion 1 as [| | | |l Hl|]; subst.
    assert (Ho : supported AOther) by (apply Hl; right; left). inversion Ho.
  - apply (proj2 (Encode_spec (AInt 3))). constructor.
Defined.

(** [Decode] is not injective: a sign, and leading zeros in a string length or
    after a plus sign, are accepted although leading zeros of a plain integer
    are rejected. *)
Lemma Decode_noncanonical :
  Decode (lit "i+05e") = Ok (AInt64 5) /\ Decode (lit "i05e") = Err ErrInvalidFormat /\
  Decode (lit "03:abc") = Ok (AStr (lit "abc")) /\
  Encode (AInt64 5) = Ok (lit "i5e") /\ Encode (AStr (lit "abc")) = Ok (lit "3:abc").
Proof. split_and!; by vm_compute. Qed.
