(* ===== verification/Bitfield.v ===== *)
(** * [peer.Bitfield] ([peer/message.go])

    One bit per piece, most significant bit of byte 0 first. *)

From S2P Require Import Prelude.
Local Open Scope Z_scope.

Abbreviation Bitfield := bytes.

Definition HasPiece (bf : Bitfield) (index : Z) : bool :=
  if index <? 0 then false
  else
    let byteIndex := index / 8 in
    let offset := index mod 8 in
    if len bf <=? byteIndex then false
    else match bf !! Z.to_nat byteIndex with
         | Some b => negb (Z.land (Z.shiftr (u8 b) (7 - offset)) 1 =? 0)
         | None => false
         end.

(** The receiver is updated in place: the result is the returned flag and the
    new contents. *)
Definition SetPiece (bf : Bitfield) (index : Z) : bool * Bitfield :=
  if index <? 0 then (false, bf)
  else
    let byteIndex := index / 8 in
    let offset := index mod 8 in
    if len bf <=? byteIndex then (false, bf)
    else match bf !! Z.to_nat byteIndex with
         | Some b =>
             (true, <[Z.to_nat byteIndex :=
                       byte_of_Z (Z.lor (u8 b) (Z.shiftl 1 (7 - offset)))]> bf)
         | None => (false, bf)
         end.

(** An empty bitfield for [n] pieces: [make(peer.Bitfield, (n+7)/8)]. *)
Definition new_bitfield (n : Z) : Bitfield := replicate (Z.to_nat ((n + 7) / 8)) x00.

Section Facts.
Implicit Types bf : Bitfield.

(** [HasPiece] tests one bit of the byte string. *)
Lemma HasPiece_testbit bf i :
  HasPiece bf i =
    ((0 <=? i) &&
     match bf !! Z.to_nat (i / 8) with Some b => Z.testbit (u8 b) (7 - i mod 8) | None => false end).
Proof.
  unfold HasPiece. destruct (Z.ltb_spec i 0).
  { by rewrite (proj2 (Z.leb_gt 0 i)) by lia. }
  rewrite (proj2 (Z.leb_le 0 i)) by lia. simpl.
  pose proof (Z.div_pos i 8 ltac:(lia) ltac:(lia)).
  destruct (Z.leb_spec (len bf) (i / 8)) as [Hle|Hlt].
  { rewrite lookup_ge_None_2 by lia. done. }
  destruct (bf !! Z.to_nat (i / 8)) as [b|] eqn:E; [|done].
  pose proof (Z.mod_pos_bound i 8 ltac:(lia)).
  rewrite Z.testbit_odd.
  assert (Z.land (Z.shiftr (u8 b) (7 - i mod 8)) 1 = Z.shiftr (u8 b) (7 - i mod 8) mod 2) as ->
    by (apply (Z.land_ones _ 1); lia).
  rewrite Zmod_odd.
  destruct (Z.odd (Z.shiftr (u8 b) (7 - i mod 8))); done.
Qed.

Lemma SetPiece_in_range bf i :
  0 <= i < 8 * len bf ->
  exists b, bf !! Z.to_nat (i / 8) = Some b /\
    SetPiece bf i =
      (true, <[Z.to_nat (i / 8) := byte_of_Z (Z.lor (u8 b) (Z.shiftl 1 (7 - i mod 8)))]> bf).
Proof.
  intros Hi. unfold SetPiece. rewrite (proj2 (Z.ltb_ge i 0)) by lia.
  assert (0 <= i / 8 < len bf).
  { split; [apply Z.div_pos; lia | apply Z.div_lt_upper_bound; lia]. }
  rewrite (proj2 (Z.leb_gt _ _)) by lia.
  destruct (lookup_lt_is_Some_2 bf (Z.to_nat (i / 8)) ltac:(lia)) as [b ->]. eauto.
Qed.

Lemma SetPiece_out_of_range bf i : ~ 0 <= i < 8 * len bf -> SetPiece bf i = (false, bf).
Proof.
  intros Hi. unfold SetPiece. destruct (Z.ltb_spec i 0); [done|].
  destruct (Z.leb_spec (len bf) (i / 8)) as [|Hlt]; [done|].
  pose proof (Z.mul_div_le i 8 ltac:(lia)). pose proof (Z.mod_pos_bound i 8 ltac:(lia)).
  pose proof (Z.div_mod i 8 ltac:(lia)). lia.
Qed.

Lemma SetPiece_flag bf i : (SetPiece bf i).1 = true <-> 0 <= i < 8 * len bf.
Proof.
  destruct (decide (0 <= i < 8 * len bf)) as [H|H].
  - destruct (SetPiece_in_range bf i H) as (b & _ & ->). done.
  - rewrite SetPiece_out_of_range by done. simpl. split; [done|tauto].
Qed.

Lemma SetPiece_length bf i : length (SetPiece bf i).2 = length bf.
Proof.
  destruct (decide (0 <= i < 8 * len bf)) as [H|H].
  - destruct (SetPiece_in_range bf i H) as (b & _ & ->). apply length_insert.
  - by rewrite SetPiece_out_of_range.
Qed.

Lemma setbit_byte b p :
  0 <= p < 8 -> u8 (byte_of_Z (Z.lor (u8 b) (Z.shiftl 1 p))) = Z.lor (u8 b) (Z.shiftl 1 p).
Proof.
  intros Hp. rewrite u8_byte_of_Z. change 256 with (2 ^ 8).
  rewrite <- Z.land_ones by lia. apply Z.bits_inj'. intros n Hn.
  rewrite Z.land_spec, Z.lor_spec. destruct (Z.ltb_spec n 8).
  - rewrite Z.ones_spec_low by lia. apply andb_true_r.
  - rewrite Z.ones_spec_high, andb_false_r by lia.
    rewrite Z.shiftl_spec, (Z.bits_above_log2 1) by (simpl; lia). rewrite orb_false_r.
    symmetry. pose proof (u8_range b). destruct (Z.eq_dec (u8 b) 0) as [->|]; [apply Z.bits_0|].
    apply Z.bits_above_log2; [lia|]. apply Z.log2_lt_pow2; [lia|].
    apply Z.lt_le_trans with (2 ^ 8); [lia|]. apply Z.pow_le_mono_r; lia.
Qed.

(** Setting a bit sets that bit and no other. *)
Lemma HasPiece_SetPiece bf i j :
  HasPiece (SetPiece bf i).2 j = HasPiece bf j || ((SetPiece bf i).1 && (j =? i)).
Proof.
  destruct (decide (0 <= i < 8 * len bf)) as [Hi|Hi]; last first.
  { rewrite SetPiece_out_of_range by done. simpl. by rewrite orb_false_r. }
  destruct (SetPiece_in_range bf i Hi) as (b & Hb & ->). simpl.
  rewrite !HasPiece_testbit. destruct (Z.leb_spec 0 j); simpl; last first.
  { destruct (Z.eqb_spec j i); [lia|done]. }
  pose proof (Z.mod_pos_bound i 8 ltac:(lia)). pose proof (Z.mod_pos_bound j 8 ltac:(lia)).
  pose proof (Z.div_mod i 8 ltac:(lia)). pose proof (Z.div_mod j 8 ltac:(lia)).
  pose proof (Z.div_pos i 8 ltac:(lia) ltac:(lia)). pose proof (Z.div_pos j 8 ltac:(lia) ltac:(lia)).
  destruct (decide (i / 8 = j / 8)) as [E|E].
  - rewrite <- E, list_lookup_insert_eq, Hb by (eapply lookup_lt_Some; exact Hb).
    rewrite setbit_byte, Z.lor_spec, Z.shiftl_spec by lia. f_equal.
    destruct (Z.eqb_spec j i) as [->|].
    { by rewrite Z.sub_diag. }
    destruct (Z.ltb_spec (7 - j mod 8) (7 - i mod 8)).
    { apply Z.testbit_neg_r. lia. }
    apply Z.bits_above_log2; simpl; lia.
  - rewrite list_lookup_insert_ne by lia.
    destruct (Z.eqb_spec j i) as [->|]; [done|]. by rewrite orb_false_r.
Qed.

Lemma HasPiece_range bf i : HasPiece bf i = true -> 0 <= i < 8 * len bf.
Proof.
  rewrite HasPiece_testbit. intros H. bool_prop.
  destruct (bf !! _) as [b|] eqn:E; [|done]. apply lookup_lt_Some in E.
  pose proof (Z.div_mod i 8 ltac:(lia)). pose proof (Z.mod_pos_bound i 8 ltac:(lia)).
  pose proof (Z.div_pos i 8 ltac:(lia) ltac:(lia)). lia.
Qed.

Lemma HasPiece_new n i : HasPiece (new_bitfield n) i = false.
Proof.
  rewrite HasPiece_testbit. unfold new_bitfield.
  destruct (replicate _ _ !! _) as [b|] eqn:E; [|by rewrite andb_false_r].
  apply lookup_replicate in E as [-> _]. rewrite Z.bits_0. apply andb_false_r.
Qed.

Lemma length_new_bitfield n : 0 <= n -> n <= 8 * len (new_bitfield n) < n + 8.
Proof.
  intros Hn. unfold new_bitfield. rewrite length_replicate.
  pose proof (Z.div_pos (n + 7) 8 ltac:(lia) ltac:(lia)).
  pose proof (Z.div_mod (n + 7) 8 ltac:(lia)). pose proof (Z.mod_pos_bound (n + 7) 8 ltac:(lia)). lia.
Qed.
End Facts.

#[export] Hint Rewrite HasPiece_SetPiece SetPiece_length HasPiece_new : stor.

(** On a bitfield [SetPiece] succeeds exactly for an index the bitfield has
    room for, keeps the length, sets that piece's bit and changes no other, and
    leaves the bitfield alone when it fails. *)
Lemma SetPiece_spec (bf : Bitfield) (i : Z) :
  let '(ok, bf') := SetPiece bf i in
  (ok = true <-> 0 <= i < 8 * len bf) /\ length bf' = length bf /\
  (ok = false -> bf' = bf) /\
  forall j, HasPiece bf' j = HasPiece bf j || (ok && (j =? i)).
Proof.
  pose proof (SetPiece_flag bf i). pose proof (SetPiece_length bf i).
  pose proof (HasPiece_SetPiece bf i).
  destruct (decide (0 <= i < 8 * len bf)) as [Hi|Hi].
  - destruct (SetPiece bf i) as [ok bf']; simpl in *. split_and!; try done.
    intros ->. apply (proj2 H) in Hi. done.
  - rewrite SetPiece_out_of_range in * by done. done.
Qed.
