(* ===== verification/Wire.v ===== *)
(** * The peer wire protocol ([peer/message.go], [peer/handshake.go])

    An [io.Reader] is the list of the bytes it still delivers before the end of
    the stream; a writer's output is the list of bytes it wrote. *)

From S2P Require Import Prelude BencodeFacts.
Local Open Scope Z_scope.

(** ** Streams *)

Inductive io_error := EOF | ErrUnexpectedEOF.

#[export] Instance io_error_eq_dec : EqDecision io_error.
Proof. solve_decision. Defined.

(** [io.ReadFull(r, buf)] with [len(buf) = n]: the bytes read and the reader. *)
Definition ReadFull (r : bytes) (n : Z) : result io_error (bytes * bytes) :=
  if n <=? len r then Ok (slice r 0 n, slice r n (len r))
  else if bool_decide (r = []) then Err EOF else Err ErrUnexpectedEOF.

(** ** Messages *)

Definition MsgChoke : Z := 0.
Definition MsgUnchoke : Z := 1.
Definition MsgInterested : Z := 2.
Definition MsgNotInterested : Z := 3.
Definition MsgHave : Z := 4.
Definition MsgBitfield : Z := 5.
Definition MsgRequest : Z := 6.
Definition MsgPiece : Z := 7.
Definition MsgCancel : Z := 8.
Definition MsgSuggest : Z := 13.
Definition MsgHaveAll : Z := 14.
Definition MsgHaveNone : Z := 15.
Definition MsgReject : Z := 16.
Definition MsgAllowedFast : Z := 17.

Record Message := mkMessage { ID : byte; Payload : bytes }.

#[export] Instance Message_eq_dec : EqDecision Message.
Proof. solve_decision. Defined.

(** A message whose ID is one of the [uint8] constants above. *)
Definition message (id : Z) (payload : bytes) : Message := mkMessage (byte_of_Z id) payload.

Inductive read_error := ReadIO (e : io_error) | MessageTooLarge (length : Z).

#[export] Instance read_error_eq_dec : EqDecision read_error.
Proof. solve_decision. Defined.

Definition max_message : Z := 4 * 1024 * 1024.

(** A keep-alive is the message [None] ([nil, nil] in Go). *)
Definition ReadMessage (r : bytes) : result read_error (option Message * bytes) :=
  '(lenBuf, r) ← map_err ReadIO (ReadFull r 4);
  let length := be_get lenBuf in
  if length =? 0 then Ok (None, r)
  else if max_message <? length then Err (MessageTooLarge length)
  else
    '(buf, r) ← map_err ReadIO (ReadFull r length);
    match buf with
    | id :: payload => Ok (Some (mkMessage id payload), r)
    | [] => Ok (None, r) (* not reached: [length > 0] *)
    end.

(** The bytes [m.Write] puts on the wire in its single write. *)
Definition Write (m : Message) : bytes :=
  let length := 1 + len (Payload m) in
  be_put 4 length ++ ID m :: Payload m.

Definition WriteKeepAlive : bytes := [x00; x00; x00; x00].

Definition NewRequestMessage (index begin length : Z) : Message :=
  message MsgRequest (be_put 4 index ++ be_put 4 begin ++ be_put 4 length).
Definition NewHaveMessage (index : Z) : Message := message MsgHave (be_put 4 index).
Definition NewPieceMessage (index begin : Z) (block : bytes) : Message :=
  message MsgPiece (be_put 4 index ++ be_put 4 begin ++ block).
Definition NewCancelMessage (index begin length : Z) : Message :=
  message MsgCancel (be_put 4 index ++ be_put 4 begin ++ be_put 4 length).
Definition NewRejectMessage (index begin length : Z) : Message :=
  message MsgReject (be_put 4 index ++ be_put 4 begin ++ be_put 4 length).
Definition NewAllowedFastMessage (index : Z) : Message :=
  message MsgAllowedFast (be_put 4 index).

(** The one error of the payload parsers, with the length they complain about. *)
Inductive payload_error := BadPayloadLength (n : Z).

#[export] Instance payload_error_eq_dec : EqDecision payload_error.
Proof. solve_decision. Defined.

Definition ParseRequest (payload : bytes) : result payload_error (Z * Z * Z) :=
  if len payload <? 12 then Err (BadPayloadLength (len payload))
  else Ok (be_get (slice payload 0 4), be_get (slice payload 4 8), be_get (slice payload 8 12)).

Definition ParsePiece (payload : bytes) : result payload_error (Z * Z * bytes) :=
  if len payload <? 8 then Err (BadPayloadLength (len payload))
  else Ok (be_get (slice payload 0 4), be_get (slice payload 4 8),
           slice payload 8 (len payload)).

Definition ParseHave (payload : bytes) : result payload_error Z :=
  if negb (len payload =? 4) then Err (BadPayloadLength (len payload))
  else Ok (be_get payload).

Definition ParseReject (payload : bytes) : result payload_error (Z * Z * Z) :=
  ParseRequest payload.
Definition ParseAllowedFast (payload : bytes) : result payload_error Z := ParseHave payload.

(** ** Handshake *)

Definition protocolID : bytes := lit "BitTorrent protocol".

(** [InfoHash] and [PeerID] are [[20]byte] arrays: [wf_handshake]. *)
Record Handshake := mkHandshake {
  InfoHash : bytes;
  PeerID : bytes;
  Extensions : bool;
  FastExtension : bool
}.

Definition wf_handshake (h : Handshake) : Prop :=
  length (InfoHash h) = 20%nat /\ length (PeerID h) = 20%nat.

(** [buf[i] |= m]. *)
Definition or_at (buf : bytes) (i : nat) (m : Z) : bytes :=
  <[i := byte_of_Z (Z.lor (u8 (default x00 (buf !! i))) m)]> buf.

Definition WriteHandshake (h : Handshake) : bytes :=
  let buf := replicate 68 x00 in
  let buf := <[0%nat := byte_of_Z 19]> buf in
  let buf := splice buf 1 protocolID in
  let buf := if Extensions h then or_at buf 25 0x10 else buf in
  let buf := if FastExtension h then or_at buf 27 0x04 else buf in
  let buf := splice buf 28 (InfoHash h) in
  splice buf 48 (PeerID h).

Inductive handshake_error := HandshakeRead (e : io_error) | BadPstrlen | BadProtocol.

Definition ReadHandshake (r : bytes) : result handshake_error (Handshake * bytes) :=
  '(buf, r) ← map_err HandshakeRead (ReadFull r 68);
  if negb (u8 (default x00 (buf !! 0%nat)) =? 19) then Err BadPstrlen
  else if negb (bool_decide (slice buf 1 20 = protocolID)) then Err BadProtocol
  else
    Ok (mkHandshake (slice buf 28 48) (slice buf 48 68)
          (negb (Z.land (u8 (default x00 (buf !! 25%nat))) 0x10 =? 0))
          (negb (Z.land (u8 (default x00 (buf !! 27%nat))) 0x04 =? 0)), r).

(** ** Facts *)

Section Streams.

Lemma ReadFull_app b r n : n = len b -> ReadFull (b ++ r) n = Ok (b, r).
Proof.
  intros ->. unfold ReadFull. rewrite length_app.
  rewrite (proj2 (Z.leb_le _ _)) by lia. rewrite slice_prefix by done.
  rewrite <- length_app, slice_suffix by done. done.
Qed.

Lemma ReadFull_ok r n b r' :
  ReadFull r n = Ok (b, r') -> 0 <= n -> r = b ++ r' /\ len b = n.
Proof.
  unfold ReadFull. destruct (Z.leb_spec n (len r)); [|by case_match].
  intros [= <- <-] Hn. destruct (slice_to_end r n ltac:(lia)) as (p & E & Hp).
  split.
  - rewrite E at 1. f_equal. rewrite E, slice_prefix by done. done.
  - rewrite length_slice; lia.
Qed.

Lemma ReadFull_short r n e : ReadFull r n = Err e -> len r < n.
Proof. unfold ReadFull. destruct (Z.leb_spec n (len r)); [done|lia]. Qed.
End Streams.

Section Messages.

Lemma ReadMessage_Write m r :
  1 + len (Payload m) <= max_message -> ReadMessage (Write m ++ r) = Ok (Some m, r).
Proof.
  intros Hm. unfold ReadMessage, Write. rewrite <- (assoc_L (++)).
  rewrite ReadFull_app by (by rewrite length_be_put). cbn [map_err mbind result_bind].
  unfold max_message in *. rewrite be_get_put_id by (simpl; lia).
  rewrite (proj2 (Z.eqb_neq _ _)) by lia. rewrite (proj2 (Z.ltb_ge _ _)) by lia.
  rewrite ReadFull_app by (cbn [length]; lia).
  destruct m; done.
Qed.

Lemma ReadMessage_KeepAlive r : ReadMessage (WriteKeepAlive ++ r) = Ok (None, r).
Proof. unfold ReadMessage. rewrite ReadFull_app by done. done. Qed.

(** An encoder for a queue of messages, keep-alives included. *)
Definition write_frame (m : option Message) : bytes :=
  match m with Some m => Write m | None => WriteKeepAlive end.

(** Reading [n] messages one after the other. *)
Fixpoint read_messages (n : nat) (r : bytes) : result read_error (list (option Message) * bytes) :=
  match n with
  | O => Ok ([], r)
  | S n =>
      '(m, r) ← ReadMessage r;
      '(ms, r) ← read_messages n r;
      Ok (m :: ms, r)
  end.

Definition small_frame (m : option Message) : Prop :=
  match m with Some m => 1 + len (Payload m) <= max_message | None => True end.

Lemma read_messages_frames ms r :
  Forall small_frame ms ->
  read_messages (length ms) (concat (write_frame <$> ms) ++ r) = Ok (ms, r).
Proof.
  induction 1 as [|m ms Hm Hms IH]; [done|].
  cbn [length read_messages fmap list_fmap concat]. rewrite <- (assoc_L (++)).
  assert (ReadMessage (write_frame m ++ concat (write_frame <$> ms) ++ r) =
          Ok (m, concat (write_frame <$> ms) ++ r)) as ->.
  { destruct m; [by apply ReadMessage_Write | apply ReadMessage_KeepAlive]. }
  cbn [mbind result_bind]. rewrite IH. done.
Qed.

(** A message that was read is one byte of ID and a payload below the limit,
    and the bytes read are exactly its encoding. *)
Lemma ReadMessage_sound r m r' :
  ReadMessage r = Ok (Some m, r') ->
  1 + len (Payload m) <= max_message /\ r = Write m ++ r'.
Proof.
  unfold ReadMessage. intros H. apply bind_ok_inv in H as ([lb r1] & E1 & H).
  apply map_err_ok_iff, ReadFull_ok in E1 as [-> Hlb]; [|done].
  destruct (Z.eqb_spec (be_get lb) 0) as [|Hnz]; [done|].
  destruct (Z.ltb_spec max_message (be_get lb)); [done|].
  apply bind_ok_inv in H as ([buf r2] & E2 & H).
  pose proof (be_get_range lb).
  apply map_err_ok_iff, ReadFull_ok in E2 as [-> Hbuf]; [|lia].
  destruct buf as [|id payload]; [done|]. injection H as <- <-. cbn [Payload length] in *.
  split; [lia|]. unfold Write. cbn [ID Payload]. rewrite <- (assoc_L (++)). cbn [app].
  replace (1 + len payload) with (be_get lb) by lia.
  rewrite be_put_get_len by lia. done.
Qed.
End Messages.

Section Payloads.

(** [uint32] arguments. *)
Definition u32 (z : Z) : Prop := 0 <= z < 2 ^ 32.

Lemma be_get_put4 z : u32 z -> be_get (be_put 4 z) = z.
Proof. intros H. apply be_get_put_id. exact H. Qed.

Lemma parse_request_put a b c :
  u32 a -> u32 b -> u32 c ->
  ParseRequest (be_put 4 a ++ be_put 4 b ++ be_put 4 c) = Ok (a, b, c).
Proof.
  intros Ha Hb Hc. unfold ParseRequest. rewrite !length_app, !length_be_put.
  cbn [Nat.add]. change (Z.of_nat 12 <? 12) with false. cbn iota.
  rewrite slice_prefix by (by rewrite length_be_put).
  rewrite slice_mid by (by rewrite ?length_be_put).
  rewrite (assoc_L (++)). rewrite <- (app_nil_r (be_put 4 c)) at 1.
  rewrite slice_mid by (by rewrite ?length_app, ?length_be_put).
  by rewrite !be_get_put4.
Qed.

Lemma parse_piece_put a b block :
  u32 a -> u32 b ->
  ParsePiece (be_put 4 a ++ be_put 4 b ++ block) = Ok (a, b, block).
Proof.
  intros Ha Hb. unfold ParsePiece. rewrite !length_app, !length_be_put.
  rewrite (proj2 (Z.ltb_ge _ _)) by lia.
  rewrite slice_prefix by (by rewrite length_be_put).
  rewrite slice_mid by (by rewrite ?length_be_put).
  replace (Z.of_nat (4 + (4 + length block))) with
    (len (be_put 4 a ++ be_put 4 b ++ block)) by (by rewrite !length_app, !length_be_put).
  rewrite (assoc_L (++)), slice_suffix by (by rewrite length_app, !length_be_put).
  by rewrite !be_get_put4.
Qed.

Lemma parse_have_put a : u32 a -> ParseHave (be_put 4 a) = Ok a.
Proof. intros Ha. unfold ParseHave. rewrite length_be_put.
  change (negb (Z.of_nat 4 =? 4)) with false. cbn iota. by rewrite be_get_put4. Qed.
End Payloads.

Section HandshakeFacts.

(** A list of known length is that many bytes. *)
Ltac explode l :=
  match goal with
  | H : length l = O |- _ => apply nil_length_inv in H; subst l
  | H : length l = S _ |- _ =>
      let b := fresh "b" in let l' := fresh "l" in
      destruct l as [|b l']; [discriminate H|]; cbn [length] in H; injection H as H; explode l'
  end.

Lemma length_WriteHandshake h : wf_handshake h -> length (WriteHandshake h) = 68%nat.
Proof.
  destruct h as [ih pid ext fast]. intros [Hih Hpid]. cbn [InfoHash PeerID] in *.
  explode ih. explode pid. destruct ext, fast; reflexivity.
Qed.

Lemma ReadHandshake_Write h r :
  wf_handshake h -> ReadHandshake (WriteHandshake h ++ r) = Ok (h, r).
Proof.
  intros Hwf. unfold ReadHandshake. rewrite ReadFull_app by (by rewrite length_WriteHandshake).
  destruct h as [ih pid ext fast]. destruct Hwf as [Hih Hpid]. cbn [InfoHash PeerID] in *.
  explode ih. explode pid. destruct ext, fast; reflexivity.
Qed.

Lemma ReadHandshake_sound r h r' :
  ReadHandshake r = Ok (h, r') ->
  wf_handshake h /\ slice r 1 20 = protocolID /\ exists b, r = b ++ r' /\ length b = 68%nat.
Proof.
  unfold ReadHandshake. intros H. apply bind_ok_inv in H as ([buf r1] & E & H).
  apply map_err_ok_iff, ReadFull_ok in E as [-> Hbuf]; [|done].
  repeat case_match; simplify_eq; bool_prop. unfold wf_handshake; cbn [InfoHash PeerID].
  rewrite !length_slice by lia. split_and!; [done|done| |].
  - rewrite slice_app_l by lia. done.
  - exists buf. split; [done|lia].
Qed.
End HandshakeFacts.

(** ** Properties *)

(** C38: a queue of messages and keep-alives within the 4 MB limit, written one
    after the other, is read back message for message by repeated [ReadMessage]
    calls, which leave exactly the bytes that follow. *)
Theorem Wire_framing (ms : list (option Message)) (r : bytes) :
  Forall small_frame ms ->
  read_messages (length ms) (concat (write_frame <$> ms) ++ r) = Ok (ms, r).
Proof. apply read_messages_frames. Qed.

Lemma Wire_framing_witness :
  read_messages 3 (concat (write_frame <$>
    [Some (NewRequestMessage 1 2 3); None; Some (NewHaveMessage 7)]) ++ [x07]) =
  Ok ([Some (NewRequestMessage 1 2 3); None; Some (NewHaveMessage 7)], [x07]).
Proof.
  apply (Wire_framing [Some (NewRequestMessage 1 2 3); None; Some (NewHaveMessage 7)]).
  repeat constructor; vm_compute; discriminate.
Defined.

(** What [ReadMessage] accepts from any stream is below the size limit and
    is exactly the encoding of the message it returns; it rejects a longer
    announced length without reading the body. *)
Lemma ReadMessage_exact (r r' : bytes) (m : Message) :
  ReadMessage r = Ok (Some m, r') ->
  1 + len (Payload m) <= max_message /\ r = Write m ++ r'.
Proof. apply ReadMessage_sound. Qed.

Lemma ReadMessage_exact_witness :
  1 + len (Payload (NewHaveMessage 258)) <= max_message /\
  [x00; x00; x00; x05; x04; x00; x00; x01; x02; xff] = Write (NewHaveMessage 258) ++ [xff].
Proof. apply ReadMessage_exact. by vm_compute. Defined.

(** The constructors and parsers of the request, cancel, reject, piece, have
    and allowed-fast payloads are inverse to each other on [uint32] fields. *)
Lemma Payload_roundtrip (index begin length : Z) (block : bytes) :
  u32 index -> u32 begin -> u32 length ->
  ParseRequest (Payload (NewRequestMessage index begin length)) = Ok (index, begin, length) /\
  ParseRequest (Payload (NewCancelMessage index begin length)) = Ok (index, begin, length) /\
  ParseReject (Payload (NewRejectMessage index begin length)) = Ok (index, begin, length) /\
  ParsePiece (Payload (NewPieceMessage index begin block)) = Ok (index, begin, block) /\
  ParseHave (Payload (NewHaveMessage index)) = Ok index /\
  ParseAllowedFast (Payload (NewAllowedFastMessage index)) = Ok index.
Proof.
  intros. unfold ParseReject, ParseAllowedFast. cbn [Payload message NewRequestMessage
    NewCancelMessage NewRejectMessage NewPieceMessage NewHaveMessage NewAllowedFastMessage].
  split_and!; auto using parse_request_put, parse_piece_put, parse_have_put.
Qed.

Lemma Payload_roundtrip_witness :
  ParseRequest (Payload (NewRequestMessage 1 16384 16384)) = Ok (1, 16384, 16384) /\
  ParseRequest (Payload (NewCancelMessage 1 16384 16384)) = Ok (1, 16384, 16384) /\
  ParseReject (Payload (NewRejectMessage 1 16384 16384)) = Ok (1, 16384, 16384) /\
  ParsePiece (Payload (NewPieceMessage 1 16384 [x07])) = Ok (1, 16384, [x07]) /\
  ParseHave (Payload (NewHaveMessage 1)) = Ok 1 /\
  ParseAllowedFast (Payload (NewAllowedFastMessage 1)) = Ok 1.
Proof. apply Payload_roundtrip; unfold u32; lia. Defined.

(** A handshake is 68 bytes and is read back field for field; whatever
    [ReadHandshake] accepts announces the BitTorrent protocol and consumes
    exactly 68 bytes. *)
Lemma Handshake_roundtrip (h : Handshake) (r : bytes) :
  wf_handshake h ->
  length (WriteHandshake h) = 68%nat /\ ReadHandshake (WriteHandshake h ++ r) = Ok (h, r) /\
  (forall s h' s', ReadHandshake s = Ok (h', s') ->
     wf_handshake h' /\ slice s 1 20 = protocolID /\ exists b, s = b ++ s' /\ length b = 68%nat).
Proof.
  intros Hwf. split_and!; [by apply length_WriteHandshake | by apply ReadHandshake_Write |].
  apply ReadHandshake_sound.
Qed.

Lemma Handshake_roundtrip_witness :
  let h := mkHandshake (replicate 20 x01) (replicate 20 x2d) true true in
  length (WriteHandshake h) = 68%nat /\ ReadHandshake (WriteHandshake h ++ [x05]) = Ok (h, [x05]) /\
  (forall s h' s', ReadHandshake s = Ok (h', s') ->
     wf_handshake h' /\ slice s 1 20 = protocolID /\ exists b, s = b ++ s' /\ length b = 68%nat).
Proof. apply Handshake_roundtrip. split; reflexivity. Defined.
