(* ===== verification/PieceQueue.v ===== *)
(** * [download.PieceQueue] ([download/piecequeue.go])

    The shared queue of pieces to download: rarest-first, sequential and
    first/last-piece selection, endgame, and the runtime skip mask.  A Go map
    whose values are always [true] is a set of its keys.  Each method holds the
    queue's mutex while it touches the maps, so a method is one atomic step of
    state; the non-blocking channel sends that [Return], [Complete],
    [AddPeerBitfield], [PeerHave] and [UpdateSkipMask] make after unlocking touch
    nothing but the channel and are part of the same step.

    What the code leaves open is an argument of the operation: the order in
    which [range] visits a map ([ord], a permutation of the keys) and the results
    of [rand.IntN] during the call ([intn n] is the result of [rand.IntN(n)]). *)

From S2P Require Import Prelude Bitfield.
Local Open Scope Z_scope.

Record PieceWork := mkPieceWork { Index : Z; Hash : bytes; Length : Z }.

#[export] Instance PieceWork_eq_dec : EqDecision PieceWork.
Proof. solve_decision. Defined.

(** The zero value [PieceWork{}], what a missing map entry reads as. *)
Definition zero_piece : PieceWork := mkPieceWork 0 (replicate 20 x00) 0.

(** The struct.  [waitCh] (capacity 1) is whether a signal is buffered,
    [cancelCh] (capacity 64) the buffered indices; [skipMask] and [priority] may
    be nil. *)
Record PieceQueue := mkPieceQueue {
  pieces : gmap Z PieceWork;
  availability : gmap Z Z;
  pending : gset Z;
  done : gset Z;
  endgame : bool;
  totalPieces : Z;
  waitCh : bool;
  cancelCh : list Z;
  buckets : gmap Z (gset Z);
  skipMask : option Bitfield;
  priority : option (gset Z);
  sequential : bool
}.

(** ** Field updates *)

Definition with_buckets (bs : gmap Z (gset Z)) (pq : PieceQueue) : PieceQueue :=
  mkPieceQueue (pieces pq) (availability pq) (pending pq) (done pq) (endgame pq)
    (totalPieces pq) (waitCh pq) (cancelCh pq) bs (skipMask pq) (priority pq) (sequential pq).
Definition with_availability (av : gmap Z Z) (pq : PieceQueue) : PieceQueue :=
  mkPieceQueue (pieces pq) av (pending pq) (done pq) (endgame pq)
    (totalPieces pq) (waitCh pq) (cancelCh pq) (buckets pq) (skipMask pq) (priority pq)
    (sequential pq).
Definition with_pending (p : gset Z) (pq : PieceQueue) : PieceQueue :=
  mkPieceQueue (pieces pq) (availability pq) p (done pq) (endgame pq)
    (totalPieces pq) (waitCh pq) (cancelCh pq) (buckets pq) (skipMask pq) (priority pq)
    (sequential pq).
Definition with_endgame (e : bool) (pq : PieceQueue) : PieceQueue :=
  mkPieceQueue (pieces pq) (availability pq) (pending pq) (done pq) e
    (totalPieces pq) (waitCh pq) (cancelCh pq) (buckets pq) (skipMask pq) (priority pq)
    (sequential pq).
Definition with_skipMask (m : option Bitfield) (pq : PieceQueue) : PieceQueue :=
  mkPieceQueue (pieces pq) (availability pq) (pending pq) (done pq) (endgame pq)
    (totalPieces pq) (waitCh pq) (cancelCh pq) (buckets pq) m (priority pq) (sequential pq).
Definition with_waitCh (w : bool) (pq : PieceQueue) : PieceQueue :=
  mkPieceQueue (pieces pq) (availability pq) (pending pq) (done pq) (endgame pq)
    (totalPieces pq) w (cancelCh pq) (buckets pq) (skipMask pq) (priority pq) (sequential pq).
Definition with_cancelCh (c : list Z) (pq : PieceQueue) : PieceQueue :=
  mkPieceQueue (pieces pq) (availability pq) (pending pq) (done pq) (endgame pq)
    (totalPieces pq) (waitCh pq) c (buckets pq) (skipMask pq) (priority pq) (sequential pq).

(** [pq.availability[i]], [pq.buckets[a]]: a missing entry reads as zero. *)
Definition avail (pq : PieceQueue) (i : Z) : Z := default 0 (availability pq !! i).
Definition bucket (bs : gmap Z (gset Z)) (a : Z) : gset Z := default ∅ (bs !! a).

(** ** Construction *)

Definition NewPieceQueueWithOptions (pieces_ : list PieceWork) (skip : option Bitfield)
    (total : Z) (prioritizeFirstLast seq_ : bool) : PieceQueue :=
  let filtered :=
    match skip with
    | Some mask => List.filter (fun pw => negb (HasPiece mask (Index pw))) pieces_
    | None => pieces_
    end in
  let ps := foldl (fun m pw => <[Index pw := pw]> m) (∅ : gmap Z PieceWork) filtered in
  let bucket0 : gset Z := foldl (fun b pw => {[Index pw]} ∪ b) ∅ filtered in
  let bs : gmap Z (gset Z) := if (0 <? Z.of_nat (size bucket0)) then {[0 := bucket0]} else ∅ in
  let prio : option (gset Z) :=
    if prioritizeFirstLast && (0 <? total) then
      let p : gset Z := match ps !! 0 with Some _ => {[0]} | None => ∅ end in
      let last := total - 1 in
      Some (if negb (last =? 0)
            then match ps !! last with Some _ => {[last]} ∪ p | None => p end
            else p)
    else None in
  mkPieceQueue ps ∅ ∅ ∅ false (len filtered) false [] bs None prio seq_.

Definition NewPieceQueueWithSkip (ps : list PieceWork) (skip : option Bitfield) : PieceQueue :=
  NewPieceQueueWithOptions ps skip 0 false false.
Definition NewPieceQueue (ps : list PieceWork) : PieceQueue := NewPieceQueueWithSkip ps None.

(** ** Operations *)

(** [signal]: a non-blocking send on the one-slot channel. *)
Definition signal (pq : PieceQueue) : PieceQueue := with_waitCh true pq.

(** Remove [idx] from the bucket of level [a], dropping the bucket when empty. *)
Definition bucket_remove (idx a : Z) (bs : gmap Z (gset Z)) : gmap Z (gset Z) :=
  match bs !! a with
  | Some b =>
      let b' := b ∖ {[idx]} in
      if (Z.of_nat (size b') =? 0) then delete a bs else <[a := b']> bs
  | None => bs
  end.

Definition moveBucket (idx oldAvail newAvail : Z) (bs : gmap Z (gset Z)) : gmap Z (gset Z) :=
  let bs := bucket_remove idx oldAvail bs in
  <[newAvail := {[idx]} ∪ bucket bs newAvail]> bs.

(** Whether [Pick] may enter (or stay in) endgame mode. *)
Definition endgame_check (pq : PieceQueue) : PieceQueue :=
  if endgame pq then pq
  else
    let remaining := Z.of_nat (size (pieces pq)) in
    let threshold := totalPieces pq / 100 in
    let threshold := if threshold <? 5 then 5 else threshold in
    if (0 <? remaining) && (remaining <=? threshold) then with_endgame true pq else pq.

Definition skipped (pq : PieceQueue) (idx : Z) : bool :=
  match skipMask pq with Some m => HasPiece m idx | None => false end.

(** The filter the three selection loops of [Pick] share. *)
Definition eligible (pq : PieceQueue) (hasPiece : Z -> bool) (idx : Z) : bool :=
  if bool_decide (idx ∈ done pq) then false
  else if negb (endgame pq) && bool_decide (idx ∈ pending pq) then false
  else if skipped pq idx then false
  else hasPiece idx.

(** Reservoir sampling over the eligible indices of [l]. *)
Definition reservoir (elig : Z -> bool) (intn : Z -> Z) (l : list Z) : Z * Z :=
  foldl (fun '(count, chosen) idx =>
           if elig idx then
             let count := count + 1 in
             (count, if intn count =? 0 then idx else chosen)
           else (count, chosen))
        (0, 0) l.

Definition sample (elig : Z -> bool) (intn : Z -> Z) (l : list Z) : option Z :=
  let '(count, chosen) := reservoir elig intn l in
  if 0 <? count then Some chosen else None.

(** First bucket, in the order of the levels, with an eligible piece. *)
Fixpoint pick_bucket (elig : Z -> bool) (intn : Z -> Z) (ord : gset Z -> list Z)
    (bs : gmap Z (gset Z)) (avails : list Z) : option Z :=
  match avails with
  | [] => None
  | a :: avails' =>
      match sample elig intn (ord (bucket bs a)) with
      | Some idx => Some idx
      | None => pick_bucket elig intn ord bs avails'
      end
  end.

(** The index [Pick] settles on, once endgame mode has been updated. *)
Definition choose (ord : gset Z -> list Z) (intn : Z -> Z) (hasPiece : Z -> bool)
    (pq : PieceQueue) : option Z :=
  let elig := eligible pq hasPiece in
  if sequential pq then
    List.find elig (merge_sort Z.le (ord (dom (pieces pq))))
  else
    let prio := default ∅ (priority pq) in
    let from_priority :=
      if 0 <? Z.of_nat (size prio) then sample elig intn (ord prio) else None in
    match from_priority with
    | Some idx => Some idx
    | None =>
        let avails :=
          List.filter (fun a => 0 <? Z.of_nat (size (bucket (buckets pq) a)))
                      (ord (dom (buckets pq))) in
        pick_bucket elig intn ord (buckets pq) (merge_sort Z.le avails)
    end.

Definition Pick (ord : gset Z -> list Z) (intn : Z -> Z) (hasPiece : Z -> bool)
    (pq : PieceQueue) : PieceQueue * option PieceWork :=
  let pq := endgame_check pq in
  match choose ord intn hasPiece pq with
  | Some idx => (with_pending ({[idx]} ∪ pending pq) pq, Some (default zero_piece (pieces pq !! idx)))
  | None => (pq, None)
  end.

Definition Return (pw : PieceWork) (pq : PieceQueue) : PieceQueue :=
  signal (with_pending (pending pq ∖ {[Index pw]}) pq).

Definition cancel_cap : nat := 64.

Definition Complete (index : Z) (pq : PieceQueue) : PieceQueue :=
  let a := avail pq index in
  let pq' := mkPieceQueue (delete index (pieces pq)) (availability pq)
    (pending pq ∖ {[index]}) ({[index]} ∪ done pq) (endgame pq) (totalPieces pq) (waitCh pq)
    (cancelCh pq) (bucket_remove index a (buckets pq)) (skipMask pq)
    ((fun p => p ∖ {[index]}) <$> priority pq) (sequential pq) in
  let pq' :=
    if endgame pq && (length (cancelCh pq) <? cancel_cap)%nat
    then with_cancelCh (cancelCh pq ++ [index]) pq' else pq' in
  signal pq'.

Definition IsEndgame (pq : PieceQueue) : bool := endgame pq.
Definition IsDone (index : Z) (pq : PieceQueue) : bool := bool_decide (index ∈ done pq).

(** [bf == nil || bf.HasPiece(idx)]: a nil bitfield means "have all". *)
Definition claims (bf : option Bitfield) (idx : Z) : bool :=
  match bf with None => true | Some bf => HasPiece bf idx end.

(** One iteration of the loops of [AddPeerBitfield] ([delta = 1]) and
    [RemovePeerBitfield] ([delta = -1]). *)
Definition bump (delta : Z) (pq : PieceQueue) (idx : Z) : PieceQueue :=
  let old := avail pq idx in
  with_buckets (moveBucket idx old (old + delta) (buckets pq))
    (with_availability (<[idx := old + delta]> (availability pq)) pq).

Definition bump_all (delta : Z) (bf : option Bitfield) (pq : PieceQueue) (l : list Z) : PieceQueue :=
  foldl (fun pq idx => if claims bf idx then bump delta pq idx else pq) pq l.

Definition AddPeerBitfield (ord : gset Z -> list Z) (bf : option Bitfield) (pq : PieceQueue)
    : PieceQueue :=
  signal (bump_all 1 bf pq (ord (dom (pieces pq)))).

Definition RemovePeerBitfield (ord : gset Z -> list Z) (bf : option Bitfield) (pq : PieceQueue)
    : PieceQueue :=
  bump_all (-1) bf pq (ord (dom (pieces pq))).

Definition PeerHave (index : Z) (pq : PieceQueue) : PieceQueue :=
  let old := avail pq index in
  let pq' := with_availability (<[index := old + 1]> (availability pq)) pq in
  signal (match pieces pq !! index with
          | Some _ => with_buckets (moveBucket index old (old + 1) (buckets pq)) pq'
          | None => pq'
          end).

Definition maxPieceLen (ord : gset Z -> list Z) (pq : PieceQueue) : Z :=
  foldl (fun mx idx => let l := Length (default zero_piece (pieces pq !! idx)) in
                       if mx <? l then l else mx) 0 (ord (dom (pieces pq))).

Definition Remaining (pq : PieceQueue) : Z :=
  match skipMask pq with
  | None => Z.of_nat (size (pieces pq))
  | Some m => Z.of_nat (size (filter (fun i => HasPiece m i = false) (dom (pieces pq))))
  end.

(** The caller's mask is copied, so later writes to it are not seen. *)
Definition UpdateSkipMask (mask : option Bitfield) (pq : PieceQueue) : PieceQueue :=
  signal (with_skipMask mask pq).

(** A receive on [Wait()] by a blocked worker, and one on [CancelCh()]. *)
Definition recv_wait (pq : PieceQueue) : option PieceQueue :=
  if waitCh pq then Some (with_waitCh false pq) else None.
Definition recv_cancel (pq : PieceQueue) : option (Z * PieceQueue) :=
  match cancelCh pq with i :: c => Some (i, with_cancelCh c pq) | [] => None end.
