(* ===== verification/PieceQueueFacts.v ===== *)
(** * Theory of the piece queue

    Sampling, buckets, the queue's representation invariant and its preservation
    by every operation. *)

From S2P Require Import Prelude Bitfield PieceQueue.
Set Warnings "-clear-no-such-hyp".
Local Open Scope Z_scope.

(** ** What the language and [math/rand] promise *)

(** [range] over a map visits every key once, in some order. *)
Class MapOrder (ord : gset Z -> list Z) : Prop := map_order s : ord s ≡ₚ elements s.

(** [rand.IntN(n)] is in the half-open interval from 0 to [n]. *)
Class RandIntN (intn : Z -> Z) : Prop := rand_intn n : 0 < n -> 0 <= intn n < n.

#[export] Instance elements_order : MapOrder elements.
Proof. intros s. done. Qed.

#[export] Instance rand_zero : RandIntN (fun _ => 0).
Proof. intros n. lia. Qed.

#[export] Instance rand_last : RandIntN (fun n => n - 1).
Proof. intros n. lia. Qed.

Lemma elem_of_ord ord `{!MapOrder ord} s i : i ∈ ord s <-> i ∈ s.
Proof. rewrite (map_order s). apply elem_of_elements. Qed.

Lemma ord_NoDup ord `{!MapOrder ord} s : NoDup (ord s).
Proof. rewrite (map_order s). apply NoDup_elements. Qed.

(** ** Reservoir sampling *)

Section Sampling.
Context (elig : Z -> bool) (intn : Z -> Z) `{!RandIntN intn}.

Lemma reservoir_spec l :
  let '(count, chosen) := reservoir elig intn l in
  0 <= count /\
  (0 < count -> chosen ∈ l /\ elig chosen = true) /\
  (count = 0 -> forall i, i ∈ l -> elig i = false).
Proof.
  induction l as [|x l IH] using rev_ind.
  { simpl. split_and!; [lia|lia|]. intros _ i Hi. by apply elem_of_nil in Hi. }
  unfold reservoir in *. rewrite foldl_app. cbn [foldl].
  destruct (foldl _ (0, 0) l) as [count chosen]. destruct IH as (Hc & Hch & H0).
  destruct (elig x) eqn:Ex.
  - split_and!; [lia| |lia]. intros _.
    rewrite elem_of_app, list_elem_of_singleton.
    destruct (Z.eqb_spec (intn (count + 1)) 0) as [|Hne]; [by auto|].
    pose proof (rand_intn (count + 1) ltac:(lia)).
    destruct (Z.eq_dec count 0) as [->|]; [lia|].
    destruct Hch as [? ?]; [lia|]. auto.
  - split_and!; [lia|intros Hp; rewrite elem_of_app; destruct (Hch Hp); auto|].
    intros -> i Hi. apply elem_of_app in Hi as [Hi|Hi%list_elem_of_singleton];
      [by apply H0|by subst].
Qed.

Lemma sample_Some l i : sample elig intn l = Some i -> i ∈ l /\ elig i = true.
Proof.
  unfold sample. pose proof (reservoir_spec l) as H.
  destruct (reservoir elig intn l) as [count chosen]. destruct H as (_ & H & _).
  destruct (Z.ltb_spec 0 count); [|done]. intros [= ->]. by apply H.
Qed.

Lemma sample_None l i : sample elig intn l = None -> i ∈ l -> elig i = false.
Proof.
  unfold sample. pose proof (reservoir_spec l) as H.
  destruct (reservoir elig intn l) as [count chosen]. destruct H as (? & _ & H).
  destruct (Z.ltb_spec 0 count); [done|]. intros _. apply H. lia.
Qed.

Context (ord : gset Z -> list Z) `{!MapOrder ord}.

(** The first level that has an eligible piece is the least one that has. *)
Lemma pick_bucket_Some bs avails i :
  StronglySorted Z.le avails ->
  pick_bucket elig intn ord bs avails = Some i ->
  exists a, a ∈ avails /\ i ∈ bucket bs a /\ elig i = true /\
    forall a' j, a' ∈ avails -> j ∈ bucket bs a' -> elig j = true -> a <= a'.
Proof.
  induction 1 as [|a avails Hs IH Ha]; [done|]. cbn [pick_bucket].
  destruct (sample _ _ _) as [k|] eqn:E.
  - intros [= ->]. apply sample_Some in E as [Hin He]. apply elem_of_ord in Hin; [|done].
    exists a. split_and!; [set_solver|done|done|].
    intros a' j Ha' _ _. rewrite Forall_forall in Ha. apply elem_of_cons in Ha' as [->|]; [lia|auto].
  - intros (a0 & ? & ? & ? & Hmin)%IH. exists a0. split_and!; [set_solver|done|done|].
    intros a' j [->|Ha']%elem_of_cons Hj He; [|eauto].
    rewrite (sample_None _ j E) in He; [done|]. by apply elem_of_ord.
Qed.

Lemma pick_bucket_None bs avails a j :
  pick_bucket elig intn ord bs avails = None ->
  a ∈ avails -> j ∈ bucket bs a -> elig j = false.
Proof.
  induction avails as [|a' avails IH]; [set_solver|]. cbn [pick_bucket].
  destruct (sample _ _ _) as [k|] eqn:E; [done|].
  intros HN [->|Ha]%elem_of_cons Hj; [|by apply IH].
  apply (sample_None _ j E). by apply elem_of_ord.
Qed.
End Sampling.

(** ** Buckets *)

Definition buckets_nonempty (bs : gmap Z (gset Z)) : Prop := forall a b, bs !! a = Some b -> b <> ∅.

Lemma size_zero_iff (b : gset Z) : (Z.of_nat (size b) =? 0) = true <-> b = ∅.
Proof.
  rewrite Z.eqb_eq. split; [|intros ->; by rewrite size_empty].
  intros H. apply leibniz_equiv, size_empty_iff. lia.
Qed.

Lemma bucket_bucket_remove idx a bs x :
  bucket (bucket_remove idx a bs) x =
  if decide (x = a) then bucket bs x ∖ {[idx]} else bucket bs x.
Proof.
  unfold bucket_remove. destruct (bs !! a) as [b|] eqn:E.
  - destruct (Z.of_nat (size (b ∖ {[idx]})) =? 0) eqn:Es; unfold bucket; case_decide; subst.
    + apply size_zero_iff in Es. rewrite lookup_delete_eq, E. simpl. by rewrite Es.
    + by rewrite lookup_delete_ne.
    + by rewrite lookup_insert_eq, E.
    + by rewrite lookup_insert_ne.
  - unfold bucket. case_decide; [subst|done]. rewrite E. apply set_eq. intros i. simpl. rewrite elem_of_difference. set_solver +.
Qed.

Lemma bucket_remove_nonempty idx a bs :
  buckets_nonempty bs -> buckets_nonempty (bucket_remove idx a bs).
Proof.
  intros Hne x b. unfold bucket_remove. destruct (bs !! a) as [b0|] eqn:E; [|by apply Hne].
  destruct (Z.of_nat (size (b0 ∖ {[idx]})) =? 0) eqn:Es.
  - intros [_ ?]%lookup_delete_Some. by eapply Hne.
  - intros [[-> <-]|[_ ?]]%lookup_insert_Some; [|by eapply Hne].
    intros Eb. apply size_zero_iff in Eb. congruence.
Qed.

Lemma bucket_moveBucket idx old new bs x :
  old <> new ->
  bucket (moveBucket idx old new bs) x =
  if decide (x = new) then {[idx]} ∪ bucket bs x
  else if decide (x = old) then bucket bs x ∖ {[idx]} else bucket bs x.
Proof.
  intros Hne. unfold moveBucket. unfold bucket at 1.
  destruct (decide (x = new)) as [->|Hx].
  - rewrite lookup_insert_eq. simpl. rewrite bucket_bucket_remove. by case_decide.
  - rewrite lookup_insert_ne by done. apply (bucket_bucket_remove idx old bs x).
Qed.

Lemma moveBucket_nonempty idx old new bs :
  buckets_nonempty bs -> buckets_nonempty (moveBucket idx old new bs).
Proof.
  intros Hne x b. unfold moveBucket.
  intros [[-> <-]|[_ ?]]%lookup_insert_Some; [set_solver|].
  by eapply (bucket_remove_nonempty idx old bs Hne).
Qed.

(** Bucket maps without empty buckets are determined by their contents. *)
Lemma buckets_ext bs1 bs2 :
  buckets_nonempty bs1 -> buckets_nonempty bs2 ->
  (forall a, bucket bs1 a = bucket bs2 a) -> bs1 = bs2.
Proof.
  intros H1 H2 Hb. apply map_eq. intros a. specialize (Hb a). unfold bucket in Hb.
  destruct (bs1 !! a) as [b1|] eqn:E1, (bs2 !! a) as [b2|] eqn:E2; simpl in *; subst; try done.
  - by destruct (H1 _ _ E1).
  - by destruct (H2 _ _ E2).
Qed.

(** ** The representation invariant *)

Record Inv (pq : PieceQueue) : Prop := {
  inv_index : forall i pw, pieces pq !! i = Some pw -> Index pw = i;
  (** the buckets index the remaining pieces by availability *)
  inv_bucket : forall a i, i ∈ bucket (buckets pq) a <-> i ∈ dom (pieces pq) /\ avail pq i = a;
  inv_nonempty : buckets_nonempty (buckets pq);
  inv_done : forall i, i ∈ done pq -> pieces pq !! i = None;
  inv_pending : pending pq ⊆ dom (pieces pq);
  inv_priority : default ∅ (priority pq) ⊆ dom (pieces pq);
  inv_cancel : (length (cancelCh pq) <= cancel_cap)%nat;
  inv_total : Z.of_nat (size (pieces pq)) <= totalPieces pq
}.

Lemma buckets_determined pq1 pq2 :
  Inv pq1 -> Inv pq2 -> dom (pieces pq1) = dom (pieces pq2) ->
  (forall i, avail pq1 i = avail pq2 i) -> buckets pq1 = buckets pq2.
Proof.
  intros H1 H2 Hd Ha. apply buckets_ext; [apply H1|apply H2|].
  intros a. apply set_eq. intros i.
  rewrite (inv_bucket _ H1), (inv_bucket _ H2), Hd, Ha. done.
Qed.

(** *** Operations that do not touch pieces, buckets or availability *)

Lemma avail_with_buckets bs pq i : avail (with_buckets bs pq) i = avail pq i.
Proof. done. Qed.

Lemma inv_signal pq : Inv pq -> Inv (signal pq).
Proof. intros []. by constructor. Qed.

Lemma inv_endgame_check pq : Inv pq -> Inv (endgame_check pq).
Proof.
  intros H. unfold endgame_check. destruct (endgame pq); [done|].
  destruct (_ && _); [|done]. destruct H. by constructor.
Qed.

Lemma inv_Return pw pq : Inv pq -> Inv (Return pw pq).
Proof. intros []. constructor; simpl; try done. set_solver. Qed.

Lemma inv_UpdateSkipMask m pq : Inv pq -> Inv (UpdateSkipMask m pq).
Proof. intros []. by constructor. Qed.

Lemma inv_recv_wait pq pq' : recv_wait pq = Some pq' -> Inv pq -> Inv pq'.
Proof. unfold recv_wait. case_match; [|done]. intros [= <-] []. by constructor. Qed.

Lemma inv_recv_cancel pq i pq' : recv_cancel pq = Some (i, pq') -> Inv pq -> Inv pq'.
Proof.
  unfold recv_cancel. destruct (cancelCh pq) as [|j c] eqn:E; [done|].
  intros [= -> <-] []. rewrite E in *. constructor; simpl in *; try done. lia.
Qed.

(** *** Availability updates *)

Lemma avail_bump delta pq idx i :
  avail (bump delta pq idx) i = if decide (i = idx) then avail pq idx + delta else avail pq i.
Proof.
  unfold bump, avail at 1; simpl. case_decide; subst.
  - by rewrite lookup_insert_eq.
  - by rewrite lookup_insert_ne.
Qed.

Lemma inv_bump delta pq idx :
  delta <> 0 -> idx ∈ dom (pieces pq) -> Inv pq -> Inv (bump delta pq idx).
Proof.
  intros Hd Hidx H. constructor; try apply H.
  - intros a i. rewrite avail_bump. simpl. rewrite bucket_moveBucket by lia.
    pose proof (inv_bucket _ H a i). pose proof (inv_bucket _ H a idx).
    destruct (decide (i = idx)) as [->|Hi]; repeat case_decide; subst; set_solver by lia.
  - simpl. apply moveBucket_nonempty, H.
Qed.

(** Everything but availability and buckets is left alone. *)
Definition same_work (pq1 pq2 : PieceQueue) : Prop :=
  pieces pq1 = pieces pq2 /\ pending pq1 = pending pq2 /\ done pq1 = done pq2 /\
  endgame pq1 = endgame pq2 /\ totalPieces pq1 = totalPieces pq2 /\
  cancelCh pq1 = cancelCh pq2 /\ skipMask pq1 = skipMask pq2 /\
  priority pq1 = priority pq2 /\ sequential pq1 = sequential pq2.

#[export] Instance same_work_equivalence : Equivalence same_work.
Proof.
  split.
  - by intros pq.
  - intros pq1 pq2 H. unfold same_work in *. destruct_and!. split_and!; done.
  - intros pq1 pq2 pq3 H1 H2. unfold same_work in *. destruct_and!. split_and!; congruence.
Qed.

Lemma bump_all_spec delta bf l pq :
  delta <> 0 -> NoDup l -> (forall i, i ∈ l -> i ∈ dom (pieces pq)) -> Inv pq ->
  Inv (bump_all delta bf pq l) /\ same_work pq (bump_all delta bf pq l) /\
  waitCh (bump_all delta bf pq l) = waitCh pq /\
  (forall i, avail (bump_all delta bf pq l) i =
    avail pq i + (if decide (i ∈ l) then if claims bf i then delta else 0 else 0)).
Proof.
  intros Hd Hnd. revert pq. induction Hnd as [|x l Hx Hnd IH]; intros pq Hdom H.
  { split_and!; try done. intros i. case_decide as Hi; [by apply elem_of_nil in Hi|].
    unfold bump_all; simpl; lia. }
  change (bump_all delta bf pq (x :: l)) with
    (bump_all delta bf (if claims bf x then bump delta pq x else pq) l).
  set (pq' := if claims bf x then bump delta pq x else pq).
  assert (Hinv : Inv pq') by (unfold pq'; destruct (claims bf x);
    [apply inv_bump; [done|apply Hdom; left|done]|done]).
  assert (Hsame : same_work pq pq' /\ waitCh pq' = waitCh pq)
    by (unfold pq'; destruct (claims bf x); done).
  destruct Hsame as [Hsame Hw].
  destruct (IH pq') as (? & ? & ? & Hav); [|done|].
  { intros i Hi. destruct Hsame as [<- _]. apply Hdom. by right. }
  split_and!; [done|by etrans|congruence|].
  intros i. rewrite Hav. unfold pq'.
  destruct (decide (i = x)) as [->|Hix].
  - rewrite (decide_False (P := x ∈ l)), (decide_True (P := x ∈ x :: l)) by (done || left).
    destruct (claims bf x); [|lia]. rewrite avail_bump, (decide_True (P := x = x)) by done. lia.
  - assert (Hav' : avail (if claims bf x then bump delta pq x else pq) i = avail pq i).
    { destruct (claims bf x); [|done]. rewrite avail_bump. by rewrite decide_False. }
    rewrite Hav'. destruct (decide (i ∈ l)) as [Hl|Hl].
    + rewrite decide_True by (by right). done.
    + rewrite decide_False; [done|]. intros [->|?]%elem_of_cons; done.
Qed.

Section PeerUpdates.
Context (ord : gset Z -> list Z) `{!MapOrder ord}.

Lemma ord_pieces pq i : i ∈ ord (dom (pieces pq)) -> i ∈ dom (pieces pq).
Proof. by apply elem_of_ord. Qed.

Lemma bump_all_pieces delta bf pq :
  delta <> 0 -> Inv pq ->
  let pq' := bump_all delta bf pq (ord (dom (pieces pq))) in
  Inv pq' /\ same_work pq pq' /\ waitCh pq' = waitCh pq /\
  (forall i, avail pq' i =
    avail pq i + (if decide (i ∈ dom (pieces pq)) then if claims bf i then delta else 0 else 0)).
Proof.
  intros Hd H. destruct (bump_all_spec delta bf (ord (dom (pieces pq))) pq Hd) as (? & ? & ? & Hav);
    [by apply ord_NoDup|apply ord_pieces|done|].
  split_and!; try done. intros i. rewrite Hav.
  destruct (decide (i ∈ dom (pieces pq))) as [Hi|Hi].
  - rewrite decide_True; [done|]. by apply elem_of_ord.
  - rewrite decide_False; [done|]. by rewrite elem_of_ord.
Qed.

Lemma inv_AddPeerBitfield bf pq : Inv pq -> Inv (AddPeerBitfield ord bf pq).
Proof. intros H. apply inv_signal. by apply bump_all_pieces. Qed.

Lemma inv_RemovePeerBitfield bf pq : Inv pq -> Inv (RemovePeerBitfield ord bf pq).
Proof. intros H. by apply bump_all_pieces. Qed.

Lemma inv_PeerHave i pq : Inv pq -> Inv (PeerHave i pq).
Proof.
  intros H. unfold PeerHave. apply inv_signal. destruct (pieces pq !! i) as [pw|] eqn:E.
  - apply (inv_bump 1 pq i); [done|by apply elem_of_dom|done].
  - constructor; try apply H. intros a j. unfold avail; simpl.
    destruct (decide (j = i)) as [->|].
    + rewrite (inv_bucket _ H), elem_of_dom, E. split; intros [[? ?] ?]; done.
    + rewrite lookup_insert_ne by done. apply (inv_bucket _ H).
Qed.
End PeerUpdates.

Lemma inv_Complete i pq : Inv pq -> Inv (Complete i pq).
Proof.
  intros H. unfold Complete. apply inv_signal.
  set (pq' := mkPieceQueue _ _ _ _ _ _ _ _ _ _ _ _).
  assert (Hinv : Inv pq').
  { constructor; simpl; try apply H.
    - intros j pw [_ Hj]%lookup_delete_Some. by apply H.
    - intros a j. rewrite bucket_bucket_remove, dom_delete_L.
      change (avail pq' j) with (avail pq j).
      pose proof (inv_bucket _ H a j) as Hb. case_decide; subst; [set_solver|].
      rewrite elem_of_difference, elem_of_singleton, Hb. naive_solver.
    - apply bucket_remove_nonempty, H.
    - intros j [->%elem_of_singleton|Hj]%elem_of_union; [apply lookup_delete_eq|].
      apply lookup_delete_None. right. by apply H.
    - rewrite dom_delete_L. pose proof (inv_pending _ H). set_solver.
    - rewrite dom_delete_L. pose proof (inv_priority _ H).
      destruct (priority pq); simpl in *; set_solver.
    - pose proof (inv_total _ H). rewrite map_size_delete. destruct (_ !! i); unfold id; lia. }
  destruct (endgame pq && _) eqn:E; [|done]. bool_prop. apply Nat.ltb_lt in H1.
  destruct Hinv. constructor; try done. simpl. rewrite length_app. simpl. lia.
Qed.

(** ** Selection *)

Lemma eligible_true pq hasPiece i :
  eligible pq hasPiece i = true <->
  (i ∉ done pq) /\ (endgame pq = true \/ i ∉ pending pq) /\ skipped pq i = false /\ hasPiece i = true.
Proof.
  unfold eligible. destruct (bool_decide_reflect (i ∈ done pq)); [naive_solver|].
  destruct (endgame pq); simpl; [|destruct (bool_decide_reflect (i ∈ pending pq)); [naive_solver|]];
    destruct (skipped pq i); naive_solver.
Qed.

Section Choose.
Context (ord : gset Z -> list Z) `{!MapOrder ord} (intn : Z -> Z) `{!RandIntN intn}.
Context (hasPiece : Z -> bool) (pq : PieceQueue) (H : Inv pq).

Lemma elem_of_sorted_levels a :
  a ∈ merge_sort Z.le (List.filter (fun a => 0 <? Z.of_nat (size (bucket (buckets pq) a)))
                        (ord (dom (buckets pq)))) <->
  bucket (buckets pq) a <> ∅.
Proof.
  rewrite merge_sort_Permutation, list_elem_of_In, List.filter_In, <- list_elem_of_In.
  rewrite elem_of_ord by done. rewrite Z.ltb_lt. unfold bucket.
  destruct (buckets pq !! a) as [b|] eqn:E; simpl.
  - rewrite elem_of_dom, E. split.
    + intros [_ Hs] ->. rewrite size_empty in Hs. lia.
    + intros Hne. split; [done|]. destruct (decide (size b = 0%nat)) as [Hz|]; [|lia].
      by apply size_empty_iff, leibniz_equiv in Hz.
  - rewrite elem_of_dom, E. split; [by intros [[? ?] _]|done].
Qed.

(** The rarest eligible piece: its availability is minimal. *)
Definition rarest (i : Z) : Prop :=
  forall j, j ∈ dom (pieces pq) -> eligible pq hasPiece j = true -> avail pq i <= avail pq j.

(** The lowest eligible index. *)
Definition lowest (i : Z) : Prop :=
  forall j, j ∈ dom (pieces pq) -> eligible pq hasPiece j = true -> i <= j.

Lemma choose_Some i :
  choose ord intn hasPiece pq = Some i ->
  i ∈ dom (pieces pq) /\ eligible pq hasPiece i = true /\
  (if sequential pq then lowest i
   else (exists j, j ∈ default ∅ (priority pq) /\ eligible pq hasPiece j = true) /\
        i ∈ default ∅ (priority pq) \/
        (forall j, j ∈ default ∅ (priority pq) -> eligible pq hasPiece j = false) /\ rarest i).
Proof.
  unfold choose. destruct (sequential pq).
  - intros Hf. apply find_some in Hf as Hs. destruct Hs as [Hin He].
    apply list_elem_of_In in Hin. rewrite merge_sort_Permutation, elem_of_ord in Hin by done.
    split_and!; [done|done|]. intros j Hj Hej.
    assert (Hsort : StronglySorted Z.le (merge_sort Z.le (ord (dom (pieces pq)))))
      by (apply StronglySorted_merge_sort; apply _).
    assert (Hjin : j ∈ merge_sort Z.le (ord (dom (pieces pq))))
      by (by rewrite merge_sort_Permutation, elem_of_ord).
    induction Hsort as [|x l Hl IH Hx]; [done|]. cbn [List.find] in Hf.
    rewrite Forall_forall in Hx. apply elem_of_cons in Hjin as [->|Hjl].
    + rewrite Hej in Hf. injection Hf as ->. lia.
    + destruct (eligible pq hasPiece x); [injection Hf as ->; auto|by apply IH].
  - set (prio := default ∅ (priority pq)).
    destruct (if 0 <? Z.of_nat (size prio) then _ else None) as [k|] eqn:Ep.
    + intros [= <-]. destruct (0 <? _); [|done].
      apply sample_Some in Ep as [Hin He]; [|done]. apply elem_of_ord in Hin; [|done].
      split_and!; [by apply (inv_priority _ H)|done|]. left. split; [by exists k|done].
    + intros Hb. apply pick_bucket_Some in Hb as (a & _ & Hi & He & Hmin);
        [|done|done|apply StronglySorted_merge_sort; apply _].
      apply (inv_bucket _ H) in Hi as [Hd Ha]. split_and!; [done|done|]. right. split.
      * intros j Hj. destruct (Z.ltb_spec 0 (Z.of_nat (size prio))) as [Hs|Hs].
        { eapply sample_None; [done..|]. by apply elem_of_ord. }
        assert (prio = ∅) as Hpe by (apply leibniz_equiv, size_empty_iff; lia).
        fold prio in Hj. rewrite Hpe in Hj. by apply elem_of_empty in Hj.
      * intros j Hj Hej. rewrite Ha. eapply (Hmin _ j); [|by apply (inv_bucket _ H)|done].
        apply elem_of_sorted_levels. intros Hempty.
        assert (j ∈ bucket (buckets pq) (avail pq j)) by (by apply (inv_bucket _ H)). set_solver.
Qed.

Lemma choose_None j :
  choose ord intn hasPiece pq = None -> j ∈ dom (pieces pq) -> eligible pq hasPiece j = false.
Proof.
  unfold choose. destruct (sequential pq).
  - intros Hf Hj. eapply find_none; [exact Hf|].
    apply list_elem_of_In. by rewrite merge_sort_Permutation, elem_of_ord.
  - destruct (if 0 <? _ then _ else None) as [k|] eqn:Ep; [done|].
    intros Hb Hj. assert (Hin : j ∈ bucket (buckets pq) (avail pq j)) by (by apply (inv_bucket _ H)).
    eapply pick_bucket_None; [done|done|exact Hb| |exact Hin].
    apply elem_of_sorted_levels. set_solver.
Qed.
End Choose.

(** ** [Pick] *)

Section PickFacts.
Context (ord : gset Z -> list Z) `{!MapOrder ord} (intn : Z -> Z) `{!RandIntN intn}.

Lemma endgame_check_same pq :
  pieces (endgame_check pq) = pieces pq /\ pending (endgame_check pq) = pending pq /\
  done (endgame_check pq) = done pq.
Proof. unfold endgame_check. repeat case_match; done. Qed.

Lemma inv_Pick hasPiece pq : Inv pq -> Inv (Pick ord intn hasPiece pq).1.
Proof.
  intros H%inv_endgame_check. unfold Pick.
  destruct (choose _ _ _ _) as [i|] eqn:E; [|done].
  apply choose_Some in E as (Hi & _); [|done..].
  destruct H. constructor; simpl; try done. set_solver.
Qed.

(** Case analysis on a call of [Pick]. *)
Lemma Pick_cases hasPiece pq :
  Inv pq ->
  let pq1 := endgame_check pq in
  (exists i pw, Pick ord intn hasPiece pq = (with_pending ({[i]} ∪ pending pq1) pq1, Some pw) /\
     pieces pq !! i = Some pw /\ Index pw = i /\ choose ord intn hasPiece pq1 = Some i) \/
  (Pick ord intn hasPiece pq = (pq1, None) /\ choose ord intn hasPiece pq1 = None).
Proof.
  intros H. pose proof (inv_endgame_check _ H) as H1. simpl. unfold Pick.
  destruct (choose _ _ _ _) as [i|] eqn:E; [left|by right].
  pose proof E as E'. apply choose_Some in E' as (Hi & _); [|done..].
  apply elem_of_dom in Hi as [pw Hpw]. exists i, pw. rewrite Hpw.
  destruct (endgame_check_same pq) as (Hp & _ & _). rewrite <- Hp.
  split_and!; [done|done|by eapply H1|done].
Qed.
End PickFacts.

(** ** Construction *)

Lemma new_pieces_spec (l : list PieceWork) :
  let ps := foldl (fun m pw => <[Index pw := pw]> m) (∅ : gmap Z PieceWork) l in
  let b0 : gset Z := foldl (fun b pw => {[Index pw]} ∪ b) ∅ l in
  (forall i pw, ps !! i = Some pw -> Index pw = i /\ pw ∈ l) /\ dom ps = b0 /\
  (size ps <= length l)%nat.
Proof.
  induction l as [|pw l IH] using rev_ind; simpl.
  { split_and!; [intros i pw; by rewrite lookup_empty|apply dom_empty_L|by rewrite map_size_empty]. }
  rewrite !foldl_app. simpl in *. destruct IH as (Hi & Hd & Hs). split_and!.
  - intros i pw' [[<- <-]|[_ Hl]]%lookup_insert_Some; [set_solver|].
    apply Hi in Hl as [? ?]. set_solver.
  - by rewrite dom_insert_L, Hd.
  - rewrite map_size_insert, length_app. simpl. destruct (_ !! _); unfold id; lia.
Qed.

Lemma inv_New ps skip total pfl seq_ : Inv (NewPieceQueueWithOptions ps skip total pfl seq_).
Proof.
  unfold NewPieceQueueWithOptions.
  set (filtered := match skip with Some _ => _ | None => _ end).
  destruct (new_pieces_spec filtered) as (Hi & Hd & Hs).
  set (m := foldl _ (∅ : gmap Z PieceWork) filtered) in *.
  set (b0 := foldl _ (∅ : gset Z) filtered) in *.
  constructor; simpl.
  - intros i pw Hpw. by apply Hi.
  - intros a i. rewrite Hd. unfold avail; simpl. rewrite lookup_empty. unfold bucket.
    destruct (Z.ltb_spec 0 (Z.of_nat (size b0))) as [Hb|Hb].
    + destruct (decide (a = 0)) as [->|Ha].
      * rewrite lookup_singleton_eq. naive_solver.
      * rewrite lookup_singleton_ne by done. set_solver.
    + assert (b0 = ∅) as -> by (apply leibniz_equiv, size_empty_iff; lia). rewrite lookup_empty. set_solver.
  - intros a b. destruct (Z.ltb_spec 0 (Z.of_nat (size b0))) as [Hb|Hb].
    + intros [<- <-]%lookup_singleton_Some ->. rewrite size_empty in Hb. lia.
    + by rewrite lookup_empty.
  - set_solver.
  - set_solver.
  - destruct (pfl && (0 <? total)); simpl; [|set_solver].
    assert (Hfst : forall k, match m !! k with Some _ => {[k]} | None => ∅ end ⊆ dom m).
    { intros k. destruct (m !! k) eqn:E; [|set_solver]. apply elem_of_dom_2 in E. set_solver. }
    pose proof (Hfst 0). destruct (negb (total - 1 =? 0)); [|done].
    destruct (m !! (total - 1)) eqn:E; [|done]. apply elem_of_dom_2 in E. set_solver.
  - lia.
  - lia.
Qed.

(** ** Behaviour up to the representation of availability

    Queues that agree on everything but on whether a zero availability is
    stored. *)
#[export] Instance PieceQueue_equiv : Equiv PieceQueue := fun pq1 pq2 =>
  same_work pq1 pq2 /\ buckets pq1 = buckets pq2 /\ forall i, avail pq1 i = avail pq2 i.

#[export] Instance PieceQueue_equivalence : Equivalence (≡@{PieceQueue}).
Proof.
  split.
  - intros pq. by split_and!.
  - intros pq1 pq2 (? & ? & Ha). split_and!; [by symmetry|done|]. intros i. by rewrite Ha.
  - intros pq1 pq2 pq3 (? & ? & Ha) (? & ? & Hb).
    split_and!; [by etrans|congruence|]. intros i. by rewrite Ha.
Qed.

Lemma endgame_check_equiv pq1 pq2 : pq1 ≡ pq2 -> endgame_check pq1 ≡ endgame_check pq2.
Proof.
  intros Heq. pose proof Heq as (Hs & Hb & Ha). unfold same_work in Hs. destruct_and!.
  unfold endgame_check.
  assert (endgame pq1 = endgame pq2) as -> by done. destruct (endgame pq2); [done|].
  assert (pieces pq1 = pieces pq2) as -> by done.
  assert (totalPieces pq1 = totalPieces pq2) as -> by done.
  destruct (_ && _); [|done]. split_and!; [|done|done]. unfold same_work; simpl. by split_and!.
Qed.

Lemma reservoir_ext e1 e2 intn l :
  (forall i, e1 i = e2 i) -> sample e1 intn l = sample e2 intn l.
Proof.
  intros He. unfold sample. assert (reservoir e1 intn l = reservoir e2 intn l) as ->; [|done].
  unfold reservoir. generalize (0, 0). induction l as [|x l IH]; intros [c ch]; [done|].
  cbn [foldl]. rewrite He. by destruct (e2 x).
Qed.

Lemma pick_bucket_ext e1 e2 intn ord bs l :
  (forall i, e1 i = e2 i) -> pick_bucket e1 intn ord bs l = pick_bucket e2 intn ord bs l.
Proof.
  intros He. induction l as [|a l IH]; [done|]. cbn [pick_bucket].
  rewrite (reservoir_ext e1 e2) by done. by rewrite IH.
Qed.

Lemma find_ext_all (e1 e2 : Z -> bool) l :
  (forall i, e1 i = e2 i) -> List.find e1 l = List.find e2 l.
Proof. intros He. induction l as [|a l IH]; [done|]. cbn. by rewrite He, IH. Qed.

Lemma choose_equiv ord intn hasPiece pq1 pq2 :
  pq1 ≡ pq2 -> choose ord intn hasPiece pq1 = choose ord intn hasPiece pq2.
Proof.
  intros (Hs & Hb & _). unfold same_work in Hs. destruct_and!.
  assert (He : forall i, eligible pq1 hasPiece i = eligible pq2 hasPiece i).
  { intros i. unfold eligible, skipped.
    by repeat match goal with E : ?f pq1 = ?f pq2 |- _ => rewrite E end. }
  unfold choose. repeat match goal with E : ?f pq1 = ?f pq2 |- _ => rewrite E; clear E end.
  rewrite (find_ext_all _ _ _ He), (pick_bucket_ext _ _ _ _ _ _ He), (reservoir_ext _ _ _ _ He).
  done.
Qed.

(** Picking is insensitive to the representation. *)
#[export] Instance Pick_proper ord intn hasPiece :
  Proper ((≡) ==> fun r1 r2 => r1.1 ≡ r2.1 /\ r1.2 = r2.2) (Pick ord intn hasPiece).
Proof.
  intros pq1 pq2 Heq%endgame_check_equiv. unfold Pick.
  rewrite (choose_equiv _ _ _ _ _ Heq).
  destruct (choose _ _ _ _) as [i|]; [|done]. simpl.
  destruct Heq as (Hs & Hb & Ha). unfold same_work in Hs. destruct_and!. split.
  - split_and!; [|done|done]. unfold same_work; simpl. split_and!; congruence.
  - congruence.
Qed.
