(* ===== verification/PieceQueueTheorems.v ===== *)
(** * The piece queue's properties

    Calls of the queue's methods by concurrent workers are interleaved at the
    granularity of whole methods (each holds the mutex), so a run of the program
    is a sequence of operations. *)

From S2P Require Import Prelude Bitfield PieceQueue PieceQueueFacts.
Set Warnings "-clear-no-such-hyp".
Local Open Scope Z_scope.

(** ** Runs *)

Inductive op :=
  | OpPick (ord : gset Z -> list Z) (intn : Z -> Z) (hasPiece : Z -> bool)
  | OpReturn (pw : PieceWork)
  | OpComplete (index : Z)
  | OpAddPeer (ord : gset Z -> list Z) (bf : option Bitfield)
  | OpRemovePeer (ord : gset Z -> list Z) (bf : option Bitfield)
  | OpPeerHave (index : Z)
  | OpSkipMask (mask : option Bitfield)
  | OpRecvWait
  | OpRecvCancel.

Definition exec (pq : PieceQueue) (o : op) : PieceQueue :=
  match o with
  | OpPick ord intn hasPiece => (Pick ord intn hasPiece pq).1
  | OpReturn pw => Return pw pq
  | OpComplete i => Complete i pq
  | OpAddPeer ord bf => AddPeerBitfield ord bf pq
  | OpRemovePeer ord bf => RemovePeerBitfield ord bf pq
  | OpPeerHave i => PeerHave i pq
  | OpSkipMask m => UpdateSkipMask m pq
  | OpRecvWait => default pq (recv_wait pq)
  | OpRecvCancel => default pq (snd <$> recv_cancel pq)
  end.

Definition run (ops : list op) (pq : PieceQueue) : PieceQueue := foldl exec pq ops.

(** The nondeterminism of an operation is within what Go promises. *)
Definition wf_op (o : op) : Prop :=
  match o with
  | OpPick ord intn _ => MapOrder ord /\ RandIntN intn
  | OpAddPeer ord _ | OpRemovePeer ord _ => MapOrder ord
  | _ => True
  end.

Lemma inv_exec pq o : wf_op o -> Inv pq -> Inv (exec pq o).
Proof.
  destruct o; simpl; intros Hwf H.
  - destruct Hwf. by apply inv_Pick.
  - by apply inv_Return.
  - by apply inv_Complete.
  - by apply inv_AddPeerBitfield.
  - by apply inv_RemovePeerBitfield.
  - by apply inv_PeerHave.
  - by apply inv_UpdateSkipMask.
  - destruct (recv_wait pq) eqn:E; [|done]. by eapply inv_recv_wait.
  - destruct (recv_cancel pq) as [[i pq']|] eqn:E; [|done]. by eapply inv_recv_cancel.
Qed.

Lemma inv_run ops : Forall wf_op ops -> forall pq, Inv pq -> Inv (run ops pq).
Proof.
  induction 1 as [|o ops Ho Hops IH]; intros pq H; [done|].
  apply IH. by apply inv_exec.
Qed.

(** What each operation does to the sets of finished and of pending pieces. *)
Lemma same_work_bump delta bf l pq : same_work pq (bump_all delta bf pq l).
Proof.
  revert pq. induction l as [|x l IH]; intros pq; [done|].
  change (bump_all delta bf pq (x :: l)) with
    (bump_all delta bf (if claims bf x then bump delta pq x else pq) l).
  rewrite <- (IH _). by destruct (claims bf x).
Qed.

Lemma exec_done pq o :
  done (exec pq o) = match o with OpComplete i => {[i]} ∪ done pq | _ => done pq end.
Proof.
  destruct o; simpl; try done.
  - unfold Pick. destruct (choose _ _ _ _); simpl; apply endgame_check_same.
  - unfold Complete. by destruct (endgame pq && _).
  - pose proof (same_work_bump 1 bf (ord (dom (pieces pq))) pq) as (_ & _ & Hd & _). by rewrite Hd.
  - pose proof (same_work_bump (-1) bf (ord (dom (pieces pq))) pq) as (_ & _ & Hd & _).
    unfold RemovePeerBitfield. by rewrite <- Hd.
  - unfold PeerHave. by destruct (pieces pq !! index).
  - unfold recv_wait. by destruct (waitCh pq).
  - unfold recv_cancel. by destruct (cancelCh pq).
Qed.

(** An operation that gives piece [i] back: a failed or a finished download. *)
Definition releases (i : Z) (o : op) : Prop :=
  match o with OpReturn pw => Index pw = i | OpComplete j => j = i | _ => False end.

Lemma exec_pending pq o i : i ∈ pending pq -> ~ releases i o -> i ∈ pending (exec pq o).
Proof.
  intros Hi Hr. destruct o; simpl in *; try done.
  - unfold Pick. destruct (endgame_check_same pq) as (_ & Hp & _).
    destruct (choose _ _ _ _); simpl; rewrite Hp; set_solver.
  - set_solver.
  - unfold Complete. destruct (endgame pq && _); simpl; set_solver.
  - pose proof (same_work_bump 1 bf (ord (dom (pieces pq))) pq) as (_ & Hd & _). by rewrite <- Hd.
  - pose proof (same_work_bump (-1) bf (ord (dom (pieces pq))) pq) as (_ & Hd & _).
    unfold RemovePeerBitfield. by rewrite <- Hd.
  - unfold PeerHave. by destruct (pieces pq !! index).
  - unfold recv_wait. by destruct (waitCh pq).
  - unfold recv_cancel. by destruct (cancelCh pq).
Qed.

Lemma run_pending ops i : 
  Forall (fun o => ~ releases i o) ops ->
  forall pq, i ∈ pending pq -> i ∈ pending (run ops pq).
Proof.
  induction 1 as [|o ops Hno Hrel IH]; intros pq Hin; [done|]. apply IH. by apply exec_pending.
Qed.

Lemma run_done ops i : forall pq, i ∈ done pq -> i ∈ done (run ops pq).
Proof.
  induction ops as [|o ops IH]; intros pq Hi; [done|].
  apply IH. rewrite exec_done. destruct o; set_solver.
Qed.

(** ** Properties *)

(** C13: in every state a new queue can reach by any interleaving of its methods
    (whatever the map order and random choices), the queue's invariant holds:
    the buckets index exactly the remaining pieces by their availability and
    none is empty, finished pieces are gone for good, pending and prioritised
    pieces are remaining ones, and the cancel channel is within capacity. *)
Theorem PieceQueue_invariant (ps : list PieceWork) (skip : option Bitfield) (total : Z)
    (pfl seq_ : bool) (ops : list op) :
  Forall wf_op ops -> Inv (run ops (NewPieceQueueWithOptions ps skip total pfl seq_)).
Proof. intros H. apply inv_run; [done|]. apply inv_New. Qed.

Definition two_pieces : list PieceWork := [mkPieceWork 0 [] 16384; mkPieceWork 1 [] 100].

Lemma PieceQueue_invariant_witness :
  Inv (run [OpAddPeer elements None; OpPick elements (fun _ => 0) (fun _ => true); OpComplete 0]
           (NewPieceQueueWithOptions two_pieces None 2 true false)).
Proof.
  apply PieceQueue_invariant. repeat (apply Forall_cons; split); [| | |by apply Forall_nil]; simpl.
  - apply _.
  - split; apply _.
  - done.
Defined.

(** What [Pick] hands out is a remaining piece that is not finished, not
    skipped, held by the peer, and not being downloaded unless in endgame.  It is
    the lowest such index in sequential mode; otherwise it is a prioritised
    piece when one is eligible, and else a piece of minimal availability among
    the eligible ones (rarest first).  The call marks it pending and changes
    nothing but that and the endgame flag. *)
Lemma Pick_spec (ord : gset Z -> list Z) (intn : Z -> Z) (hasPiece : Z -> bool)
    (pq pq' : PieceQueue) (pw : PieceWork) :
  MapOrder ord -> RandIntN intn -> Inv pq ->
  Pick ord intn hasPiece pq = (pq', Some pw) ->
  let pq1 := endgame_check pq in
  let prio := default ∅ (priority pq1) in
  pieces pq !! Index pw = Some pw /\
  eligible pq1 hasPiece (Index pw) = true /\
  pq' = with_pending ({[Index pw]} ∪ pending pq) pq1 /\
  (if sequential pq1 then lowest hasPiece pq1 (Index pw)
   else if existsb (eligible pq1 hasPiece) (elements prio)
   then Index pw ∈ prio else rarest hasPiece pq1 (Index pw)).
Proof.
  intros Ho Hr H HP. simpl. pose proof (inv_endgame_check _ H) as H1.
  destruct (Pick_cases ord intn hasPiece pq H) as [(i & pw' & E & Hp & Hi & Hc)|[E _]];
    rewrite E in HP; [|done]. injection HP as <- <-. subst i.
  destruct (endgame_check_same pq) as (_ & -> & _).
  apply choose_Some in Hc as (Hd & He & Hmode); [|done..].
  split_and!; [done|done|done|]. destruct (sequential _); [done|].
  destruct (existsb _ _) eqn:Hprio; destruct Hmode as [[(j & Hj & Hej) ?]|[Hno ?]]; try done.
  - apply existsb_exists in Hprio as (j & Hj%list_elem_of_In%elem_of_elements & Hej).
    by rewrite (Hno j Hj) in Hej.
  - assert (existsb (eligible (endgame_check pq) hasPiece)
      (elements (default ∅ (priority (endgame_check pq)))) = true) as Hc; [|by rewrite Hc in Hprio].
    apply existsb_exists. exists j. by rewrite <- list_elem_of_In, elem_of_elements.
Qed.

Lemma Pick_spec_witness :
  let pq := AddPeerBitfield elements (Some [x40]) (NewPieceQueue two_pieces) in
  let pq' := (Pick elements (fun _ => 0) (fun _ => true) pq).1 in
  let pw := mkPieceWork 0 [] 16384 in
  let pq1 := endgame_check pq in
  let prio := default ∅ (priority pq1) in
  pieces pq !! Index pw = Some pw /\
  eligible pq1 (fun _ => true) (Index pw) = true /\
  pq' = with_pending ({[Index pw]} ∪ pending pq) pq1 /\
  (if sequential pq1 then lowest (fun _ => true) pq1 (Index pw)
   else if existsb (eligible pq1 (fun _ => true)) (elements prio)
   then Index pw ∈ prio else rarest (fun _ => true) pq1 (Index pw)).
Proof.
  intros pq pq' pw. apply (Pick_spec elements (fun _ => 0) (fun _ => true) pq pq' pw); [apply _|apply _| |].
  - apply inv_AddPeerBitfield; [apply _|]. apply inv_New.
  - vm_compute. reflexivity.
Defined.

(** C14: [Pick] fails exactly when no remaining piece is eligible for the peer:
    no piece is ever withheld by the bucket structure, the priority set or the
    random choice. *)
Theorem Pick_complete (ord : gset Z -> list Z) (intn : Z -> Z) (hasPiece : Z -> bool)
    (pq : PieceQueue) :
  MapOrder ord -> RandIntN intn -> Inv pq ->
  (Pick ord intn hasPiece pq).2 = None <->
  forall j, j ∈ dom (pieces pq) -> eligible (endgame_check pq) hasPiece j = false.
Proof.
  intros Ho Hr H. pose proof (inv_endgame_check _ H) as H1.
  destruct (endgame_check_same pq) as (Hp & _ & _).
  destruct (Pick_cases ord intn hasPiece pq H) as [(i & pw & E & Hpw & Hi & Hc)|[E Hc]];
    rewrite E; simpl; split; try done.
  - intros Hno. apply choose_Some in Hc as (Hd & He & _); [|done..].
    rewrite Hp in Hd. rewrite (Hno i Hd) in He. done.
  - intros _ j Hj. eapply choose_None; [done..|]. by rewrite Hp.
Qed.

Lemma Pick_complete_witness :
  (Pick elements (fun _ => 0) (fun i => i =? 7) (NewPieceQueue two_pieces)).2 = None <->
  forall j, j ∈ dom (pieces (NewPieceQueue two_pieces)) ->
    eligible (endgame_check (NewPieceQueue two_pieces)) (fun i => i =? 7) j = false.
Proof. apply Pick_complete; [apply _|apply _|apply inv_New]. Defined.

(** Once a piece is completed no later [Pick], after any interleaving of
    operations, hands it out again. *)
Lemma Complete_is_final (pq : PieceQueue) (i : Z) (ops : list op)
    (ord : gset Z -> list Z) (intn : Z -> Z) (hasPiece : Z -> bool) (pw : PieceWork) :
  Inv pq -> Forall wf_op ops -> MapOrder ord -> RandIntN intn ->
  (Pick ord intn hasPiece (run ops (Complete i pq))).2 = Some pw -> Index pw <> i.
Proof.
  intros H Hops Ho Hr HP Hi. subst i.
  pose proof (inv_run ops Hops _ (inv_Complete (Index pw) pq H)) as Hinv.
  pose proof (run_done ops (Index pw) (Complete (Index pw) pq)) as Hdone.
  pose proof (exec_done pq (OpComplete (Index pw))) as Hd. cbn [exec] in Hd.
  rewrite Hd in Hdone. specialize (Hdone ltac:(set_solver)).
  destruct (Pick_cases ord intn hasPiece _ Hinv) as [(j & pw' & E & Hpw & Hj & _)|[E _]];
    rewrite E in HP; [|done]. simplify_eq/=. rewrite (inv_done _ Hinv _ Hdone) in Hpw. done.
Qed.

Lemma Complete_is_final_witness :
  Index (mkPieceWork 1 [] 100) <> 0.
Proof.
  apply (Complete_is_final (NewPieceQueue two_pieces) 0 [OpAddPeer elements None; OpPeerHave 0]
           elements (fun _ => 0) (fun _ => true)); [apply inv_New| |apply _|apply _|].
  - repeat (apply Forall_cons; split); [exact elements_order|done|by apply Forall_nil].
  - vm_compute. reflexivity.
Defined.

(** Outside endgame two workers never download the same piece: after [Pick]
    hands out a piece, no other [Pick] hands it out until the piece is returned
    or completed, whatever other operations run in between. *)
Lemma Pick_exclusive (pq pq1 : PieceQueue) (ops : list op) (pw pw' : PieceWork)
    (ord ord' : gset Z -> list Z) (intn intn' : Z -> Z) (hasPiece hasPiece' : Z -> bool) :
  Inv pq -> MapOrder ord -> RandIntN intn -> MapOrder ord' -> RandIntN intn' ->
  Pick ord intn hasPiece pq = (pq1, Some pw) ->
  Forall wf_op ops -> Forall (fun o => ~ releases (Index pw) o) ops ->
  endgame (endgame_check (run ops pq1)) = false ->
  (Pick ord' intn' hasPiece' (run ops pq1)).2 = Some pw' ->
  Index pw' <> Index pw.
Proof.
  intros H Ho Hr Ho' Hr' HP Hops Hrel Heg HP'.
  pose proof (inv_Pick ord intn hasPiece pq H) as Hinv1. rewrite HP in Hinv1. simpl in Hinv1.
  destruct (Pick_cases ord intn hasPiece pq H) as [(i & pw0 & E & _ & Hi & _)|[E _]];
    rewrite E in HP; [|done]. injection HP as <- <-.
  set (pq1 := with_pending _ _) in *.
  assert (Hpend : Index pw0 ∈ pending (run ops pq1)).
  { apply run_pending; [done|]. subst i. simpl. set_solver. }
  pose proof (inv_run ops Hops _ Hinv1) as Hinv2.
  destruct (Pick_cases ord' intn' hasPiece' _ Hinv2) as [(j & pw1 & E' & _ & Hj & Hc)|[E' _]];
    rewrite E' in HP'; [|done]. simplify_eq/=.
  apply choose_Some in Hc as (_ & He & _); [|done|done|by apply inv_endgame_check].
  apply eligible_true in He as (_ & [He|He] & _); [congruence|].
  intros Heq. apply He. destruct (endgame_check_same (run ops pq1)) as (_ & -> & _). by rewrite Heq.
Qed.

Definition many_pieces : list PieceWork :=
  (fun n => mkPieceWork (Z.of_nat n) [] 16384) <$> seq 0 7.

Lemma Pick_exclusive_witness :
  Index (mkPieceWork 1 [] 16384) <> Index (mkPieceWork 0 [] 16384).
Proof.
  apply (Pick_exclusive (NewPieceQueueWithOptions many_pieces None 7 false true)
    (Pick elements (fun _ => 0) (fun _ => true)
       (NewPieceQueueWithOptions many_pieces None 7 false true)).1
    [OpAddPeer elements None] _ _ elements elements (fun _ => 0) (fun _ => 0)
    (fun _ => true) (fun _ => true)); try apply _.
  - apply inv_New.
  - vm_compute. reflexivity.
  - repeat (apply Forall_cons; split); [exact elements_order|by apply Forall_nil].
  - repeat (apply Forall_cons; split); [by intros []|by apply Forall_nil].
  - vm_compute. reflexivity.
  - vm_compute. reflexivity.
Defined.

(** A peer's bitfield raises the availability of exactly the remaining pieces
    it claims (all of them for a nil bitfield), by one, whatever order the map is
    iterated in; removing the same bitfield again, in any order, restores the
    queue (up to stored zeros). *)
Lemma PeerBitfield_roundtrip (ord ord' : gset Z -> list Z) (bf : option Bitfield)
    (pq : PieceQueue) :
  MapOrder ord -> MapOrder ord' -> Inv pq ->
  (forall i, avail (AddPeerBitfield ord bf pq) i =
     avail pq i + (if bool_decide (i ∈ dom (pieces pq)) && claims bf i then 1 else 0)) /\
  RemovePeerBitfield ord' bf (AddPeerBitfield ord bf pq) ≡ pq.
Proof.
  intros Ho Ho' H.
  destruct (bump_all_pieces ord 1 bf pq) as (H1 & S1 & _ & A1); [done|done|].
  assert (A1' : forall i, avail (AddPeerBitfield ord bf pq) i = avail pq i +
    (if bool_decide (i ∈ dom (pieces pq)) && claims bf i then 1 else 0)).
  { intros i. unfold AddPeerBitfield. change (avail (signal ?q) i) with (avail q i).
    rewrite A1. case_bool_decide; [rewrite decide_True by done|by rewrite decide_False].
    by destruct (claims bf i). }
  split; [done|].
  destruct (bump_all_pieces ord' (-1) bf (AddPeerBitfield ord bf pq)) as (H2 & S2 & _ & A2);
    [done|by apply inv_AddPeerBitfield|].
  assert (Hsame : same_work (RemovePeerBitfield ord' bf (AddPeerBitfield ord bf pq)) pq).
  { symmetry. etrans; [exact S1|]. etrans; [|exact S2]. done. }
  assert (Hp : pieces (AddPeerBitfield ord bf pq) = pieces pq) by (symmetry; apply S1).
  assert (Hav : forall i, avail (RemovePeerBitfield ord' bf (AddPeerBitfield ord bf pq)) i = avail pq i).
  { intros i. unfold RemovePeerBitfield. rewrite A2, A1', Hp.
    case_bool_decide; [rewrite decide_True by done|rewrite decide_False by done]; simpl;
      [destruct (claims bf i)|]; lia. }
  split_and!; [done| |done].
  apply buckets_determined; [done|done| |done]. destruct Hsame as [-> _]. done.
Qed.

Lemma PeerBitfield_roundtrip_witness :
  (forall i, avail (AddPeerBitfield elements (Some [x80]) (NewPieceQueue two_pieces)) i =
     avail (NewPieceQueue two_pieces) i +
     (if bool_decide (i ∈ dom (pieces (NewPieceQueue two_pieces))) && claims (Some [x80]) i
      then 1 else 0)) /\
  RemovePeerBitfield elements (Some [x80])
    (AddPeerBitfield elements (Some [x80]) (NewPieceQueue two_pieces)) ≡ NewPieceQueue two_pieces.
Proof. apply PeerBitfield_roundtrip; [apply _|apply _|apply inv_New]. Defined.

(** ** Availability refines the swarm

    The abstract state behind [availability] is the collection of the bitfields
    of the connected peers; a piece's availability is the number of peers that
    claim it. *)

Definition holders (peers : list (option Bitfield)) (i : Z) : Z :=
  len (List.filter (fun bf => claims bf i) peers).

Fixpoint remove_one (bf : option Bitfield) (peers : list (option Bitfield))
    : option (list (option Bitfield)) :=
  match peers with
  | [] => None
  | b :: peers' =>
      if bool_decide (b = bf) then Some peers' else cons b <$> remove_one bf peers'
  end.

(** Abstract effect of an operation; [None] for a use of the queue outside the
    discipline (removing a bitfield no connected peer has; a lone [PeerHave]). *)
Definition swarm_step (peers : list (option Bitfield)) (o : op)
    : option (list (option Bitfield)) :=
  match o with
  | OpAddPeer _ bf => Some (bf :: peers)
  | OpRemovePeer _ bf => remove_one bf peers
  | OpPeerHave _ => None
  | _ => Some peers
  end.

Fixpoint swarm_run (peers : list (option Bitfield)) (ops : list op)
    : option (list (option Bitfield)) :=
  match ops with
  | [] => Some peers
  | o :: ops => swarm_step peers o ≫= fun peers => swarm_run peers ops
  end.

Lemma holders_cons bf peers i :
  holders (bf :: peers) i = holders peers i + (if claims bf i then 1 else 0).
Proof. unfold holders. simpl. destruct (claims bf i); simpl length; lia. Qed.

Lemma holders_remove_one bf peers peers' i :
  remove_one bf peers = Some peers' ->
  holders peers' i = holders peers i - (if claims bf i then 1 else 0).
Proof.
  revert peers'. induction peers as [|b peers IH]; intros peers' Hr; [done|]. simpl in Hr.
  rewrite holders_cons. case_bool_decide; subst; [injection Hr as ->; lia|].
  destruct (remove_one bf peers) as [p|]; simplify_eq/=.
  rewrite holders_cons, (IH p) by done. lia.
Qed.

(** Abstraction relation between the queue and the connected peers. *)
Definition refines_swarm (pq : PieceQueue) (peers : list (option Bitfield)) : Prop :=
  forall i, i ∈ dom (pieces pq) -> avail pq i = holders peers i.

Lemma exec_avail_same pq o i :
  match o with OpAddPeer _ _ | OpRemovePeer _ _ | OpPeerHave _ => True
  | _ => avail (exec pq o) i = avail pq i /\ dom (pieces (exec pq o)) ⊆ dom (pieces pq) end.
Proof.
  destruct o; simpl; try done.
  - unfold Pick. destruct (choose _ _ _ _); unfold endgame_check; repeat case_match; done.
  - unfold Complete. destruct (endgame pq && _); simpl; rewrite dom_delete_L;
      (split; [done|set_solver]).
  - unfold recv_wait. by destruct (waitCh pq).
  - unfold recv_cancel. by destruct (cancelCh pq).
Qed.

Lemma refines_swarm_step pq o peers peers' :
  wf_op o -> Inv pq -> swarm_step peers o = Some peers' ->
  refines_swarm pq peers -> refines_swarm (exec pq o) peers'.
Proof.
  intros Hwf H Hs Href i Hi. pose proof (exec_avail_same pq o i) as Hsame.
  destruct o; simpl in Hs, Hwf; simplify_eq;
    try (lazymatch type of Hsame with _ /\ _ => destruct Hsame as [-> ?]; apply Href; set_solver end).
  - destruct (bump_all_pieces ord 1 bf pq) as (_ & S1 & _ & A1); [done|done|].
    assert (Hp : pieces (exec pq (OpAddPeer ord bf)) = pieces pq) by (symmetry; apply S1).
    rewrite Hp in Hi. unfold exec, AddPeerBitfield.
    change (avail (signal ?q) i) with (avail q i).
    rewrite A1, decide_True, holders_cons, (Href i Hi) by done. done.
  - destruct (bump_all_pieces ord (-1) bf pq) as (_ & S1 & _ & A1); [done|done|].
    assert (Hp : pieces (exec pq (OpRemovePeer ord bf)) = pieces pq) by (symmetry; apply S1).
    rewrite Hp in Hi. unfold exec, RemovePeerBitfield.
    rewrite A1, decide_True, (Href i Hi), (holders_remove_one bf peers peers') by done.
    destruct (claims bf i); lia.
Qed.

(** As long as every bitfield that is removed is one that was added (and not
    yet removed), the availability of a remaining piece is the number of
    connected peers that claim it, in every reachable state; rarest-first
    therefore ranks pieces by their real number of holders. *)
Lemma Availability_refines_swarm (ps : list PieceWork) (skip : option Bitfield) (total : Z)
    (pfl seq_ : bool) (ops : list op) (peers : list (option Bitfield)) :
  Forall wf_op ops -> swarm_run [] ops = Some peers ->
  refines_swarm (run ops (NewPieceQueueWithOptions ps skip total pfl seq_)) peers.
Proof.
  intros Hops Hs.
  assert (Hgen : forall pq peers0, Inv pq -> refines_swarm pq peers0 ->
            swarm_run peers0 ops = Some peers -> refines_swarm (run ops pq) peers).
  { clear Hs. induction Hops as [|o ops Ho Hops IH]; intros pq peers0 Hinv Href Hs;
      simpl in Hs; [by simplify_eq|].
    destruct (swarm_step peers0 o) as [peers1|] eqn:E; [|done].
    eapply IH; [by apply inv_exec|by eapply refines_swarm_step|done]. }
  eapply Hgen; [apply inv_New| |exact Hs].
  intros i _. unfold avail; simpl. by rewrite lookup_empty.
Qed.

Lemma Availability_refines_swarm_witness :
  refines_swarm (run [OpAddPeer elements (Some [x80]); OpAddPeer elements None;
                      OpRemovePeer elements (Some [x80])]
                     (NewPieceQueueWithOptions two_pieces None 2 false false)) [None].
Proof.
  apply Availability_refines_swarm; [|by vm_compute].
  repeat (apply Forall_cons; split); [exact elements_order..|by apply Forall_nil].
Defined.

(** [runWorkers] passes the same slice to [AddPeerBitfield] and, deferred, to
    [RemovePeerBitfield]; [safeBitfieldSet] writes the peer's later [have]
    messages into that slice.  The bitfield that is removed then claims more than
    the one that was added: here peer A holds piece 0, peer B joins with piece 1,
    announces piece 0 and leaves, and piece 0 counts as held by nobody; without
    peer A its availability is negative. *)
Lemma Have_drifts_availability :
  let added := [x40] in
  let removed := (SetPiece added 0).2 in
  let a := AddPeerBitfield elements (Some [x80]) (NewPieceQueue two_pieces) in
  let ab := AddPeerBitfield elements (Some added) a in
  let b := AddPeerBitfield elements (Some added) (NewPieceQueue two_pieces) in
  HasPiece [x80] 0 = true /\
  avail (RemovePeerBitfield elements (Some removed) ab) 0 = 0 /\
  avail (RemovePeerBitfield elements (Some removed) b) 0 = -1.
Proof. split_and!; by vm_compute. Qed.

