(* ===== verification/Workers.v ===== *)
(** * The download workers and their collector ([download/download.go])

    [runWorkers] starts one goroutine per peer (and one per web seed); each picks
    a piece, downloads it, marks it complete and sends it on [resultCh].
    [DownloadWithParams] receives the results, writes each one at its offset and
    counts it, and returns when the count reaches the number of queued pieces.

    A goroutine is a program counter; a run is any interleaving of their steps,
    [wstep] at the granularity of the calls on the shared queue and channel.  A
    step that is not enabled gives [None].  Dialling, the semaphores and the
    retry sweep only decide when a worker is spawned; buffers from the piece pool
    are values. *)

From S2P Require Import Prelude Bitfield PieceQueue PieceQueueFacts.
Set Warnings "-clear-no-such-hyp".
Local Open Scope Z_scope.

(** A result on the channel: the index and the data of a piece. *)
Record PieceResult := mkPieceResult { r_index : Z; r_data : bytes }.

Inductive worker_kind := PeerWorker | WebSeedWorker.

(** Where a worker's loop is. *)
Inductive pc :=
  | AtLoop                                    (** top of the [for] *)
  | Blocked                                   (** receiving from [pq.Wait()] *)
  | Picked (pw : PieceWork)                   (** before the first [IsDone] *)
  | Fetching (pw : PieceWork)                 (** in [DownloadPiece] *)
  | Fetched (pw : PieceWork) (data : bytes)   (** before the second [IsDone] *)
  | Passed (pw : PieceWork) (data : bytes)    (** before [Complete] *)
  | Sending (pw : PieceWork) (data : bytes)   (** sending on [resultCh] *)
  | Leaving                                   (** running the deferred calls *)
  | Exited.

Inductive outcome := Running | Finished | WriteFailed | WorkersFinished | Cancelled.

Record world := mkWorld {
  queue : PieceQueue;
  workers : gmap nat (worker_kind * pc);
  resultCh : list PieceResult;
  remaining : Z;                    (** pieces queued at the start *)
  received : list Z;                (** indices the collector has counted *)
  written : gmap Z bytes;           (** the data written for each piece *)
  ctx_done : bool;
  status : outcome;
  pieceLen : Z;                     (** [pieceLength] of the collector *)
  writes : list (Z * bytes)         (** the calls of [WriteAt] that succeeded: offset and data *)
}.

Definition result_cap : nat := 64.

(** The piece list of [DownloadWithParams]: every piece of the torrent that is
    neither in [have] nor in [skip], the last one shorter.  The lengths are
    computed in [int64]. *)
Definition has_opt (bf : option Bitfield) (i : Z) : bool :=
  match bf with Some bf => HasPiece bf i | None => false end.

Fixpoint build_pieces (have skip : option Bitfield) (pieceLength tl i : Z) (hashes : list bytes)
    : list PieceWork :=
  match hashes with
  | [] => []
  | hash :: hashes =>
      let rest := build_pieces have skip pieceLength tl (i + 1) hashes in
      if has_opt have i then rest
      else if has_opt skip i then rest
      else
        let rem := i64 (tl - i64 (i * pieceLength)) in
        let length := if rem <? pieceLength then rem else pieceLength in
        mkPieceWork i hash length :: rest
  end.

Definition start (ps : list PieceWork) (skip : option Bitfield) (numPieces pieceLength : Z) (pfl seq_ : bool)
    : world :=
  mkWorld (NewPieceQueueWithOptions ps skip numPieces pfl seq_) ∅ [] (len ps) [] ∅ false Running pieceLength [].

Definition download_start (have skip : option Bitfield) (pieceLength tl : Z) (hashes : list bytes)
    (pfl seq_ : bool) : world :=
  start (build_pieces have skip pieceLength tl 0 hashes) skip (len hashes) pieceLength pfl seq_.

(** The choices of the scheduler, the network and the file system. *)
Inductive label :=
  | LSpawn (w : nat) (ord : gset Z -> list Z) (bf : option Bitfield)
  | LSpawnWeb (w : nat)
  | LPick (w : nat) (ord : gset Z -> list Z) (intn : Z -> Z) (hasPiece : Z -> bool)
  | LWake (w : nat)
  | LCheck (w : nat)                    (** the first [IsDone] *)
  | LFetch (w : nat) (data : bytes)     (** [DownloadPiece] succeeds *)
  | LFetchErr (w : nat)                 (** [DownloadPiece] fails *)
  | LRecheck (w : nat)                  (** the second [IsDone] *)
  | LComplete (w : nat)
  | LSend (w : nat)
  | LStop (w : nat)                     (** a branch of [ctx.Done()] *)
  | LLeave (w : nat) (ord : gset Z -> list Z) (bf : option Bitfield)
  | LSkipMask (m : option Bitfield)
  | LReceive (write_ok : bool)
  | LReturn
  | LClosed
  | LCancel                             (** the caller cancels the context *)
  | LAbort.                             (** the collector's [ctx.Done()] branch *)

Definition set_worker (w : nat) (k : worker_kind) (p : pc) (pq : PieceQueue) (W : world) : world :=
  mkWorld pq (<[w := (k, p)]> (workers W)) (resultCh W) (remaining W) (received W) (written W)
    (ctx_done W) (status W) (pieceLen W) (writes W).

Definition set_status (s : outcome) (W : world) : world :=
  mkWorld (queue W) (workers W) (resultCh W) (remaining W) (received W) (written W)
    (ctx_done W) s (pieceLen W) (writes W).

(** One step of a goroutine of [runWorkers]. *)
Definition worker_step (l : label) (W : world) : option world :=
  let pq := queue W in
  match l with
  | LSpawn w ord bf =>
      match workers W !! w with
      | None => Some (set_worker w PeerWorker AtLoop (AddPeerBitfield ord bf pq) W)
      | Some _ => None
      end
  | LSpawnWeb w =>
      match workers W !! w with
      | None => Some (set_worker w WebSeedWorker AtLoop pq W)
      | Some _ => None
      end
  | LPick w ord intn hasPiece =>
      match workers W !! w with
      | Some (k, AtLoop) =>
          let hasPiece := match k with PeerWorker => hasPiece | WebSeedWorker => fun _ => true end in
          match Pick ord intn hasPiece pq with
          | (pq', Some pw) => Some (set_worker w k (Picked pw) pq' W)
          | (pq', None) => Some (set_worker w k Blocked pq' W)
          end
      | _ => None
      end
  | LWake w =>
      match workers W !! w, recv_wait pq with
      | Some (k, Blocked), Some pq' => Some (set_worker w k AtLoop pq' W)
      | _, _ => None
      end
  | LCheck w =>
      match workers W !! w with
      | Some (k, Picked pw) =>
          Some (set_worker w k (if IsDone (Index pw) pq then AtLoop else Fetching pw) pq W)
      | _ => None
      end
  | LFetch w data =>
      match workers W !! w with
      | Some (k, Fetching pw) => Some (set_worker w k (Fetched pw data) pq W)
      | _ => None
      end
  | LFetchErr w =>
      match workers W !! w with
      | Some (k, Fetching pw) => Some (set_worker w k Leaving (Return pw pq) W)
      | _ => None
      end
  | LRecheck w =>
      match workers W !! w with
      | Some (k, Fetched pw data) =>
          Some (set_worker w k (if IsDone (Index pw) pq then AtLoop else Passed pw data) pq W)
      | _ => None
      end
  | LComplete w =>
      match workers W !! w with
      | Some (k, Passed pw data) =>
          Some (set_worker w k (Sending pw data) (Complete (Index pw) pq) W)
      | _ => None
      end
  | LSend w =>
      match workers W !! w with
      | Some (k, Sending pw data) =>
          if (length (resultCh W) <? result_cap)%nat then
            Some (mkWorld pq (<[w := (k, AtLoop)]> (workers W))
                    (resultCh W ++ [mkPieceResult (Index pw) data])
                    (remaining W) (received W) (written W) (ctx_done W) (status W) (pieceLen W) (writes W))
          else None
      | _ => None
      end
  | LStop w =>
      if ctx_done W then
        match workers W !! w with
        | Some (k, AtLoop) | Some (k, Blocked) | Some (k, Sending _ _) =>
            Some (set_worker w k Leaving pq W)
        | _ => None
        end
      else None
  | LLeave w ord bf =>
      match workers W !! w with
      | Some (PeerWorker, Leaving) =>
          Some (set_worker w PeerWorker Exited (RemovePeerBitfield ord bf pq) W)
      | Some (WebSeedWorker, Leaving) => Some (set_worker w WebSeedWorker Exited pq W)
      | _ => None
      end
  | LSkipMask m => Some (mkWorld (UpdateSkipMask m pq) (workers W) (resultCh W) (remaining W)
                           (received W) (written W) (ctx_done W) (status W) (pieceLen W) (writes W))
  | _ => None
  end.

Definition all_exited (W : world) : bool :=
  forallb (fun '(_, (_, p)) => match p with Exited => true | _ => false end)
          (map_to_list (workers W)).

(** One turn of the collector loop of [DownloadWithParams] ([completed] is the
    number of results received), and cancellation by the caller. *)
Definition collector_step (l : label) (W : world) : option world :=
  match status W, l with
  | Running, LReceive write_ok =>
      if len (received W) <? remaining W then
        match resultCh W with
        | res :: ch =>
            Some (mkWorld (queue W) (workers W) ch (remaining W)
                    (if write_ok then received W ++ [r_index res] else received W)
                    (if write_ok then <[r_index res := r_data res]> (written W) else written W)
                    (ctx_done W) (if write_ok then Running else WriteFailed) (pieceLen W)
                    (if write_ok then writes W ++ [(i64 (r_index res * pieceLen W), r_data res)] else writes W))
        | [] => None
        end
      else None
  | Running, LReturn =>
      if len (received W) <? remaining W then None else Some (set_status Finished W)
  | Running, LClosed =>
      if (len (received W) <? remaining W) && all_exited W && (len (resultCh W) =? 0)
      then Some (set_status WorkersFinished W) else None
  | Running, LAbort =>
      if (len (received W) <? remaining W) && ctx_done W then Some (set_status Cancelled W) else None
  | s, LCancel =>
      Some (mkWorld (queue W) (workers W) (resultCh W) (remaining W) (received W) (written W) true s
              (pieceLen W) (writes W))
  | _, _ => None
  end.

Definition wstep (l : label) (W : world) : option world :=
  match l with
  | LReceive _ | LReturn | LClosed | LCancel | LAbort => collector_step l W
  | _ => worker_step l W
  end.

Fixpoint wrun (ls : list label) (W : world) : option world :=
  match ls with
  | [] => Some W
  | l :: ls => wstep l W ≫= wrun ls
  end.

(** ** Invariant *)

Section Correctness.
(** [good pw data]: [data] is what the piece [pw] stands for; the postcondition
    of [DownloadPiece] (its SHA-1 is the piece's hash). *)
Context (good : PieceWork -> bytes -> Prop).

Definition wf_label (W : world) (l : label) : Prop :=
  match l with
  | LSpawn _ ord _ | LLeave _ ord _ => MapOrder ord
  | LPick _ ord intn _ => MapOrder ord /\ RandIntN intn
  | LFetch w data =>
      match workers W !! w with Some (_, Fetching pw) => good pw data | _ => True end
  | _ => True
  end.

Inductive reachable (W0 : world) : world -> Prop :=
  | reach_start : reachable W0 W0
  | reach_step W W' l : reachable W0 W -> wf_label W l -> wstep l W = Some W' -> reachable W0 W'.

(** The pieces queued at the start. *)
Context (orig : gmap Z PieceWork).

Definition known (pw : PieceWork) : Prop := orig !! Index pw = Some pw.

Definition pc_ok (pq : PieceQueue) (p : pc) : Prop :=
  match p with
  | Picked pw | Fetching pw => known pw
  | Fetched pw data | Passed pw data => known pw /\ good pw data
  | Sending pw data => known pw /\ good pw data /\ Index pw ∈ done pq
  | _ => True
  end.

Definition good_at (i : Z) (data : bytes) : Prop :=
  exists pw, orig !! i = Some pw /\ good pw data.

(** Where the result of a completed piece can be. *)
Definition delivered (W : world) (i : Z) : Prop :=
  i ∈ received W \/ i ∈ (r_index <$> resultCh W) \/
  exists w k pw data, workers W !! w = Some (k, Sending pw data) /\ Index pw = i.

Record WInv (W : world) : Prop := {
  w_queue : Inv (queue W);
  w_pieces : pieces (queue W) ⊆ orig;
  w_done : done (queue W) ⊆ dom orig;
  w_cover : dom orig ⊆ dom (pieces (queue W)) ∪ done (queue W);
  w_pc w k p : workers W !! w = Some (k, p) -> pc_ok (queue W) p;
  w_chan res : res ∈ resultCh W -> good_at (r_index res) (r_data res);
  w_received i : i ∈ received W -> exists data, written W !! i = Some data;
  w_written i data : written W !! i = Some data -> good_at i data;
  w_writes off data : (off, data) ∈ writes W ->
    exists i, off = i64 (i * pieceLen W) /\ good_at i data;
  w_at i : i ∈ received W -> exists data, (i64 (i * pieceLen W), data) ∈ writes W;
  w_finished : status W = Finished -> remaining W <= len (received W);
  w_kept i : ctx_done W = false -> status W <> WriteFailed ->
    i ∈ done (queue W) -> delivered W i
}.

Lemma winv_move W w k p pq' :
  WInv W -> Inv pq' -> pieces pq' = pieces (queue W) -> done pq' = done (queue W) ->
  pc_ok pq' p ->
  (forall k pw data, workers W !! w = Some (k, Sending pw data) -> ctx_done W = true) ->
  WInv (set_worker w k p pq' W).
Proof.
  intros H Hinv Hp Hd Hpc Hns. constructor; simpl; rewrite ?Hp, ?Hd; try apply H; [done| |].
  - intros w' k' p' [[-> [= -> ->]]|[Hne Hw]]%lookup_insert_Some; [done|].
    pose proof (w_pc _ H _ _ _ Hw) as Hok. destruct p'; simpl in *; rewrite ?Hd; done.
  - intros i Hc Hs Hi. destruct (w_kept _ H i Hc Hs Hi) as [?|[?|(w' & k' & pw & data & Hw & Hpw)]];
      [by left|by right; left|].
    right; right. exists w', k', pw, data. split; [|done]. simpl.
    rewrite lookup_insert_ne; [done|]. intros <-. specialize (Hns _ _ _ Hw). congruence.
Qed.

(** Queue operations that leave the remaining and the completed pieces alone. *)
Lemma pick_frame ord intn hasPiece pq :
  pieces (Pick ord intn hasPiece pq).1 = pieces pq /\ done (Pick ord intn hasPiece pq).1 = done pq.
Proof.
  destruct (endgame_check_same pq) as (Hp & _ & Hd). unfold Pick. by destruct (choose _ _ _ _).
Qed.

Lemma bump_frame ord delta bf pq :
  MapOrder ord -> delta <> 0 -> Inv pq ->
  pieces (bump_all delta bf pq (ord (dom (pieces pq)))) = pieces pq /\
  done (bump_all delta bf pq (ord (dom (pieces pq)))) = done pq.
Proof.
  intros Hord Hd H. destruct (bump_all_pieces ord delta bf pq Hd H) as (_ & Hs & _).
  unfold same_work in Hs. destruct_and!. done.
Qed.

Lemma pick_known W ord intn hasPiece pw :
  MapOrder ord -> RandIntN intn -> WInv W -> (Pick ord intn hasPiece (queue W)).2 = Some pw ->
  known pw.
Proof.
  intros Ho Hr H. destruct (Pick_cases ord intn hasPiece (queue W) (w_queue _ H))
    as [(i & pw' & -> & Hpw & <- & _)|[-> _]]; simpl; [|done].
  intros [= <-]. eapply lookup_weaken; [done|apply H].
Qed.

Lemma winv_complete W w k pw data :
  WInv W -> workers W !! w = Some (k, Passed pw data) ->
  WInv (set_worker w k (Sending pw data) (Complete (Index pw) (queue W)) W).
Proof.
  intros H Hw. destruct (w_pc _ H _ _ _ Hw) as [Hk Hg].
  assert (Hp : pieces (Complete (Index pw) (queue W)) = delete (Index pw) (pieces (queue W))).
  { unfold Complete. by destruct (_ && _). }
  assert (Hd : done (Complete (Index pw) (queue W)) = {[Index pw]} ∪ done (queue W)).
  { unfold Complete. by destruct (_ && _). }
  assert (Hdom : Index pw ∈ dom orig) by (apply elem_of_dom; eauto).
  pose proof (inv_Complete (Index pw) _ (w_queue _ H)) as Hinv.
  revert Hp Hd Hinv. generalize (Complete (Index pw) (queue W)). intros pq' Hp Hd Hinv.
  constructor; simpl; rewrite ?Hp, ?Hd; try apply H.
  - done.
  - etrans; [apply delete_subseteq|apply H].
  - pose proof (w_done _ H). set_solver.
  - pose proof (w_cover _ H) as Hc. rewrite dom_delete_L. intros i Hi. specialize (Hc i Hi).
    destruct (decide (i = Index pw)); set_solver.
  - intros w' k' p' [[-> [= -> <-]]|[Hne Hw']]%lookup_insert_Some; simpl; rewrite ?Hd.
    + split_and!; [done..|set_solver].
    + pose proof (w_pc _ H _ _ _ Hw') as Hok. destruct p'; simpl in *; try done.
      rewrite Hd. destruct_and!. split_and!; [done..|set_solver].
  - intros i Hc Hs [Hi%elem_of_singleton|Hi]%elem_of_union.
    + right; right. exists w, k, pw, data. split; [apply lookup_insert_eq|done].
    + destruct (w_kept _ H i Hc Hs Hi) as [?|[?|(w' & k' & pw' & data' & Hw' & Hpw)]];
        [by left|by right; left|].
      right; right. exists w', k', pw', data'. split; [|done]. simpl.
      rewrite lookup_insert_ne; [done|]. intros <-. congruence.
Qed.

Lemma winv_send W w k pw data :
  WInv W -> workers W !! w = Some (k, Sending pw data) ->
  WInv (mkWorld (queue W) (<[w := (k, AtLoop)]> (workers W))
          (resultCh W ++ [mkPieceResult (Index pw) data])
          (remaining W) (received W) (written W) (ctx_done W) (status W) (pieceLen W) (writes W)).
Proof.
  intros H Hw. destruct (w_pc _ H _ _ _ Hw) as (Hk & Hg & Hd).
  constructor; simpl; try apply H.
  - intros w' k' p' [[-> [= -> <-]]|[Hne Hw']]%lookup_insert_Some; [done|by eapply H].
  - intros res [Hr| ->%list_elem_of_singleton]%elem_of_app; [by apply H|].
    exists pw. done.
  - intros i Hc Hs Hi. unfold delivered; simpl. rewrite fmap_app, elem_of_app; simpl.
    destruct (w_kept _ H i Hc Hs Hi) as [?|[?|(w' & k' & pw' & data' & Hw' & Hpw)]];
      [by left|by right; left; left|].
    destruct (decide (w' = w)) as [->|Hne].
    + right; left; right. apply list_elem_of_singleton. congruence.
    + right; right. exists w', k', pw', data'. by rewrite lookup_insert_ne.
Qed.

Lemma winv_receive W res ch :
  WInv W -> status W = Running -> resultCh W = res :: ch ->
  WInv (mkWorld (queue W) (workers W) ch (remaining W) (received W ++ [r_index res])
          (<[r_index res := r_data res]> (written W)) (ctx_done W) Running (pieceLen W)
          (writes W ++ [(i64 (r_index res * pieceLen W), r_data res)])).
Proof.
  intros H Hrun Hch.
  assert (Hg : good_at (r_index res) (r_data res)) by (apply (w_chan _ H); rewrite Hch; left).
  constructor; simpl; try apply H.
  - intros r Hr. apply (w_chan _ H). rewrite Hch. by right.
  - intros i [Hi| ->%list_elem_of_singleton]%elem_of_app; [|rewrite lookup_insert_eq; eauto].
    destruct (decide (i = r_index res)) as [->|]; [rewrite lookup_insert_eq; eauto|].
    rewrite lookup_insert_ne by done. by apply H.
  - intros i data [[<- <-]|[_ Hi]]%lookup_insert_Some; [done|by eapply H].
  - intros off data [Hw|[= -> ->]%list_elem_of_singleton]%elem_of_app; [by apply (w_writes _ H)|eauto].
  - intros i [Hi| ->%list_elem_of_singleton]%elem_of_app.
    + destruct (w_at _ H i Hi) as [data Hd]. exists data. apply elem_of_app. by left.
    + exists (r_data res). apply elem_of_app. right. by apply list_elem_of_singleton.
  - done.
  - intros i Hc _ Hi. unfold delivered; simpl. rewrite elem_of_app, list_elem_of_singleton.
    assert (Hs : status W <> WriteFailed) by congruence.
    destruct (w_kept _ H i Hc Hs Hi) as [?|[Hin|?]]; [by left; left| |by right; right].
    rewrite Hch in Hin. apply elem_of_cons in Hin as [->|?]; [by left; right|by right; left].
Qed.

Lemma winv_status W s :
  WInv W -> (s = Finished -> remaining W <= len (received W)) ->
  (s <> WriteFailed -> status W <> WriteFailed) -> WInv (set_status s W).
Proof.
  intros H Hf Hs. constructor; simpl; try apply H; [done|].
  intros i Hc Hs'. apply H; auto.
Qed.

Lemma winv_worker_step W W' l :
  wf_label W l -> WInv W -> worker_step l W = Some W' -> WInv W'.
Proof.
  intros Hwf H Hstep. destruct l; simpl in Hwf, Hstep; try done.
  - destruct (workers W !! w) eqn:Ew; simplify_eq.
    destruct (bump_frame ord 1 bf (queue W)) as [Hp Hd]; [done..|apply H|].
    apply winv_move; try done; [|naive_solver]. apply inv_AddPeerBitfield; [done|apply H].
  - destruct (workers W !! w) eqn:Ew; simplify_eq.
    apply winv_move; try done; [apply H|naive_solver].
  - destruct (workers W !! w) as [[k []]|] eqn:Ew; simplify_eq. destruct Hwf as [Ho Hr].
    set (hp := match k with PeerWorker => _ | _ => _ end) in Hstep.
    destruct (pick_frame ord intn hp (queue W)) as [Hp Hd].
    pose proof (inv_Pick ord intn hp _ (w_queue _ H)) as Hinv.
    pose proof (pick_known W ord intn hp) as Hk.
    destruct (Pick ord intn hp (queue W)) as [pq' [pw|]]; simplify_eq/=;
      (apply winv_move; [done..| |naive_solver]); [by apply Hk|done].
  - destruct (workers W !! w) as [[k []]|] eqn:Ew; try done.
    destruct (recv_wait (queue W)) as [pq'|] eqn:Er; simplify_eq.
    pose proof (inv_recv_wait _ _ Er (w_queue _ H)) as Hinv.
    unfold recv_wait in Er. destruct (waitCh (queue W)); simplify_eq.
    apply winv_move; try done; naive_solver.
  - destruct (workers W !! w) as [[k []]|] eqn:Ew; simplify_eq.
    apply winv_move; try done; [apply H| |naive_solver].
    pose proof (w_pc _ H _ _ _ Ew). by destruct (IsDone _ _).
  - destruct (workers W !! w) as [[k []]|] eqn:Ew; simplify_eq.
    apply winv_move; try done; [apply H| |naive_solver].
    split; [exact (w_pc _ H _ _ _ Ew)|done].
  - destruct (workers W !! w) as [[k []]|] eqn:Ew; simplify_eq.
    apply winv_move; try done; [apply inv_Return, H|naive_solver].
  - destruct (workers W !! w) as [[k []]|] eqn:Ew; simplify_eq.
    apply winv_move; try done; [apply H| |naive_solver].
    pose proof (w_pc _ H _ _ _ Ew). by destruct (IsDone _ _).
  - destruct (workers W !! w) as [[k []]|] eqn:Ew; simplify_eq. by apply winv_complete.
  - destruct (workers W !! w) as [[k []]|] eqn:Ew; try done.
    destruct (_ <? _)%nat; simplify_eq. by apply winv_send.
  - destruct (ctx_done W) eqn:Ec; [|done].
    destruct (workers W !! w) as [[k []]|] eqn:Ew; simplify_eq;
      (apply winv_move; [done|apply H|done..|naive_solver]).
  - destruct (workers W !! w) as [[[] []]|] eqn:Ew; simplify_eq.
    + destruct (bump_frame ord (-1) bf (queue W)) as [Hp Hd]; [done..|apply H|].
      apply winv_move; try done; [|naive_solver]. apply inv_RemovePeerBitfield; [done|apply H].
    + apply winv_move; try done; [apply H|naive_solver].
  - simplify_eq. destruct H. constructor; try done. by apply inv_UpdateSkipMask.
Qed.

Lemma winv_step W W' l : wf_label W l -> WInv W -> wstep l W = Some W' -> WInv W'.
Proof.
  intros Hwf H Hstep.
  destruct l; try (by eapply winv_worker_step); unfold wstep, collector_step in Hstep.
  - destruct (status W) eqn:Es; try done. destruct (_ <? _); [|done].
    destruct (resultCh W) as [|res ch] eqn:Ech; [done|].
    destruct write_ok; simplify_eq; [by apply winv_receive|].
    destruct H. constructor; try done. intros r Hr. apply w_chan0. rewrite Ech. by right.
  - destruct (status W) eqn:Es; try done.
    destruct (Z.ltb_spec (len (received W)) (remaining W)); simplify_eq.
    apply winv_status; [done|lia|congruence].
  - destruct (status W) eqn:Es; try done. destruct (_ && _); simplify_eq.
    apply winv_status; [done..|congruence].
  - destruct (status W) eqn:Es; simplify_eq; destruct H; constructor; simpl; auto; done.
  - destruct (status W) eqn:Es; try done. destruct (_ && _); simplify_eq.
    apply winv_status; [done..|congruence].
Qed.

Lemma winv_reachable W0 W : WInv W0 -> reachable W0 W -> WInv W.
Proof. induction 2; [done|]. by eapply winv_step. Qed.

End Correctness.

(** ** The start state *)

Definition piece_length (pieceLength tl i : Z) : Z :=
  let rem := i64 (tl - i64 (i * pieceLength)) in if rem <? pieceLength then rem else pieceLength.

Lemma build_pieces_spec have skip pl tl i hashes pw :
  pw ∈ build_pieces have skip pl tl i hashes <->
  has_opt have (Index pw) = false /\ has_opt skip (Index pw) = false /\
  i <= Index pw /\ hashes !! Z.to_nat (Index pw - i) = Some (Hash pw) /\
  Length pw = piece_length pl tl (Index pw).
Proof.
  revert i. induction hashes as [|h hashes IH]; intros i; simpl.
  { split; [set_solver|]. intros (_ & _ & _ & ? & _). done. }
  assert (Hrest : pw ∈ build_pieces have skip pl tl (i + 1) hashes <->
            has_opt have (Index pw) = false /\ has_opt skip (Index pw) = false /\
            i < Index pw /\ (h :: hashes) !! Z.to_nat (Index pw - i) = Some (Hash pw) /\
            Length pw = piece_length pl tl (Index pw)).
  { rewrite IH. split; intros (? & ? & ? & Hl & ?); split_and!; try done; try lia;
      replace (Z.to_nat (Index pw - i)) with (S (Z.to_nat (Index pw - (i + 1)))) in * by lia;
      done. }
  assert (Hhead : Index pw = i -> (h :: hashes) !! Z.to_nat (Index pw - i) = Some h).
  { intros ->. by rewrite Z.sub_diag. }
  destruct (has_opt have i) eqn:Eh; [|destruct (has_opt skip i) eqn:Es].
  - rewrite Hrest. split; intros (? & ? & ? & ? & ?); split_and!; try done; [lia|].
    destruct (decide (Index pw = i)); [congruence|lia].
  - rewrite Hrest. split; intros (? & ? & ? & ? & ?); split_and!; try done; [lia|].
    destruct (decide (Index pw = i)); [congruence|lia].
  - rewrite elem_of_cons, Hrest. split.
    + intros [->|(? & ? & ? & ? & ?)]; split_and!; try done; simpl; try lia.
      by rewrite Z.sub_diag.
    + intros (? & ? & ? & Hl & Hlen). destruct (decide (Index pw = i)) as [Hi|];
        [left|right; split_and!; try done; lia].
      rewrite (Hhead Hi) in Hl. destruct pw; simpl in *; subst. by simplify_eq.
Qed.

Lemma build_pieces_NoDup have skip pl tl i hashes :
  NoDup (Index <$> build_pieces have skip pl tl i hashes).
Proof.
  revert i. induction hashes as [|h hashes IH]; intros i; simpl; [constructor|].
  destruct (has_opt have i); [done|]. destruct (has_opt skip i); [done|].
  simpl. constructor; [|done]. intros (pw & Hi & Hpw)%list_elem_of_fmap.
  apply build_pieces_spec in Hpw as (_ & _ & ? & _). simpl in *. lia.
Qed.

Lemma foldl_insert_pieces (l : list PieceWork) :
  NoDup (Index <$> l) ->
  let m := foldl (fun m pw => <[Index pw := pw]> m) (∅ : gmap Z PieceWork) l in
  size m = length l /\ forall pw, pw ∈ l -> m !! Index pw = Some pw.
Proof.
  induction l as [|x l IH] using rev_ind; simpl.
  { intros _. split; [by rewrite map_size_empty|set_solver]. }
  rewrite fmap_app. intros (Hl & Hx & _)%NoDup_app. destruct (IH Hl) as [Hs Hm].
  rewrite foldl_app. simpl. set (m := foldl _ (∅ : gmap Z PieceWork) l) in *.
  destruct (new_pieces_spec l) as (Hin & _ & _). fold m in Hin.
  assert (Hnone : m !! Index x = None).
  { apply eq_None_not_Some. intros [pw Hpw]. destruct (Hin _ _ Hpw) as [Hi Hpl].
    apply (Hx (Index pw)); [by apply list_elem_of_fmap_2|simpl; rewrite Hi; by left]. }
  split.
  - rewrite map_size_insert_None by done. rewrite length_app, Hs. simpl. lia.
  - intros pw [Hpw| ->%list_elem_of_singleton]%elem_of_app; [|apply lookup_insert_eq].
    rewrite lookup_insert_ne; [by apply Hm|]. intros Heq. apply (Hx (Index pw)).
    + by apply list_elem_of_fmap_2.
    + rewrite <- Heq. by left.
Qed.

Section Start.
Context (good : PieceWork -> bytes -> Prop).
Context (have skip : option Bitfield) (pl tl : Z) (hashes : list bytes) (pfl seq_ : bool).

Let ps := build_pieces have skip pl tl 0 hashes.
Let W0 := download_start have skip pl tl hashes pfl seq_.

Lemma start_pieces :
  pieces (queue W0) = foldl (fun m pw => <[Index pw := pw]> m) (∅ : gmap Z PieceWork) ps.
Proof.
  unfold W0, download_start, start, NewPieceQueueWithOptions; simpl. f_equal.
  destruct skip as [mask|] eqn:E; [|done]. fold ps.
  assert (Hall : Forall (fun pw => HasPiece mask (Index pw) = false) ps).
  { apply Forall_forall. intros pw Hpw. apply build_pieces_spec in Hpw as (_ & Hs & _). done. }
  induction Hall as [|pw l Hpw Hl IH]; simpl; [done|]. by rewrite Hpw, IH.
Qed.

Lemma start_lookup pw : pieces (queue W0) !! Index pw = Some pw <-> pw ∈ ps.
Proof.
  rewrite start_pieces. destruct (foldl_insert_pieces ps) as [_ Hm]; [apply build_pieces_NoDup|].
  destruct (new_pieces_spec ps) as (Hin & _ & _). split; [|by apply Hm].
  intros Hpw. by destruct (Hin _ _ Hpw).
Qed.

Lemma start_size : remaining W0 = Z.of_nat (size (pieces (queue W0))).
Proof.
  rewrite start_pieces. destruct (foldl_insert_pieces ps) as [Hs _]; [apply build_pieces_NoDup|].
  rewrite Hs. done.
Qed.

Lemma winv_start : WInv good (pieces (queue W0)) W0.
Proof.
  constructor; simpl; try done; try set_solver. apply inv_New.
Qed.

Lemma winv_download W : reachable good W0 W -> WInv good (pieces (queue W0)) W.
Proof. apply winv_reachable, winv_start. Qed.

Lemma reachable_remaining W : reachable good W0 W -> remaining W = remaining W0.
Proof.
  induction 1 as [|W W' l _ IH _ Hstep]; [done|]. rewrite <- IH.
  destruct l; cbn in Hstep; unfold collector_step in Hstep; repeat case_match; by simplify_eq.
Qed.

End Start.

(** ** Properties *)

Section Theorems.
Context (good : PieceWork -> bytes -> Prop).
Context (have skip : option Bitfield) (pl tl : Z) (hashes : list bytes) (pfl seq_ : bool).

Lemma start_queued i hash :
  hashes !! Z.to_nat i = Some hash -> 0 <= i -> has_opt have i = false -> has_opt skip i = false ->
  pieces (queue (download_start have skip pl tl hashes pfl seq_)) !! i =
    Some (mkPieceWork i hash (piece_length pl tl i)).
Proof.
  intros Hh Hi Hhave Hskip. set (pw := mkPieceWork _ _ _).
  change i with (Index pw). apply start_lookup, build_pieces_spec. simpl.
  rewrite Z.sub_0_r. done.
Qed.

(** C2: no piece is lost: until the context is cancelled or a write fails, every
    queued piece is still in the queue, being sent by a worker that downloaded
    it, waiting in the result channel, or written. *)
Theorem No_piece_lost (W : world) (i : Z) (hash : bytes) :
  reachable good (download_start have skip pl tl hashes pfl seq_) W ->
  ctx_done W = false -> status W <> WriteFailed ->
  0 <= i -> hashes !! Z.to_nat i = Some hash -> has_opt have i = false -> has_opt skip i = false ->
  i ∈ dom (pieces (queue W)) \/
  (exists w k pw data, workers W !! w = Some (k, Sending pw data) /\ Index pw = i) \/
  i ∈ (r_index <$> resultCh W) \/ exists data, written W !! i = Some data.
Proof.
  intros Hr Hc Hs Hi Hh Hhave Hskip. apply winv_download in Hr.
  assert (Hdom : i ∈ dom (pieces (queue (download_start have skip pl tl hashes pfl seq_)))).
  { apply elem_of_dom. eauto using start_queued. }
  apply (w_cover _ _ _ Hr), elem_of_union in Hdom as [?|Hd]; [by left|right].
  destruct (w_kept _ _ _ Hr i Hc Hs Hd) as [Hrec|[?|?]]; [|by right; left|by left].
  right; right. by apply (w_received _ _ _ Hr).
Qed.

(** C1: when the download returns successfully and no piece was received twice,
    every piece that was neither already present nor skipped has been written
    with data that passed its hash check. *)
Theorem Download_success (W : world) (i : Z) (hash : bytes) :
  reachable good (download_start have skip pl tl hashes pfl seq_) W ->
  status W = Finished -> NoDup (received W) ->
  0 <= i -> hashes !! Z.to_nat i = Some hash -> has_opt have i = false -> has_opt skip i = false ->
  exists data, written W !! i = Some data /\
    good (mkPieceWork i hash (piece_length pl tl i)) data.
Proof.
  intros Hr Hf Hnd Hi Hh Hhave Hskip.
  pose proof (reachable_remaining _ _ _ _ _ _ _ _ _ Hr) as Hrem.
  pose proof (winv_download _ _ _ _ _ _ _ _ _ Hr) as H.
  pose proof (w_finished _ _ _ H Hf) as Hlen. rewrite Hrem, start_size in Hlen.
  pose proof (start_queued i hash Hh Hi Hhave Hskip) as Hq.
  set (orig := pieces (queue _)) in *.
  assert (Hsub : (list_to_set (received W) : gset Z) ⊆ dom orig).
  { intros j Hj%elem_of_list_to_set. destruct (w_received _ _ _ H j Hj) as [d Hd].
    destruct (w_written _ _ _ H j d Hd) as (pw & ? & _). apply elem_of_dom. eauto. }
  assert (Heq : (list_to_set (received W) : gset Z) = dom orig).
  { apply set_subseteq_size_eq; [done|]. rewrite size_dom, size_list_to_set by done. lia. }
  assert (Hrec : i ∈ received W).
  { apply (elem_of_list_to_set (C:=gset Z)). rewrite Heq. apply elem_of_dom. eauto. }
  destruct (w_received _ _ _ H i Hrec) as [d Hd]. exists d. split; [done|].
  destruct (w_written _ _ _ H i d Hd) as (pw & Hpw & Hg). congruence.
Qed.

End Theorems.

(** *** A concrete download *)

(** A run whose choices are allowed ends in a reachable state: the iteration
    orders and random numbers are checked once for the labels, the downloaded
    data by a test along the run. *)
Definition choices_ok (l : label) : Prop :=
  match l with
  | LSpawn _ ord _ | LLeave _ ord _ => MapOrder ord
  | LPick _ ord intn _ => MapOrder ord /\ RandIntN intn
  | _ => True
  end.

Fixpoint data_ok (goodb : PieceWork -> bytes -> bool) (ls : list label) (W : world) : bool :=
  match ls with
  | [] => true
  | l :: ls =>
      (match l with
       | LFetch w data =>
           match workers W !! w with Some (_, Fetching pw) => goodb pw data | _ => true end
       | _ => true
       end) && match wstep l W with Some W' => data_ok goodb ls W' | None => true end
  end.

Lemma wrun_reachable (good : PieceWork -> bytes -> Prop) goodb W0 W ls W' :
  (forall pw data, goodb pw data = true -> good pw data) ->
  reachable good W0 W -> Forall choices_ok ls -> data_ok goodb ls W = true ->
  wrun ls W = Some W' -> reachable good W0 W'.
Proof.
  intros Hb. revert W. induction ls as [|l ls IH]; cbn [wrun data_ok]; intros W Hr Hc Hd Hrun;
    [by simplify_eq|].
  apply Forall_cons in Hc as [Hl Hc]. apply andb_prop in Hd as [Hdl Hd].
  destruct (wstep l W) as [W1|] eqn:E; [|done].
  eapply IH; [|done..]. eapply reach_step; [done| |done].
  destruct l; try done. simpl. destruct (workers W !! w) as [[k []]|]; auto.
Qed.

(** Two one-byte pieces whose hash function is the identity, and peers that have
    both. *)
Definition demo_good (pw : PieceWork) (data : bytes) : Prop := Hash pw = data.
Definition demo_start : world := download_start None None 1 2 [[x01]; [x02]] false false.

Definition demo_fetch (w : nat) (data : bytes) : list label :=
  [LPick w elements (fun _ => 0) (fun _ => true); LCheck w; LFetch w data].
Definition demo_deliver (w : nat) : list label := [LRecheck w; LComplete w; LSend w].

Definition world_of (ls : list label) : world := default demo_start (wrun ls demo_start).

Lemma demo_reachable ls :
  Forall choices_ok ls -> data_ok (fun pw data => bool_decide (Hash pw = data)) ls demo_start = true ->
  is_Some (wrun ls demo_start) -> reachable demo_good demo_start (world_of ls).
Proof.
  intros Hc Hd [W HW]. unfold world_of. rewrite HW. simpl.
  eapply wrun_reachable; [|apply reach_start|done..]. intros pw data. apply bool_decide_eq_true_1.
Qed.

Ltac demo_run ls := apply demo_reachable;
  [ cbv [ls demo_fetch demo_deliver app];
    repeat (apply Forall_cons; split); try done; try apply Forall_nil; simpl; try split; apply _
  | by vm_compute | eexists; vm_compute; reflexivity].

Definition demo_ok : list label :=
  LSpawn 0 elements None ::
  demo_fetch 0 [x01] ++ demo_deliver 0 ++ [LReceive true] ++
  demo_fetch 0 [x02] ++ demo_deliver 0 ++ [LReceive true; LReturn].

Lemma demo_ok_reachable : reachable demo_good demo_start (world_of demo_ok).
Proof. demo_run demo_ok. Qed.

(** Half-way through the same download. *)
Definition demo_half : list label :=
  LSpawn 0 elements None :: demo_fetch 0 [x01] ++ demo_deliver 0 ++ [LReceive true].

Lemma No_piece_lost_witness :
  let W := world_of demo_half in
  1 ∈ dom (pieces (queue W)) \/
  (exists w k pw data, workers W !! w = Some (k, Sending pw data) /\ Index pw = 1) \/
  1 ∈ (r_index <$> resultCh W) \/ exists data, written W !! 1 = Some data.
Proof.
  apply (No_piece_lost demo_good None None 1 2 [[x01]; [x02]] false false (world_of demo_half) 1 [x02]);
    [demo_run demo_half|by vm_compute..].
Defined.

Lemma Download_success_witness :
  exists data, written (world_of demo_ok) !! 0 = Some data /\
    demo_good (mkPieceWork 0 [x01] (piece_length 1 2 0)) data.
Proof.
  apply (Download_success demo_good None None 1 2 [[x01]; [x02]] false false (world_of demo_ok) 0);
    [apply demo_ok_reachable|by vm_compute| |done..].
  replace (received (world_of demo_ok)) with [0; 1] by (by vm_compute).
  repeat constructor; set_solver.
Defined.

(** The distinctness in [Download_success] is not guaranteed by the code. *)
Definition demo_race : list label :=
  [LSpawn 0 elements None; LSpawn 1 elements None] ++
  demo_fetch 0 [x01] ++ demo_fetch 1 [x01] ++
  [LRecheck 0; LRecheck 1; LComplete 0; LComplete 1; LSend 0; LSend 1;
   LReceive true; LReceive true; LReturn].

(** In endgame two workers may download the same piece and both pass the second
    [IsDone] check before either calls [Complete]; both then send the piece, the
    collector counts it twice, and the download returns success while the other
    piece was never written. *)
Lemma Endgame_race_loses_piece :
  reachable demo_good demo_start (world_of demo_race) /\
  status (world_of demo_race) = Finished /\ ctx_done (world_of demo_race) = false /\
  received (world_of demo_race) = [0; 0] /\ written (world_of demo_race) !! 1 = None.
Proof. split; [demo_run demo_race|]. split_and!; by vm_compute. Qed.

