(* ===== verification/Torrent.v ===== *)
(** * [torrent]: metainfo files ([torrent/torrent.go]), and the form in which the
    engine stores the metainfo of a magnet link ([engine/session.go])

    [Parse] turns a decoded dictionary into a [TorrentFile], with every check of
    the code and one error constructor per error it returns.  SHA-1 and SHA-256
    are parameters: nothing here depends on which functions they are.  A nil
    slice and an empty one are the same list. *)

From S2P Require Import Prelude Bencode BencodeFacts.
Set Warnings "-clear-no-such-hyp".
Local Open Scope Z_scope.

Record File := mkFile { f_Length : Z; f_Path : list bytes }.

Record Info := mkInfo {
  Name : bytes;
  PieceLength : Z;
  PieceHashes : list bytes;
  i_Length : Z;
  Files : list File;
  Private : bool;
  FileTree : option (gmap bytes any)
}.

Record TorrentFile := mkTorrentFile {
  Announce : bytes;
  AnnounceList : list (list bytes);
  t_Info : Info;
  InfoHash : bytes;
  InfoHashV2 : bytes;
  MetaVersion : Z;
  WebSeedURLs : list bytes
}.

Inductive parse_error :=
  | DecodeError (e : decode_error) | RootNotDict | MissingInfo | InfoNotDict
  | ReencodeFailed (e : encode_error) | V2Only
  | MissingName | MissingPieceLength | InvalidPieceLength | MissingPieces | PiecesNotMultiple
  | InvalidFileLength | FilesNotList | FileNotDict | FileMissingLength | FileMissingPath
  | PathNotString | AnnounceListNotList | TierNotList | URLNotString.

Definition parse_string (e : parse_error) (v : any) : result parse_error bytes :=
  or_err (as_str (Some v)) e.

Definition parseFile (item : any) : result parse_error File :=
  d ← or_err (as_map (Some item)) FileNotDict;
  length ← or_err (as_int64 (d !! lit "length")) FileMissingLength;
  _ ← guard_or (negb (length <? 0)) InvalidFileLength;
  pathList ← or_err (as_list (d !! lit "path")) FileMissingPath;
  path ← traverse (parse_string PathNotString) pathList;
  Ok (mkFile length path).

Definition parseFiles (v : any) : result parse_error (list File) :=
  list ← or_err (as_list (Some v)) FilesNotList;
  traverse parseFile list.

Definition parseAnnounceList (v : any) : result parse_error (list (list bytes)) :=
  tiers ← or_err (as_list (Some v)) AnnounceListNotList;
  traverse (fun tier => trackers ← or_err (as_list (Some tier)) TierNotList;
                        traverse (parse_string URLNotString) trackers) tiers.

Definition parseURLList (v : any) : list bytes :=
  match v with
  | AStr s => if bool_decide (s = []) then [] else [s]
  | AList l => omap (fun item => match item with
                                 | AStr s => if bool_decide (s = []) then None else Some s
                                 | _ => None
                                 end) l
  | _ => []
  end.

(** [numPieces] blocks of 20 bytes. *)
Fixpoint split_hashes (numPieces : nat) (pieces : bytes) : list bytes :=
  match numPieces with
  | O => []
  | S n => take 20 pieces :: split_hashes n (drop 20 pieces)
  end.

Definition parseInfo (d : gmap bytes any) : result parse_error Info :=
  name ← or_err (as_str (d !! lit "name")) MissingName;
  pieceLength ← or_err (as_int64 (d !! lit "piece length")) MissingPieceLength;
  _ ← guard_or (negb (pieceLength <=? 0)) InvalidPieceLength;
  piecesStr ← or_err (as_str (d !! lit "pieces")) MissingPieces;
  _ ← guard_or (len piecesStr mod 20 =? 0) PiecesNotMultiple;
  let numPieces := len piecesStr / 20 in
  let pieceHashes := split_hashes (Z.to_nat numPieces) piecesStr in
  let private := match as_int64 (d !! lit "private") with Some p => p =? 1 | None => false end in
  '(length, files) ←
    match as_int64 (d !! lit "length") with
    | Some length => _ ← guard_or (negb (length <? 0)) InvalidFileLength; Ok (length, [])
    | None =>
        match d !! lit "files" with
        | Some filesVal => files ← parseFiles filesVal; Ok (0, files)
        | None => Ok (0, [])
        end
    end;
  Ok (mkInfo name pieceLength pieceHashes length files private (as_map (d !! lit "file tree"))).

Section Parse.
Context (sha1 sha256 : bytes -> bytes).

Definition Parse (data : bytes) : result parse_error TorrentFile :=
  decoded ← map_err DecodeError (Decode data);
  root ← or_err (as_map (Some decoded)) RootNotDict;
  let announce := match root !! lit "announce" with
                  | Some v => default [] (as_str (Some v)) | None => [] end in
  announceList ← match root !! lit "announce-list" with
                 | Some v => parseAnnounceList v | None => Ok [] end;
  let webSeeds := match root !! lit "url-list" with Some v => parseURLList v | None => [] end in
  infoVal ← or_err (root !! lit "info") MissingInfo;
  infoDict ← or_err (as_map (Some infoVal)) InfoNotDict;
  infoBencoded ← map_err ReencodeFailed (Encode (AMap infoDict));
  let v2 := match as_int64 (infoDict !! lit "meta version") with
            | Some mv => mv =? 2 | None => false end in
  match parseInfo infoDict with
  | Ok info =>
      Ok (mkTorrentFile announce announceList info (sha1 infoBencoded)
            (if v2 then sha256 infoBencoded else replicate 32 x00) (if v2 then 2 else 0) webSeeds)
  | Err e => Err (if v2 then V2Only else e)
  end.

End Parse.

(** The loop body shared by the two parts of [TrackerURLs]; the announce URL is
    only used when it is not empty. *)
Definition add_url (acc : gset bytes * list bytes) (u : bytes) : gset bytes * list bytes :=
  let '(seen, urls) := acc in
  if bool_decide (u ∈ seen) then acc else ({[u]} ∪ seen, urls ++ [u]).

Definition TrackerURLs (tf : TorrentFile) : list bytes :=
  let acc := if bool_decide (Announce tf = []) then (∅, []) else add_url (∅, []) (Announce tf) in
  (foldl (foldl add_url) acc (AnnounceList tf)).2.

(** [storage.TotalSize]: the sum wraps at 64 bits. *)
Definition TotalSize (tf : TorrentFile) : Z :=
  if 0 <? i_Length (t_Info tf) then i_Length (t_Info tf)
  else foldl (fun total f => i64 (total + f_Length f)) 0 (Files (t_Info tf)).

Definition IsMultiFile (tf : TorrentFile) : bool := 0 <? len (Files (t_Info tf)).

(** ** The stored form of a magnet's metainfo *)

Definition mustReencode (tf : TorrentFile) : gmap bytes any :=
  let info := t_Info tf in
  let d : gmap bytes any :=
    {[ lit "name" := AStr (Name info); lit "piece length" := AInt64 (PieceLength info) ]} in
  let d := <[lit "pieces" := AStr (concat (PieceHashes info))]> d in
  if 0 <? i_Length info then <[lit "length" := AInt64 (i_Length info)]> d
  else
    <[lit "files" :=
        AList ((fun f => AMap {[ lit "length" := AInt64 (f_Length f);
                                 lit "path" := AList (AStr <$> f_Path f) ]}) <$> Files info)]> d.

(** The dictionary [resolveMetadata] encodes into [TorrentData]. *)
Definition stored_dict (tf : TorrentFile) : gmap bytes any :=
  let fullDict : gmap bytes any := {[ lit "info" := AMap (mustReencode tf) ]} in
  if bool_decide (Announce tf = []) then fullDict
  else <[lit "announce" := AStr (Announce tf)]> fullDict.

(** The metainfo of a magnet link: the info dictionary a peer sent, wrapped and
    parsed ([fetchMetadataFromPeer]), with the announce list of the magnet. *)
Definition restore_announce (trackers : list bytes) (tf : TorrentFile) : TorrentFile :=
  match trackers with
  | [] => tf
  | t :: _ => mkTorrentFile t ((fun tr => [tr]) <$> trackers) (t_Info tf) (InfoHash tf)
                (InfoHashV2 tf) (MetaVersion tf) (WebSeedURLs tf)
  end.

(** ** Well-formed metainfo *)

Record wf_info (info : Info) : Prop := {
  wf_pieceLength : 0 < PieceLength info <= MaxInt64;
  wf_hashes : Forall (fun h => length h = 20%nat) (PieceHashes info);
  wf_length : 0 <= i_Length info <= MaxInt64;
  wf_single : 0 < i_Length info -> Files info = [];
  wf_files : Forall (fun f => 0 <= f_Length f <= MaxInt64) (Files info)
}.

Lemma split_hashes_concat n pieces :
  length pieces = (n * 20)%nat ->
  concat (split_hashes n pieces) = pieces /\
  length (split_hashes n pieces) = n /\
  Forall (fun h => length h = 20%nat) (split_hashes n pieces).
Proof.
  revert pieces. induction n as [|n IH]; intros pieces Hl; simpl in Hl.
  - destruct pieces; [|done]. by split_and!; [..|constructor].
  - destruct (IH (drop 20 pieces)) as (Hc & Hn & Hf); [rewrite length_drop; lia|].
    cbn [split_hashes]. split_and!.
    + cbn [concat]. rewrite Hc. apply take_drop.
    + cbn [length]. lia.
    + constructor; [rewrite length_take; lia|done].
Qed.

Lemma split_concat_hashes hs :
  Forall (fun h => length h = 20%nat) hs ->
  split_hashes (length hs) (concat hs) = hs /\ length (concat hs) = (length hs * 20)%nat.
Proof.
  induction 1 as [|h hs Hh Hhs [IH1 IH2]]; [done|]. cbn [concat length split_hashes].
  rewrite length_app, IH2, take_app_length', drop_app_length' by done. by rewrite IH1, Hh.
Qed.

Lemma parse_string_ok e v s : parse_string e v = Ok s <-> v = AStr s.
Proof. unfold parse_string. rewrite or_err_ok. destruct v; simpl; split; congruence. Qed.

Lemma as_int64_fits (d : gmap bytes any) (k : bytes) (n depth : Z) :
  fits depth (AMap d) -> as_int64 (d !! k) = Some n -> in_i64 n.
Proof.
  intros Hf Hn. destruct (d !! k) as [v|] eqn:E; [|done]. destruct v; simplify_eq/=.
  inversion Hf as [| | |? ? ? ? ? Hx]; subst. specialize (Hx _ _ E). by inversion Hx.
Qed.

Lemma parseFiles_wf (v : any) (files : list File) (depth : Z) :
  fits depth v -> parseFiles v = Ok files ->
  Forall (fun f => 0 <= f_Length f <= MaxInt64) files.
Proof.
  intros Hf H. unfold parseFiles in H. inv_ok. destruct v as [| | | |l| |]; simplify_eq/=.
  inversion Hf as [| |? ? ? ? Hl|]; subst.
  apply traverse_ok in H. apply Forall_forall. intros f Hin.
  apply list_elem_of_lookup in Hin as [i Hi].
  destruct (Forall2_lookup_r _ _ _ _ _ H Hi) as (x & Hx & Hp).
  apply list_elem_of_lookup_2 in Hx. specialize (Hl _ Hx).
  unfold parseFile in Hp. inv_ok. subst. destruct x; simplify_eq/=.
  bool_prop. pose proof (as_int64_fits _ _ _ _ Hl E0) as []. simpl. unfold in_i64 in *. lia.
Qed.

Lemma parseInfo_wf (d : gmap bytes any) (info : Info) (depth : Z) :
  fits depth (AMap d) -> parseInfo d = Ok info ->
  wf_info info /\ d !! lit "name" = Some (AStr (Name info)) /\
  d !! lit "pieces" = Some (AStr (concat (PieceHashes info))) /\
  d !! lit "piece length" = Some (AInt64 (PieceLength info)).
Proof.
  intros Hf H. unfold parseInfo in H. inv_ok. destruct a4 as [length files]. inv_ok. subst info.
  bool_prop. pose proof (as_int64_fits _ _ _ _ Hf E0) as Hpl. unfold in_i64 in Hpl.
  destruct (split_hashes_concat (Z.to_nat (len a2 / 20)) a2) as (Hc & Hn & Hh).
  { pose proof (Z.div_mod (len a2) 20). lia. }
  assert (Hlf : 0 <= length <= MaxInt64 /\ (0 < length -> files = []) /\
                Forall (fun f => 0 <= f_Length f <= MaxInt64) files).
  { destruct (as_int64 (d !! lit "length")) as [l|] eqn:El; inv_ok; subst; bool_prop.
    - pose proof (as_int64_fits _ _ _ _ Hf El) as Hl.
      unfold in_i64 in Hl. split_and!; [lia..|done|constructor].
    - destruct (d !! lit "files") as [fv|] eqn:Ef; inv_ok; subst; [|by split_and!].
      split_and!; [done..|]. eapply parseFiles_wf; [|done].
      inversion Hf as [| | |? ? ? ? ? Hx]; subst. by eapply Hx. }
  destruct Hlf as (? & ? & ?). split_and!.
  - constructor; simpl; [lia|done..].
  - simpl. by destruct (d !! lit "name") as [[]|]; simplify_eq/=.
  - simpl. rewrite Hc. by destruct (d !! lit "pieces") as [[]|]; simplify_eq/=.
  - simpl. by destruct (d !! lit "piece length") as [[]|]; simplify_eq/=.
Qed.

(** ** Properties *)

Section Properties.
Context (sha1 sha256 : bytes -> bytes).

(** The entries of a canonical dictionary stand one after the other in its bytes. *)
Lemma enc_entry (m : gmap bytes any) k v : m !! k = Some v ->
  exists pre post, enc (AMap m) = pre ++ enc_str k ++ enc v ++ post.
Proof.
  intros Hk. rewrite enc_map. apply elem_of_sorted_pairs in Hk.
  apply list_elem_of_split in Hk as (l1 & l2 & ->). rewrite fmap_app, concat_app. cbn [concat fmap list_fmap enc_pair fst snd].
  exists ([x64] ++ concat (enc_pair <$> l1)), (concat (enc_pair <$> l2) ++ [x65]).
  unfold enc_pair at 2. cbn [fst snd]. by rewrite <- !app_assoc.
Qed.

(** C39: an accepted metainfo file is a dictionary with an info dictionary.  When the file is
    canonical (encoding what was decoded gives it back), the info hash is the hash of the
    raw bytes of the info dictionary, as they stand in the file after the key [info]; in a
    file that is not canonical those bytes may differ from what is hashed.  In any case the
    name, the piece length and the piece hashes are those of the dictionary, the piece
    length is positive, every piece hash has 20 bytes and together they are the [pieces]
    string, no length is negative or exceeds [int64], and a single-file torrent has no
    file list. *)
Theorem Parse_sound (data : bytes) (tf : TorrentFile) :
  Parse sha1 sha256 data = Ok tf ->
  exists root d : gmap bytes any,
    Decode data = Ok (AMap root) /\ root !! lit "info" = Some (AMap d) /\
    (Encode (AMap root) = Ok data -> exists pre raw post,
       data = pre ++ lit "4:info" ++ raw ++ post /\ Encode (AMap d) = Ok raw /\ InfoHash tf = sha1 raw) /\
    d !! lit "name" = Some (AStr (Name (t_Info tf))) /\
    d !! lit "pieces" = Some (AStr (concat (PieceHashes (t_Info tf)))) /\
    d !! lit "piece length" = Some (AInt64 (PieceLength (t_Info tf))) /\
    wf_info (t_Info tf).
Proof.
  intros H. unfold Parse in H. inv_ok.
  destruct (Decode_fits _ _ E) as [Hf _].
  destruct a as [| | | | |root|]; simplify_eq/=. destruct a2 as [| | | | |d|]; simplify_eq/=.
  inversion Hf as [| | |? ? ? ? ? Hx]; subst. specialize (Hx _ _ E2).
  pose proof (Encode_enc _ (fits_supported _ _ Hx)) as Henc. rewrite Henc in E4. injection E4 as <-.
  destruct (parseInfo a3) as [info|] eqn:Ei; [|done]. inv_ok. subst tf. simpl.
  exists a0, a3. destruct (parseInfo_wf _ _ _ Hx Ei) as (? & ? & ? & ?). split_and!; try done.
  rewrite (Encode_enc _ (fits_supported _ _ Hf)). intros Hok.
  assert (Hd : enc (AMap a0) = data) by congruence. clear Hok.
  destruct (enc_entry a0 _ _ E2) as (pre & post & Hs). exists pre, (enc (AMap a3)), post. by rewrite <- Hd, Hs.
Qed.

Lemma parseFile_stored (f : File) :
  0 <= f_Length f <= MaxInt64 ->
  parseFile (AMap {[ lit "length" := AInt64 (f_Length f);
                     lit "path" := AList (AStr <$> f_Path f) ]}) = Ok f.
Proof.
  intros Hf. unfold parseFile. simpl as_map. cbn [or_err mbind result_bind]. map_lookup.
  cbn [as_int64 as_list or_err mbind result_bind].
  rewrite (proj2 (Z.ltb_ge _ _)) by lia. cbn [guard_or negb mbind result_bind].
  rewrite traverse_fmap by (intros; by apply parse_string_ok). by destruct f.
Qed.

Definition strip (info : Info) : Info :=
  mkInfo (Name info) (PieceLength info) (PieceHashes info) (i_Length info) (Files info) false None.

Lemma parseInfo_stored (tf : TorrentFile) :
  wf_info (t_Info tf) -> parseInfo (mustReencode tf) = Ok (strip (t_Info tf)).
Proof.
  intros [Hpl Hh Hl Hs Hfs]. destruct (split_concat_hashes _ Hh) as [Hsc Hlen].
  assert (Hnum : len (concat (PieceHashes (t_Info tf))) / 20 = len (PieceHashes (t_Info tf))).
  { rewrite Hlen, Nat2Z.inj_mul. apply Z.div_mul. lia. }
  assert (Hmod : len (concat (PieceHashes (t_Info tf))) mod 20 = 0).
  { rewrite Hlen, Nat2Z.inj_mul. apply Z.mod_mul. lia. }
  unfold parseInfo, mustReencode.
  destruct (Z.ltb_spec 0 (i_Length (t_Info tf))); map_lookup;
    cbn [as_str as_int64 as_map or_err mbind result_bind];
    rewrite (proj2 (Z.leb_gt _ _)), Hmod, Hnum, Nat2Z.id, Hsc by lia;
    cbn [guard_or negb Z.eqb mbind result_bind].
  - rewrite (proj2 (Z.ltb_ge _ _)) by lia. cbn [guard_or negb mbind result_bind].
    unfold strip. by rewrite Hs.
  - unfold parseFiles. cbn [as_list or_err mbind result_bind].
    rewrite traverse_fmap.
    + cbn [mbind result_bind]. unfold strip. by replace (i_Length (t_Info tf)) with 0 by lia.
    + intros f Hf. apply parseFile_stored. by eapply (proj1 (Forall_forall _ _) Hfs).
Qed.

(** The data the engine stores for a magnet link can be parsed again, and the
    result has the same name, piece length, piece hashes, lengths and files; the
    announce list, the private flag and every other key of the info dictionary
    are gone, and the info hash is that of the reconstructed dictionary. *)
Lemma Stored_torrent_roundtrip (tf : TorrentFile) :
  wf_info (t_Info tf) ->
  fits 0 (AMap (stored_dict tf)) -> items (AMap (stored_dict tf)) <= MaxTotalItems ->
  exists data, Encode (AMap (stored_dict tf)) = Ok data /\
    Parse sha1 sha256 data =
      Ok (mkTorrentFile (Announce tf) [] (strip (t_Info tf))
            (sha1 (enc (AMap (mustReencode tf)))) (replicate 32 x00) 0 []).
Proof.
  intros Hwf Hf Hi. exists (enc (AMap (stored_dict tf))).
  split; [apply Encode_enc; by eapply fits_supported|].
  unfold Parse. rewrite <- (app_nil_r (enc (AMap (stored_dict tf)))), Decode_enc by done.
  assert (Hsup : supported (AMap (mustReencode tf))).
  { inversion Hf as [| | |? ? ? ? ? Hx]; subst. eapply fits_supported, (Hx (lit "info")).
    unfold stored_dict. by case_bool_decide; map_lookup. }
  assert (Hmv : mustReencode tf !! lit "meta version" = None).
  { unfold mustReencode. by destruct (_ <? _); map_lookup. }
  cbn [map_err mbind result_bind as_map or_err]. unfold stored_dict.
  case_bool_decide as Ha; map_lookup; cbn [as_map as_str default or_err mbind result_bind];
    rewrite Encode_enc by done; cbn [map_err mbind result_bind];
    rewrite Hmv, parseInfo_stored by done; cbn [as_int64 default id]; rewrite ?Ha; done.
Qed.

End Properties.

(** Every URL of the announce key and of the tiers occurs exactly once. *)
Lemma add_url_spec seen urls us :
  (forall u, u ∈ seen <-> u ∈ urls) -> NoDup urls ->
  let '(seen', urls') := foldl add_url (seen, urls) us in
  (forall u, u ∈ seen' <-> u ∈ urls') /\ NoDup urls' /\
  (exists new, urls' = urls ++ new /\ new `sublist_of` us) /\
  (forall u, u ∈ urls' <-> u ∈ urls \/ u ∈ us).
Proof.
  revert seen urls. induction us as [|u us IH]; intros seen urls Hs Hnd; cbn [foldl].
  { split_and!; [done..| |set_solver]. exists []. by rewrite app_nil_r. }
  unfold add_url at 2. case_bool_decide as Hu.
  - specialize (IH seen urls Hs Hnd). destruct (foldl _ _ us) as [seen' urls'].
    destruct IH as (? & ? & (new & ? & ?) & Hm). split_and!; [done..| |set_solver].
    exists new. split; [done|by apply sublist_cons].
  - assert (Hn : u ∉ urls) by (by rewrite <- Hs).
    specialize (IH ({[u]} ∪ seen) (urls ++ [u])).
    destruct (foldl _ _ us) as [seen' urls'].
    destruct IH as (? & ? & (new & -> & ?) & Hm); [set_solver| |].
    { apply NoDup_app. split_and!; [done|set_solver|apply NoDup_singleton]. }
    split_and!; [done..| |set_solver].
    exists (u :: new). rewrite <- (assoc_L (++)). split; [done|by constructor].
Qed.

Lemma foldl_concat acc ls : foldl (foldl add_url) acc ls = foldl add_url acc (concat ls).
Proof.
  revert acc. induction ls as [|l ls IH]; intros acc; [done|]. cbn [foldl concat].
  by rewrite IH, foldl_app.
Qed.

Lemma TrackerURLs_flat tf :
  TrackerURLs tf =
  (foldl add_url (∅, [])
     ((if bool_decide (Announce tf = []) then [] else [Announce tf]) ++ concat (AnnounceList tf))).2.
Proof.
  unfold TrackerURLs. rewrite foldl_app, foldl_concat. by case_bool_decide.
Qed.

(** [TrackerURLs] lists each distinct tracker URL exactly once, in the order
    of first appearance, the announce URL (unless empty) first. *)
Lemma TrackerURLs_spec (tf : TorrentFile) :
  let all := (if bool_decide (Announce tf = []) then [] else [Announce tf])
             ++ concat (AnnounceList tf) in
  NoDup (TrackerURLs tf) /\ (forall u, u ∈ TrackerURLs tf <-> u ∈ all) /\
  TrackerURLs tf `sublist_of` all /\
  (Announce tf <> [] -> head (TrackerURLs tf) = Some (Announce tf)).
Proof.
  intros all. rewrite TrackerURLs_flat. fold all.
  pose proof (add_url_spec ∅ [] all) as H.
  destruct (foldl add_url (∅, []) all) as [seen urls] eqn:E. simpl.
  destruct H as (_ & Hnd & (new & -> & Hsub) & Hm); [set_solver|constructor|].
  simpl in *. split_and!; [done|set_solver|done|].
  intros Ha. subst all. rewrite bool_decide_eq_false_2 in E by done. cbn [app foldl] in E.
  replace (add_url (∅, []) (Announce tf)) with (({[Announce tf]} ∪ ∅ : gset bytes), [Announce tf]) in E.
  - pose proof (add_url_spec ({[Announce tf]} ∪ ∅) [Announce tf] (concat (AnnounceList tf))) as H.
    rewrite E in H. destruct H as (_ & _ & (new' & -> & _) & _); [set_solver|apply NoDup_singleton|].
    done.
  - unfold add_url. by rewrite bool_decide_eq_false_2 by set_solver.
Qed.

(** *** Concrete metainfo *)

Definition demo_torrent : bytes :=
  lit "d8:announce4:http4:infod6:lengthi3e4:name1:a12:piece lengthi16e6:pieces20:abcdefghijklmnopqrst7:privatei1eee".

Definition demo_tf : TorrentFile :=
  mkTorrentFile (lit "http") []
    (mkInfo (lit "a") 16 [lit "abcdefghijklmnopqrst"] 3 [] true None)
    (lit "d6:lengthi3e4:name1:a12:piece lengthi16e6:pieces20:abcdefghijklmnopqrst7:privatei1ee")
    (replicate 32 x00) 0 [].

Lemma demo_parse : Parse id id demo_torrent = Ok demo_tf.
Proof. by vm_compute. Qed.

Lemma demo_wf : wf_info (t_Info demo_tf).
Proof.
  constructor; cbn [t_Info demo_tf PieceLength PieceHashes i_Length Files]; unfold MaxInt64;
    [lia|repeat constructor|lia|done|constructor].
Qed.

Lemma demo_canonical root : Decode demo_torrent = Ok root -> Encode root = Ok demo_torrent.
Proof. intros E. vm_compute in E. injection E as <-. by vm_compute. Qed.

Lemma Parse_sound_witness :
  exists d : gmap bytes any, exists pre raw post,
    demo_torrent = pre ++ lit "4:info" ++ raw ++ post /\ Encode (AMap d) = Ok raw /\ InfoHash demo_tf = id raw /\
    d !! lit "name" = Some (AStr (Name (t_Info demo_tf))) /\
    d !! lit "pieces" = Some (AStr (concat (PieceHashes (t_Info demo_tf)))) /\
    d !! lit "piece length" = Some (AInt64 (PieceLength (t_Info demo_tf))) /\
    wf_info (t_Info demo_tf).
Proof.
  destruct (Parse_sound id id demo_torrent demo_tf demo_parse) as (root & d & E & _ & Hraw & Hrest).
  destruct (Hraw (demo_canonical _ E)) as (pre & raw & post & H1 & H2 & H3).
  exists d, pre, raw, post. exact (conj H1 (conj H2 (conj H3 Hrest))).
Defined.

Lemma demo_stored_fits : fits 0 (AMap (stored_dict demo_tf)).
Proof.
  unfold stored_dict, mustReencode.
  cbn [bool_decide Announce demo_tf t_Info i_Length Z.ltb Z.compare]. rewrite bool_decide_eq_false_2 by done.
  fits_tac.
Qed.

Lemma Stored_torrent_roundtrip_witness :
  exists data, Encode (AMap (stored_dict demo_tf)) = Ok data /\
    Parse id id data =
      Ok (mkTorrentFile (lit "http") [] (strip (t_Info demo_tf))
            (enc (AMap (mustReencode demo_tf))) (replicate 32 x00) 0 []).
Proof.
  apply (Stored_torrent_roundtrip id id demo_tf demo_wf demo_stored_fits). by vm_compute.
Defined.

(** The metainfo the engine stores for a private torrent fetched through a magnet
    link is not private any more, and the dictionary that is hashed is not the
    one the swarm hashes: with any collision-free hash the info hash differs
    after a restart. *)
Lemma Stored_torrent_changes_identity :
  exists data tf', Encode (AMap (stored_dict demo_tf)) = Ok data /\
    Parse id id data = Ok tf' /\
    Private (t_Info demo_tf) = true /\ Private (t_Info tf') = false /\
    InfoHash tf' <> InfoHash demo_tf.
Proof.
  exists (enc (AMap (stored_dict demo_tf))),
    (mkTorrentFile (lit "http") [] (strip (t_Info demo_tf))
       (enc (AMap (mustReencode demo_tf))) (replicate 32 x00) 0 []).
  split_and!; by vm_compute.
Qed.
