(* ===== verification/Paths.v ===== *)
(** * Go's [path/filepath] on Unix, as far as the program uses it

    [Clean] is the lexical normalisation the package documents: drop empty and
    [.] elements, let each [..] eliminate the element before it, keep leading
    [..] of a relative path and drop those of a rooted one.  [Join] joins the
    elements from the first non-empty one on and cleans the result. *)

From S2P Require Import Prelude Strconv.
Set Warnings "-clear-no-such-hyp".
Local Open Scope Z_scope.

Abbreviation sep := x2f.
Definition dot : bytes := [x2e].
Definition dotdot : bytes := [x2e; x2e].

(** [strings.Split(s, "/")] *)
Fixpoint split_sep (s : bytes) : list bytes :=
  match s with
  | [] => [[]]
  | c :: s =>
      if Byte.eqb c sep then [] :: split_sep s
      else match split_sep s with
           | e :: es => (c :: e) :: es
           | [] => [[c]]
           end
  end.

(** [strings.Join(es, "/")] *)
Fixpoint join_sep (es : list bytes) : bytes :=
  match es with
  | [] => []
  | [e] => e
  | e :: es => e ++ [sep] ++ join_sep es
  end.

Definition rooted (path : bytes) : bool :=
  match path with c :: _ => Byte.eqb c sep | [] => false end.

(** One element of the path, on the reversed list of the elements kept. *)
Definition clean_step (root : bool) (out : list bytes) (e : bytes) : list bytes :=
  if bool_decide (e = []) || bool_decide (e = dot) then out
  else if bool_decide (e = dotdot) then
    match out with
    | o :: out' => if bool_decide (o = dotdot) then e :: out else out'
    | [] => if root then [] else [e]
    end
  else e :: out.

Definition clean_elems (path : bytes) : list bytes :=
  rev (foldl (clean_step (rooted path)) [] (split_sep path)).

Definition render (root : bool) (es : list bytes) : bytes :=
  if root then sep :: join_sep es
  else match es with [] => dot | _ => join_sep es end.

Definition Clean (path : bytes) : bytes :=
  if bool_decide (path = []) then dot else render (rooted path) (clean_elems path).

Fixpoint Join (elem : list bytes) : bytes :=
  match elem with
  | [] => []
  | e :: elem' => if bool_decide (e = []) then Join elem' else Clean (join_sep elem)
  end.

(** [strings.HasPrefix] *)
Fixpoint HasPrefix (s prefix : bytes) {struct prefix} : bool :=
  match prefix, s with
  | [], _ => true
  | p :: prefix, c :: s => Byte.eqb p c && HasPrefix s prefix
  | _ :: _, [] => false
  end.

(** ** Facts *)

Lemma HasPrefix_spec s p : HasPrefix s p = true <-> exists r, s = p ++ r.
Proof.
  revert s. induction p as [|a p IH]; intros s; simpl.
  - split; [eauto|done].
  - destruct s as [|c s].
    + split; [done|intros [r Hr]; done].
    + rewrite andb_true_iff, IH. split.
      * intros [H [r ->]]. apply byte_eqb_true in H as ->. eauto.
      * intros [r [= -> ->]]. split; [by apply byte_eqb_true|eauto].
Qed.

(** A proper path element: not empty, not [.], without separator. *)
Definition elem_ok (e : bytes) : Prop := e <> [] /\ e <> dot /\ sep ∉ e.

Lemma split_sep_no_sep s e : e ∈ split_sep s -> sep ∉ e.
Proof.
  revert e. induction s as [|c s IH]; simpl; intros e He.
  - apply list_elem_of_singleton in He as ->. set_solver.
  - destruct (Byte.eqb c sep) eqn:Ec.
    + apply elem_of_cons in He as [->|He]; [set_solver|auto].
    + assert (Hc : c <> sep) by (by apply byte_eqb_false).
      destruct (split_sep s) as [|e0 es] eqn:Es.
      * apply list_elem_of_singleton in He as ->. set_solver.
      * apply elem_of_cons in He as [->|He]; [|apply IH; by right].
        assert (sep ∉ e0) by (apply IH; left). set_solver.
Qed.

(** Shape of a cleaned element list: leading [..] only, and none when rooted. *)
Definition clean_shape (root : bool) (es : list bytes) : Prop :=
  exists n rest, es = replicate n dotdot ++ rest /\
    Forall (fun e => elem_ok e /\ e <> dotdot) rest /\ (root = true -> n = 0%nat).

Lemma clean_step_shape root out e :
  sep ∉ e -> clean_shape root (rev out) -> clean_shape root (rev (clean_step root out e)).
Proof.
  intros He (n & rest & Hr & Hf & Hn). unfold clean_step.
  destruct (bool_decide (e = [])) eqn:E1; [by exists n, rest|].
  destruct (bool_decide (e = dot)) eqn:E2; [by exists n, rest|]. bool_prop. simpl.
  case_bool_decide as E3.
  - subst e. destruct out as [|o out].
    + destruct n; [|done]. destruct rest; [|done].
      destruct root; [by exists 0%nat, []|]. exists 1%nat, []. by split_and!.
    + cbn [rev] in Hr. case_bool_decide as Eo.
      * subst o. assert (Hrest : rest = []).
        { destruct rest as [|x rest _] using rev_ind; [done|].
          rewrite (assoc_L (++)) in Hr. apply app_inj_tail in Hr as [_ <-].
          apply Forall_app in Hf as [_ [[_ ?] _]%Forall_cons]. done. }
        subst rest. exists (S n), []. split_and!; [|done|].
        -- cbn [rev]. rewrite Hr, !app_nil_r. by rewrite <- replicate_S_end.
        -- intros ->. rewrite (Hn eq_refl) in Hr. simpl in Hr. by destruct (rev out).
      * destruct rest as [|x rest _] using rev_ind.
        -- rewrite app_nil_r in Hr. destruct n as [|n]; [by destruct (rev out)|].
           rewrite replicate_S_end in Hr. by apply app_inj_tail in Hr as [_ ->].
        -- rewrite (assoc_L (++)) in Hr. apply app_inj_tail in Hr as [-> _].
           apply Forall_app in Hf as [? _]. by exists n, rest.
  - cbn [rev]. exists n, (rest ++ [e]). rewrite Hr, (assoc_L (++)). split_and!; [done| |done].
    apply Forall_app. split; [done|]. apply Forall_singleton. by split_and!.
Qed.

Lemma clean_elems_shape path : clean_shape (rooted path) (clean_elems path).
Proof.
  unfold clean_elems.
  assert (H : forall es out, Forall (fun e => sep ∉ e) es -> clean_shape (rooted path) (rev out) ->
            clean_shape (rooted path) (rev (foldl (clean_step (rooted path)) out es))).
  { induction es as [|e es IH]; intros out Hes Hs; [done|].
    apply Forall_cons in Hes as [He Hes]. cbn [foldl]. apply IH; [done|].
    by apply clean_step_shape. }
  apply H; [apply Forall_forall; intros e; apply split_sep_no_sep|].
  exists 0%nat, []. by split_and!.
Qed.

Lemma app_sep_inj (a b x y : bytes) :
  sep ∉ a -> sep ∉ b -> a ++ sep :: x = b ++ sep :: y -> a = b /\ x = y.
Proof.
  revert b. induction a as [|c a IH]; intros [|d b] Ha Hb H; simplify_eq/=; [done|set_solver..|].
  destruct (IH b) as [-> ->]; [set_solver..|done|done].
Qed.

(** A textual prefix that ends in a separator is a prefix of the elements. *)
Lemma join_sep_prefix B F r :
  Forall (fun e => sep ∉ e) B -> Forall (fun e => sep ∉ e) F -> B <> [] ->
  join_sep F = join_sep B ++ sep :: r -> exists R, R <> [] /\ F = B ++ R /\ r = join_sep R.
Proof.
  revert F. induction B as [|b B IH]; intros F HB HF Hne Heq; [done|].
  apply Forall_cons in HB as [Hb HB]. destruct F as [|f F]; simpl in Heq.
  { by destruct B, b. }
  apply Forall_cons in HF as [Hf HF]. destruct F as [|f2 F].
  { exfalso. apply Hf. rewrite Heq. destruct B; set_solver. }
  destruct B as [|b2 B].
  - apply app_sep_inj in Heq as [-> Hr]; [|done..]. by exists (f2 :: F).
  - rewrite <- (assoc_L (++)) in Heq. simpl in Heq.
    apply app_sep_inj in Heq as [-> Hr]; [|done..].
    destruct (IH (f2 :: F)) as (R & HR & -> & ->); [done..|]. by exists R.
Qed.

Lemma clean_shape_no_sep root es : clean_shape root es -> Forall (fun e => sep ∉ e) es.
Proof.
  intros (n & rest & -> & Hf & _). apply Forall_app. split.
  - apply Forall_replicate. unfold dotdot. set_solver.
  - eapply Forall_impl; [exact Hf|]. by intros e [(_ & _ & ?) _].
Qed.

Lemma clean_shape_head root e es : clean_shape root (e :: es) -> e <> [] /\ e <> dot.
Proof.
  intros (n & rest & Heq & Hf & _). destruct n as [|n]; [|by simplify_eq/=].
  destruct rest; simplify_eq/=. by apply Forall_cons in Hf as [[(? & ? & _) _] _].
Qed.

(** What a cleaned path that starts with the cleaned base and a separator is. *)
Lemma clean_prefix (base full r : bytes) :
  base <> [] -> full <> [] -> Clean full = Clean base ++ sep :: r ->
  exists R, R <> [] /\ rooted full = rooted base /\
    clean_elems full = clean_elems base ++ R /\ r = join_sep R.
Proof.
  intros Hb Hf. unfold Clean. rewrite !bool_decide_eq_false_2 by done.
  pose proof (clean_elems_shape base) as HB. pose proof (clean_elems_shape full) as HF.
  pose proof (clean_shape_no_sep _ _ HB) as NB. pose proof (clean_shape_no_sep _ _ HF) as NF.
  unfold render. destruct (rooted base), (rooted full); intros Heq.
  - injection Heq as Heq. destruct (clean_elems base) as [|b B] eqn:EB.
    + simpl in Heq. destruct (clean_elems full) as [|f F]; [done|].
      apply clean_shape_head in HF as [Hne _]. apply Forall_cons in NF as [Hns _].
      exfalso. destruct f as [|c f]; [done|]. destruct F; simplify_eq/=; set_solver.
    + destruct (join_sep_prefix (b :: B) (clean_elems full) r) as (R & ? & ? & ?); [done..|].
      by exists R.
  - exfalso. destruct (clean_elems full) as [|f F]; [done|].
    apply clean_shape_head in HF as [Hne _]. apply Forall_cons in NF as [Hns _].
    destruct f as [|c f]; [done|]. destruct F; simplify_eq/=; set_solver.
  - exfalso. destruct (clean_elems base) as [|b B]; [done|].
    apply clean_shape_head in HB as [Hne _]. apply Forall_cons in NB as [Hns _].
    destruct b as [|c b]; [done|]. destruct B; simplify_eq/=; set_solver.
  - destruct (clean_elems full) as [|f F] eqn:EF.
    { exfalso. destruct (clean_elems base) as [|b B]; [done|].
      apply clean_shape_head in HB as [Hne Hnd].
      destruct b as [|c b]; [done|]. destruct b, B; simplify_eq/=. }
    destruct (clean_elems base) as [|b B] eqn:EB.
    + exfalso. apply clean_shape_head in HF as [Hne Hnd]. apply Forall_cons in NF as [Hns _].
      destruct f as [|c f]; [done|]. destruct f as [|c' f]; destruct F; simplify_eq/=; set_solver.
    + destruct (join_sep_prefix (b :: B) (f :: F) r) as (R & ? & ? & ?); [done..|].
      by exists R.
Qed.

Lemma Clean_nonempty p : Clean p <> [].
Proof.
  unfold Clean. case_bool_decide; [done|]. unfold render.
  pose proof (clean_elems_shape p) as Hs. destruct (rooted p); [done|].
  destruct (clean_elems p) as [|e es]; [done|]. apply clean_shape_head in Hs as [He _].
  destruct e; [done|]. by destruct es.
Qed.

(** Elements below a base that is rooted or does not end in [..] are proper. *)
Lemma clean_shape_below root B R :
  clean_shape root (B ++ R) -> root = true \/ last B <> Some dotdot /\ B <> [] ->
  Forall (fun e => elem_ok e /\ e <> dotdot) R.
Proof.
  intros (n & rest & Heq & Hf & Hn) HB.
  apply app_eq_inv in Heq as [(k & -> & ->)|(k & Hk & ->)]; [by apply Forall_app in Hf as [_ ?]|].
  destruct HB as [->|[Hlast Hne]].
  - rewrite Hn in Hk by done. symmetry in Hk. apply app_nil in Hk as [-> ->]. done.
  - exfalso. assert (Hall : Forall (.= dotdot) (B ++ k)).
    { rewrite <- Hk. by apply Forall_replicate. }
    apply Forall_app in Hall as [Hall _]. destruct B as [|b B _] using rev_ind; [done|].
    rewrite last_snoc in Hlast. apply Forall_app in Hall as [_ [-> _]%Forall_cons]. done.
Qed.
