(* ===== verification/Storage.v ===== *)
(** * [storage]: torrent data on disk ([storage/multifile.go], [storage/verify.go],
    [storage/torrent.go])

    A multi-file torrent is one virtual byte stream laid over its files.  The
    file system is a map from paths to contents, with [os.File]'s behaviour
    written out: [WriteAt] extends a file with zeros, [ReadAt] stops at the end.
    Directories are not represented; [can_open] and [can_write] say for which
    paths the operating system lets a call succeed (a write that fails writes
    nothing).  The mutex makes every method one step. *)

From S2P Require Import Prelude Bitfield Torrent Paths.
Set Warnings "-clear-no-such-hyp".
Local Open Scope Z_scope.

Abbreviation fs := (gmap bytes bytes).

(** ** Files of the operating system *)

Definition file_write (content : bytes) (off : nat) (data : bytes) : bytes :=
  if bool_decide (data = []) then content
  else splice (content ++ replicate (off - length content) x00) off data.

Definition file_read (content : bytes) (off n : nat) : bytes := take n (drop off content).

Definition file_truncate (content : bytes) (n : nat) : bytes :=
  take n content ++ replicate (n - length content) x00.

(** ** The writer *)

Record fileEntry := mkEntry { path : bytes; offset : Z; length_ : Z }.

Record MultiFileWriter := mkWriter {
  baseDir : bytes;
  files : list fileEntry;
  total : Z;
  handles : gset bytes;
  closed : bool
}.

Inductive storage_error :=
  | MkdirFailed | PathTraversal | WriterClosed | OpenFailed (p : bytes) | WriteFailed (p : bytes)
  | EOF.

Section MultiFile.
Context (can_open can_write : bytes -> bool).

(** One iteration of the loop of [NewMultiFileWriter]. *)
Definition resolve (baseDir : bytes) (f : File) : result storage_error bytes :=
  let cleanBase := Clean baseDir ++ [sep] in
  let relPath := Join (f_Path f) in
  let fullPath := Clean (Join [baseDir; relPath]) in
  if negb (HasPrefix fullPath cleanBase) then Err PathTraversal
  else if negb (can_open fullPath) then Err MkdirFailed
  else Ok fullPath.

Fixpoint build_entries (baseDir : bytes) (fl : list File) (off : Z)
    : result storage_error (list fileEntry * Z) :=
  match fl with
  | [] => Ok ([], off)
  | f :: fl =>
      fullPath ← resolve baseDir f;
      '(entries, total) ← build_entries baseDir fl (i64 (off + f_Length f));
      Ok (mkEntry fullPath off (f_Length f) :: entries, total)
  end.

Definition NewMultiFileWriter (baseDir : bytes) (tf : TorrentFile)
    : result storage_error MultiFileWriter :=
  if negb (can_open baseDir) then Err MkdirFailed
  else
    '(entries, offset) ← build_entries baseDir (Files (t_Info tf)) 0;
    Ok (mkWriter baseDir entries offset ∅ false).

(** The file system and the cached handles, as the methods update them. *)
Definition getHandle (p : bytes) (create : bool) (st : fs * gset bytes)
    : result storage_error (fs * gset bytes) :=
  let '(F, hs) := st in
  if bool_decide (p ∈ hs) then Ok (F, hs)
  else if negb (can_open p) then Err (OpenFailed p)
  else match F !! p with
       | Some _ => Ok (F, {[p]} ∪ hs)
       | None => if create then Ok (<[p := []]> F, {[p]} ∪ hs) else Err (OpenFailed p)
       end.

Definition contents (F : fs) (p : bytes) : bytes := default [] (F !! p).

(** The loop of [WriteAt]: the result is [(written, err)]. *)
Fixpoint write_loop (fl : list fileEntry) (remaining : bytes) (off written : Z)
    (st : fs * gset bytes) : (fs * gset bytes) * (Z * option storage_error) :=
  match fl with
  | [] => (st, (written, None))
  | fe :: fl =>
      if bool_decide (remaining = []) then (st, (written, None))
      else
        let fileEnd := i64 (offset fe + length_ fe) in
        if fileEnd <=? off then write_loop fl remaining off written st
        else
          let fileOff := i64 (off - offset fe) in
          let fileOff := if fileOff <? 0 then 0 else fileOff in
          let canWrite := i64 (length_ fe - fileOff) in
          let canWrite := if len remaining <? canWrite then len remaining else canWrite in
          match getHandle (path fe) true st with
          | Err e => (st, (written, Some e))
          | Ok (F, hs) =>
              if negb (can_write (path fe)) then ((F, hs), (written, Some (WriteFailed (path fe))))
              else
                let block := slice remaining 0 canWrite in
                let F := <[path fe := file_write (contents F (path fe)) (Z.to_nat fileOff) block]> F in
                write_loop fl (slice remaining canWrite (len remaining)) (i64 (off + canWrite))
                  (written + canWrite) (F, hs)
          end
  end.

Definition WriteAt (mw : MultiFileWriter) (F : fs) (data : bytes) (off : Z)
    : (fs * MultiFileWriter) * (Z * option storage_error) :=
  if closed mw then ((F, mw), (0, Some WriterClosed))
  else
    let '((F, hs), res) := write_loop (files mw) data off 0 (F, handles mw) in
    ((F, mkWriter (baseDir mw) (files mw) (total mw) hs (closed mw)), res).

(** The loop of [ReadAt], which fills the buffer from the front: the bytes read
    so far are [acc], [want] bytes of the buffer are left. *)
Fixpoint read_loop (fl : list fileEntry) (acc : bytes) (want off : Z) (st : fs * gset bytes)
    : (fs * gset bytes) * (bytes * option storage_error) :=
  match fl with
  | [] => (st, (acc, None))
  | fe :: fl =>
      if want =? 0 then (st, (acc, None))
      else
        let fileEnd := i64 (offset fe + length_ fe) in
        if fileEnd <=? off then read_loop fl acc want off st
        else
          let fileOff := i64 (off - offset fe) in
          let fileOff := if fileOff <? 0 then 0 else fileOff in
          let canRead := i64 (length_ fe - fileOff) in
          let canRead := if want <? canRead then want else canRead in
          match getHandle (path fe) false st with
          | Err e => (st, (acc, Some e))
          | Ok (F, hs) =>
              let block := file_read (contents F (path fe)) (Z.to_nat fileOff) (Z.to_nat canRead) in
              let n := len block in
              if (n <? canRead) && (n =? 0) then ((F, hs), (acc, Some EOF))
              else read_loop fl (acc ++ block) (want - n) (i64 (off + n)) (F, hs)
          end
  end.

Definition ReadAt (mw : MultiFileWriter) (F : fs) (want off : Z)
    : (fs * MultiFileWriter) * (bytes * option storage_error) :=
  if closed mw then ((F, mw), ([], Some WriterClosed))
  else
    let '((F, hs), res) := read_loop (files mw) [] want off (F, handles mw) in
    ((F, mkWriter (baseDir mw) (files mw) (total mw) hs (closed mw)), res).

Fixpoint preallocate_loop (fl : list fileEntry) (st : fs * gset bytes)
    : (fs * gset bytes) * option storage_error :=
  match fl with
  | [] => (st, None)
  | fe :: fl =>
      match getHandle (path fe) true st with
      | Err e => (st, Some e)
      | Ok (F, hs) =>
          if negb (can_write (path fe)) then ((F, hs), Some (WriteFailed (path fe)))
          else preallocate_loop fl
                 (<[path fe := file_truncate (contents F (path fe)) (Z.to_nat (length_ fe))]> F, hs)
      end
  end.

Definition PreallocateFiles (mw : MultiFileWriter) (F : fs)
    : (fs * MultiFileWriter) * option storage_error :=
  let '((F, hs), res) := preallocate_loop (files mw) (F, handles mw) in
  ((F, mkWriter (baseDir mw) (files mw) (total mw) hs (closed mw)), res).

Definition Close (mw : MultiFileWriter) : MultiFileWriter :=
  mkWriter (baseDir mw) (files mw) (total mw) ∅ true.

End MultiFile.

(** ** Verification *)

(** [ReadAtReader]: a reader is a state with a [ReadAt]. *)
Class ReadAtReader (R : Type) :=
  readAt : R -> Z -> Z -> R * (bytes * option storage_error).

(** An [*os.File], by its contents. *)
#[export] Instance os_File : ReadAtReader bytes := fun content want off =>
  let data := file_read content (Z.to_nat off) (Z.to_nat want) in
  (content, (data, if len data <? want then Some EOF else None)).

(** The loop of [VerifyPieces]; [None] is the panic of [buf[:length]] on a
    negative length. *)
Section Verify.
Context (sha1 : bytes -> bytes) {R : Type} {HR : ReadAtReader R}.

Fixpoint verify_loop (tl pieceLen i : Z) (hashes : list bytes) (r : R) (bf : Bitfield) (verified : Z)
    : option (R * (Bitfield * Z)) :=
  match hashes with
  | [] => Some (r, (bf, verified))
  | expectedHash :: hashes =>
      let offset := i64 (i * pieceLen) in
      let remaining := i64 (tl - i64 (i * pieceLen)) in
      let length := if remaining <? pieceLen then remaining else pieceLen in
      if length <? 0 then None
      else
        let '(r, (data, err)) := readAt r length offset in
        let ok := match err with Some _ => false | None => len data =? length end in
        if ok && bool_decide (sha1 data = expectedHash)
        then verify_loop tl pieceLen (i + 1) hashes r (SetPiece bf i).2 (verified + 1)
        else verify_loop tl pieceLen (i + 1) hashes r bf verified
  end.

Definition verify_with (tf : TorrentFile) (r : R) : option (R * (Bitfield * Z)) :=
  let numPieces := len (PieceHashes (t_Info tf)) in
  verify_loop (TotalSize tf) (PieceLength (t_Info tf)) 0 (PieceHashes (t_Info tf)) r
    (new_bitfield numPieces) 0.
End Verify.

(** A multi-file writer with its file system. *)
#[export] Instance multi_reader (can_open : bytes -> bool) : ReadAtReader (fs * MultiFileWriter) :=
  fun '(F, mw) want off => ReadAt can_open mw F want off.

(** [VerifyPieces]: a torrent whose directory or file cannot be opened has no
    verified piece. *)
Definition VerifyPieces (sha1 : bytes -> bytes) (can_open : bytes -> bool) (p : bytes)
    (tf : TorrentFile) (F : fs) : option (Bitfield * Z) :=
  let none := (new_bitfield (len (PieceHashes (t_Info tf))), 0) in
  if IsMultiFile tf then
    match NewMultiFileWriter can_open p tf with
    | Err _ => Some none
    | Ok mw => snd <$> verify_with sha1 (HR := multi_reader can_open) tf (F, mw)
    end
  else
    match F !! p with
    | Some content => if can_open p then snd <$> verify_with sha1 tf content else Some none
    | None => Some none
    end.

(** ** The files as one byte array *)

(** The entries cover the stream from [o] on without gaps or overlap. *)
Fixpoint layout (fl : list fileEntry) (o : Z) : Prop :=
  match fl with
  | [] => True
  | fe :: fl => offset fe = o /\ 0 <= length_ fe /\ layout fl (o + length_ fe)
  end.

Fixpoint span (fl : list fileEntry) : Z :=
  match fl with [] => 0 | fe :: fl => length_ fe + span fl end.

(** Every file exists with its full length. *)
Definition sized (F : fs) (fl : list fileEntry) : Prop :=
  Forall (fun fe => exists c, F !! path fe = Some c /\ len c = length_ fe) fl.

(** The virtual stream. *)
Definition flat (F : fs) (fl : list fileEntry) : bytes :=
  concat ((fun fe => contents F (path fe)) <$> fl).

Lemma span_nonneg fl o : layout fl o -> 0 <= span fl.
Proof.
  revert o. induction fl as [|fe fl IH]; simpl; intros o; [lia|]. intros (_ & ? & ?%IH). lia.
Qed.

Lemma layout_lengths fl o : layout fl o -> Forall (fun fe => 0 <= length_ fe) fl.
Proof.
  revert o. induction fl as [|fe fl IH]; simpl; intros o; [constructor|].
  intros (_ & ? & ?%IH). by constructor.
Qed.

Lemma length_flat F fl : sized F fl -> len (flat F fl) = span fl.
Proof.
  induction 1 as [|fe fl (c & Hc & Hl) _ IH]; [done|]. cbn. unfold contents at 1.
  rewrite Hc. simpl. rewrite length_app. unfold flat in IH. lia.
Qed.

Lemma flat_other F F' fl :
  (forall fe, fe ∈ fl -> F' !! path fe = F !! path fe) -> flat F' fl = flat F fl.
Proof.
  intros H. unfold flat. f_equal. apply list_fmap_ext. intros i fe Hi. unfold contents.
  by rewrite H by (by eapply list_elem_of_lookup_2).
Qed.

Lemma sized_other F F' fl :
  (forall fe, fe ∈ fl -> F' !! path fe = F !! path fe) -> sized F fl -> sized F' fl.
Proof.
  intros H Hs. apply Forall_forall. intros fe Hfe. rewrite H by done.
  by eapply (proj1 (Forall_forall _ _) Hs).
Qed.

Lemma file_write_in c off data :
  (off + length data <= length c)%nat -> file_write c off data = splice c off data.
Proof.
  intros H. unfold file_write. case_bool_decide as E; [by rewrite E, splice_nil|].
  replace (off - length c)%nat with 0%nat by lia. by rewrite app_nil_r.
Qed.

Section Stream.
Context (can_open can_write : bytes -> bool).

Definition usable (fl : list fileEntry) : Prop :=
  Forall (fun fe => can_open (path fe) = true /\ can_write (path fe) = true) fl.

Lemma getHandle_present p create F hs c :
  can_open p = true -> F !! p = Some c ->
  exists hs', getHandle can_open p create (F, hs) = Ok (F, hs').
Proof.
  intros Ho Hc. unfold getHandle. case_bool_decide; [eauto|]. rewrite Ho, Hc. simpl. eauto.
Qed.

(** Writing a block at the front of the stream [c ++ rest] is writing the part
    that fits into [c] and the remainder into [rest]. *)
Lemma splice_stream (c rest data : bytes) (off k cw : nat) :
  (off + k = length c)%nat -> cw = Nat.min k (length data) ->
  splice (c ++ rest) off (take (k + length rest) data) =
  splice c off (take cw data) ++ splice rest (off + cw - length c) (take (length rest) (drop cw data)).
Proof.
  intros Hk ->. rewrite splice_app_split by lia.
  replace (length c - off)%nat with k by lia. rewrite take_take, Nat.min_l by lia.
  assert (Htk : take (Nat.min k (length data)) data = take k data).
  { destruct (Nat.min_spec k (length data)) as [[? ->]|[? ->]]; [done|].
    by rewrite !take_ge by lia. }
  rewrite Htk. f_equal. rewrite length_take.
  case_decide as Hd.
  - assert (Hnil : take (length rest) (drop (Nat.min k (length data)) data) = []).
    { apply length_zero_iff_nil. rewrite length_take, length_drop. lia. }
    by rewrite Hnil, splice_nil.
  - rewrite Nat.min_l by lia. replace (off + k - length c)%nat with 0%nat by lia.
    by rewrite skipn_firstn_comm, Nat.add_comm, Nat.add_sub.
Qed.

Lemma write_loop_spec fl o off data w F hs :
  layout fl o -> o + span fl <= MaxInt64 -> 0 <= o -> (data = [] \/ o <= off) -> in_i64 off ->
  0 <= off -> NoDup (path <$> fl) -> sized F fl -> usable fl ->
  exists F' hs',
    write_loop can_open can_write fl data off w (F, hs) =
      ((F', hs'), (w + Z.min (len data) (Z.max 0 (o + span fl - off)), None)) /\
    flat F' fl = splice (flat F fl) (Z.to_nat (off - o)) (take (Z.to_nat (o + span fl - off)) data) /\
    sized F' fl /\ (forall p, p ∉ (path <$> fl) -> F' !! p = F !! p).
Proof.
  revert o off data w F hs.
  induction fl as [|fe fl IH]; intros o off data w F hs Hlay Hmax Ho Hoff Hi Hpos Hnd Hsz Hus.
  { exists F, hs. cbn [write_loop span] in *. split_and!; try done.
    - destruct Hoff as [->|?]; [simpl; do 3 f_equal; lia|]. do 3 f_equal. lia.
    - destruct Hoff as [->|?]; [by rewrite take_nil, splice_nil|].
      replace (Z.to_nat (o + 0 - off)) with 0%nat by lia. by rewrite take_0, splice_nil. }
  cbn [layout span] in *. destruct Hlay as (Hfo & Hfl & Hlay).
  pose proof (span_nonneg _ _ Hlay) as Hsp.
  cbn [fmap list_fmap] in Hnd. apply NoDup_cons in Hnd as [Hp Hnd].
  pose proof Hsz as Hsz0. apply Forall_cons in Hsz as [(c & Hc & Hlc) Hsz].
  apply Forall_cons in Hus as [[Hopen Hwrite] Hus].
  cbn [write_loop]. case_bool_decide as Hd.
  { subst data. exists F, hs. rewrite take_nil, splice_nil. split_and!; try done.
    simpl. do 3 f_equal. lia. }
  destruct Hoff as [?|Hoff]; [done|].
  rewrite Hfo, (i64_id (o + length_ fe)) by (unfold in_i64, MinInt64, MaxInt64 in *; lia).
  assert (Hflat : forall G, flat G (fe :: fl) = contents G (path fe) ++ flat G fl) by done.
  assert (Hcont : contents F (path fe) = c) by (unfold contents; by rewrite Hc).
  pose proof (length_flat _ _ Hsz) as Hlf.
  destruct (Z.leb_spec (o + length_ fe) off).
  - destruct (IH (o + length_ fe) off data w F hs) as (F' & hs' & Hrun & Hfl' & Hsz' & Hoth);
      [done|lia|lia|by right|done..|].
    exists F', hs'. rewrite Hrun. split_and!.
    + do 3 f_equal. lia.
    + rewrite !Hflat, Hfl'. assert (contents F' (path fe) = c) as ->.
      { unfold contents. by rewrite Hoth, Hc. }
      rewrite Hcont, splice_app_r by lia. f_equal. f_equal; [lia|f_equal; lia].
    + constructor; [|done]. exists c. by rewrite Hoth.
    + intros p [? ?]%not_elem_of_cons. by apply Hoth.
  - rewrite (i64_id (off - o)) by (unfold in_i64, MinInt64, MaxInt64 in *; lia).
    rewrite (proj2 (Z.ltb_ge (off - o) 0)) by lia.
    rewrite (i64_id (length_ fe - (off - o))) by (unfold in_i64, MinInt64, MaxInt64 in *; lia).
    set (cw := if len data <? length_ fe - (off - o) then len data else length_ fe - (off - o)).
    assert (Hcw : cw = Z.min (len data) (length_ fe - (off - o))).
    { subst cw. destruct (Z.ltb_spec (len data) (length_ fe - (off - o))); lia. }
    destruct (getHandle_present (path fe) true F hs c Hopen Hc) as [hs1 ->].
    rewrite Hwrite, Hcont. cbn [negb].
    assert (Hsl : slice data 0 cw = take (Z.to_nat cw) data).
    { unfold slice. rewrite drop_0. f_equal. lia. }
    assert (Hdr : slice data cw (len data) = drop (Z.to_nat cw) data).
    { unfold slice. rewrite take_ge; [done|]. rewrite length_drop. lia. }
    rewrite Hsl, Hdr, file_write_in by (rewrite length_take; lia).
    set (F1 := <[path fe := _]> F).
    assert (Hne : forall g, g ∈ fl -> F1 !! path g = F !! path g).
    { intros g Hg. apply lookup_insert_ne. intros Heq. apply Hp. rewrite Heq.
      by apply list_elem_of_fmap_2. }
    destruct (IH (o + length_ fe) (i64 (off + cw)) (drop (Z.to_nat cw) data) (w + cw) F1 hs1)
      as (F' & hs' & Hrun & Hfl' & Hsz' & Hoth); try done; rewrite ?(i64_id (off + cw)) in *
      by (unfold in_i64, MinInt64, MaxInt64 in *; lia); try lia.
    { destruct (decide (Z.to_nat cw = length data)) as [E|E]; [left; by rewrite E, drop_all|right; lia]. }
    { unfold in_i64, MinInt64, MaxInt64 in *. lia. }
    { by eapply sized_other. }
    exists F', hs'. rewrite Hrun. split_and!.
    + do 2 f_equal. rewrite length_drop. lia.
    + rewrite !Hflat, Hfl', (flat_other F F1) by done.
      assert (contents F' (path fe) = splice c (Z.to_nat (off - o)) (take (Z.to_nat cw) data)) as ->.
      { unfold contents. rewrite Hoth by done. unfold F1. by rewrite lookup_insert_eq. }
      rewrite Hcont.
      replace (Z.to_nat (o + (length_ fe + span fl) - off))
        with (Z.to_nat (length_ fe - (off - o)) + length (flat F fl))%nat by lia.
      rewrite (splice_stream c (flat F fl) data (Z.to_nat (off - o))
                (Z.to_nat (length_ fe - (off - o))) (Z.to_nat cw)) by lia.
      do 2 f_equal; [lia|].
      destruct (decide (Z.to_nat cw = length data)) as [E|E].
      * by rewrite E, drop_all, !take_nil.
      * f_equal. lia.
    + constructor; [|done]. rewrite Hoth by done. unfold F1. rewrite lookup_insert_eq.
      eexists. split; [done|]. rewrite length_splice; [done|]. rewrite length_take. lia.
    + intros p [Hpe ?]%not_elem_of_cons. rewrite Hoth by done. unfold F1. by rewrite lookup_insert_ne.
Qed.

Lemma take_stream (c rest : bytes) (off want cr : nat) :
  (off <= length c)%nat -> cr = Nat.min want (length c - off) ->
  take want (drop off (c ++ rest)) =
  take cr (drop off c) ++ take (want - cr) (drop (off + cr - length c) rest).
Proof.
  intros Hoff ->. rewrite drop_app_le, take_app by lia. rewrite length_drop.
  destruct (Nat.min_spec want (length c - off)) as [[? ->]|[? ->]].
  - replace (want - (length c - off))%nat with 0%nat by lia.
    by rewrite Nat.sub_diag, !take_0.
  - rewrite !(take_ge (drop off c)) by (rewrite length_drop; lia).
    by replace (off + (length c - off) - length c)%nat with 0%nat by lia.
Qed.

Lemma read_loop_spec fl o off acc want F hs :
  layout fl o -> o + span fl <= MaxInt64 -> 0 <= o -> 0 <= want -> (want = 0 \/ o <= off) ->
  in_i64 off -> 0 <= off -> sized F fl -> usable fl ->
  exists hs', read_loop can_open fl acc want off (F, hs) =
    ((F, hs'), (acc ++ take (Z.to_nat want) (drop (Z.to_nat (off - o)) (flat F fl)), None)).
Proof.
  revert o off acc want hs.
  induction fl as [|fe fl IH]; intros o off acc want hs Hlay Hmax Ho Hw Hoff Hi Hpos Hsz Hus.
  { exists hs. cbn [read_loop]. unfold flat; cbn [fmap list_fmap concat].
    by rewrite drop_nil, take_nil, app_nil_r. }
  cbn [layout span] in *. destruct Hlay as (Hfo & Hfl & Hlay).
  pose proof (span_nonneg _ _ Hlay) as Hsp.
  apply Forall_cons in Hsz as [(c & Hc & Hlc) Hsz]. apply Forall_cons in Hus as [[Hopen _] Hus].
  cbn [read_loop]. destruct (Z.eqb_spec want 0) as [->|Hwn].
  { exists hs. by rewrite take_0, app_nil_r. }
  destruct Hoff as [?|Hoff]; [done|].
  assert (Hrange : forall z, 0 <= z <= MaxInt64 -> i64 z = z).
  { intros z Hz. apply i64_id. unfold in_i64, MinInt64 in *. lia. }
  assert (Hcont : contents F (path fe) = c) by (unfold contents; by rewrite Hc).
  assert (Hflat : flat F (fe :: fl) = c ++ flat F fl) by (unfold flat; simpl; by rewrite Hcont).
  rewrite Hflat, Hfo, (Hrange (o + length_ fe)) by lia.
  destruct (Z.leb_spec (o + length_ fe) off).
  - destruct (IH (o + length_ fe) off acc want hs) as [hs' ->]; try done; [lia..|by right|].
    exists hs'. rewrite drop_app_ge by lia. do 6 f_equal. lia.
  - rewrite (Hrange (off - o)) by lia. rewrite (proj2 (Z.ltb_ge (off - o) 0)) by lia.
    rewrite (Hrange (length_ fe - (off - o))) by lia.
    set (cr := if want <? length_ fe - (off - o) then want else length_ fe - (off - o)).
    assert (Hcr : cr = Z.min want (length_ fe - (off - o))).
    { subst cr. destruct (Z.ltb_spec want (length_ fe - (off - o))); lia. }
    destruct (getHandle_present (path fe) false F hs c Hopen Hc) as [hs1 ->].
    rewrite Hcont. unfold file_read.
    assert (Hlen : len (take (Z.to_nat cr) (drop (Z.to_nat (off - o)) c)) = cr).
    { rewrite length_take, length_drop. lia. }
    rewrite Hlen, Z.ltb_irrefl. cbn [andb]. rewrite (Hrange (off + cr)) by lia.
    destruct (IH (o + length_ fe) (off + cr) (acc ++ take (Z.to_nat cr) (drop (Z.to_nat (off - o)) c))
                (want - cr) hs1) as [hs' ->]; try done; [lia..| |lia|].
    { unfold in_i64, MinInt64 in *. lia. }
    exists hs'. rewrite <- (assoc_L (++)).
    rewrite (take_stream c (flat F fl) (Z.to_nat (off - o)) (Z.to_nat want) (Z.to_nat cr)) by lia.
    do 5 f_equal; [lia|f_equal; lia].
Qed.

Lemma preallocate_loop_spec fl F hs :
  Forall (fun fe => 0 <= length_ fe) fl -> NoDup (path <$> fl) -> usable fl ->
  (forall p, p ∈ hs -> is_Some (F !! p)) ->
  exists F' hs', preallocate_loop can_open can_write fl (F, hs) = ((F', hs'), None) /\
    Forall (fun fe => F' !! path fe =
                      Some (file_truncate (contents F (path fe)) (Z.to_nat (length_ fe)))) fl /\
    (forall p, p ∉ (path <$> fl) -> F' !! p = F !! p).
Proof.
  revert F hs. induction fl as [|fe fl IH]; intros F hs Hlen Hnd Hus Hhs.
  { exists F, hs. by split_and!; [|constructor|]. }
  cbn [fmap list_fmap] in Hnd. apply NoDup_cons in Hnd as [Hp Hnd].
  apply Forall_cons in Hlen as [Hl Hlen]. apply Forall_cons in Hus as [[Hopen Hwrite] Hus].
  assert (Hget : exists F1 hs1, getHandle can_open (path fe) true (F, hs) = Ok (F1, hs1) /\
            contents F1 (path fe) = contents F (path fe) /\
            (forall p, p <> path fe -> F1 !! p = F !! p) /\
            (forall p, p ∈ hs1 -> is_Some (F1 !! p))).
  { unfold getHandle. case_bool_decide as Eh; [by exists F, hs|]. rewrite Hopen. simpl.
    destruct (F !! path fe) as [c|] eqn:Ec.
    - exists F, ({[path fe]} ∪ hs). split_and!; try done. set_solver.
    - exists (<[path fe := []]> F), ({[path fe]} ∪ hs). split_and!; try done.
      + unfold contents. by rewrite lookup_insert_eq, Ec.
      + intros p Hpe. by rewrite lookup_insert_ne.
      + intros p [->%elem_of_singleton|Hin]%elem_of_union; apply lookup_insert_is_Some'; auto. }
  destruct Hget as (F1 & hs1 & Hget & Hc1 & Ho1 & Hh1).
  cbn [preallocate_loop]. rewrite Hget, Hwrite, Hc1. cbn [negb].
  destruct (IH (<[path fe := file_truncate (contents F (path fe)) (Z.to_nat (length_ fe))]> F1) hs1)
    as (F' & hs' & -> & Hall & Hoth); [done..| |].
  { intros p Hin. apply lookup_insert_is_Some'. auto. }
  exists F', hs'. split_and!; [done| |].
  - constructor; [rewrite Hoth by done; apply lookup_insert_eq|].
    apply Forall_forall. intros g Hg. rewrite (proj1 (Forall_forall _ _) Hall g Hg).
    assert (path g <> path fe).
    { intros Heq. apply Hp. rewrite <- Heq. by apply list_elem_of_fmap_2. }
    unfold contents. by rewrite lookup_insert_ne, Ho1 by done.
  - intros p [Hpe ?]%not_elem_of_cons. rewrite Hoth by done. rewrite lookup_insert_ne by done.
    by apply Ho1.
Qed.

End Stream.
