(* ===== verification/StorageTheorems.v ===== *)
(** * The storage layer's properties

    The multi-file writer refines one flat byte array; its paths stay below the
    base directory; [VerifyPieces] is proved against an interface that a plain
    file and the multi-file writer both implement. *)

From S2P Require Import Prelude Bitfield Torrent Paths Storage.
Set Warnings "-clear-no-such-hyp".
Local Open Scope Z_scope.

(** The abstract view: a writer whose files exist with their lengths, no path
    twice, covering the stream from 0 to [total]. *)
Record stored (mw : MultiFileWriter) (F : fs) : Prop := {
  st_layout : layout (files mw) 0;
  st_total : total mw = span (files mw);
  st_max : total mw <= MaxInt64;
  st_paths : NoDup (path <$> files mw);
  st_sized : sized F (files mw);
  st_open : closed mw = false
}.

(** The summed length of the files, without wrap-around. *)
Fixpoint files_size (fl : list File) : Z :=
  match fl with [] => 0 | f :: fl => f_Length f + files_size fl end.

Lemma files_size_nonneg fl : Forall (fun f => 0 <= f_Length f) fl -> 0 <= files_size fl.
Proof. induction 1; simpl; lia. Qed.

Section Theorems.
Context (can_open can_write : bytes -> bool).

(** C19: writing at an offset of the stream succeeds, overwrites exactly that range
    of the concatenated files (what lies beyond the end is dropped), changes no
    other file and keeps the writer's invariant: the writer refines a flat byte
    array. *)
Theorem WriteAt_refines (mw : MultiFileWriter) (F : fs) (data : bytes) (off : Z) :
  stored mw F -> usable can_open can_write (files mw) -> 0 <= off <= MaxInt64 ->
  let '((F', mw'), (n, err)) := WriteAt can_open can_write mw F data off in
  err = None /\ n = Z.min (len data) (Z.max 0 (total mw - off)) /\
  flat F' (files mw') =
    splice (flat F (files mw)) (Z.to_nat off) (take (Z.to_nat (total mw - off)) data) /\
  (forall p, p ∉ (path <$> files mw) -> F' !! p = F !! p) /\
  stored mw' F' /\ files mw' = files mw.
Proof.
  intros [Hlay Htot Hmax Hnd Hsz Hcl] Hus Hoff. unfold WriteAt. rewrite Hcl.
  destruct (write_loop_spec can_open can_write (files mw) 0 off data 0 F (handles mw))
    as (F' & hs' & -> & Hfl & Hsz' & Hoth); try done; [lia|right; lia|unfold in_i64, MinInt64; lia|lia|].
  rewrite Htot. rewrite !Z.add_0_l, Z.sub_0_r in *. simpl. split_and!; try done.
  constructor; simpl; try done; lia.
Qed.

(** Reading returns exactly the requested range of the concatenated files, cut
    at the end of the stream, and changes no file. *)
Lemma ReadAt_refines (mw : MultiFileWriter) (F : fs) (want off : Z) :
  stored mw F -> usable can_open can_write (files mw) -> 0 <= off <= MaxInt64 -> 0 <= want ->
  let '((F', mw'), (data, err)) := ReadAt can_open mw F want off in
  err = None /\ data = take (Z.to_nat want) (drop (Z.to_nat off) (flat F (files mw))) /\
  F' = F /\ stored mw' F' /\ files mw' = files mw.
Proof.
  intros [Hlay Htot Hmax Hnd Hsz Hcl] Hus Hoff Hw. unfold ReadAt. rewrite Hcl.
  destruct (read_loop_spec can_open can_write (files mw) 0 off [] want F (handles mw))
    as (hs' & ->); try done; [lia|right; lia|unfold in_i64, MinInt64; lia|lia|].
  rewrite Z.sub_0_r. simpl. split_and!; try done.
Qed.

Lemma build_entries_spec base fl off entries tot :
  build_entries can_open base fl off = Ok (entries, tot) ->
  Forall (fun f => 0 <= f_Length f) fl -> 0 <= off ->
  off + files_size fl <= MaxInt64 ->
  layout entries off /\ tot = off + span entries /\ length_ <$> entries = f_Length <$> fl /\
  Forall2 (fun f e => resolve can_open base f = Ok (path e)) fl entries.
Proof.
  revert off entries tot. induction fl as [|f fl IH]; intros off entries tot H Hf Hoff Hmax.
  { simpl in H. inv_ok. subst. cbn. split_and!; [done|lia|done|constructor]. }
  cbn [build_entries] in H. inv_ok. destruct a0 as [es t]. inv_ok. subst.
  apply Forall_cons in Hf as [Hf0 Hf]. simpl in Hmax.
  pose proof (files_size_nonneg _ Hf).
  rewrite i64_id in E0 by (unfold in_i64, MinInt64; lia).
  apply IH in E0 as (Hlay & -> & Hlen & Hres); [|done|lia|lia].
  split_and!; try done; cbn [layout span path offset length_ fmap list_fmap];
    [lia|by f_equal|by constructor].
Qed.

(** C21: a new writer lays the files out one after the other in the order of the
    torrent, its total is their summed length, and every path it will ever open
    is strictly below the base directory, element by element: the base's own
    elements, then at least one more, none of them [..] (unless the base itself
    is made of [..] only). *)
Theorem NewMultiFileWriter_confined (base : bytes) (tf : TorrentFile) (mw : MultiFileWriter) :
  NewMultiFileWriter can_open base tf = Ok mw -> base <> [] ->
  Forall (fun f => 0 <= f_Length f) (Files (t_Info tf)) ->
  files_size (Files (t_Info tf)) <= MaxInt64 ->
  layout (files mw) 0 /\ total mw = span (files mw) /\
  length_ <$> files mw = f_Length <$> Files (t_Info tf) /\
  forall fe, fe ∈ files mw ->
    exists R, R <> [] /\ path fe = render (rooted base) (clean_elems base ++ R) /\
      (rooted base = true \/ last (clean_elems base) <> Some dotdot /\ clean_elems base <> [] ->
       Forall (fun e => elem_ok e /\ e <> dotdot) R).
Proof.
  intros H Hbase Hf Hmax. unfold NewMultiFileWriter in H.
  destruct (can_open base); simpl in H; [|done]. inv_ok. destruct a as [es t]. inv_ok. subst mw.
  apply build_entries_spec in E as (Hlay & Ht & Hlen & Hres); [|done|lia|lia]. simpl.
  split_and!; [done|lia|done|]. intros fe Hfe.
  apply list_elem_of_lookup in Hfe as [i Hi].
  destruct (Forall2_lookup_r _ _ _ _ _ Hres Hi) as (f & _ & Hr). unfold resolve in Hr.
  destruct (HasPrefix _ _) eqn:Hpre; simpl in Hr; [|done].
  destruct (can_open (Clean _)); [|done]. injection Hr as <-. apply HasPrefix_spec in Hpre as [r Hpre].
  change (Clean (Join [base; Join (f_Path f)]) = (Clean base ++ [sep]) ++ r) in Hpre.
  rewrite <- (assoc_L (++)) in Hpre.
  assert (Hfull : Join [base; Join (f_Path f)] <> []).
  { simpl. rewrite bool_decide_eq_false_2 by done. apply Clean_nonempty. }
  destruct (clean_prefix _ _ _ Hbase Hfull Hpre) as (R & HR & Hroot & HE & _).
  exists R. split_and!; [done| |].
  - rewrite <- HE, <- Hroot. unfold Clean. by rewrite bool_decide_eq_false_2.
  - apply clean_shape_below. rewrite <- HE, <- Hroot. apply clean_elems_shape.
Qed.

(** Preallocation leaves every file of the torrent with exactly its length
    (keeping the data it had, zero-filling the rest) and touches no other file, so
    the writer is ready for the byte-array view. *)
Lemma PreallocateFiles_stored (mw : MultiFileWriter) (F : fs) :
  layout (files mw) 0 -> total mw = span (files mw) -> total mw <= MaxInt64 ->
  NoDup (path <$> files mw) -> closed mw = false -> handles mw = ∅ ->
  usable can_open can_write (files mw) ->
  let '((F', mw'), err) := PreallocateFiles can_open can_write mw F in
  err = None /\ stored mw' F' /\ files mw' = files mw /\
  (forall fe, fe ∈ files mw ->
     F' !! path fe = Some (file_truncate (contents F (path fe)) (Z.to_nat (length_ fe)))) /\
  (forall p, p ∉ (path <$> files mw) -> F' !! p = F !! p).
Proof.
  intros Hlay Htot Hmax Hnd Hcl Hh Hus. unfold PreallocateFiles.
  pose proof (layout_lengths _ _ Hlay) as Hlen.
  destruct (preallocate_loop_spec can_open can_write (files mw) F (handles mw))
    as (F' & hs' & -> & Hall & Hoth); try done; [rewrite Hh; set_solver|].
  simpl. split_and!; try done; [|by apply Forall_forall].
  constructor; try done. simpl. apply Forall_forall. intros fe Hfe.
  rewrite (proj1 (Forall_forall _ _) Hall fe Hfe). eexists. split; [done|].
  unfold file_truncate. rewrite length_app, length_take, length_replicate.
  pose proof (proj1 (Forall_forall _ _) Hlen fe Hfe). simpl in *. lia.
Qed.

End Theorems.

(** ** Verification against the reader interface *)

(** What [VerifyPieces] needs of a reader: it reads the stream [data], and a full
    read reports no error. *)
Class ReadsStream (R : Type) `{!ReadAtReader R} (inv : R -> Prop) (data : bytes) : Prop :=
  reads_stream r want off :
    inv r -> 0 <= off <= MaxInt64 -> 0 <= want ->
    let '(r', (block, err)) := readAt r want off in
    inv r' /\ block = take (Z.to_nat want) (drop (Z.to_nat off) data) /\
    (len block = want -> err = None).

#[export] Instance os_File_reads (data : bytes) : ReadsStream bytes (fun r => r = data) data.
Proof.
  intros r want off -> Hoff Hw. simpl. split_and!; try done.
  intros Hl. unfold file_read in *. by rewrite Hl, Z.ltb_irrefl.
Qed.

#[export] Instance multi_reads (can_open can_write : bytes -> bool) (F : fs) (fl : list fileEntry)
    (Hus : usable can_open can_write fl) :
  ReadsStream (fs * MultiFileWriter) (ReadAtReader0 := multi_reader can_open)
    (fun '(F', mw) => F' = F /\ files mw = fl /\ stored mw F') (flat F fl).
Proof.
  intros [F' mw] want off (-> & <- & Hst) Hoff Hw. unfold readAt, multi_reader.
  pose proof (ReadAt_refines can_open can_write mw F want off Hst Hus Hoff Hw) as H.
  destruct (ReadAt can_open mw F want off) as [[F1 mw1] [d e]]. naive_solver.
Qed.

Section Verification.
Context (sha1 : bytes -> bytes) {R : Type} `{!ReadAtReader R}.
Context (inv : R -> Prop) (data : bytes) `{!ReadsStream R inv data}.

Definition piece_size (tl pieceLen i : Z) : Z := Z.min pieceLen (tl - i * pieceLen).

(** Piece [i] is complete in [data] and has the expected hash. *)
Definition piece_valid (tl pieceLen i : Z) (hash : bytes) : bool :=
  let block := take (Z.to_nat (piece_size tl pieceLen i)) (drop (Z.to_nat (i * pieceLen)) data) in
  (len block =? piece_size tl pieceLen i) && bool_decide (sha1 block = hash).

Fixpoint count_valid (tl pieceLen i : Z) (hashes : list bytes) : Z :=
  match hashes with
  | [] => 0
  | h :: hashes => (if piece_valid tl pieceLen i h then 1 else 0) + count_valid tl pieceLen (i + 1) hashes
  end.

Lemma verify_loop_spec tl pieceLen i hashes r bf n :
  inv r -> 0 < pieceLen -> 0 <= i -> tl <= MaxInt64 ->
  (hashes <> [] -> (i + len hashes - 1) * pieceLen <= tl) -> i + len hashes <= 8 * len bf ->
  exists r' bf', verify_loop sha1 tl pieceLen i hashes r bf n =
      Some (r', (bf', n + count_valid tl pieceLen i hashes)) /\
    length bf' = length bf /\
    forall j, HasPiece bf' j = HasPiece bf j ||
      match hashes !! Z.to_nat (j - i) with
      | Some h => (i <=? j) && piece_valid tl pieceLen j h | None => false end.
Proof.
  revert i r bf n. induction hashes as [|h hashes IH]; intros i r bf n Hr Hpl Hi Htl Hfit Hbf.
  { exists r, bf. simpl. split_and!; [do 3 f_equal; lia|done|]. intros j. by rewrite orb_false_r. }
  specialize (Hfit ltac:(done)). cbn [length] in *.
  assert (Hoff : 0 <= i * pieceLen <= tl) by nia.
  cbn [verify_loop].
  rewrite (i64_id (i * pieceLen)) by (unfold in_i64, MinInt64, MaxInt64 in *; lia).
  rewrite (i64_id (tl - i * pieceLen)) by (unfold in_i64, MinInt64, MaxInt64 in *; lia).
  set (l := if tl - i * pieceLen <? pieceLen then tl - i * pieceLen else pieceLen).
  assert (Hl : l = piece_size tl pieceLen i).
  { subst l. unfold piece_size. destruct (Z.ltb_spec (tl - i * pieceLen) pieceLen); lia. }
  clearbody l. subst l. assert (0 <= piece_size tl pieceLen i) by (unfold piece_size; lia).
  rewrite (proj2 (Z.ltb_ge _ _)) by lia.
  pose proof (reads_stream r (piece_size tl pieceLen i) (i * pieceLen) Hr) as Hread.
  destruct (readAt r _ _) as [r1 [block err]].
  destruct Hread as (Hr1 & Hblock & Herr); [lia|lia|].
  assert (Hok : (match err with Some _ => false | None => len block =? piece_size tl pieceLen i end
                 && bool_decide (sha1 block = h)) = piece_valid tl pieceLen i h).
  { unfold piece_valid. rewrite <- Hblock.
    destruct (Z.eqb_spec (len block) (piece_size tl pieceLen i)) as [E|E].
    - by rewrite (Herr E).
    - by destruct err. }
  rewrite Hok. cbn [count_valid].
  set (bf1 := if piece_valid tl pieceLen i h then (SetPiece bf i).2 else bf).
  assert (Hlen1 : length bf1 = length bf) by (subst bf1; destruct (piece_valid _ _ _ _);
    [apply SetPiece_length|done]).
  destruct (IH (i + 1) r1 bf1 (n + if piece_valid tl pieceLen i h then 1 else 0))
    as (r' & bf' & Hrun & Hlen & Hbits); [done|lia|lia|done|intros _; nia|lia|].
  exists r', bf'. split_and!; [|lia|].
  - subst bf1. destruct (piece_valid tl pieceLen i h); rewrite ?Z.add_0_r in Hrun; rewrite Hrun;
      do 3 f_equal; lia.
  - intros j. rewrite Hbits. clear Hrun Hbits IH.
    assert (H1 : HasPiece bf1 j = HasPiece bf j || (piece_valid tl pieceLen i h && (j =? i))).
    { subst bf1. destruct (piece_valid tl pieceLen i h); simpl; [|by rewrite orb_false_r].
      rewrite HasPiece_SetPiece, (proj2 (SetPiece_flag bf i)) by lia. done. }
    rewrite H1. clear H1. destruct (Z.eqb_spec j i) as [Hji|Hji]; [subst j|].
    + rewrite Z.sub_diag, Z.leb_refl. simpl. rewrite andb_true_r.
      replace (i <=? i - 1) with false by lia.
      destruct (hashes !! _); rewrite ?(proj2 (Z.leb_gt (i + 1) i)) by lia; by rewrite orb_false_r.
    + rewrite andb_false_r, orb_false_r. f_equal.
      destruct (Z.leb_spec i j).
      * replace (Z.to_nat (j - i)) with (S (Z.to_nat (j - (i + 1)))) by lia. simpl.
        by rewrite (proj2 (Z.leb_le (i + 1) j)) by lia.
      * rewrite (proj2 (Z.leb_gt (i + 1) j)) by lia. simpl. repeat case_match; done.
Qed.

(** C20: when the piece hashes cover the torrent's data, verification of any reader
    of the byte stream terminates without a panic; the bitfield has one bit per
    piece, set exactly for the pieces that are completely present with the
    expected hash, and the count is the number of those pieces. *)
Theorem VerifyPieces_exact (tf : TorrentFile) (r : R) :
  let hashes := PieceHashes (t_Info tf) in
  let pl := PieceLength (t_Info tf) in
  inv r -> 0 < pl -> TotalSize tf <= MaxInt64 ->
  (hashes <> [] -> (len hashes - 1) * pl <= TotalSize tf) ->
  exists r' bf, verify_with sha1 tf r =
      Some (r', (bf, count_valid (TotalSize tf) pl 0 hashes)) /\
    length bf = length (new_bitfield (len hashes)) /\
    forall i, HasPiece bf i = true <->
      exists h, 0 <= i /\ hashes !! Z.to_nat i = Some h /\ piece_valid (TotalSize tf) pl i h = true.
Proof.
  intros hashes pl Hr Hpl Htl Hfit. unfold verify_with.
  destruct (verify_loop_spec (TotalSize tf) pl 0 hashes r (new_bitfield (len hashes)) 0)
    as (r' & bf & Hrun & Hlen & Hbits); [done..|pose proof (length_new_bitfield (len hashes)); lia|].
  exists r', bf. split_and!; [exact Hrun|done|]. intros i. rewrite Hbits, HasPiece_new, Z.sub_0_r. simpl.
  destruct (hashes !! Z.to_nat i) as [h|]; [|naive_solver].
  rewrite andb_true_iff, Z.leb_le. naive_solver.
Qed.

End Verification.

(** *** Concrete torrents *)

Definition demo_files : TorrentFile :=
  mkTorrentFile [] [] (mkInfo (lit "t") 4 [lit "abcd"; lit "e"] 0
    [mkFile 2 [lit "a"]; mkFile 3 [lit "sub"; lit ".."; lit "b"]] false None) [] [] 0 [].

Definition demo_mw : MultiFileWriter :=
  mkWriter (lit "dir/t") [mkEntry (lit "dir/t/a") 0 2; mkEntry (lit "dir/t/b") 2 3] 5 ∅ false.
Definition demo_fs : fs := {[ lit "dir/t/a" := lit "xx"; lit "dir/t/b" := lit "yyy" ]}.
Definition anyp (p : bytes) : bool := true.

Lemma demo_new : NewMultiFileWriter anyp (lit "dir/t") demo_files = Ok demo_mw.
Proof. vm_compute. reflexivity. Qed.

Lemma demo_layout : layout (files demo_mw) 0.
Proof. simpl. lia. Qed.

Lemma demo_paths : NoDup (path <$> files demo_mw).
Proof.
  apply (bool_decide_unpack (NoDup (path <$> files demo_mw))). vm_compute. exact I.
Qed.

Lemma demo_usable : usable anyp anyp (files demo_mw).
Proof. by repeat constructor. Qed.

Lemma demo_stored : stored demo_mw demo_fs.
Proof.
  constructor; try done; [apply demo_paths|].
  repeat (apply Forall_cons; split); [by eexists..|by apply Forall_nil].
Qed.

Lemma WriteAt_refines_witness :
  let '((F', mw'), (n, err)) := WriteAt anyp anyp demo_mw demo_fs (lit "1234") 1 in
  err = None /\ n = 4 /\ flat F' (files mw') = lit "x1234" /\
  (forall p, p ∉ (path <$> files demo_mw) -> F' !! p = demo_fs !! p) /\ stored mw' F' /\
  files mw' = files demo_mw.
Proof.
  apply (WriteAt_refines anyp anyp demo_mw demo_fs (lit "1234") 1 demo_stored demo_usable).
  unfold MaxInt64. lia.
Defined.

Lemma ReadAt_refines_witness :
  let '((F', mw'), (data, err)) := ReadAt anyp demo_mw demo_fs 3 1 in
  err = None /\ data = lit "xyy" /\ F' = demo_fs /\ stored mw' F' /\ files mw' = files demo_mw.
Proof.
  apply (ReadAt_refines anyp anyp demo_mw demo_fs 3 1 demo_stored demo_usable);
    unfold MaxInt64; lia.
Defined.

Lemma PreallocateFiles_stored_witness :
  let '((F', mw'), err) := PreallocateFiles anyp anyp demo_mw ∅ in
  err = None /\ stored mw' F' /\ files mw' = files demo_mw /\
  (forall fe, fe ∈ files demo_mw ->
     F' !! path fe = Some (file_truncate (contents ∅ (path fe)) (Z.to_nat (length_ fe)))) /\
  (forall p, p ∉ (path <$> files demo_mw) -> F' !! p = (∅ : fs) !! p).
Proof.
  apply (PreallocateFiles_stored anyp anyp demo_mw ∅ demo_layout); try done;
    [apply demo_paths|apply demo_usable].
Defined.

Lemma NewMultiFileWriter_confined_witness :
  layout (files demo_mw) 0 /\ total demo_mw = span (files demo_mw) /\
  length_ <$> files demo_mw = f_Length <$> Files (t_Info demo_files) /\
  forall fe, fe ∈ files demo_mw ->
    exists R, R <> [] /\ path fe = render (rooted (lit "dir/t")) (clean_elems (lit "dir/t") ++ R) /\
      (rooted (lit "dir/t") = true \/
       last (clean_elems (lit "dir/t")) <> Some dotdot /\ clean_elems (lit "dir/t") <> [] ->
       Forall (fun e => elem_ok e /\ e <> dotdot) R).
Proof.
  apply (NewMultiFileWriter_confined anyp (lit "dir/t") demo_files demo_mw demo_new); [done| |].
  - repeat constructor; simpl; lia.
  - simpl. unfold MaxInt64. lia.
Defined.

Definition demo_single : TorrentFile :=
  mkTorrentFile [] [] (mkInfo (lit "t") 4 [lit "abcd"; lit "e"] 5 [] false None) [] [] 0 [].

Lemma VerifyPieces_exact_witness :
  exists r' bf, verify_with id demo_single (lit "abcdf") = Some (r', (bf, 1)) /\
    length bf = length (new_bitfield 2) /\
    forall i, HasPiece bf i = true <->
      exists h, 0 <= i /\ [lit "abcd"; lit "e"] !! Z.to_nat i = Some h /\
        piece_valid id (lit "abcdf") 5 4 i h = true.
Proof.
  apply (VerifyPieces_exact id (fun r => r = lit "abcdf") (lit "abcdf") demo_single (lit "abcdf"));
    simpl; unfold MaxInt64; try done; lia.
Defined.

(** *** Where the code differs from its intent *)

(** A base directory that cleans to [.] or [/] makes every file a "path
    traversal". *)
Lemma Base_dot_rejects_everything :
  NewMultiFileWriter anyp (lit ".") demo_files = Err PathTraversal /\
  NewMultiFileWriter anyp (lit "/") demo_files = Err PathTraversal.
Proof. split; vm_compute; reflexivity. Qed.

(** A base directory that is itself [..] lets a file out of it. *)
Lemma Base_dotdot_escapes :
  resolve anyp (lit "..") (mkFile 1 [lit ".."; lit "x"]) = Ok (lit "../../x").
Proof. vm_compute. reflexivity. Qed.

(** More piece hashes than data: the slice bound becomes negative. *)
Lemma VerifyPieces_panics :
  verify_with id
    (mkTorrentFile [] [] (mkInfo (lit "t") 1 [lit "a"; lit "b"; lit "c"] 1 [] false None) [] [] 0 [])
    (lit "a") = None.
Proof. vm_compute. reflexivity. Qed.

(** A file shorter than its entry: the read goes on with the start of the next
    file and reports a full read of shifted data. *)
Lemma ReadAt_short_file_shifts :
  (ReadAt anyp demo_mw {[ lit "dir/t/a" := lit "x"; lit "dir/t/b" := lit "yyy" ]} 4 0).2
  = (lit "xyyy", None).
Proof. vm_compute. reflexivity. Qed.

(** ** Writing disjoint ranges *)

Lemma splice_keeps_range (f src : bytes) (a n b : nat) : (b + length src <= length f)%nat ->
  (a + n <= b \/ b + length src <= a)%nat -> take n (drop a (splice f b src)) = take n (drop a f).
Proof.
  intros Hb Hd. unfold splice. destruct Hd as [Hd|Hd].
  - rewrite drop_app_le by (rewrite length_take; lia). rewrite take_app_le by (rewrite length_drop, length_take; lia).
    rewrite skipn_firstn_comm, take_take. f_equal. lia.
  - rewrite drop_app_ge by (rewrite length_take; lia). rewrite drop_app_ge by (rewrite length_take; lia).
    rewrite length_take, drop_drop. do 2 f_equal. lia.
Qed.
