(* ===== verification/Dht.v ===== *)
(** * [dht]: identifiers, routing table, KRPC messages and persistence
    ([dht/id.go], [dht/table.go], [dht/krpc.go], [dht/persist.go])

    An [ID] is 20 bytes.  The routing table is its 160 buckets; each method of
    the table locks one bucket at a time and is one step here.  The current time
    is an argument. *)

From S2P Require Import Prelude Strconv Net Bencode BencodeFacts.
Set Warnings "-clear-no-such-hyp".
Local Open Scope Z_scope.

(** ** Identifiers *)

Abbreviation ID := bytes.
Definition id_ok (id : ID) : Prop := length id = 20%nat.

Definition xor_byte (a b : byte) : byte := byte_of_Z (Z.lxor (u8 a) (u8 b)).

Definition Distance (a b : ID) : ID := zip_with xor_byte a b.

(** [bits.LeadingZeros8] *)
Definition LeadingZeros8 (b : byte) : Z := if u8 b =? 0 then 8 else 7 - Z.log2 (u8 b).

(** The loop of [ZeroPrefixLen], from byte [i] on. *)
Fixpoint zero_prefix (id : ID) (i : Z) : Z :=
  match id with
  | [] => 160
  | b :: id => if u8 b =? 0 then zero_prefix id (i + 1) else i * 8 + LeadingZeros8 b
  end.
Definition ZeroPrefixLen (id : ID) : Z := zero_prefix id 0.

Fixpoint Less (a b : ID) : bool :=
  match a, b with
  | x :: a, y :: b => if negb (u8 x =? u8 y) then u8 x <? u8 y else Less a b
  | _, _ => false
  end.

Definition IDFromBytes (b : bytes) : ID := take 20 (b ++ replicate 20 x00).

(** ** Compact node info *)

Record UDPAddr := mkUDPAddr { a_IP : IP; a_Port : Z }.
Record CompactNodeInfo := mkNodeInfo { ni_ID : ID; ni_Addr : UDPAddr }.

(** One 26-byte record: the ID, then address and port unless the address is not
    IPv4 (the rest of the record is then zero). *)
Definition marshal_node (n : CompactNodeInfo) : bytes :=
  match To4 (a_IP (ni_Addr n)) with
  | Some ip => ni_ID n ++ ip ++ be_put 2 (a_Port (ni_Addr n))
  | None => ni_ID n ++ replicate 6 x00
  end.

Definition MarshalCompactNodeInfo (nodes : list CompactNodeInfo) : bytes :=
  concat (marshal_node <$> nodes).

Definition marshal_node6 (n : CompactNodeInfo) : bytes :=
  let ip := a_IP (ni_Addr n) in
  let addr := match To16 ip, To4 ip with Some ip16, None => ip16 | _, _ => replicate 16 x00 end in
  ni_ID n ++ addr ++ be_put 2 (a_Port (ni_Addr n)).

Definition MarshalCompactNodeInfo6 (nodes : list CompactNodeInfo) : bytes :=
  concat (marshal_node6 <$> nodes).

(** A record whose address has [w] bytes. *)
Definition unmarshal_node (w : nat) (r : bytes) : CompactNodeInfo :=
  mkNodeInfo (take 20 r) (mkUDPAddr (take w (drop 20 r)) (be_get (drop (20 + w) r))).

Inductive dht_error := NotMultiple | KRPCDecode (e : decode_error) | KRPCNotDict | ReadFailed.

Definition UnmarshalCompactNodeInfo (data : bytes) : result dht_error (list CompactNodeInfo) :=
  if negb (len data mod 26 =? 0) then Err NotMultiple
  else Ok (unmarshal_node 4 <$> chunks 26 (Z.to_nat (len data / 26)) data).

Definition UnmarshalCompactNodeInfo6 (data : bytes) : result dht_error (list CompactNodeInfo) :=
  if negb (len data mod 38 =? 0) then Err NotMultiple
  else Ok (unmarshal_node 16 <$> chunks 38 (Z.to_nat (len data / 38)) data).

(** ** Routing table *)

Definition K : Z := 8.
Definition NumBuckets : Z := 160.

Record Node := mkNode { n_ID : ID; n_Addr : UDPAddr; LastSeen : Z }.

Record RoutingTable := mkTable { self : ID; tbuckets : list (list Node) }.

Definition NewRoutingTable (self : ID) : RoutingTable :=
  mkTable self (replicate (Z.to_nat NumBuckets) []).

Definition bucketIndex (rt : RoutingTable) (id : ID) : Z :=
  let idx := ZeroPrefixLen (Distance (self rt) id) in
  if NumBuckets <=? idx then NumBuckets - 1 else idx.

(** The body of [Update] under the bucket's lock. *)
Definition update_bucket (now : Z) (n : Node) (nodes : list Node) : list Node :=
  match list_find (fun existing => n_ID existing = n_ID n) nodes with
  | Some (i, existing) => delete i nodes ++ [mkNode (n_ID existing) (n_Addr n) now]
  | None => if len nodes <? K then nodes ++ [mkNode (n_ID n) (n_Addr n) now] else nodes
  end.

Definition Update (now : Z) (n : Node) (rt : RoutingTable) : RoutingTable :=
  if bool_decide (n_ID n = self rt) then rt
  else mkTable (self rt)
         (alter (update_bucket now n) (Z.to_nat (bucketIndex rt (n_ID n))) (tbuckets rt)).

Definition AllNodes (rt : RoutingTable) : list Node := concat (tbuckets rt).
Definition Len (rt : RoutingTable) : Z := len (AllNodes rt).

(** The inner loop of [sortByDistance] runs down from the end of the sorted
    prefix, which is kept in reverse. *)
Fixpoint shift_down (target : ID) (key : Node) (rprefix : list Node) : list Node :=
  match rprefix with
  | n :: rprefix' =>
      if Less (Distance (n_ID key) target) (Distance (n_ID n) target)
      then n :: shift_down target key rprefix' else key :: rprefix
  | [] => [key]
  end.

Definition sortByDistance (nodes : list Node) (target : ID) : list Node :=
  rev (foldl (fun rprefix key => shift_down target key rprefix) [] nodes).

Definition Closest (rt : RoutingTable) (target : ID) (k : nat) : list Node :=
  take k (sortByDistance (AllNodes rt) target).

(** ** KRPC messages *)

Record KRPCMessage := mkKRPC {
  T : bytes; Y : bytes; Q : bytes;
  A : option (gmap bytes any); R : option (gmap bytes any); E : option (list any)
}.

(** A nil map or slice has a dynamic type of its own and is encoded as empty. *)
Definition krpc_dict (msg : KRPCMessage) : gmap bytes any :=
  let d : gmap bytes any := {[ lit "t" := AStr (T msg); lit "y" := AStr (Y msg) ]} in
  if bool_decide (Y msg = lit "q") then
    <[lit "a" := AMap (default ∅ (A msg))]> (<[lit "q" := AStr (Q msg)]> d)
  else if bool_decide (Y msg = lit "r") then <[lit "r" := AMap (default ∅ (R msg))]> d
  else if bool_decide (Y msg = lit "e") then <[lit "e" := AList (default [] (E msg))]> d
  else d.

Definition EncodeKRPC (msg : KRPCMessage) : result encode_error bytes :=
  Encode (AMap (krpc_dict msg)).

Definition DecodeKRPC (data : bytes) : result dht_error KRPCMessage :=
  decoded ← map_err KRPCDecode (Decode data);
  d ← or_err (as_map (Some decoded)) KRPCNotDict;
  Ok (mkKRPC (default [] (as_str (d !! lit "t"))) (default [] (as_str (d !! lit "y")))
        (default [] (as_str (d !! lit "q"))) (as_map (d !! lit "a")) (as_map (d !! lit "r"))
        (as_list (d !! lit "e"))).

(** The queries, given the transaction ID [NewTxnID] draws. *)
Definition query (t q : bytes) (a : gmap bytes any) : KRPCMessage :=
  mkKRPC t (lit "q") q (Some a) None None.

Definition NewPingQuery (t : bytes) (id : ID) : KRPCMessage :=
  query t (lit "ping") {[ lit "id" := AStr id ]}.

Definition bep32Want : any := AList [AStr (lit "n4"); AStr (lit "n6")].

Definition NewFindNodeQuery (t : bytes) (id target : ID) : KRPCMessage :=
  query t (lit "find_node")
    {[ lit "id" := AStr id; lit "target" := AStr target; lit "want" := bep32Want ]}.

Definition NewGetPeersQuery (t : bytes) (id infoHash : ID) : KRPCMessage :=
  query t (lit "get_peers")
    {[ lit "id" := AStr id; lit "info_hash" := AStr infoHash; lit "want" := bep32Want ]}.

Definition NewAnnouncePeerQuery (t : bytes) (id infoHash : ID) (port : Z) (token : bytes)
    (impliedPort : bool) : KRPCMessage :=
  query t (lit "announce_peer")
    {[ lit "id" := AStr id; lit "info_hash" := AStr infoHash; lit "port" := AInt64 port;
       lit "token" := AStr token; lit "implied_port" := AInt64 (if impliedPort then 1 else 0) ]}.

Definition NewResponse (txnID : bytes) (values : gmap bytes any) : KRPCMessage :=
  mkKRPC txnID (lit "r") [] None (Some values) None.

Definition ParseCompactPeers (values : list any) : list bytes :=
  omap (fun v =>
    match v with
    | AStr s =>
        if len s =? 6 then Some (ipv4_string (take 4 s) ++ lit ":" ++ itoa (be_get (drop 4 s)))
        else if len s =? 18 then
          Some (lit "[" ++ ip_String (take 16 s) ++ lit "]:" ++ itoa (be_get (drop 16 s)))
        else None
    | _ => None
    end) values.

(** ** Persistence *)

(** The file's new contents, if it is written. *)
Definition SaveNodes (rt : RoutingTable) : option bytes :=
  match AllNodes rt with
  | [] => None
  | nodes => Some (MarshalCompactNodeInfo ((fun n => mkNodeInfo (n_ID n) (n_Addr n)) <$> nodes))
  end.

(** [LoadNodes] given what reading the file returned ([None]: no such file). *)
Definition LoadNodes (now : Z) (file : option bytes) (rt : RoutingTable)
    : result dht_error (RoutingTable * Z) :=
  match file with
  | None | Some [] => Ok (rt, 0)
  | Some data =>
      nodes ← UnmarshalCompactNodeInfo data;
      Ok (foldl (fun rt ni => Update now (mkNode (ni_ID ni) (ni_Addr ni) 0) rt) rt nodes, len nodes)
  end.
