(* ===== verification/DhtTheorems.v ===== *)
(** * Properties of the DHT data structures *)

From S2P Require Import Prelude Strconv Net Bencode BencodeFacts Dht.
Set Warnings "-clear-no-such-hyp".
Local Open Scope Z_scope.

(** ** The XOR metric *)

Lemma Less_spec a b : length a = length b -> Less a b = (be_get a <? be_get b).
Proof.
  revert b. induction a as [|x a IH]; intros [|y b] Hl; try done.
  cbn [Less be_get]. injection Hl as Hl. rewrite (IH b Hl).
  pose proof (be_get_range a). pose proof (be_get_range b). rewrite <- Hl in *.
  set (p := 256 ^ len a) in *. clearbody p.
  destruct (Z.eqb_spec (u8 x) (u8 y)) as [->|Hne]; cbn [negb].
  - destruct (Z.ltb_spec (be_get a) (be_get b)); symmetry;
      [apply Z.ltb_lt|apply Z.ltb_ge]; lia.
  - destruct (Z.ltb_spec (u8 x) (u8 y)); symmetry; [apply Z.ltb_lt|apply Z.ltb_ge]; nia.
Qed.

Lemma length_Distance a b : id_ok a -> id_ok b -> id_ok (Distance a b).
Proof. unfold id_ok, Distance. intros Ha Hb. rewrite length_zip_with. lia. Qed.

Lemma Distance_zero a b : length a = length b -> be_get (Distance a b) = 0 -> a = b.
Proof.
  revert b. induction a as [|x a IH]; intros [|y b] Hl; try done.
  injection Hl as Hl. unfold Distance. cbn [zip_with be_get]. intros H0.
  pose proof (be_get_range (zip_with xor_byte a b)) as Hr. set (p := 256 ^ _) in *.
  pose proof (u8_range (xor_byte x y)) as Hx.
  assert (Hx0 : u8 (xor_byte x y) = 0) by nia. assert (Hr0 : be_get (zip_with xor_byte a b) = 0) by nia.
  f_equal; [|by apply IH]. unfold xor_byte in Hx0. rewrite u8_byte_of_Z in Hx0.
  pose proof (u8_range x). pose proof (u8_range y).
  assert (Hxor : 0 <= Z.lxor (u8 x) (u8 y) < 2 ^ 8).
  { split; [apply Z.lxor_nonneg; lia|].
    destruct (decide (Z.lxor (u8 x) (u8 y) = 0)) as [->|]; [lia|].
    apply Z.log2_lt_pow2; [pose proof (proj2 (Z.lxor_nonneg (u8 x) (u8 y))); lia|].
    eapply Z.le_lt_trans; [apply Z.log2_lxor; lia|].
    destruct (decide (u8 x = 0)) as [->|]; destruct (decide (u8 y = 0)) as [->|];
      apply Z.max_lub_lt; try (apply Z.log2_lt_pow2; lia); done. }
  rewrite Z.mod_small in Hx0 by lia. apply Z.lxor_eq in Hx0. by apply u8_inj.
Qed.

(** ** Sorting by distance *)

Section Sorting.
Context (target : ID).

Definition dist (n : Node) : Z := be_get (Distance (n_ID n) target).

(** Descending, as the sorted prefix is kept in reverse. *)
Definition farther (m n : Node) : Prop := dist n <= dist m.

Lemma shift_down_perm key l : shift_down target key l ≡ₚ key :: l.
Proof.
  induction l as [|n l IH]; [done|]. cbn [shift_down]. destruct (Less _ _); [|done].
  rewrite IH. apply Permutation_swap.
Qed.

Lemma shift_down_sorted key l :
  id_ok target -> id_ok (n_ID key) -> Forall (fun n => id_ok (n_ID n)) l ->
  StronglySorted farther l -> StronglySorted farther (shift_down target key l).
Proof.
  intros Ht Hk Hl Hs. induction Hs as [|n l Hs IH Hn]; cbn [shift_down].
  { repeat constructor. }
  apply Forall_cons in Hl as [Hn0 Hl].
  rewrite Less_spec by (by rewrite !length_Distance).
  fold (dist key) (dist n). destruct (Z.ltb_spec (dist key) (dist n)).
  - constructor; [by apply IH|]. rewrite shift_down_perm. constructor; [|done].
    unfold farther. lia.
  - constructor; [by constructor|]. constructor; [done|].
    eapply Forall_impl; [exact Hn|]. unfold farther. intros m. lia.
Qed.

Lemma sort_invariant nodes acc :
  id_ok target -> Forall (fun n => id_ok (n_ID n)) nodes -> Forall (fun n => id_ok (n_ID n)) acc ->
  StronglySorted farther acc ->
  let out := foldl (fun l key => shift_down target key l) acc nodes in
  (out ≡ₚ nodes ++ acc) /\ StronglySorted farther out.
Proof.
  intros Ht Hn. revert acc. induction Hn as [|n nodes Hn Hns IH]; intros acc Ha Hs; [done|].
  cbn [foldl]. destruct (IH (shift_down target n acc)) as [Hp Hs'].
  - rewrite shift_down_perm. by constructor.
  - by apply shift_down_sorted.
  - split; [|done]. rewrite Hp, shift_down_perm. cbn [app]. by rewrite Permutation_middle.
Qed.

Lemma sortByDistance_spec nodes :
  id_ok target -> Forall (fun n => id_ok (n_ID n)) nodes ->
  (sortByDistance nodes target ≡ₚ nodes) /\
  StronglySorted (fun m n => dist m <= dist n) (sortByDistance nodes target).
Proof.
  intros Ht Hn. destruct (sort_invariant nodes [] Ht Hn) as [Hp Hs]; [constructor..|].
  unfold sortByDistance. rewrite app_nil_r in Hp.
  set (out := foldl _ _ _) in *. split.
  - change (rev out) with (List.rev out). rewrite <- Permutation_rev. done.
  - clearbody out. clear Hp. induction Hs as [|m out Hs IH Hm]; [constructor|].
    cbn [rev]. apply StronglySorted_app_2; [|done|repeat constructor].
    intros a b Ha Hb. apply list_elem_of_singleton in Hb as ->.
    apply list_elem_of_In, in_rev, list_elem_of_In in Ha.
    by apply (proj1 (Forall_forall _ _) Hm a Ha).
Qed.
End Sorting.

(** ** The routing table *)

Lemma zero_prefix_range id i : 0 <= i -> i + len id = 20 -> i * 8 <= zero_prefix id i <= 160.
Proof.
  revert i. induction id as [|b id IH]; intros i Hi Hl; cbn [zero_prefix length] in *; [lia|].
  destruct (Z.eqb_spec (u8 b) 0).
  - specialize (IH (i + 1)). lia.
  - unfold LeadingZeros8. rewrite (proj2 (Z.eqb_neq _ _)) by done.
    pose proof (u8_range b). pose proof (Z.log2_nonneg (u8 b)).
    assert (Z.log2 (u8 b) < 8) by (apply Z.log2_lt_pow2; lia). lia.
Qed.

Lemma bucketIndex_range rt id :
  id_ok (self rt) -> id_ok id -> 0 <= bucketIndex rt id < NumBuckets.
Proof.
  intros Hs Hi. unfold bucketIndex, ZeroPrefixLen, NumBuckets.
  pose proof (zero_prefix_range (Distance (self rt) id) 0) as H.
  rewrite length_Distance in H by done. specialize (H ltac:(lia) ltac:(lia)).
  destruct (Z.leb_spec 160 (zero_prefix (Distance (self rt) id) 0)); lia.
Qed.

(** Bucket [i] holds at most [K] nodes, all different, all with IDs of that
    bucket, never the table's own ID. *)
Definition bucket_ok (rt : RoutingTable) (i : nat) (b : list Node) : Prop :=
  len b <= K /\ NoDup (n_ID <$> b) /\
  Forall (fun n => id_ok (n_ID n) /\ n_ID n <> self rt /\ bucketIndex rt (n_ID n) = Z.of_nat i) b.

Record RTInv (rt : RoutingTable) : Prop := {
  rt_self : id_ok (self rt);
  rt_len : length (tbuckets rt) = Z.to_nat NumBuckets;
  rt_bucket i b : tbuckets rt !! i = Some b -> bucket_ok rt i b
}.

Lemma rtinv_New self : id_ok self -> RTInv (NewRoutingTable self).
Proof.
  intros H. constructor; [done|apply length_replicate|].
  intros i b [-> _]%lookup_replicate. split_and!; [done|constructor..].
Qed.

Lemma update_bucket_ok rt i now n b :
  id_ok (n_ID n) -> n_ID n <> self rt -> bucketIndex rt (n_ID n) = Z.of_nat i ->
  bucket_ok rt i b -> bucket_ok rt i (update_bucket now n b).
Proof.
  intros Hid Hne Hi (Hk & Hnd & Hall). unfold update_bucket.
  destruct (list_find _ b) as [[j ex]|] eqn:Ef.
  - apply list_find_Some in Ef as (Hj & He & _).
    pose proof (delete_Permutation b j ex Hj) as Hp.
    rewrite Hp in Hnd. cbn [fmap list_fmap] in Hnd. apply NoDup_cons in Hnd as [Hni Hnd].
    assert (Hall' := Hall). rewrite Hp in Hall'. apply Forall_cons in Hall' as [Hex Hall'].
    split_and!.
    + rewrite length_app. apply Permutation_length in Hp. simpl in *. lia.
    + rewrite fmap_app. apply NoDup_app. split_and!; [done| |apply NoDup_singleton].
      simpl. intros x Hx ->%list_elem_of_singleton. done.
    + apply Forall_app. split; [done|]. apply Forall_singleton. done.
  - apply list_find_None in Ef. destruct (Z.ltb_spec (len b) K); [|by split_and!].
    split_and!.
    + rewrite length_app. simpl. lia.
    + rewrite fmap_app. apply NoDup_app. split_and!; [done| |apply NoDup_singleton].
      simpl. intros x Hx ->%list_elem_of_singleton. apply list_elem_of_fmap in Hx as (m & Hm & Hin).
      by apply (proj1 (Forall_forall _ _) Ef m Hin).
    + apply Forall_app. split; [done|]. apply Forall_singleton. done.
Qed.

Lemma rtinv_Update now n rt : id_ok (n_ID n) -> RTInv rt -> RTInv (Update now n rt).
Proof.
  intros Hid H. unfold Update. case_bool_decide as Hs; [done|].
  constructor; simpl; [apply H|rewrite length_alter; apply H|].
  intros i b Hb. rewrite list_lookup_alter in Hb. case_decide as Hi;
    [|exact (rt_bucket _ H i b Hb)].
  apply fmap_Some in Hb as (b0 & Hb0 & ->). rewrite Hi in Hb0.
  apply (update_bucket_ok rt); [done..| |exact (rt_bucket _ H _ _ Hb0)].
  pose proof (bucketIndex_range rt (n_ID n) (rt_self _ H) Hid). lia.
Qed.

(** A sequence of updates, each at its own time. *)
Definition updates (ups : list (Z * Node)) (rt : RoutingTable) : RoutingTable :=
  foldl (fun rt '(now, n) => Update now n rt) rt ups.

Lemma rtinv_updates ups rt :
  Forall (fun '(_, n) => id_ok (n_ID n)) ups -> RTInv rt -> RTInv (updates ups rt).
Proof.
  intros Hu. revert rt. induction Hu as [|[now n] ups Hn _ IH]; intros rt H; [done|].
  apply IH. by apply rtinv_Update.
Qed.

Lemma self_updates ups rt : self (updates ups rt) = self rt.
Proof.
  revert rt. induction ups as [|[now n] ups IH]; intros rt; [done|].
  change (self (updates ups (Update now n rt)) = self rt). rewrite IH.
  unfold Update. by case_bool_decide.
Qed.

(** Nodes of different buckets have different IDs. *)
Lemma concat_buckets rt k bs :
  (forall i b, bs !! i = Some b -> bucket_ok rt (k + i) b) ->
  NoDup (n_ID <$> concat bs) /\ Forall (fun n => Z.of_nat k <= bucketIndex rt (n_ID n)) (concat bs) /\
  forall j, filter (fun n => bucketIndex rt (n_ID n) = Z.of_nat (k + j)) (concat bs) = default [] (bs !! j).
Proof.
  revert k. induction bs as [|b bs IH]; intros k Hb.
  { split_and!; [constructor..|done]. }
  destruct (IH (S k)) as (Hnd & Hge & Hf).
  { intros i b' Hi. rewrite Nat.add_succ_comm. apply Hb. done. }
  destruct (Hb 0%nat b eq_refl) as (_ & Hnd0 & Hall). rewrite Nat.add_0_r in Hall.
  assert (Hidx : Forall (fun n => bucketIndex rt (n_ID n) = Z.of_nat k) b).
  { eapply Forall_impl; [exact Hall|]. naive_solver. }
  cbn [concat]. split_and!.
  - rewrite fmap_app. apply NoDup_app. split_and!; [done| |done].
    intros x (m & -> & Hm)%list_elem_of_fmap (m' & Heq & Hm')%list_elem_of_fmap.
    pose proof (proj1 (Forall_forall _ _) Hidx m Hm) as H1.
    pose proof (proj1 (Forall_forall _ _) Hge m' Hm') as H2. simpl in H1, H2.
    rewrite Heq in H1. lia.
  - apply Forall_app. split; eapply Forall_impl; [exact Hidx| |exact Hge|]; simpl; lia.
  - intros j. rewrite filter_app. destruct j as [|j].
    + rewrite (filter_all _ b), (filter_none _ (concat bs)), app_nil_r; [done|..];
        rewrite Nat.add_0_r; intros n Hn.
      * pose proof (proj1 (Forall_forall _ _) Hge n Hn). simpl in *. lia.
      * by apply (proj1 (Forall_forall _ _) Hidx n Hn).
    + rewrite (filter_none _ b).
      * specialize (Hf j). rewrite Nat.add_succ_comm in Hf. exact Hf.
      * intros n Hn. pose proof (proj1 (Forall_forall _ _) Hidx n Hn). simpl in *. lia.
Qed.

Lemma rt_all rt :
  RTInv rt ->
  NoDup (n_ID <$> AllNodes rt) /\
  (forall n, n ∈ AllNodes rt -> id_ok (n_ID n) /\ n_ID n <> self rt) /\
  (forall j, filter (fun n => bucketIndex rt (n_ID n) = Z.of_nat j) (AllNodes rt) =
             default [] (tbuckets rt !! j)).
Proof.
  intros H. destruct (concat_buckets rt 0 (tbuckets rt)) as (Hnd & _ & Hf).
  { intros i b Hb. by apply H. }
  split_and!; [done| |done]. intros n Hn. unfold AllNodes in Hn.
  apply list_elem_of_In, in_concat in Hn as (b & Hb & Hn).
  apply list_elem_of_In, list_elem_of_lookup in Hb as [i Hi].
  destruct (rt_bucket _ H i b Hi) as (_ & _ & Hall).
  destruct (proj1 (Forall_forall _ _) Hall n) as (? & ? & _); [by apply list_elem_of_In|done].
Qed.

(** After any sequence of updates every bucket holds at most K nodes, each in
    the bucket of its distance to the table's own ID; no ID occurs twice in the
    table and the table's own ID never occurs. *)
Lemma RoutingTable_invariant (own : ID) (ups : list (Z * Node)) :
  id_ok own -> Forall (fun '(_, n) => id_ok (n_ID n)) ups ->
  let rt := updates ups (NewRoutingTable own) in
  RTInv rt /\ NoDup (n_ID <$> AllNodes rt) /\ (own ∉ (n_ID <$> AllNodes rt)) /\
  Len rt <= K * NumBuckets.
Proof.
  intros Hown Hups rt. assert (H : RTInv rt) by (apply rtinv_updates, rtinv_New; done).
  destruct (rt_all rt H) as (Hnd & Hall & _).
  assert (Hself : self rt = own) by apply self_updates.
  split_and!; [done|done| |].
  - intros (n & Hn & Hin)%list_elem_of_fmap. destruct (Hall n Hin) as [_ Hne]. congruence.
  - unfold Len, AllNodes. destruct H as [_ Hlen Hb]. revert Hlen Hb. generalize (tbuckets rt).
    intros bs Hlen Hb.
    assert (Hsum : len (concat bs) <= K * len bs); [|unfold NumBuckets, K in *; lia].
    assert (Hk : Forall (fun b => len b <= K) bs).
    { apply Forall_forall. intros b [i Hi]%list_elem_of_lookup. apply (Hb i b Hi). }
    clear -Hk. induction Hk; simpl; [lia|]. rewrite length_app. unfold K in *. lia.
Qed.

(** [Closest] returns nodes of the table in order of increasing XOR distance,
    the requested number of them (or all), and no node left out is closer than
    one returned. *)
Lemma Closest_spec (rt : RoutingTable) (target : ID) (k : nat) :
  RTInv rt -> id_ok target ->
  let res := Closest rt target k in
  StronglySorted (fun m n => dist target m <= dist target n) res /\
  length res = Nat.min k (length (AllNodes rt)) /\
  exists rest, (res ++ rest ≡ₚ AllNodes rt) /\
    forall m n, m ∈ res -> n ∈ rest -> dist target m <= dist target n.
Proof.
  intros H Ht res. destruct (rt_all rt H) as (_ & Hall & _).
  destruct (sortByDistance_spec target (AllNodes rt) Ht) as [Hp Hs].
  { apply Forall_forall. intros n Hn. by apply Hall. }
  subst res. unfold Closest. rewrite <- (take_drop k (sortByDistance _ _)) in Hs, Hp.
  split_and!.
  - by eapply StronglySorted_app_1_l.
  - rewrite length_take. apply Permutation_length in Hp. rewrite take_drop in Hp. by rewrite Hp.
  - eexists. split; [exact Hp|]. intros m n. by apply (StronglySorted_app_1_elem_of _ _ _ _ _ Hs).
Qed.

(** ** Compact node info *)

Definition wf_node4 (n : CompactNodeInfo) : Prop :=
  id_ok (ni_ID n) /\ length (a_IP (ni_Addr n)) = 4%nat /\ 0 <= a_Port (ni_Addr n) < 65536.

Lemma unmarshal_marshal n : wf_node4 n -> length (marshal_node n) = 26%nat /\
  unmarshal_node 4 (marshal_node n) = n.
Proof.
  intros (Hid & Hip & Hp). unfold marshal_node. rewrite To4_4 by done.
  split; [rewrite !length_app, length_be_put, Hid, Hip; done|].
  unfold unmarshal_node. unfold id_ok in Hid. rewrite drop_app_length' by done.
  rewrite take_app_length', (take_app_length' (a_IP _)) by done.
  rewrite (assoc_L (++)), (drop_app_length' (ni_ID n ++ _)) by (rewrite length_app; lia).
  rewrite be_get_put, Z.mod_small by lia. by destruct n as [? []].
Qed.

Definition wf_node6 (n : CompactNodeInfo) : Prop :=
  id_ok (ni_ID n) /\ length (a_IP (ni_Addr n)) = 16%nat /\ To4 (a_IP (ni_Addr n)) = None /\
  0 <= a_Port (ni_Addr n) < 65536.

Lemma unmarshal_marshal6 n : wf_node6 n -> length (marshal_node6 n) = 38%nat /\
  unmarshal_node 16 (marshal_node6 n) = n.
Proof.
  intros (Hid & Hip & H4 & Hp). unfold marshal_node6.
  assert (E : To16 (a_IP (ni_Addr n)) = Some (a_IP (ni_Addr n))).
  { unfold To16. rewrite (proj2 (Z.eqb_neq _ 4)), (proj2 (Z.eqb_eq _ 16)) by lia. done. }
  rewrite E, H4. cbv zeta. unfold id_ok in Hid.
  split; [rewrite !length_app, length_be_put, Hid, Hip; done|].
  unfold unmarshal_node. rewrite drop_app_length' by done.
  rewrite take_app_length', (take_app_length' (a_IP _)) by done.
  rewrite (assoc_L (++)), (drop_app_length' (ni_ID n ++ _)) by (rewrite length_app; lia).
  rewrite be_get_put, Z.mod_small by lia. by destruct n as [? []].
Qed.

(** Records of fixed length [k], written one after the other and read back. *)
Lemma records_roundtrip (f : CompactNodeInfo -> bytes) (w k : nat) ns : (0 < k)%nat ->
  Forall (fun n => length (f n) = k /\ unmarshal_node w (f n) = n) ns ->
  let data := concat (f <$> ns) in
  len data mod Z.of_nat k = 0 /\
  unmarshal_node w <$> chunks k (Z.to_nat (len data / Z.of_nat k)) data = ns.
Proof.
  intros Hk H. cbn zeta.
  assert (Hl : Forall (fun r => length r = k) (f <$> ns)).
  { apply Forall_fmap. eapply Forall_impl; [exact H|]. by intros n [? _]. }
  pose proof (concat_length_k _ _ Hl) as Hc. rewrite length_fmap in Hc.
  replace (len (concat (f <$> ns))) with (len ns * Z.of_nat k) by lia.
  rewrite Z.mod_mul, Z.div_mul, Nat2Z.id by lia. split; [done|].
  rewrite <- (length_fmap f ns), chunks_concat by done.
  rewrite <- list_fmap_compose. rewrite <- (list_fmap_id ns) at 2.
  apply list_fmap_ext. intros i n Hi. apply (Forall_lookup_1 _ _ i n H Hi).
Qed.

Lemma marshal_roundtrip ns :
  Forall wf_node4 ns -> UnmarshalCompactNodeInfo (MarshalCompactNodeInfo ns) = Ok ns.
Proof.
  intros H. destruct (records_roundtrip marshal_node 4 26 ns) as [Hm He]; [lia| |].
  { eapply Forall_impl; [exact H|]. apply unmarshal_marshal. }
  unfold UnmarshalCompactNodeInfo, MarshalCompactNodeInfo. change 26 with (Z.of_nat 26). by rewrite Hm, He.
Qed.

Lemma marshal6_roundtrip ns :
  Forall wf_node6 ns -> UnmarshalCompactNodeInfo6 (MarshalCompactNodeInfo6 ns) = Ok ns.
Proof.
  intros H. destruct (records_roundtrip marshal_node6 16 38 ns) as [Hm He]; [lia| |].
  { eapply Forall_impl; [exact H|]. apply unmarshal_marshal6. }
  unfold UnmarshalCompactNodeInfo6, MarshalCompactNodeInfo6. change 38 with (Z.of_nat 38). by rewrite Hm, He.
Qed.

(** ** Saving and loading the table *)

Definition touch (now : Z) (n : Node) : Node := mkNode (n_ID n) (n_Addr n) now.

Definition touch_table (now : Z) (rt : RoutingTable) : RoutingTable :=
  mkTable (self rt) ((fun b : list Node => touch now <$> b) <$> tbuckets rt).

(** The table whose buckets are the nodes of [l], in order. *)
Definition table_of (now : Z) (own : ID) (l : list Node) : RoutingTable :=
  mkTable own ((fun j => touch now <$>
                 filter (fun n => bucketIndex (NewRoutingTable own) (n_ID n) = Z.of_nat j) l)
               <$> seq 0 (Z.to_nat NumBuckets)).

Lemma Update_table_of now own l n :
  id_ok own -> id_ok (n_ID n) -> n_ID n <> own -> n_ID n ∉ (n_ID <$> l) ->
  (forall j, len (filter (fun m => bucketIndex (NewRoutingTable own) (n_ID m) = Z.of_nat j) (l ++ [n])) <= K) ->
  Update now n (table_of now own l) = table_of now own (l ++ [n]).
Proof.
  intros Hown Hid Hne Hnew Hk. unfold Update. rewrite bool_decide_eq_false_2 by done.
  set (bi := bucketIndex (NewRoutingTable own) (n_ID n)).
  assert (Hbi : bucketIndex (table_of now own l) (n_ID n) = bi) by done. rewrite Hbi.
  pose proof (bucketIndex_range (NewRoutingTable own) (n_ID n) Hown Hid) as Hr. fold bi in Hr.
  unfold table_of. cbn [self tbuckets]. f_equal. apply list_eq. intros j.
  rewrite list_lookup_alter, !list_lookup_fmap.
  destruct (decide (j < Z.to_nat NumBuckets)%nat) as [Hj|Hj]; last first.
  { rewrite !(lookup_seq_ge _ _ j) by lia. case_decide; [|done]. subst. lia. }
  rewrite (lookup_seq_lt 0 _ j) by done. cbn [fmap option_fmap option_map].
  specialize (Hk j). rewrite filter_app, length_app in Hk. rewrite filter_app.
  case_decide as Hji.
  - subst j. rewrite (lookup_seq_lt 0 _ (Z.to_nat bi)) by lia. cbn [fmap option_fmap option_map].
    assert (Hone : filter (fun m => bucketIndex (NewRoutingTable own) (n_ID m) =
                                    Z.of_nat (0 + Z.to_nat bi)) [n] = [n]).
    { rewrite filter_cons_True; [done|]. fold bi. lia. }
    rewrite Nat.add_0_l in *. rewrite Hone, fmap_app in *.
    unfold update_bucket. destruct (list_find _ _) as [[i ex]|] eqn:Ef.
    + exfalso. apply list_find_Some in Ef as (Hi & He & _). apply list_elem_of_lookup_2 in Hi.
      apply list_elem_of_fmap in Hi as (m & -> & Hm%list_elem_of_filter). apply Hnew.
      rewrite <- He. simpl. by apply list_elem_of_fmap_2, Hm.
    + rewrite (proj2 (Z.ltb_lt _ _)); [done|]. rewrite length_fmap. simpl in Hk. lia.
  - rewrite (filter_none _ [n]), app_nil_r; [done|].
    intros m ->%list_elem_of_singleton Hb. fold bi in Hb. lia.
Qed.

Lemma load_all now own l :
  id_ok own -> NoDup (n_ID <$> l) -> (forall n, n ∈ l -> id_ok (n_ID n) /\ n_ID n <> own) ->
  (forall j, len (filter (fun m => bucketIndex (NewRoutingTable own) (n_ID m) = Z.of_nat j) l) <= K) ->
  foldl (fun rt n => Update now n rt) (NewRoutingTable own) l = table_of now own l.
Proof.
  intros Hown. induction l as [|n l IH] using rev_ind; intros Hnd Hall Hk.
  - unfold table_of, NewRoutingTable. simpl. f_equal.
  - rewrite fmap_app in Hnd. apply NoDup_app in Hnd as (Hnd & Hdis & _).
    rewrite foldl_app. cbn [foldl]. rewrite IH; [|done|set_solver|].
    + destruct (Hall n) as [? ?]; [set_solver|]. apply Update_table_of; try done.
      intros Hin. apply (Hdis _ Hin). by left.
    + intros j. specialize (Hk j). rewrite filter_app, length_app in Hk. lia.
Qed.

(** Nodes saved to disk and loaded into a fresh table of the same ID give back
    the same table, bucket by bucket and in the same order, every node seen at
    the time of loading, and the reported count is the number of nodes (for
    nodes with IPv4 addresses, the only ones the format can hold). *)
Lemma Nodes_roundtrip (rt : RoutingTable) (now : Z) :
  RTInv rt ->
  Forall (fun n => wf_node4 (mkNodeInfo (n_ID n) (n_Addr n))) (AllNodes rt) ->
  LoadNodes now (SaveNodes rt) (NewRoutingTable (self rt)) = Ok (touch_table now rt, Len rt).
Proof.
  intros H H4. destruct (rt_all rt H) as (Hnd & Hall & Hf).
  assert (Htab : touch_table now rt = table_of now (self rt) (AllNodes rt)).
  { unfold touch_table, table_of. f_equal. apply list_eq. intros j. rewrite !list_lookup_fmap.
    destruct (decide (j < Z.to_nat NumBuckets)%nat) as [Hj|Hj].
    - rewrite (lookup_seq_lt 0 _ j) by done. cbn [fmap option_fmap option_map Nat.add].
      change (bucketIndex (NewRoutingTable (self rt))) with (bucketIndex rt). rewrite Hf.
      destruct (tbuckets rt !! j) eqn:Eb; [done|].
      apply lookup_ge_None in Eb. rewrite (rt_len _ H) in Eb. lia.
    - rewrite (lookup_seq_ge 0 _ j), (lookup_ge_None_2 (tbuckets rt)); [done|rewrite (rt_len _ H); lia|lia]. }
  assert (Hk : forall j, len (filter (fun m => bucketIndex (NewRoutingTable (self rt)) (n_ID m) =
                         Z.of_nat j) (AllNodes rt)) <= K).
  { intros j. change (bucketIndex (NewRoutingTable (self rt))) with (bucketIndex rt). rewrite Hf.
    destruct (tbuckets rt !! j) as [b|] eqn:Eb; [|done]. apply (rt_bucket _ H j b Eb). }
  rewrite Htab. unfold Len. rewrite <- (load_all now) by (done || apply H).
  unfold SaveNodes. destruct (AllNodes rt) as [|n0 l0] eqn:El; [done|]. rewrite <- El in *.
  unfold LoadNodes. set (ns := (fun n => mkNodeInfo (n_ID n) (n_Addr n)) <$> AllNodes rt).
  assert (Hns : Forall wf_node4 ns) by (by apply Forall_fmap).
  assert (Hne : exists c d, MarshalCompactNodeInfo ns = c :: d).
  { destruct (MarshalCompactNodeInfo ns) as [|c d] eqn:E; [|eauto].
    pose proof (marshal_roundtrip ns Hns) as Hm. rewrite E in Hm. injection Hm as Hm.
    subst ns. by rewrite El in Hm. }
  destruct Hne as (c & d & Hcd). rewrite Hcd, <- Hcd, marshal_roundtrip by done.
  cbn [mbind result_bind]. subst ns. rewrite length_fmap. do 2 f_equal.
  rewrite foldl_fmap. done.
Qed.

(** ** KRPC messages *)

(** The messages the program builds: a query with arguments, a response with
    values, or an error list. *)
Inductive wf_krpc : KRPCMessage -> Prop :=
  | wf_query t q a : wf_krpc (mkKRPC t (lit "q") q (Some a) None None)
  | wf_response t r : wf_krpc (mkKRPC t (lit "r") [] None (Some r) None)
  | wf_error t e : wf_krpc (mkKRPC t (lit "e") [] None None (Some e)).

(** Every query, response and error message within the decoder's limits is
    encoded, and decoding the datagram gives the message back. *)
Lemma KRPC_roundtrip (msg : KRPCMessage) :
  wf_krpc msg -> fits 0 (AMap (krpc_dict msg)) -> items (AMap (krpc_dict msg)) <= MaxTotalItems ->
  exists data, EncodeKRPC msg = Ok data /\ DecodeKRPC data = Ok msg.
Proof.
  intros Hwf Hf Hi. exists (enc (AMap (krpc_dict msg))). split.
  { apply Encode_enc. by eapply fits_supported. }
  unfold DecodeKRPC. rewrite <- (app_nil_r (enc _)), Decode_enc by done.
  cbn [map_err mbind result_bind as_map or_err].
  destruct Hwf; unfold krpc_dict; cbn [T Y Q A R E];
    repeat (rewrite bool_decide_eq_true_2 by done || rewrite bool_decide_eq_false_2 by done);
    by map_lookup.
Qed.

(** *** Concrete instances *)

Definition demo_node (last : byte) : Node :=
  mkNode (replicate 19 x00 ++ [last]) (mkUDPAddr [x0a; x00; x00; last] 6881) 0.

Definition demo_table : RoutingTable :=
  updates [(1, demo_node x01); (2, demo_node x02); (3, demo_node x01); (4, demo_node x03)]
    (NewRoutingTable (replicate 20 x00)).

Lemma demo_table_inv : RTInv demo_table.
Proof. apply rtinv_updates; [repeat constructor|by apply rtinv_New]. Qed.

Lemma RoutingTable_invariant_witness :
  RTInv demo_table /\ NoDup (n_ID <$> AllNodes demo_table) /\
  (replicate 20 x00 ∉ (n_ID <$> AllNodes demo_table)) /\ Len demo_table <= K * NumBuckets.
Proof.
  apply (RoutingTable_invariant (replicate 20 x00)
           [(1, demo_node x01); (2, demo_node x02); (3, demo_node x01); (4, demo_node x03)]);
    [done|repeat constructor].
Defined.

Lemma Closest_spec_witness :
  let res := Closest demo_table (replicate 20 x00) 2 in
  StronglySorted (fun m n => dist (replicate 20 x00) m <= dist (replicate 20 x00) n) res /\
  length res = Nat.min 2 (length (AllNodes demo_table)) /\
  exists rest, (res ++ rest ≡ₚ AllNodes demo_table) /\
    forall m n, m ∈ res -> n ∈ rest ->
      dist (replicate 20 x00) m <= dist (replicate 20 x00) n.
Proof. apply (Closest_spec demo_table (replicate 20 x00) 2 demo_table_inv). done. Defined.

Lemma Nodes_roundtrip_witness :
  LoadNodes 9 (SaveNodes demo_table) (NewRoutingTable (replicate 20 x00)) =
    Ok (touch_table 9 demo_table, 3).
Proof.
  apply (Nodes_roundtrip demo_table 9 demo_table_inv).
  replace (AllNodes demo_table)
    with [mkNode (replicate 19 x00 ++ [x02]) (mkUDPAddr [x0a; x00; x00; x02] 6881) 2;
          mkNode (replicate 19 x00 ++ [x03]) (mkUDPAddr [x0a; x00; x00; x03] 6881) 4;
          mkNode (replicate 19 x00 ++ [x01]) (mkUDPAddr [x0a; x00; x00; x01] 6881) 3]
    by (by vm_compute).
  repeat constructor; simpl; lia.
Defined.

Lemma KRPC_roundtrip_witness :
  exists data, EncodeKRPC (NewPingQuery (lit "aa") (lit "abcdefghij0123456789")) = Ok data /\
    DecodeKRPC data = Ok (NewPingQuery (lit "aa") (lit "abcdefghij0123456789")).
Proof.
  apply KRPC_roundtrip; [constructor| |by vm_compute].
  unfold krpc_dict, NewPingQuery, query. cbn [T Y Q A R E].
  rewrite bool_decide_eq_true_2 by done. cbn [default from_option id]. fits_tac.
Defined.
