(* ===== verification/Extension.v ===== *)
(** * The extension protocol: BEP 10 handshake and messages ([peer/extension.go],
    [peer/extconn.go]), peer exchange ([peer/pex.go]) and metadata transfer
    ([magnet/metadata.go])

    A connection is the bytes still to be read and the bytes written so far;
    [room] is how many more writes it accepts before it fails.  The loops that
    read messages use the length of the input as fuel: every message takes at
    least four bytes. *)

From S2P Require Import Prelude Strconv Net Bencode BencodeFacts Wire.
Set Warnings "-clear-no-such-hyp".
Local Open Scope Z_scope.

(** ** Extended messages *)

Definition MsgExtended : Z := 20.
Definition ExtHandshakeID : Z := 0.

Record ExtHandshake := mkExtHandshake { M : gmap bytes Z; MetadataSize : Z; V : bytes }.

Inductive ext_error :=
  | ExtDecode (e : decode_error) | ExtNotDict | ExtMNotDict | ExtTooShort
  | ExtRead (e : read_error) | ExtWrite | ExtEncode (e : encode_error) | ExtUnsupported
  | PEXTooMany | MetadataNotDict | InvalidMetadataSize | MetadataRejected | UnexpectedType
  | BlockOverflow | HashMismatch | ExtOutOfFuel.

Definition ext_dict (h : ExtHandshake) : gmap bytes any :=
  let d : gmap bytes any := ∅ in
  let d := if 0 <? Z.of_nat (size (M h)) then <[lit "m" := AMap (AInt64 <$> M h)]> d else d in
  let d := if 0 <? MetadataSize h then <[lit "metadata_size" := AInt64 (MetadataSize h)]> d else d in
  if bool_decide (V h = []) then d else <[lit "v" := AStr (V h)]> d.

Definition EncodeExtHandshake (h : ExtHandshake) : result encode_error bytes :=
  Encode (AMap (ext_dict h)).

(** The extension IDs of the [m] dictionary: entries that are not integers are
    ignored. *)
Definition decode_m (v : option any) : result ext_error (gmap bytes Z) :=
  match v with
  | Some (AMap mDict) => Ok (omap (fun v => as_int64 (Some v)) mDict)
  | Some _ => Err ExtMNotDict
  | None => Ok ∅
  end.

Definition ext_of_dict (d : gmap bytes any) : result ext_error ExtHandshake :=
  m ← decode_m (d !! lit "m");
  Ok (mkExtHandshake m (default 0 (as_int64 (d !! lit "metadata_size")))
        (default [] (as_str (d !! lit "v")))).

Definition DecodeExtHandshake (data : bytes) : result ext_error ExtHandshake :=
  decoded ← map_err ExtDecode (Decode data);
  match decoded with
  | AMap d => ext_of_dict d
  | _ => Err ExtNotDict
  end.

Definition NewExtendedMessage (extID : Z) (payload : bytes) : Message :=
  message MsgExtended (byte_of_Z extID :: payload).

Definition ParseExtended (payload : bytes) : result ext_error (Z * bytes) :=
  match payload with [] => Err ExtTooShort | b :: data => Ok (u8 b, data) end.

(** ** Connections *)

Record conn := mkConn { rx : bytes; tx : bytes; room : nat }.

Definition conn_write (b : bytes) (c : conn) : result ext_error conn :=
  match room c with O => Err ExtWrite | S n => Ok (mkConn (rx c) (tx c ++ b) n) end.

Definition conn_read (c : conn) : result ext_error (option Message * conn) :=
  '(m, r) ← map_err ExtRead (ReadMessage (rx c)); Ok (m, mkConn r (tx c) (room c)).

Record ExtConn := mkExtConn { rw : conn; localExtID : Z; remoteExtID : Z }.

Definition SendExtMessage (payload : bytes) (c : ExtConn) : result ext_error ExtConn :=
  rw' ← conn_write (Write (NewExtendedMessage (remoteExtID c) payload)) (rw c);
  Ok (mkExtConn rw' (localExtID c) (remoteExtID c)).

(** The loop shared by [ReadExtMessage] and [NegotiateExtension]: the payload of
    the next extended message with sub-ID [id]; everything else is skipped. *)
Fixpoint read_ext (fuel : nat) (id : Z) (c : conn) : result ext_error (bytes * conn) :=
  match fuel with
  | O => Err ExtOutOfFuel
  | S fuel =>
      '(msg, c) ← conn_read c;
      match msg with
      | None => read_ext fuel id c
      | Some msg =>
          if negb (u8 (ID msg) =? MsgExtended) then read_ext fuel id c
          else
            '(extID, data) ← ParseExtended (Payload msg);
            if negb (extID =? id) then read_ext fuel id c else Ok (data, c)
      end
  end.

Definition read_fuel (c : conn) : nat := S (length (rx c)).

Definition ReadExtMessage (c : ExtConn) : result ext_error (bytes * ExtConn) :=
  '(data, rw') ← read_ext (read_fuel (rw c)) (localExtID c) (rw c);
  Ok (data, mkExtConn rw' (localExtID c) (remoteExtID c)).

Definition NegotiateExtension (c : conn) (extName : bytes) (ourID : Z) (ours : ExtHandshake)
    : result ext_error (ExtConn * ExtHandshake) :=
  hsPayload ← map_err ExtEncode (EncodeExtHandshake ours);
  c ← conn_write (Write (NewExtendedMessage ExtHandshakeID hsPayload)) c;
  '(data, c) ← read_ext (read_fuel c) ExtHandshakeID c;
  peerHS ← DecodeExtHandshake data;
  match M peerHS !! extName with
  | Some remoteID =>
      if remoteID =? 0 then Err ExtUnsupported
      else Ok (mkExtConn c ourID (wrapu 8 remoteID), peerHS)
  | None => Err ExtUnsupported
  end.

(** ** Peer exchange *)

Definition maxPEXPeers : Z := 10000.

Record PEXPeer := mkPEXPeer { p_IP : IP; p_Port : Z; Seed : bool }.
Record PEXMessage := mkPEXMessage { Added : list PEXPeer; Dropped : list PEXPeer }.

Definition flag (p : PEXPeer) : byte := if Seed p then x02 else x00.

(** The loops keep the peers of one address family. *)
Definition v4_record (p : PEXPeer) : option bytes :=
  ip4 ← To4 (p_IP p); Some (ip4 ++ be_put 2 (p_Port p)).
Definition v6_record (p : PEXPeer) : option bytes :=
  match To4 (p_IP p) with
  | Some _ => None
  | None => ip16 ← To16 (p_IP p); Some (ip16 ++ be_put 2 (p_Port p))
  end.

Definition encode_peers (record : PEXPeer -> option bytes) (peers : list PEXPeer) : bytes :=
  concat (omap record peers).
Definition encode_flags (record : PEXPeer -> option bytes) (peers : list PEXPeer) : bytes :=
  omap (fun p => (fun _ => flag p) <$> record p) peers.

Definition encodeAddedV4 (peers : list PEXPeer) : bytes * bytes :=
  (encode_peers v4_record peers, encode_flags v4_record peers).
Definition encodeAddedV6 (peers : list PEXPeer) : bytes * bytes :=
  (encode_peers v6_record peers, encode_flags v6_record peers).
Definition encodeDroppedV4 (peers : list PEXPeer) : bytes := encode_peers v4_record peers.
Definition encodeDroppedV6 (peers : list PEXPeer) : bytes := encode_peers v6_record peers.

(** [d[k] = string(s)] when [s] is not empty. *)
Definition put_nonempty (k s : bytes) (d : gmap bytes any) : gmap bytes any :=
  if 0 <? len s then <[k := AStr s]> d else d.

Definition pex_dict (msg : PEXMessage) : gmap bytes any :=
  let d : gmap bytes any := ∅ in
  let d :=
    if 0 <? len (Added msg) then
      let '(addedV4, flagsV4) := encodeAddedV4 (Added msg) in
      let '(addedV6, flagsV6) := encodeAddedV6 (Added msg) in
      let d := if 0 <? len addedV4
               then <[lit "added.f" := AStr flagsV4]> (<[lit "added" := AStr addedV4]> d) else d in
      if 0 <? len addedV6
      then <[lit "added6.f" := AStr flagsV6]> (<[lit "added6" := AStr addedV6]> d) else d
    else d in
  if 0 <? len (Dropped msg) then
    put_nonempty (lit "dropped6") (encodeDroppedV6 (Dropped msg))
      (put_nonempty (lit "dropped") (encodeDroppedV4 (Dropped msg)) d)
  else d.

Definition EncodePEX (msg : PEXMessage) : result encode_error bytes := Encode (AMap (pex_dict msg)).

(** The peers of one field: records of [w] address bytes and two port bytes. *)
Definition pex_peer (w : nat) (flags : bytes) (i : nat) (r : bytes) : PEXPeer :=
  mkPEXPeer (take w r) (be_get (drop w r))
    (match flags !! i with Some f => negb (Z.land (u8 f) 2 =? 0) | None => false end).

Definition decode_field (w : nat) (d : gmap bytes any) (key flags : bytes)
    : result ext_error (list PEXPeer) :=
  match as_str (d !! key) with
  | Some s =>
      let k := (w + 2)%nat in
      if negb (len s mod Z.of_nat k =? 0) then Ok []
      else
        let n := len s / Z.of_nat k in
        if maxPEXPeers <? n then Err PEXTooMany
        else Ok (imap (pex_peer w flags) (chunks k (Z.to_nat n) s))
  | None => Ok []
  end.

Definition DecodePEX (data : bytes) : result ext_error (option PEXMessage) :=
  decoded ← map_err ExtDecode (Decode data);
  match as_map (Some decoded) with
  | None => Ok None
  | Some d =>
      added ← decode_field 4 d (lit "added") (default [] (as_str (d !! lit "added.f")));
      added6 ← decode_field 16 d (lit "added6") (default [] (as_str (d !! lit "added6.f")));
      dropped ← decode_field 4 d (lit "dropped") [];
      dropped6 ← decode_field 16 d (lit "dropped6") [];
      Ok (Some (mkPEXMessage (added ++ added6) (dropped ++ dropped6)))
  end.

(** ** Metadata transfer *)

Definition MetadataBlockSize : Z := 16384.
Definition MetadataRequest : Z := 0.
Definition MetadataData : Z := 1.
Definition MetadataReject : Z := 2.

Definition EncodeMetadataRequest (piece : Z) : result encode_error bytes :=
  Encode (AMap {[ lit "msg_type" := AInt64 MetadataRequest; lit "piece" := AInt64 piece ]}).

Definition EncodeMetadataData (piece totalSize : Z) (block : bytes) : result encode_error bytes :=
  encoded ← Encode (AMap {[ lit "msg_type" := AInt64 MetadataData; lit "piece" := AInt64 piece;
                            lit "total_size" := AInt64 totalSize ]});
  Ok (encoded ++ block).

Definition EncodeMetadataReject (piece : Z) : result encode_error bytes :=
  Encode (AMap {[ lit "msg_type" := AInt64 MetadataReject; lit "piece" := AInt64 piece ]}).

Record MetadataMessage := mkMetadataMessage {
  MsgType : Z; Piece : Z; m_TotalSize : Z; Data : bytes
}.

Definition DecodeMetadataMessage (payload : bytes) : result ext_error MetadataMessage :=
  '(decoded, consumed) ← map_err ExtDecode (DecodeBytes payload);
  d ← or_err (as_map (Some decoded)) MetadataNotDict;
  let msgType := wrapu 8 (default 0 (as_int64 (d !! lit "msg_type"))) in
  Ok (mkMetadataMessage msgType (default 0 (as_int64 (d !! lit "piece")))
        (default 0 (as_int64 (d !! lit "total_size")))
        (if (msgType =? MetadataData) && (consumed <? len payload)
         then slice payload consumed (len payload) else [])).

Definition MaxMetadataSize : Z := 32 * 1024 * 1024.

(** The loop of [FetchMetadata] for the pieces from [i] on, [n] of them left. *)
Fixpoint fetch_loop (n : nat) (i metadataSize : Z) (metadata : bytes) (c : ExtConn)
    : result ext_error (bytes * ExtConn) :=
  match n with
  | O => Ok (metadata, c)
  | S n =>
      reqPayload ← map_err ExtEncode (EncodeMetadataRequest i);
      c ← SendExtMessage reqPayload c;
      '(respPayload, c) ← ReadExtMessage c;
      msg ← DecodeMetadataMessage respPayload;
      if MsgType msg =? MetadataReject then Err MetadataRejected
      else if negb (MsgType msg =? MetadataData) then Err UnexpectedType
      else
        let offset := i * MetadataBlockSize in
        if metadataSize <? offset + len (Data msg) then Err BlockOverflow
        else fetch_loop n (i + 1) metadataSize (splice metadata (Z.to_nat offset) (Data msg)) c
  end.

Definition FetchMetadata (sha1 : bytes -> bytes) (c : ExtConn) (metadataSize : Z) (infoHash : bytes)
    : result ext_error (bytes * ExtConn) :=
  if (metadataSize <=? 0) || (MaxMetadataSize <? metadataSize) then Err InvalidMetadataSize
  else
    let numPieces := (metadataSize + MetadataBlockSize - 1) / MetadataBlockSize in
    '(metadata, c) ← fetch_loop (Z.to_nat numPieces) 0 metadataSize
                       (replicate (Z.to_nat metadataSize) x00) c;
    if bool_decide (sha1 metadata = infoHash) then Ok (metadata, c) else Err HashMismatch.
