(* ===== verification/ExtensionTheorems.v ===== *)
(** * Properties of the extension protocol, peer exchange and metadata transfer *)

From S2P Require Import Prelude Strconv Net Bencode BencodeFacts Wire Extension.
Set Warnings "-clear-no-such-hyp".
Local Open Scope Z_scope.

(** ** Reading extended messages *)

Lemma ReadMessage_consumes r m r' : ReadMessage r = Ok (m, r') -> (length r' + 4 <= length r)%nat.
Proof.
  unfold ReadMessage. intros H. inv_ok. destruct a as [lb r1].
  apply ReadFull_ok in E as [-> Hl]; [|lia]. rewrite length_app.
  destruct (_ =? 0); [inv_ok; subst; lia|]. destruct (_ <? _); [done|]. inv_ok.
  destruct a as [buf r2]. apply ReadFull_ok in E as [-> Hb];
    [|pose proof (be_get_range lb); lia]. rewrite length_app.
  destruct buf; inv_ok; subst; simpl; lia.
Qed.

(** The fuel of the reading loops is always enough. *)
Lemma read_ext_fuel fuel id c :
  (length (rx c) < fuel)%nat -> read_ext fuel id c <> Err ExtOutOfFuel.
Proof.
  revert c. induction fuel as [|fuel IH]; intros c Hf; [lia|]. cbn [read_ext]. unfold conn_read.
  destruct (ReadMessage (rx c)) as [[m r]|e] eqn:Er; cbn [map_err mbind result_bind]; [|done].
  apply ReadMessage_consumes in Er.
  destruct m as [m|]; [|apply IH; simpl; lia].
  destruct (negb _); [apply IH; simpl; lia|].
  destruct (Payload m) as [|b data]; [done|]. cbn [ParseExtended mbind result_bind].
  destruct (negb _); [apply IH; simpl; lia|done].
Qed.

Lemma read_ext_more fuel fuel' id c res :
  read_ext fuel id c = res -> res <> Err ExtOutOfFuel -> (fuel <= fuel')%nat ->
  read_ext fuel' id c = res.
Proof.
  revert fuel' c. induction fuel as [|fuel IH]; intros fuel' c Hr Hne Hle; [by simpl in Hr; subst|].
  destruct fuel' as [|fuel']; [lia|]. cbn [read_ext] in *.
  destruct (conn_read c) as [[m c']|e]; cbn [mbind result_bind] in *; [|done].
  assert (Hle' : (fuel <= fuel')%nat) by lia.
  destruct m as [m|]; [|by apply IH]. destruct (negb _); [by apply IH|].
  destruct (ParseExtended (Payload m)) as [[x data]|e]; cbn [mbind result_bind] in *; [|done].
  destruct (negb _); [by apply IH|done].
Qed.

(** A frame that a reader waiting for sub-ID [id] skips. *)
Definition skipped_frame (id : Z) (f : option Message) : Prop :=
  small_frame f /\
  match f with
  | None => True
  | Some m => u8 (Wire.ID m) <> MsgExtended \/
              exists b data, Payload m = b :: data /\ u8 b <> id
  end.

Lemma ReadMessage_frame f r : small_frame f -> ReadMessage (write_frame f ++ r) = Ok (f, r).
Proof.
  destruct f as [m|]; intros Hf; [by apply ReadMessage_Write|apply ReadMessage_KeepAlive].
Qed.

Lemma read_ext_skip id noise payload r t n fuel :
  Forall (skipped_frame id) noise -> 0 <= id < 256 ->
  small_frame (Some (NewExtendedMessage id payload)) -> (length noise < fuel)%nat ->
  read_ext fuel id
    (mkConn (concat (write_frame <$> noise) ++ Write (NewExtendedMessage id payload) ++ r) t n) =
  Ok (payload, mkConn r t n).
Proof.
  intros Hn Hid Hs. revert fuel.
  induction Hn as [|f noise [Hf Hskip] Hn IH]; intros fuel Hfuel; (destruct fuel as [|fuel]; [lia|]);
    cbn [read_ext length fmap list_fmap concat] in *; unfold conn_read; cbn [rx tx room].
  - rewrite app_nil_l, ReadMessage_Write by exact Hs. cbn [map_err mbind result_bind].
    unfold NewExtendedMessage. cbn [message Wire.ID Payload ParseExtended mbind result_bind].
    rewrite !u8_byte_of_Z, !Z.mod_small by (unfold MsgExtended; lia).
    by rewrite !Z.eqb_refl.
  - rewrite <- (assoc_L (++)), ReadMessage_frame by done. cbn [map_err mbind result_bind].
    destruct f as [m|]; [|apply IH; lia].
    destruct (Z.eqb_spec (u8 (Wire.ID m)) MsgExtended) as [Hm|]; cbn [negb]; [|apply IH; lia].
    destruct Hskip as [?|(b & data & -> & Hb)]; [done|].
    cbn [ParseExtended mbind result_bind]. rewrite (proj2 (Z.eqb_neq _ _)) by done. apply IH. lia.
Qed.

(** ** Metadata transfer *)

Lemma fetch_loop_length n i size md c md' c' :
  fetch_loop n i size md c = Ok (md', c') -> 0 <= i -> len md = size -> len md' = size.
Proof.
  revert i md c. induction n as [|n IH]; intros i md c H Hi Hl; cbn [fetch_loop] in H; [by inv_ok; subst|].
  inv_ok. destruct a1 as [resp c1]. inv_ok.
  destruct (MsgType a1 =? MetadataReject); [done|]. destruct (negb _); [done|].
  destruct (Z.ltb_spec size (i * MetadataBlockSize + len (Data a1))); [done|].
  apply IH in H; [done|lia|]. rewrite length_splice; [done|]. unfold MetadataBlockSize in *. lia.
Qed.

Definition data_dict (i size : Z) : gmap bytes any :=
  {[ lit "msg_type" := AInt64 MetadataData; lit "piece" := AInt64 i; lit "total_size" := AInt64 size ]}.

Lemma fits_data_dict i size :
  0 <= i <= MaxInt64 -> 0 <= size <= MaxInt64 -> fits 0 (AMap (data_dict i size)).
Proof.
  intros Hi Hs. unfold data_dict.
  repeat (rewrite <- insert_empty || (apply fits_map_insert; [| |by vm_compute|by vm_compute]));
    try (apply fits_int; [by vm_compute|unfold in_i64, MinInt64, MaxInt64 in *; lia]);
    try (apply fits_int; [by vm_compute|split; by vm_compute]).
  apply fits_empty_map. by vm_compute.
Qed.

Lemma EncodeMetadataData_enc i size block :
  0 <= i <= MaxInt64 -> 0 <= size <= MaxInt64 ->
  EncodeMetadataData i size block = Ok (enc (AMap (data_dict i size)) ++ block).
Proof.
  intros Hi Hs. unfold EncodeMetadataData. fold (data_dict i size).
  rewrite Encode_enc by (by eapply fits_supported, fits_data_dict). done.
Qed.

Lemma DecodeMetadata_data i size block :
  0 <= i <= MaxInt64 -> 0 <= size <= MaxInt64 ->
  DecodeMetadataMessage (enc (AMap (data_dict i size)) ++ block) =
  Ok (mkMetadataMessage MetadataData i size block).
Proof.
  intros Hi Hs. unfold DecodeMetadataMessage.
  rewrite DecodeBytes_enc by (by apply fits_data_dict || by vm_compute).
  cbn [map_err mbind result_bind as_map or_err]. 
  assert (Ht : data_dict i size !! lit "msg_type" = Some (AInt64 MetadataData))
    by (unfold data_dict; by map_lookup).
  assert (Hp : data_dict i size !! lit "piece" = Some (AInt64 i)) by (unfold data_dict; by map_lookup).
  assert (Hz : data_dict i size !! lit "total_size" = Some (AInt64 size))
    by (unfold data_dict; by map_lookup).
  rewrite Ht, Hp, Hz.
  cbn [as_int64 default from_option id]. change (wrapu 8 MetadataData) with MetadataData.
  rewrite Z.eqb_refl. cbn [andb]. f_equal. f_equal.
  rewrite length_app. destruct (Z.ltb_spec (len (enc (AMap (data_dict i size))))
    (Z.of_nat (length (enc (AMap (data_dict i size))) + length block))).
  - rewrite <- length_app. by apply slice_suffix.
  - destruct block; [done|simpl in *; lia].
Qed.

(** What a peer that has the metadata sends for the blocks from [i] on: before each
    block anything a reader waiting for sub-ID [id] skips. *)
Fixpoint answers (id i size : Z) (bs : list (list (option Message) * bytes)) : bytes :=
  match bs with
  | [] => []
  | (noise, block) :: bs =>
      concat (write_frame <$> noise) ++
      Write (NewExtendedMessage id (enc (AMap (data_dict i size)) ++ block)) ++
      answers id (i + 1) size bs
  end.

Fixpoint honest (id i size : Z) (bs : list (list (option Message) * bytes)) : Prop :=
  match bs with
  | [] => True
  | (noise, block) :: bs =>
      Forall (skipped_frame id) noise /\
      small_frame (Some (NewExtendedMessage id (enc (AMap (data_dict i size)) ++ block))) /\
      (bs = [] \/ len block = MetadataBlockSize) /\ honest id (i + 1) size bs
  end.

Lemma frames_length (fs : list (option Message)) : (length fs <= length (concat (write_frame <$> fs)))%nat.
Proof.
  induction fs as [|f fs IH]; [done|]. cbn [fmap list_fmap concat length]. rewrite length_app.
  assert (1 <= length (write_frame f))%nat; [|lia].
  destruct f as [m|]; [|simpl; lia]. simpl write_frame. unfold Write. rewrite length_app, length_be_put. lia.
Qed.

Lemma ReadExt_answer id noise payload r t n l rid :
  Forall (skipped_frame id) noise -> 0 <= id < 256 ->
  small_frame (Some (NewExtendedMessage id payload)) -> l = id ->
  ReadExtMessage
    (mkExtConn (mkConn (concat (write_frame <$> noise) ++ Write (NewExtendedMessage id payload) ++ r) t n)
       l rid) =
  Ok (payload, mkExtConn (mkConn r t n) l rid).
Proof.
  intros Hn Hid Hs ->. unfold ReadExtMessage. cbn [rw localExtID remoteExtID].
  rewrite read_ext_skip; [done..|]. unfold read_fuel. cbn [rx]. rewrite length_app.
  pose proof (frames_length noise). lia.
Qed.

Lemma EncodeMetadataRequest_ok i : exists b, EncodeMetadataRequest i = Ok b.
Proof.
  eexists. unfold EncodeMetadataRequest. apply Encode_enc. constructor. intros k x Hk.
  apply lookup_insert_Some in Hk as [[_ <-]|[_ Hk]]; [constructor|].
  apply lookup_singleton_Some in Hk as [_ <-]. constructor.
Qed.

(** One iteration in which the peer answers with a block that fits. *)
Lemma fetch_loop_step n i size md c req c1 resp c2 msg :
  EncodeMetadataRequest i = Ok req -> SendExtMessage req c = Ok c1 ->
  ReadExtMessage c1 = Ok (resp, c2) -> DecodeMetadataMessage resp = Ok msg ->
  MsgType msg = MetadataData -> i * MetadataBlockSize + len (Data msg) <= size ->
  fetch_loop (S n) i size md c =
  fetch_loop n (i + 1) size (splice md (Z.to_nat (i * MetadataBlockSize)) (Data msg)) c2.
Proof.
  intros Hreq Hsend Hread Hdec Hty Hfit. cbn [fetch_loop].
  rewrite Hreq. cbn [map_err mbind result_bind]. rewrite Hsend. cbn [mbind result_bind].
  rewrite Hread. cbn [mbind result_bind]. rewrite Hdec. cbn [mbind result_bind].
  rewrite Hty. change (MetadataData =? MetadataReject) with false. rewrite Z.eqb_refl. cbn [negb].
  by rewrite (proj2 (Z.ltb_ge _ _)) by lia.
Qed.

Lemma SendExt_ok req r t n l rid :
  SendExtMessage req (mkExtConn (mkConn r t (S n)) l rid) =
  Ok (mkExtConn (mkConn r (t ++ Write (NewExtendedMessage rid req)) n) l rid).
Proof. done. Qed.

Lemma fetch_loop_honest id rid i size bs done_ zeros r t n :
  0 <= id < 256 -> 0 <= i -> size <= MaxInt64 -> i + len bs <= MaxInt64 ->
  honest id i size bs -> (bs <> [] -> len done_ = i * MetadataBlockSize) ->
  length zeros = length (concat (bs.*2)) -> len done_ + len zeros = size -> (length bs <= n)%nat ->
  exists t', fetch_loop (length bs) i size (done_ ++ zeros)
      (mkExtConn (mkConn (answers id i size bs ++ r) t n) id rid) =
    Ok (done_ ++ concat (bs.*2), mkExtConn (mkConn r t' (n - length bs)) id rid).
Proof.
  intros Hid. revert i done_ zeros t n.
  induction bs as [|[noise block] bs IH]; intros i done_ zeros t n Hi Hsz Hmax Hh Hdone Hz Htot Hn.
  { exists t. destruct zeros; [|done]. simpl. by rewrite Nat.sub_0_r. }
  cbn [length answers honest fmap list_fmap concat snd] in *.
  destruct Hh as (Hnoise & Hsmall & Hblock & Hh). rewrite length_app in Hz.
  specialize (Hdone ltac:(done)).
  destruct (EncodeMetadataRequest_ok i) as [req Hreq]. destruct n as [|n]; [lia|].
  rewrite <- !(assoc_L (++)).
  rewrite (fetch_loop_step _ i size _ _ req _ _ _ _ Hreq (SendExt_ok _ _ _ _ _ _)
             (ReadExt_answer id noise _ _ _ _ _ _ Hnoise Hid Hsmall eq_refl)
             (DecodeMetadata_data i size block ltac:(lia) ltac:(lia)) eq_refl) by (cbn [Data]; lia).
  cbn [Data]. clear Hsmall Hnoise.
  assert (Hsp : splice (done_ ++ zeros) (Z.to_nat (i * MetadataBlockSize)) block =
                (done_ ++ block) ++ drop (length block) zeros).
  { unfold splice. rewrite take_app_length', <- (assoc_L (++)) by lia. do 2 f_equal.
    rewrite drop_app_ge by lia. f_equal. lia. }
  rewrite Hsp.
  destruct (IH (i + 1) (done_ ++ block) (drop (length block) zeros)
              (t ++ Write (NewExtendedMessage rid req)) n) as [t' Ht];
    [lia|exact Hsz|lia|exact Hh| | | |lia|].
  - intros Hne. destruct Hblock as [Hb|Hb]; [contradiction|]. rewrite length_app. lia.
  - rewrite length_drop. lia.
  - rewrite length_app, length_drop. lia.
  - exists t'. rewrite Ht, <- (assoc_L (++)). reflexivity.
Qed.

(** Whatever the peer sends, metadata that is returned has exactly the
    announced size and hashes to the info hash, and a size outside (0, 32 MiB]
    is refused. *)
Lemma FetchMetadata_sound (sha1 : bytes -> bytes) (c c' : ExtConn) (size : Z)
    (infoHash md : bytes) :
  FetchMetadata sha1 c size infoHash = Ok (md, c') ->
  0 < size <= MaxMetadataSize /\ len md = size /\ sha1 md = infoHash.
Proof.
  unfold FetchMetadata. intros H.
  destruct ((size <=? 0) || (MaxMetadataSize <? size)) eqn:Eb; [done|]. bool_prop.
  inv_ok. destruct a as [md0 c0]. case_bool_decide as Eh; [|done]. inv_ok. subst.
  apply fetch_loop_length in E; [|lia|rewrite length_replicate; lia]. split_and!; lia || done.
Qed.

(** From a peer that has the metadata and answers every request with the
    requested block, possibly after keep-alives and messages of other kinds,
    the whole metadata is fetched. *)
Lemma FetchMetadata_complete (sha1 : bytes -> bytes) (metadata : bytes)
    (bs : list (list (option Message) * bytes)) (id rid : Z) (r t : bytes) (n : nat) :
  0 <= id < 256 -> 0 < len metadata <= MaxMetadataSize ->
  metadata = concat (bs.*2) ->
  len bs = (len metadata + MetadataBlockSize - 1) / MetadataBlockSize ->
  honest id 0 (len metadata) bs -> (length bs <= n)%nat ->
  exists c', FetchMetadata sha1
      (mkExtConn (mkConn (answers id 0 (len metadata) bs ++ r) t n) id rid)
      (len metadata) (sha1 metadata) = Ok (metadata, c').
Proof.
  intros Hid Hlen Hmd Hbs Hh Hn. unfold FetchMetadata.
  rewrite (proj2 (Z.leb_gt _ _)), (proj2 (Z.ltb_ge _ _)) by lia. cbn [orb].
  rewrite <- Hbs, Nat2Z.id.
  assert (Hsz : len metadata <= MaxInt64) by (unfold MaxMetadataSize, MaxInt64 in *; lia).
  destruct (fetch_loop_honest id rid 0 (len metadata) bs []
              (replicate (Z.to_nat (len metadata)) x00) r t n Hid) as [t' Hf];
    [lia|exact Hsz| |exact Hh|reflexivity|rewrite length_replicate, Nat2Z.id, Hmd; reflexivity
    |rewrite length_replicate; simpl; lia|lia|].
  - rewrite Hbs. unfold MetadataBlockSize, MaxMetadataSize, MaxInt64 in *.
    apply Z.le_trans with (len metadata + 16384 - 1); [|lia].
    rewrite Z.add_0_l. apply Z.div_le_upper_bound; lia.
  - rewrite !app_nil_l in Hf. eexists. rewrite Hf. cbn [mbind result_bind].
    rewrite Hmd, bool_decide_eq_true_2 by reflexivity. reflexivity.
Qed.

(** ** Peer exchange *)

Definition pex_wf (p : PEXPeer) : Prop :=
  (length (p_IP p) = 4%nat \/ length (p_IP p) = 16%nat /\ To4 (p_IP p) = None) /\
  0 <= p_Port p < 65536.

Definition is4 (p : PEXPeer) : Prop := length (p_IP p) = 4%nat.
#[global] Instance is4_dec p : Decision (is4 p).
Proof. unfold is4. apply _. Defined.

Definition pex_record (p : PEXPeer) : bytes := p_IP p ++ be_put 2 (p_Port p).

Lemma omap_records (rec : PEXPeer -> option bytes) (P : PEXPeer -> Prop)
    `{!forall p, Decision (P p)} ps :
  (forall p, p ∈ ps -> rec p = if decide (P p) then Some (pex_record p) else None) ->
  omap rec ps = pex_record <$> filter P ps /\ encode_flags rec ps = flag <$> filter P ps.
Proof.
  unfold encode_flags. induction ps as [|p ps IH]; intros Hrec; [done|].
  destruct IH as [IH1 IH2]; [intros q Hq; apply Hrec; by right|].
  cbn [omap list_omap]. rewrite filter_cons, (Hrec p) by left.
  destruct (decide (P p)); cbn [fmap option_fmap option_map list_fmap]; by rewrite <- ?IH1, <- ?IH2.
Qed.

Lemma v4_records ps :
  Forall pex_wf ps ->
  omap v4_record ps = pex_record <$> filter is4 ps /\
  encode_flags v4_record ps = flag <$> filter is4 ps.
Proof.
  intros Hps. apply omap_records. intros p Hp. unfold v4_record, is4.
  destruct (proj1 (Forall_forall _ _) Hps p Hp) as [[H4|[H16 Hn]] _].
  - by rewrite To4_4, decide_True.
  - by rewrite Hn, decide_False by lia.
Qed.

Lemma v6_records ps :
  Forall pex_wf ps ->
  omap v6_record ps = pex_record <$> filter (fun p => ~ is4 p) ps /\
  encode_flags v6_record ps = flag <$> filter (fun p => ~ is4 p) ps.
Proof.
  intros Hps. apply omap_records. intros p Hp. unfold v6_record, is4.
  destruct (proj1 (Forall_forall _ _) Hps p Hp) as [[H4|[H16 Hn]] _].
  - by rewrite To4_4, decide_False by tauto.
  - by rewrite Hn, To16_16, decide_True by lia.
Qed.

Lemma pex_peer_record w p i fl :
  length (p_IP p) = w -> 0 <= p_Port p < 65536 ->
  fl !! i = Some (flag p) \/ fl = [] /\ Seed p = false ->
  pex_peer w fl i (pex_record p) = p.
Proof.
  intros Hw Hp Hfl. unfold pex_peer, pex_record.
  rewrite take_app_length', drop_app_length', be_get_put, Z.mod_small by (done || lia).
  destruct p as [ip port seed]; simpl in *. f_equal.
  destruct Hfl as [->|[-> ->]]; [|done]. unfold flag. by destruct seed.
Qed.

(** Decoding one field of the dictionary gives back the peers it was made of. *)
Lemma decode_field_records (w : nat) (d : gmap bytes any) (key fl : bytes) (ps : list PEXPeer) :
  Forall (fun p => length (p_IP p) = w /\ 0 <= p_Port p < 65536) ps -> len ps <= maxPEXPeers ->
  d !! key = (if 0 <? len (concat (pex_record <$> ps))
              then Some (AStr (concat (pex_record <$> ps))) else None) ->
  (fl = flag <$> ps \/ fl = [] /\ Forall (fun p => Seed p = false) ps) ->
  decode_field w d key fl = Ok ps.
Proof.
  intros Hps Hmax Hkey Hfl.
  assert (Hrec : Forall (fun r => length r = (w + 2)%nat) (pex_record <$> ps)).
  { apply Forall_fmap. eapply Forall_impl; [exact Hps|]. intros p [Hl _].
    change (length (p_IP p ++ be_put 2 (p_Port p)) = (w + 2)%nat).
    rewrite length_app, length_be_put. lia. }
  pose proof (concat_length_k _ _ Hrec) as Hlen. rewrite length_fmap in Hlen.
  unfold decode_field. rewrite Hkey.
  destruct (Z.ltb_spec 0 (len (concat (pex_record <$> ps)))) as [Hpos|Hzero]; last first.
  { destruct ps; [done|]. simpl in *. lia. }
  cbn [as_str]. replace (len (concat (pex_record <$> ps))) with (len ps * Z.of_nat (w + 2)) by lia.
  rewrite Z.mod_mul, Z.div_mul, Nat2Z.id by lia. cbn [Z.eqb negb].
  rewrite (proj2 (Z.ltb_ge _ _)) by lia.
  rewrite <- (length_fmap pex_record ps), chunks_concat by done. f_equal.
  apply list_eq. intros i. rewrite list_lookup_imap, list_lookup_fmap.
  destruct (ps !! i) as [p|] eqn:Ep; [|done]. cbn. f_equal.
  destruct (Forall_lookup_1 _ _ _ _ Hps Ep) as [? ?]. apply pex_peer_record; [done..|].
  destruct Hfl as [->|[-> Hs]]; [left; by rewrite list_lookup_fmap, Ep|right].
  split; [done|]. exact (Forall_lookup_1 _ _ _ _ Hs Ep).
Qed.

Definition fam4 (ps : list PEXPeer) : list PEXPeer := filter is4 ps.
Definition fam6 (ps : list PEXPeer) : list PEXPeer := filter (fun p => ~ is4 p) ps.

(** The string of one address family. *)
Definition field (ps : list PEXPeer) : bytes := concat (pex_record <$> ps).

Lemma encode_fields (ps : list PEXPeer) :
  Forall pex_wf ps ->
  encodeAddedV4 ps = (field (fam4 ps), flag <$> fam4 ps) /\
  encodeAddedV6 ps = (field (fam6 ps), flag <$> fam6 ps) /\
  encodeDroppedV4 ps = field (fam4 ps) /\ encodeDroppedV6 ps = field (fam6 ps).
Proof.
  intros H. destruct (v4_records ps H) as [H4 F4]. destruct (v6_records ps H) as [H6 F6].
  unfold encodeAddedV4, encodeAddedV6, encodeDroppedV4, encodeDroppedV6, encode_peers, field, fam4, fam6.
  rewrite H4, H6, F4, F6. done.
Qed.

Lemma pex_lookup (msg : PEXMessage) :
  Forall pex_wf (Added msg) -> Forall pex_wf (Dropped msg) ->
  let get (s : bytes) (v : bytes) := if 0 <? len s then Some (AStr v) else None in
  pex_dict msg !! lit "added" = get (field (fam4 (Added msg))) (field (fam4 (Added msg))) /\
  pex_dict msg !! lit "added.f" = get (field (fam4 (Added msg))) (flag <$> fam4 (Added msg)) /\
  pex_dict msg !! lit "added6" = get (field (fam6 (Added msg))) (field (fam6 (Added msg))) /\
  pex_dict msg !! lit "added6.f" = get (field (fam6 (Added msg))) (flag <$> fam6 (Added msg)) /\
  pex_dict msg !! lit "dropped" = get (field (fam4 (Dropped msg))) (field (fam4 (Dropped msg))) /\
  pex_dict msg !! lit "dropped6" = get (field (fam6 (Dropped msg))) (field (fam6 (Dropped msg))).
Proof.
  intros Ha Hd get. unfold pex_dict, put_nonempty, get.
  destruct (encode_fields _ Ha) as (-> & -> & _). destruct (encode_fields _ Hd) as (_ & _ & -> & ->).
  assert (Hnil : forall ps : list PEXPeer, (0 <? len ps) = false -> ps = []).
  { intros [|p ps] Hl; [done|]. bool_prop. simpl in *. lia. }
  destruct (0 <? len (Added msg)) eqn:Ea; [|apply Hnil in Ea; rewrite Ea];
    (destruct (0 <? len (Dropped msg)) eqn:Ed; [|apply Hnil in Ed; rewrite Ed]); cbn zeta iota beta;
    change (0 <? len (field (fam4 []))) with false; change (0 <? len (field (fam6 []))) with false;
    repeat match goal with |- context [0 <? len (field ?x)] => destruct (0 <? len (field x)) end;
    split_and!; map_lookup; reflexivity.
Qed.

Lemma length_fam (ps : list PEXPeer) :
  len (fam4 ps) <= len ps /\ len (fam6 ps) <= len ps.
Proof. unfold fam4, fam6. split; apply inj_le, length_filter. Qed.

Lemma fam_wf (ps : list PEXPeer) :
  Forall pex_wf ps ->
  Forall (fun p => length (p_IP p) = 4%nat /\ 0 <= p_Port p < 65536) (fam4 ps) /\
  Forall (fun p => length (p_IP p) = 16%nat /\ 0 <= p_Port p < 65536) (fam6 ps).
Proof.
  intros H. split; apply Forall_forall; intros p [Hp Hin]%list_elem_of_filter;
    destruct (proj1 (Forall_forall _ _) H p Hin) as [[?|[? _]] ?]; done.
Qed.

Lemma field_length (w : nat) (ps : list PEXPeer) :
  Forall (fun p => length (p_IP p) = w /\ 0 <= p_Port p < 65536) ps ->
  len (field ps) = Z.of_nat (w + 2) * len ps.
Proof.
  intros H. unfold field. rewrite (concat_length_k (w + 2)), length_fmap; [lia|].
  apply Forall_fmap. eapply Forall_impl; [exact H|]. intros p [Hl _].
  change (length (p_IP p ++ be_put 2 (p_Port p)) = (w + 2)%nat).
  rewrite length_app, length_be_put. lia.
Qed.

(** A dictionary of at most [n] short strings. *)
Definition small (m : gmap bytes any) (n : Z) : Prop :=
  fits 0 (AMap m) /\ items (AMap m) <= n /\ Z.of_nat (size m) <= n.

Lemma small_put (m : gmap bytes any) (k s : bytes) (n : Z) :
  small m n -> n < 1000 -> len k <= MaxStringLength -> len s <= MaxStringLength ->
  small (<[k := AStr s]> m) (n + 1).
Proof.
  intros (Hf & Hi & Hs) Hn Hk Hl. split_and!.
  - apply fits_map_insert; [done|by apply fits_str|done|unfold MaxCollectionSize; lia].
  - pose proof (items_insert_le m k (AStr s)) as H. change (items (AStr s)) with 0 in H. lia.
  - rewrite map_size_insert. destruct (m !! k); unfold id; lia.
Qed.

Lemma small_mono m n n' : small m n -> n <= n' -> small m n'.
Proof. intros (? & ? & ?) Hle. split_and!; [done|lia..]. Qed.

Lemma small_pex_dict (msg : PEXMessage) :
  Forall pex_wf (Added msg) -> Forall pex_wf (Dropped msg) ->
  len (Added msg) <= maxPEXPeers -> len (Dropped msg) <= maxPEXPeers -> small (pex_dict msg) 6.
Proof.
  intros Ha Hd La Ld. unfold pex_dict, put_nonempty.
  destruct (encode_fields _ Ha) as (-> & -> & _). destruct (encode_fields _ Hd) as (_ & _ & -> & ->).
  destruct (length_fam (Added msg)), (length_fam (Dropped msg)).
  destruct (fam_wf _ Ha) as [Ha4 Ha6]. destruct (fam_wf _ Hd) as [Hd4 Hd6].
  apply field_length in Ha4, Ha6, Hd4, Hd6. unfold maxPEXPeers in *.
  assert (Hempty : small ∅ 0) by (split_and!; [by apply fits_empty_map|by vm_compute..]).
  assert (Hput : forall k s m n, small m n -> n < 6 -> len k < 20 -> len s <= 180000 ->
            small (<[k := AStr s]> m) (n + 1)).
  { intros. apply small_put; [done|lia|unfold MaxStringLength; lia..]. }
  set (d1 := if 0 <? len (Added msg) then _ else _).
  assert (Hd1 : small d1 4).
  { subst d1. destruct (0 <? len (Added msg)); [|by eapply small_mono].
    destruct (0 <? len (field (fam4 (Added msg)))), (0 <? len (field (fam6 (Added msg)))).
    1: change 4 with (0 + 1 + 1 + 1 + 1).
    2, 3: apply (small_mono _ (0 + 1 + 1)); [|lia].
    4: by eapply small_mono.
    all: repeat (apply Hput; [|lia|by vm_compute|rewrite ?length_fmap; lia]); done. }
  clearbody d1. destruct (0 <? len (Dropped msg)); [|by eapply small_mono].
  destruct (0 <? len (field (fam4 (Dropped msg)))), (0 <? len (field (fam6 (Dropped msg)))).
  1: change 6 with (4 + 1 + 1).
  2, 3: apply (small_mono _ (4 + 1)); [|lia].
  4: by eapply small_mono.
  all: repeat (apply Hput; [|lia|by vm_compute|lia]); done.
Qed.

(** A peer-exchange message with at most 10000 peers of valid addresses in each
    list is encoded and decodes to the same peers, the IPv4 ones first within
    each list; seed flags are kept for added peers and absent for dropped ones. *)
Lemma PEX_roundtrip (msg : PEXMessage) :
  Forall pex_wf (Added msg) -> Forall pex_wf (Dropped msg) ->
  Forall (fun p => Seed p = false) (Dropped msg) ->
  len (Added msg) <= maxPEXPeers -> len (Dropped msg) <= maxPEXPeers ->
  exists data, EncodePEX msg = Ok data /\
    DecodePEX data = Ok (Some (mkPEXMessage (fam4 (Added msg) ++ fam6 (Added msg))
                                            (fam4 (Dropped msg) ++ fam6 (Dropped msg)))).
Proof.
  intros Ha Hd Hseed La Ld. destruct (small_pex_dict msg Ha Hd La Ld) as (Hf & Hi & _).
  exists (enc (AMap (pex_dict msg))). split; [apply Encode_enc; by eapply fits_supported|].
  unfold DecodePEX. rewrite <- (app_nil_r (enc _)), Decode_enc by (done || unfold MaxTotalItems; lia).
  cbn [map_err mbind result_bind as_map].
  destruct (pex_lookup msg Ha Hd) as (L1 & L2 & L3 & L4 & L5 & L6).
  destruct (length_fam (Added msg)), (length_fam (Dropped msg)).
  destruct (fam_wf _ Ha) as [Ha4 Ha6]. destruct (fam_wf _ Hd) as [Hd4 Hd6].
  assert (Hflags : forall ps w, Forall (fun p => length (p_IP p) = w /\ 0 <= p_Port p < 65536) ps ->
            default [] (as_str (if 0 <? len (field ps) then Some (AStr (flag <$> ps)) else None)) =
            flag <$> ps).
  { intros ps w Hps. apply field_length in Hps. destruct (Z.ltb_spec 0 (len (field ps))); [done|].
    destruct ps; [done|]. simpl length in *. lia. }
  assert (Hdrop : forall P `{!forall p, Decision (P p)},
            Forall (fun p => Seed p = false) (filter P (Dropped msg))).
  { intros P HP. apply Forall_forall. intros p [_ Hp]%list_elem_of_filter.
    exact (proj1 (Forall_forall _ _) Hseed p Hp). }
  rewrite L2, L4, (Hflags _ _ Ha4), (Hflags _ _ Ha6).
  rewrite (decode_field_records 4 _ _ _ _ Ha4 ltac:(lia) L1) by (by left). cbn [mbind result_bind].
  rewrite (decode_field_records 16 _ _ _ _ Ha6 ltac:(lia) L3) by (by left). cbn [mbind result_bind].
  rewrite (decode_field_records 4 _ _ [] _ Hd4 ltac:(lia) L5) by (right; split; [done|apply Hdrop]).
  cbn [mbind result_bind].
  rewrite (decode_field_records 16 _ _ [] _ Hd6 ltac:(lia) L6) by (right; split; [done|apply Hdrop]).
  done.
Qed.

(** *** Concrete exchanges *)

Definition demo_pex : PEXMessage :=
  mkPEXMessage [mkPEXPeer (replicate 15 x00 ++ [x01]) 80 false; mkPEXPeer [x0a; x00; x00; x01] 6881 true]
               [mkPEXPeer [x0a; x00; x00; x02] 6882 false].

Lemma PEX_roundtrip_witness :
  exists data, EncodePEX demo_pex = Ok data /\
    DecodePEX data = Ok (Some (mkPEXMessage
      [mkPEXPeer [x0a; x00; x00; x01] 6881 true; mkPEXPeer (replicate 15 x00 ++ [x01]) 80 false]
      [mkPEXPeer [x0a; x00; x00; x02] 6882 false])).
Proof.
  assert (W : Forall pex_wf (Added demo_pex)).
  { constructor; [split; [right; by vm_compute|simpl; lia]|].
    constructor; [split; [by left|simpl; lia]|constructor]. }
  assert (D : Forall pex_wf (Dropped demo_pex)).
  { constructor; [split; [by left|simpl; lia]|constructor]. }
  apply (PEX_roundtrip demo_pex W D); [repeat constructor|by vm_compute..].
Defined.

(** Metadata of three bytes; the peer sends a keep-alive and a have message first. *)
Definition demo_blocks : list (list (option Message) * bytes) :=
  [([None; Some (NewHaveMessage 7)], lit "abc")].

Lemma demo_honest : honest 1 0 3 demo_blocks.
Proof.
  cbn [honest demo_blocks]. split_and!; [|by vm_compute|by left|done].
  repeat (apply Forall_cons; split); [..|by apply Forall_nil].
  - by split.
  - split; [by vm_compute|left; by vm_compute].
Qed.

Lemma FetchMetadata_complete_witness :
  exists c', FetchMetadata id (mkExtConn (mkConn (answers 1 0 3 demo_blocks ++ []) [] 1) 1 3)
      3 (lit "abc") = Ok (lit "abc", c').
Proof.
  apply (FetchMetadata_complete id (lit "abc") demo_blocks 1 3 [] [] 1);
    [lia|unfold MaxMetadataSize; simpl; lia|reflexivity|reflexivity|exact demo_honest|simpl; lia].
Defined.

Lemma FetchMetadata_sound_witness :
  0 < 3 <= MaxMetadataSize /\ len (lit "abc") = 3 /\ id (lit "abc") = lit "abc".
Proof.
  set (c := mkExtConn (mkConn (answers 1 0 3 demo_blocks) [] 1) 1 3).
  apply (FetchMetadata_sound id c
           (mkExtConn (mkConn [] (default [] ((fun r => tx (rw r.2)) <$>
              match FetchMetadata id c 3 (lit "abc") with Ok r => Some r | Err _ => None end)) 0) 1 3)).
  by vm_compute.
Defined.

(** The sub-ID a peer announces is truncated to eight bits after the test for
    zero: 256 is accepted and messages are then sent as handshakes. *)
Lemma Negotiate_truncates :
  exists c hs,
    NegotiateExtension
      (mkConn (Write (NewExtendedMessage 0 (lit "d1:md11:ut_metadatai256eee"))) [] 1)
      (lit "ut_metadata") 1 (mkExtHandshake {[ lit "ut_metadata" := 1 ]} 0 []) = Ok (c, hs) /\
    remoteExtID c = 0.
Proof.
  set (res := NegotiateExtension _ _ _ _).
  assert (H : match res with Ok (c, _) => remoteExtID c = 0 | Err _ => False end) by (by vm_compute).
  clearbody res. destruct res as [[c hs]|]; [|done]. by exists c, hs.
Qed.
