(* ===== verification/Client.v ===== *)
(** * The peer client ([download/download.go])

    One connection of a download worker: what it knows about the peer, the choke
    state, the request pipeline and [DownloadPiece].  What [peer.ReadMessage]
    returns, call after call, is the list [inp] of messages ([None] for a
    keep-alive); the list's end is the read error that ends the connection.
    [out] is what was written, [wleft] how many more messages can be written
    before a write fails.  Speed counters do not influence anything but the
    pipeline depth, whose rate is an argument.  An error carries no client: the
    worker closes the connection on every error of [DownloadPiece]. *)

From S2P Require Import Prelude Bitfield Wire Extension PieceQueue.
Set Warnings "-clear-no-such-hyp".
Local Open Scope Z_scope.

Definition BlockSize : Z := 16384.
Definition DefaultMaxPipeline : Z := 16.
Definition DefaultPipelineMin : Z := 4.
Definition DefaultPipelineMax : Z := 256.
Definition DefaultPipelineWindowSecs : Z := 3.
Definition maxUnexpectedMessages : Z := 100.

(** ** Pipeline depth *)

Record DownloadConfig := mkConfig {
  MaxPipeline : Z; PipelineMin : Z; PipelineMax : Z; PipelineWindowSecs : Z
}.

Definition resolvePipeline (cfg : DownloadConfig) : Z * Z * Z :=
  let minP := PipelineMin cfg in
  let maxP := PipelineMax cfg in
  let windowSecs := PipelineWindowSecs cfg in
  let legacy := if MaxPipeline cfg <=? 0 then DefaultMaxPipeline else MaxPipeline cfg in
  let '(minP, maxP) :=
    if (minP <=? 0) && (maxP <=? 0) then (legacy, legacy)
    else if maxP <=? 0 then (minP, if legacy <? minP then minP else legacy)
    else if minP <=? 0 then
      (if maxP <? DefaultPipelineMin then maxP else DefaultPipelineMin, maxP)
    else (minP, maxP) in
  let windowSecs := if windowSecs <=? 0 then DefaultPipelineWindowSecs else windowSecs in
  let minP := if maxP <? minP then maxP else minP in
  (minP, maxP, windowSecs).

Definition pipelineTarget (rate windowSecs minP maxP : Z) : Z :=
  let windowSecs := if windowSecs <=? 0 then DefaultPipelineWindowSecs else windowSecs in
  let minP := if minP <? 1 then 1 else minP in
  let maxP := if maxP <? minP then minP else maxP in
  let rate := if rate <? 0 then 0 else rate in
  let target := Z.quot (i64 (rate * windowSecs)) BlockSize in
  let target := if target <? minP then minP else target in
  if maxP <? target then maxP else target.

(** ** The client *)

Record Client := mkClient {
  bitfield : option Bitfield;         (** nil until a bitfield message *)
  haveAll : bool;
  choked : bool;                      (** by the peer *)
  choking : bool;                     (** the peer *)
  sentInterested : bool;
  maxPipeline : Z; pipelineMin : Z; pipelineMax : Z; pipelineWindow : Z;
  numPieces : Z;
  pexRemoteID : Z;
  peerSink : list (list PEXPeer);     (** batches handed to [PeerSink] *)
  inp : list (option Message);
  out : list Message;
  wleft : nat
}.

Definition set_known (bf : option Bitfield) (all : bool) (c : Client) : Client :=
  mkClient bf all (choked c) (choking c) (sentInterested c) (maxPipeline c) (pipelineMin c)
    (pipelineMax c) (pipelineWindow c) (numPieces c) (pexRemoteID c) (peerSink c) (inp c) (out c)
    (wleft c).
Definition set_choked (b : bool) (c : Client) : Client :=
  mkClient (bitfield c) (haveAll c) b (choking c) (sentInterested c) (maxPipeline c) (pipelineMin c)
    (pipelineMax c) (pipelineWindow c) (numPieces c) (pexRemoteID c) (peerSink c) (inp c) (out c)
    (wleft c).
Definition set_choking (b : bool) (c : Client) : Client :=
  mkClient (bitfield c) (haveAll c) (choked c) b (sentInterested c) (maxPipeline c) (pipelineMin c)
    (pipelineMax c) (pipelineWindow c) (numPieces c) (pexRemoteID c) (peerSink c) (inp c) (out c)
    (wleft c).
Definition set_interested (b : bool) (c : Client) : Client :=
  mkClient (bitfield c) (haveAll c) (choked c) (choking c) b (maxPipeline c) (pipelineMin c)
    (pipelineMax c) (pipelineWindow c) (numPieces c) (pexRemoteID c) (peerSink c) (inp c) (out c)
    (wleft c).
Definition set_pex (id : Z) (sink : list (list PEXPeer)) (c : Client) : Client :=
  mkClient (bitfield c) (haveAll c) (choked c) (choking c) (sentInterested c) (maxPipeline c)
    (pipelineMin c) (pipelineMax c) (pipelineWindow c) (numPieces c) id sink (inp c) (out c) (wleft c).
Definition set_inp (l : list (option Message)) (c : Client) : Client :=
  mkClient (bitfield c) (haveAll c) (choked c) (choking c) (sentInterested c) (maxPipeline c)
    (pipelineMin c) (pipelineMax c) (pipelineWindow c) (numPieces c) (pexRemoteID c) (peerSink c)
    l (out c) (wleft c).

(** [msg.Write] and [Flush]: [None] when the connection no longer takes writes. *)
Definition send (m : Message) (c : Client) : option Client :=
  match wleft c with
  | O => None
  | S n => Some (mkClient (bitfield c) (haveAll c) (choked c) (choking c) (sentInterested c)
                   (maxPipeline c) (pipelineMin c) (pipelineMax c) (pipelineWindow c) (numPieces c)
                   (pexRemoteID c) (peerSink c) (inp c) (out c ++ [m]) n)
  end.

Definition PipelineTarget (rate : Z) (c : Client) : Z :=
  let minP := pipelineMin c in
  let maxP := pipelineMax c in
  if (minP <=? 0) && (maxP <=? 0) then
    if maxPipeline c <=? 0 then DefaultMaxPipeline else maxPipeline c
  else
    let minP := if minP <=? 0 then DefaultPipelineMin else minP in
    let maxP := if maxP <=? 0
                then (if maxPipeline c <=? 0 then DefaultPipelineMax else maxPipeline c) else maxP in
    let window := if pipelineWindow c <=? 0 then DefaultPipelineWindowSecs else pipelineWindow c in
    pipelineTarget rate window minP maxP.

Definition ValidateBitfield (numPieces : Z) (c : Client) : bool :=
  if haveAll c || (len (default [] (bitfield c)) =? 0) then true
  else len (default [] (bitfield c)) =? (numPieces + 7) / 8.

(** [Client.HasPiece]: a nil bitfield is empty here. *)
Definition client_HasPiece (c : Client) (index : Z) : bool :=
  if haveAll c then true else HasPiece (default [] (bitfield c)) index.

Definition safeBitfieldSet (index : Z) (c : Client) : Client :=
  if haveAll c then c
  else match bitfield c with
       | Some bf => set_known (Some (SetPiece bf index).2) (haveAll c) c
       | None => c
       end.

Definition SendUnchoke (c : Client) : option Client :=
  if negb (choking c) then Some c else set_choking false <$> send (message MsgUnchoke []) c.

Definition SendChoke (c : Client) : option Client :=
  if choking c then Some c else set_choking true <$> send (message MsgChoke []) c.

Definition sendInterested (c : Client) : option Client :=
  if sentInterested c then Some c else set_interested true <$> send (message MsgInterested []) c.

Definition SendHave (index : Z) (c : Client) : option Client := send (NewHaveMessage index) c.

Definition SendBitfield (bf : Bitfield) (c : Client) : option Client :=
  if len bf =? 0 then Some c
  else if forallb (fun b => Byte.eqb b x00) bf then Some c
  else send (message MsgBitfield bf) c.

(** BEP 10 messages: the handshake response teaches the peer's [ut_pex] ID; a PEX
    message (local ID 2) hands its added peers to the sink when it takes them. *)
Definition localPexID : Z := 2.

Definition handleExtended (sink_ok : bool) (payload : bytes) (c : Client) : Client :=
  match ParseExtended payload with
  | Err _ => c
  | Ok (extID, data) =>
      if extID =? ExtHandshakeID then
        match DecodeExtHandshake data with
        | Ok hs => match M hs !! lit "ut_pex" with
                   | Some id => if 0 <? id then set_pex (wrapu 8 id) (peerSink c) c else c
                   | None => c
                   end
        | Err _ => c
        end
      else if extID =? localPexID then
        match DecodePEX data with
        | Ok (Some msg) =>
            if (0 <? len (Added msg)) && sink_ok
            then set_pex (pexRemoteID c) (peerSink c ++ [Added msg]) c else c
        | _ => c
        end
      else c
  end.

(** An incoming request while downloading; [onRequest] reads the block, if we
    have it. *)
Definition handleRequest (onRequest : option (Z -> Z -> Z -> option bytes)) (payload : bytes)
    (c : Client) : Client :=
  match onRequest with
  | None => c
  | Some onRequest =>
      match ParseRequest payload with
      | Err _ => c
      | Ok (index, begin, length) =>
          if 32 * 1024 <? length then c
          else if (0 <? numPieces c) && (numPieces c <=? index) then c
          else match onRequest index begin length with
               | None => c
               | Some block => default c (send (NewPieceMessage index begin block) c)
               end
      end
  end.

Inductive dl_error :=
  | ReadErr | WriteErr | BadPiece (e : payload_error) | TooManyUnexpected | OutOfBounds
  | PeerChoked | PeerRejected | PieceHashMismatch.

Section Transfer.
Context (sha1 : bytes -> bytes).
(** Fixed for a connection: the request handler and whether the sink takes peers. *)
Context (onRequest : option (Z -> Z -> Z -> option bytes)) (sink_ok : bool).

Definition on_have (payload : bytes) (c : Client) : Client :=
  match ParseHave payload with Ok idx => safeBitfieldSet idx c | Err _ => c end.

(** The loop of [waitForUnchoke]. *)
Fixpoint wait_unchoke (l : list (option Message)) (c : Client) : result dl_error Client :=
  if negb (choked c) then Ok (set_inp l c)
  else
    match l with
    | [] => Err ReadErr
    | None :: l => wait_unchoke l c
    | Some msg :: l =>
        let id := u8 (ID msg) in
        wait_unchoke l
          (if id =? MsgUnchoke then set_choked false c
           else if id =? MsgChoke then set_choked true c
           else if id =? MsgHave then on_have (Payload msg) c
           else if id =? MsgInterested then default c (SendUnchoke c)
           else if id =? MsgExtended then handleExtended sink_ok (Payload msg) c
           else if id =? MsgRequest then handleRequest onRequest (Payload msg) c
           else c)
    end.

(** The inner [for]: requests until the pipeline is full or all is requested. *)
Fixpoint fill_pipeline (fuel : nat) (pw : PieceWork) (target requested backlog : Z) (c : Client)
    : option (Z * Z * Client) :=
  match fuel with
  | O => Some (requested, backlog, c)
  | S fuel =>
      if (backlog <? target) && (requested <? Length pw) then
        let blockSize := if Length pw <? requested + BlockSize then Length pw - requested else BlockSize in
        match send (NewRequestMessage (Index pw) requested blockSize) c with
        | None => None
        | Some c => fill_pipeline fuel pw target (requested + blockSize) (backlog + 1) c
        end
      else Some (requested, backlog, c)
  end.

(** Enough for every request that can still be made. *)
Definition fill_fuel (pw : PieceWork) (requested : Z) : nat :=
  Z.to_nat ((Length pw - requested) / BlockSize + 1).

(** The main loop of [DownloadPiece]; one message per iteration.  [rates l] is
    the download rate when the messages [l] are still to be read. *)
Fixpoint download_loop (rates : nat -> Z) (pw : PieceWork) (l : list (option Message)) (buf : bytes)
    (downloaded requested backlog noProgress : Z) (c : Client) : result dl_error (bytes * Client) :=
  if downloaded <? Length pw then
    let target := PipelineTarget (rates (length l)) c in
    match fill_pipeline (fill_fuel pw requested) pw target requested backlog c with
    | None => Err WriteErr
    | Some (requested, backlog, c) =>
        match l with
        | [] => Err ReadErr
        | None :: l => download_loop rates pw l buf downloaded requested backlog noProgress c
        | Some msg :: l =>
            let id := u8 (ID msg) in
            let next := download_loop rates pw l buf downloaded requested backlog noProgress in
            if id =? MsgPiece then
              match ParsePiece (Payload msg) with
              | Err e => Err (BadPiece e)
              | Ok (idx, begin, block) =>
                  if negb (idx =? Index pw) then
                    let backlog := backlog - 1 in
                    let noProgress := noProgress + 1 in
                    if maxUnexpectedMessages <? noProgress then Err TooManyUnexpected
                    else download_loop rates pw l buf downloaded
                           (if backlog <=? 0 then downloaded else requested) backlog noProgress c
                  else if len buf <? begin + len block then Err OutOfBounds
                  else download_loop rates pw l (splice buf (Z.to_nat begin) block)
                         (downloaded + len block) requested (backlog - 1) 0 c
              end
            else if id =? MsgChoke then Err PeerChoked
            else if id =? MsgUnchoke then next (set_choked false c)
            else if id =? MsgHave then next (on_have (Payload msg) c)
            else if id =? MsgInterested then next (default c (SendUnchoke c))
            else if id =? MsgRequest then next (handleRequest onRequest (Payload msg) c)
            else if id =? MsgReject then Err PeerRejected
            else if id =? MsgExtended then next (handleExtended sink_ok (Payload msg) c)
            else next c
        end
    end
  else if bool_decide (sha1 buf = Hash pw) then Ok (buf, set_inp l c)
  else Err PieceHashMismatch.

(** [pool] is the buffer taken from the piece pool, with whatever a previous
    piece left in it. *)
Definition DownloadPiece (rates : nat -> Z) (pool : bytes) (pw : PieceWork) (c : Client)
    : result dl_error (bytes * Client) :=
  match sendInterested c with
  | None => Err WriteErr
  | Some c =>
      c ← wait_unchoke (inp c) c;
      download_loop rates pw (inp c) (slice pool 0 (Length pw)) 0 0 0 0 c
  end.

(** The initial messages of [newClientFull]: [n] of them, at most three, arrive
    before the deadline. *)
Fixpoint init_messages (n : nat) (l : list (option Message)) (c : Client) : Client :=
  match n, l with
  | S n, None :: l => init_messages n l c
  | S n, Some msg :: l =>
      let id := u8 (ID msg) in
      if id =? MsgBitfield then init_messages n l (set_known (Some (Payload msg)) false c)
      else if id =? MsgHaveAll then init_messages n l (set_known (bitfield c) true c)
      else if id =? MsgHaveNone then init_messages n l (set_known (Some []) false c)
      else if id =? MsgExtended then init_messages n l (handleExtended sink_ok (Payload msg) c)
      else if id =? MsgUnchoke then init_messages n l (set_choked false c)
      else if id =? MsgInterested then init_messages n l c
      else set_inp l c
  | _, _ => set_inp l c
  end.

End Transfer.

(** A client as [newClientFull] builds it, before the first message. *)
Definition new_client (input : list (option Message)) (room : nat) : Client :=
  mkClient None false true true false DefaultMaxPipeline 0 0 0 0 0 [] input [] room.
