(* ===== verification/ClientTheorems.v ===== *)
(** * Properties of the peer client *)

From S2P Require Import Prelude Bitfield Wire Extension PieceQueue Client.
Set Warnings "-clear-no-such-hyp".
Local Open Scope Z_scope.

(** ** Pipeline *)

Lemma pipelineTarget_bounds rate w minP maxP :
  1 <= minP <= maxP -> minP <= pipelineTarget rate w minP maxP <= maxP.
Proof.
  intros H. unfold pipelineTarget. rewrite (proj2 (Z.ltb_ge minP 1)), (proj2 (Z.ltb_ge maxP minP)) by lia.
  set (t := Z.quot _ _). destruct (Z.ltb_spec t minP); destruct (Z.ltb_spec maxP minP);
    destruct (Z.ltb_spec maxP t); lia.
Qed.

Lemma PipelineTarget_pos rate c : 1 <= PipelineTarget rate c.
Proof.
  unfold PipelineTarget, DefaultMaxPipeline, DefaultPipelineMin, DefaultPipelineMax.
  destruct (Z.leb_spec (pipelineMin c) 0), (Z.leb_spec (pipelineMax c) 0); cbn [andb].
  - destruct (Z.leb_spec (maxPipeline c) 0); lia.
  - unfold pipelineTarget. repeat case_match; bool_prop; lia.
  - unfold pipelineTarget. repeat case_match; bool_prop; lia.
  - unfold pipelineTarget. repeat case_match; bool_prop; lia.
Qed.

Lemma resolvePipeline_bounds cfg :
  let '(minP, maxP, w) := resolvePipeline cfg in 1 <= minP <= maxP /\ 1 <= w.
Proof.
  unfold resolvePipeline, DefaultMaxPipeline, DefaultPipelineMin, DefaultPipelineWindowSecs.
  repeat case_match; simplify_eq; bool_prop; lia.
Qed.

(** ** Requests *)

(** Writing a list of messages, when there is room for them. *)
Definition sent (ms : list Message) (c : Client) : Client :=
  mkClient (bitfield c) (haveAll c) (choked c) (choking c) (sentInterested c) (maxPipeline c)
    (pipelineMin c) (pipelineMax c) (pipelineWindow c) (numPieces c) (pexRemoteID c) (peerSink c)
    (inp c) (out c ++ ms) (wleft c - length ms).

Lemma sent_nil c : sent [] c = c.
Proof. destruct c. unfold sent. cbn. by rewrite app_nil_r, Nat.sub_0_r. Qed.

Lemma sent_app ms1 ms2 c : sent ms2 (sent ms1 c) = sent (ms1 ++ ms2) c.
Proof. unfold sent. cbn. by rewrite <- (assoc_L (++)), length_app, Nat.sub_add_distr. Qed.

Lemma send_sent m c : (0 < wleft c)%nat -> send m c = Some (sent [m] c).
Proof. intros H. unfold send, sent. destruct (wleft c) as [|n]; [lia|]. cbn. by rewrite Nat.sub_0_r. Qed.

(** The blocks of a piece of [n] bytes: how many, where the [k]-th starts and the
    request for it. *)
Definition num_blocks (n : Z) : nat := Z.to_nat ((n + BlockSize - 1) / BlockSize).
Definition block_off (n : Z) (k : nat) : Z := Z.min (Z.of_nat k * BlockSize) n.
Definition block_request (pw : PieceWork) (k : nat) : Message :=
  NewRequestMessage (Index pw) (block_off (Length pw) k)
    (block_off (Length pw) (S k) - block_off (Length pw) k).

Lemma num_blocks_spec n k : 0 <= n -> (k < num_blocks n)%nat <-> Z.of_nat k * BlockSize < n.
Proof.
  intros H. unfold num_blocks, BlockSize.
  pose proof (Z.div_mod (n + 16384 - 1) 16384 ltac:(lia)).
  pose proof (Z.mod_pos_bound (n + 16384 - 1) 16384 ltac:(lia)). lia.
Qed.

Lemma block_off_lt n k : 0 <= n -> (k < num_blocks n)%nat ->
  block_off n k = Z.of_nat k * BlockSize /\ 0 <= block_off n k < block_off n (S k) /\
  block_off n (S k) <= n /\ block_off n (S k) - block_off n k <= BlockSize.
Proof. intros H Hk%num_blocks_spec; [|done]. unfold block_off, BlockSize in *. lia. Qed.

Lemma block_off_end n k : 0 <= n -> (num_blocks n <= k)%nat -> block_off n k = n.
Proof. intros H Hk. pose proof (num_blocks_spec n k H). unfold block_off. lia. Qed.

Lemma block_off_0 n : 0 <= n -> block_off n 0 = 0.
Proof. unfold block_off. lia. Qed.

(** The request loop asks for the next blocks in order, and stops only when the
    pipeline is full or the whole piece has been requested. *)
Lemma fill_pipeline_exact fuel pw target k backlog c :
  0 <= Length pw -> (k <= num_blocks (Length pw))%nat ->
  (num_blocks (Length pw) - k <= fuel)%nat -> (num_blocks (Length pw) - k <= wleft c)%nat ->
  exists j, (k + j <= num_blocks (Length pw))%nat /\
    ((k + j)%nat = num_blocks (Length pw) \/ target <= backlog + Z.of_nat j) /\
    fill_pipeline fuel pw target (block_off (Length pw) k) backlog c =
      Some (block_off (Length pw) (k + j), backlog + Z.of_nat j,
            sent (block_request pw <$> seq k j) c).
Proof.
  intros HL. revert k backlog c. induction fuel as [|fuel IH]; intros k backlog c Hk Hf Hw.
  { exists 0%nat. split_and!; [lia|lia|]. cbn [fill_pipeline seq fmap list_fmap].
    by rewrite sent_nil, Z.add_0_r, Nat.add_0_r. }
  cbn [fill_pipeline].
  assert (Hstop : fill_pipeline (S fuel) pw target (block_off (Length pw) k) backlog c =
            Some (block_off (Length pw) k, backlog, c) ->
          (k = num_blocks (Length pw) \/ target <= backlog) ->
          exists j, (k + j <= num_blocks (Length pw))%nat /\
            ((k + j)%nat = num_blocks (Length pw) \/ target <= backlog + Z.of_nat j) /\
            fill_pipeline (S fuel) pw target (block_off (Length pw) k) backlog c =
              Some (block_off (Length pw) (k + j), backlog + Z.of_nat j,
                    sent (block_request pw <$> seq k j) c)).
  { intros E Hend. exists 0%nat. rewrite E. cbn [seq fmap list_fmap].
    rewrite sent_nil, Z.add_0_r, Nat.add_0_r. split_and!; [lia|lia|done]. }
  cbn [fill_pipeline] in Hstop.
  destruct (Z.ltb_spec backlog target); cbn [andb] in *; [|apply Hstop; [done|lia]].
  destruct (decide (k = num_blocks (Length pw))) as [->|Hne].
  { rewrite block_off_end in Hstop |- * by lia. rewrite Z.ltb_irrefl in *. apply Hstop; [done|lia]. }
  clear Hstop. destruct (block_off_lt (Length pw) k) as (Ek & H0 & H1 & H2); [done|lia|].
  rewrite (proj2 (Z.ltb_lt _ (Length pw))) by lia.
  assert (Hbs : (if Length pw <? block_off (Length pw) k + BlockSize
                 then Length pw - block_off (Length pw) k else BlockSize) =
                block_off (Length pw) (S k) - block_off (Length pw) k).
  { rewrite Ek. unfold block_off. destruct (Z.ltb_spec (Length pw) (Z.of_nat k * BlockSize + BlockSize)); lia. }
  rewrite Hbs. fold (block_request pw k). rewrite send_sent by lia.
  rewrite Z.add_sub_assoc, Z.add_simpl_l.
  destruct (IH (S k) (backlog + 1) (sent [block_request pw k] c)) as (j & Hj & Hend & ->); [lia|lia|cbn; lia|].
  exists (S j). rewrite sent_app. rewrite Nat.add_succ_r, Nat2Z.inj_succ.
  split_and!; [lia|lia|]. cbn [seq fmap list_fmap app]. replace (backlog + Z.succ (Z.of_nat j)) with (backlog + 1 + Z.of_nat j) by lia. reflexivity.
Qed.

Lemma fill_fuel_enough pw k :
  0 <= Length pw -> (num_blocks (Length pw) - k <= fill_fuel pw (block_off (Length pw) k))%nat.
Proof.
  intros H. unfold fill_fuel, num_blocks, block_off, BlockSize.
  pose proof (Z.div_mod (Length pw + 16384 - 1) 16384 ltac:(lia)).
  pose proof (Z.mod_pos_bound (Length pw + 16384 - 1) 16384 ltac:(lia)).
  set (r := Length pw - Z.min (Z.of_nat k * 16384) (Length pw)).
  pose proof (Z.div_mod r 16384 ltac:(lia)). pose proof (Z.mod_pos_bound r 16384 ltac:(lia)). lia.
Qed.

(** ** What is returned is verified *)

Section Transfer.
Context (sha1 : bytes -> bytes).
Context (onRequest : option (Z -> Z -> Z -> option bytes)) (sink_ok : bool).
Implicit Types (pw : PieceWork) (c : Client) (l : list (option Message)).

Lemma ParsePiece_begin payload idx begin block :
  ParsePiece payload = Ok (idx, begin, block) -> 0 <= begin.
Proof.
  unfold ParsePiece. case_match; [done|]. intros [= <- <- <-].
  apply (be_get_range (slice payload 4 8)).
Qed.

Lemma download_loop_sound rates pw l : forall buf d r b n c data c',
  download_loop sha1 onRequest sink_ok rates pw l buf d r b n c = Ok (data, c') ->
  length data = length buf /\ sha1 data = Hash pw.
Proof.
  induction l as [|m l IH]; intros buf d r b n c data c'; cbn [download_loop]; intros Hd;
    (destruct (d <? Length pw);
      [|case_bool_decide; [injection Hd as <- <-; done|done]]);
    (destruct (fill_pipeline _ _ _ _ _ _) as [[[r' b'] c1]|]; [|done]).
  { done. }
  destruct m as [msg|]; [|by apply IH in Hd].
  repeat (case_match; try done); try (by apply IH in Hd); simplify_eq.
  apply IH in Hd as (-> & ?). bool_prop. split; [|done]. apply length_splice.
  match goal with H : ParsePiece _ = _ |- _ => apply ParsePiece_begin in H end. lia.
Qed.

(** ** An honest peer *)

(** Messages that do not disturb a download: everything but (un)choke, piece,
    reject, and those answered with a message of our own. *)
Definition harmless (m : option Message) : bool :=
  match m with
  | None => true
  | Some msg => negb (existsb (Z.eqb (u8 (ID msg)))
      [MsgChoke; MsgUnchoke; MsgInterested; MsgRequest; MsgPiece; MsgReject])
  end.

(** The peer sends the blocks of [D] from the [k]-th on, in order, with harmless
    messages between them, and then [rest]. *)
Inductive delivers (pw : PieceWork) (D : bytes) (rest : list (option Message))
    : nat -> list (option Message) -> Prop :=
  | delivers_done : delivers pw D rest (num_blocks (Length pw)) rest
  | delivers_noise k m l :
      harmless m = true -> (k < num_blocks (Length pw))%nat -> delivers pw D rest k l ->
      delivers pw D rest k (m :: l)
  | delivers_block k l :
      (k < num_blocks (Length pw))%nat -> delivers pw D rest (S k) l ->
      delivers pw D rest k
        (Some (NewPieceMessage (Index pw) (block_off (Length pw) k)
           (slice D (block_off (Length pw) k) (block_off (Length pw) (S k)))) :: l).

(** What such messages leave alone. *)
Definition same_io (c c' : Client) : Prop :=
  out c' = out c /\ wleft c' = wleft c /\ choked c' = choked c.

Lemma same_io_sent c c1 ms : same_io c c1 -> same_io (sent ms c) (sent ms c1).
Proof. unfold same_io, sent. cbn. intros (-> & -> & ->). done. Qed.

Lemma same_io_on_have p c : same_io c (on_have p c).
Proof. unfold same_io, on_have, safeBitfieldSet. repeat case_match; done. Qed.

Lemma same_io_handleExtended b p c : same_io c (handleExtended b p c).
Proof. unfold same_io, handleExtended. repeat case_match; done. Qed.

Lemma wait_unchoke_noise noise l c :
  choked c = true -> forallb harmless noise = true ->
  exists c', wait_unchoke onRequest sink_ok (noise ++ Some (message MsgUnchoke []) :: l) c = Ok c' /\
    inp c' = l /\ out c' = out c /\ wleft c' = wleft c.
Proof.
  revert c. induction noise as [|m noise IH]; intros c Hc; cbn [forallb app wait_unchoke];
    rewrite Hc; cbn [negb]; intros Hn.
  { destruct l; cbn; eexists; split; [reflexivity| |reflexivity|]; done. }
  apply andb_prop in Hn as [Hm Hn]. destruct m as [msg|]; [|by apply IH].
  unfold harmless in Hm. cbn [existsb] in Hm. apply negb_true_iff in Hm. rewrite !orb_false_iff in Hm.
  destruct Hm as (H0 & H1 & H2 & H6 & _). rewrite H0, H1, H2, H6.
  destruct (u8 (ID msg) =? MsgHave).
  { destruct (same_io_on_have (Payload msg) c) as (Eo & Ew & Ec).
    rewrite <- Eo, <- Ew. apply IH; [congruence|done]. }
  destruct (u8 (ID msg) =? MsgExtended); [|by apply IH].
  destruct (same_io_handleExtended sink_ok (Payload msg) c) as (Eo & Ew & Ec).
  rewrite <- Eo, <- Ew. apply IH; [congruence|done].
Qed.

Lemma download_loop_noise rates pw m l buf d r b n c r' b' c1 :
  harmless m = true -> d < Length pw ->
  fill_pipeline (fill_fuel pw r) pw (PipelineTarget (rates (length (m :: l))) c) r b c =
    Some (r', b', c1) ->
  exists c2, same_io c1 c2 /\
    download_loop sha1 onRequest sink_ok rates pw (m :: l) buf d r b n c =
    download_loop sha1 onRequest sink_ok rates pw l buf d r' b' n c2.
Proof.
  intros Hm Hd Hf. cbn [download_loop]. rewrite (proj2 (Z.ltb_lt _ _)) by done. rewrite Hf.
  destruct m as [msg|]; [|by exists c1].
  unfold harmless in Hm. cbn [existsb] in Hm. apply negb_true_iff in Hm. rewrite !orb_false_iff in Hm.
  destruct Hm as (H0 & H1 & H2 & H6 & H7 & H16 & _). rewrite H0, H1, H2, H6, H7, H16.
  destruct (u8 (ID msg) =? MsgHave); [eexists; split; [apply same_io_on_have|done]|].
  destruct (u8 (ID msg) =? MsgExtended); [eexists; split; [apply same_io_handleExtended|done]|].
  by exists c1.
Qed.

Lemma download_loop_block rates pw begin block l buf d r b n c r' b' c1 :
  u32 (Index pw) -> u32 begin -> begin + len block <= len buf -> d < Length pw ->
  fill_pipeline (fill_fuel pw r) pw
    (PipelineTarget (rates (S (length l))) c) r b c = Some (r', b', c1) ->
  download_loop sha1 onRequest sink_ok rates pw
    (Some (NewPieceMessage (Index pw) begin block) :: l) buf d r b n c =
  download_loop sha1 onRequest sink_ok rates pw l (splice buf (Z.to_nat begin) block)
    (d + len block) r' (b' - 1) 0 c1.
Proof.
  intros Hi Hb Hin Hd Hf. cbn [download_loop length]. rewrite (proj2 (Z.ltb_lt _ _)) by done. rewrite Hf.
  unfold NewPieceMessage, message. cbn [ID Payload].
  change (u8 (byte_of_Z MsgPiece) =? MsgPiece) with true. cbn iota.
  rewrite parse_piece_put by done. rewrite Z.eqb_refl. cbn [negb].
  by rewrite (proj2 (Z.ltb_ge _ _)) by lia.
Qed.

(** Copying the next block extends the part of the buffer that is right. *)
Lemma splice_next (buf D : bytes) (a b : Z) :
  length buf = length D -> 0 <= a <= b -> b <= len D ->
  take (Z.to_nat a) buf = take (Z.to_nat a) D ->
  take (Z.to_nat b) (splice buf (Z.to_nat a) (slice D a b)) = take (Z.to_nat b) D.
Proof.
  intros Hl Hab Hb Heq. unfold splice. rewrite Heq, length_slice by lia. unfold slice.
  rewrite (assoc_L (++)).
  rewrite (take_take_drop D (Z.to_nat a) (Z.to_nat (b - a))).
  replace (Z.to_nat a + Z.to_nat (b - a))%nat with (Z.to_nat b) by lia.
  rewrite take_app_length'; [done|]. rewrite length_take. lia.
Qed.

Lemma download_loop_complete rates pw D rest k l :
  u32 (Index pw) -> Length pw = len D -> Length pw < 2 ^ 32 -> sha1 D = Hash pw ->
  delivers pw D rest k l -> forall r buf n c,
  (k <= r <= num_blocks (Length pw))%nat -> length buf = length D ->
  take (Z.to_nat (block_off (Length pw) k)) buf = take (Z.to_nat (block_off (Length pw) k)) D ->
  (num_blocks (Length pw) - r <= wleft c)%nat ->
  exists c', download_loop sha1 onRequest sink_ok rates pw l buf (block_off (Length pw) k)
      (block_off (Length pw) r) (Z.of_nat r - Z.of_nat k) n c = Ok (D, c') /\ inp c' = rest /\
    out c' = out c ++ (block_request pw <$> seq r (num_blocks (Length pw) - r)).
Proof.
  intros Hi HL HL32 Hsha Hdel. assert (HL0 : 0 <= Length pw) by lia.
  induction Hdel as [|k m l Hm Hk Hdel IH|k l Hk Hdel IH]; intros r buf n c Hr Hbuf Htake Hw.
  - replace r with (num_blocks (Length pw)) by lia. rewrite Nat.sub_diag.
    rewrite block_off_end in Htake |- * by lia.
    rewrite !take_ge in Htake by lia. subst buf.
    exists (set_inp rest c). destruct rest; cbn [download_loop]; rewrite Z.ltb_irrefl;
      rewrite bool_decide_true by done; cbn; by rewrite app_nil_r.
  - destruct (block_off_lt (Length pw) k) as (_ & Hlt & Hle & _); [done..|].
    destruct (fill_pipeline_exact (fill_fuel pw (block_off (Length pw) r)) pw
      (PipelineTarget (rates (length (m :: l))) c) r (Z.of_nat r - Z.of_nat k) c)
      as (j & Hj & _ & Hf); [done|lia|by apply fill_fuel_enough|done|].
    destruct (download_loop_noise rates pw m l buf (block_off (Length pw) k) _ _ n c _ _ _ Hm
      ltac:(lia) Hf) as (c2 & (Eo & Ew & _) & ->).
    destruct (IH (r + j)%nat buf n c2) as (c' & E & Einp & Eout); [lia|done|done|rewrite Ew; cbn; rewrite length_fmap, length_seq; lia|].
    exists c'. split_and!; [|done|].
    + rewrite <- E. f_equal; lia.
    + rewrite Eout, Eo. cbn [sent out]. rewrite <- (assoc_L (++)), <- fmap_app, <- seq_app. repeat f_equal; lia.
  - destruct (block_off_lt (Length pw) k) as (_ & Hlt & Hle & _); [done..|].
    destruct (fill_pipeline_exact (fill_fuel pw (block_off (Length pw) r)) pw
      (PipelineTarget (rates (S (length l))) c) r (Z.of_nat r - Z.of_nat k) c)
      as (j & Hj & Hend & Hf); [done|lia|by apply fill_fuel_enough|done|].
    pose proof (PipelineTarget_pos (rates (S (length l))) c) as Hpos.
    assert (Hlen : len (slice D (block_off (Length pw) k) (block_off (Length pw) (S k))) =
                   block_off (Length pw) (S k) - block_off (Length pw) k)
      by (rewrite length_slice by lia; lia).
    erewrite download_loop_block; [|done|unfold u32; lia|rewrite Hlen; lia| |exact Hf]; [|lia].
    rewrite Hlen, Zplus_minus.
    destruct (IH (r + j)%nat (splice buf (Z.to_nat (block_off (Length pw) k))
        (slice D (block_off (Length pw) k) (block_off (Length pw) (S k)))) 0
        (sent (block_request pw <$> seq r j) c)) as (c' & E & Einp & Eout).
    + lia.
    + rewrite length_splice; [done|]. lia.
    + apply splice_next; [exact Hbuf|lia|lia|exact Htake].
    + cbn. rewrite length_fmap, length_seq. lia.
    + exists c'. split_and!; [|done|].
      * rewrite <- E. f_equal; lia.
      * rewrite Eout. cbn [sent out]. rewrite <- (assoc_L (++)), <- fmap_app, <- seq_app. repeat f_equal; lia.
Qed.
End Transfer.

(** ** What the client learns about the peer *)

(** A [have] message makes exactly its piece known, provided a bitfield covers the
    index. *)
Lemma on_have_learns index c j :
  u32 index -> haveAll c = false -> index < 8 * len (default [] (bitfield c)) ->
  client_HasPiece (on_have (be_put 4 index) c) j = client_HasPiece c j || (j =? index).
Proof.
  intros Hi Hall Hlt. unfold on_have. rewrite parse_have_put by done.
  unfold safeBitfieldSet, client_HasPiece. rewrite Hall.
  destruct (bitfield c) as [bf|]; cbn [from_option id] in Hlt; [|cbn in Hlt; unfold u32 in Hi; lia].
  cbn [set_known haveAll bitfield from_option id]. unfold u32 in Hi.
  rewrite HasPiece_SetPiece, (proj2 (SetPiece_flag bf index)) by lia. done.
Qed.

(** A client that got no bitfield, or an empty one (have-none), never learns: the
    [have] messages of such a peer are ignored. *)
Lemma on_have_ignored index c j :
  u32 index -> default [] (bitfield c) = [] ->
  client_HasPiece (on_have (be_put 4 index) c) j = client_HasPiece c j.
Proof.
  intros Hi Hbf. unfold on_have. rewrite parse_have_put by done.
  unfold safeBitfieldSet, client_HasPiece. destruct (haveAll c) eqn:Hall; [by rewrite Hall|].
  destruct (bitfield c) as [bf|] eqn:E; cbn in Hbf; [subst bf|by rewrite Hall, E].
  rewrite SetPiece_out_of_range by (cbn; unfold u32 in Hi; lia). done.
Qed.

(** A peer that has announced nothing has no piece for the client, but its nil
    bitfield counts as that of a seeder in [AddPeerBitfield]. *)
Lemma silent_peer_counted input room :
  let c := new_client input room in
  let pq := NewPieceQueue [mkPieceWork 0 [] 1] in
  (forall i, client_HasPiece c i = false) /\
  availability (AddPeerBitfield elements (bitfield c) pq) !! 0 = Some 1.
Proof.
  split; [|by vm_compute].
  intros i. unfold client_HasPiece. cbn [new_client haveAll bitfield from_option id].
  destruct (HasPiece [] i) eqn:E; [|done]. apply HasPiece_range in E. cbn in E. lia.
Qed.

(** ** Theorems *)

(** C4: a piece that [DownloadPiece] returns has the length of the piece and its
    hash, whatever the peer sends: foreign pieces, duplicates, blocks in any
    order. *)
Theorem DownloadPiece_sound (sha1 : bytes -> bytes) onRequest (sink_ok : bool)
    (rates : nat -> Z) (pool : bytes) (pw : PieceWork) (c c' : Client) (data : bytes) :
  0 <= Length pw <= len pool ->
  DownloadPiece sha1 onRequest sink_ok rates pool pw c = Ok (data, c') ->
  len data = Length pw /\ sha1 data = Hash pw.
Proof.
  intros HL. unfold DownloadPiece. destruct (sendInterested c) as [c1|]; [|done].
  intros (c2 & _ & Hd)%bind_ok_inv. apply download_loop_sound in Hd as (-> & ?).
  split; [|done]. rewrite length_slice by lia. lia.
Qed.

Lemma DownloadPiece_sound_witness :
  let c := new_client [Some (message MsgUnchoke []); Some (NewPieceMessage 9 0 [x07]);
             Some (NewPieceMessage 0 1 [x02]); Some (NewPieceMessage 0 0 [x01])] 5 in
  let pw := mkPieceWork 0 [x01; x02] 2 in
  exists data c', DownloadPiece (fun b => b) None true (fun _ => 0) [x00; x00; x00] pw c = Ok (data, c') /\
    len data = 2 /\ data = [x01; x02].
Proof.
  intros c pw.
  destruct (DownloadPiece (fun b => b) None true (fun _ => 0) [x00; x00; x00] pw c) as [[data c']|e] eqn:E;
    [|exfalso; revert E; by vm_compute].
  exists data, c'. split; [done|].
  apply (DownloadPiece_sound (fun b => b) None true (fun _ => 0) [x00; x00; x00] pw c c' data); [|exact E].
  cbn. lia.
Defined.

Lemma piece_complete (sha1 : bytes -> bytes) onRequest (sink_ok : bool)
    (rates : nat -> Z) (pool D : bytes) (pw : PieceWork) (c : Client)
    (noise l rest : list (option Message)) :
  u32 (Index pw) -> Length pw = len D -> Length pw < 2 ^ 32 -> sha1 D = Hash pw ->
  len D <= len pool -> choked c = true ->
  inp c = noise ++ Some (message MsgUnchoke []) :: l -> forallb harmless noise = true ->
  delivers pw D rest 0 l -> (num_blocks (Length pw) < wleft c)%nat ->
  exists c', DownloadPiece sha1 onRequest sink_ok rates pool pw c = Ok (D, c') /\ inp c' = rest /\
    out c' = out c ++ (if sentInterested c then [] else [message MsgInterested []]) ++
               (block_request pw <$> seq 0 (num_blocks (Length pw))).
Proof.
  intros Hi HL HL32 Hsha Hpool Hch Hinp Hnoise Hdel Hw. unfold DownloadPiece.
  set (int := if sentInterested c then [] else [message MsgInterested []]).
  assert (exists c1, sendInterested c = Some c1 /\ inp c1 = inp c /\ choked c1 = choked c /\
            out c1 = out c ++ int /\ (num_blocks (Length pw) <= wleft c1)%nat) as (c1 & -> & E1 & E2 & E3 & E4).
  { unfold sendInterested. subst int. destruct (sentInterested c).
    - exists c. rewrite app_nil_r. split_and!; [done..|lia].
    - rewrite send_sent by lia. eexists. split; [reflexivity|]. cbn. split_and!; [done..|lia]. }
  rewrite E1, Hinp.
  destruct (wait_unchoke_noise onRequest sink_ok noise l c1) as (c2 & -> & Ei & Eo & Ew); [congruence|done|].
  cbn [mbind result_bind]. rewrite Ei.
  destruct (download_loop_complete sha1 onRequest sink_ok rates pw D rest 0 l Hi HL HL32 Hsha Hdel 0
    (slice pool 0 (Length pw)) 0 c2) as (c' & E & Einp & Eout).
  - lia.
  - rewrite length_slice by lia. lia.
  - by rewrite block_off_0 by lia.
  - lia.
  - exists c'. split_and!; [|done|].
    + rewrite block_off_0 in E by lia. exact E.
    + by rewrite Eout, Eo, E3, Nat.sub_0_r, (assoc_L (++)).
Qed.

(** C3: from a peer that unchokes the client and sends the blocks of the piece in
    order, with have, extension and other messages in between, the piece is
    downloaded: interest is declared once, every block is requested exactly once
    and in order whatever the pipeline depth, and nothing past the last block is
    read. *)
Theorem DownloadPiece_complete (sha1 : bytes -> bytes) onRequest (sink_ok : bool)
    (rates : nat -> Z) (pool D : bytes) (pw : PieceWork) (c : Client)
    (noise l rest : list (option Message)) :
  u32 (Index pw) -> Length pw = len D -> Length pw < 2 ^ 32 -> sha1 D = Hash pw ->
  len D <= len pool -> choked c = true ->
  inp c = noise ++ Some (message MsgUnchoke []) :: l -> forallb harmless noise = true ->
  delivers pw D rest 0 l -> (num_blocks (Length pw) < wleft c)%nat ->
  exists c', DownloadPiece sha1 onRequest sink_ok rates pool pw c = Ok (D, c') /\ inp c' = rest /\
    out c' = out c ++ (if sentInterested c then [] else [message MsgInterested []]) ++
               (block_request pw <$> seq 0 (num_blocks (Length pw))).
Proof. apply piece_complete. Qed.

Lemma DownloadPiece_complete_witness :
  let D := replicate (Z.to_nat 16385) x01 in
  let pw := mkPieceWork 3 (take 2 D) 16385 in
  let c := new_client [None; Some (message MsgHave [x00]); Some (message MsgUnchoke []);
             Some (NewPieceMessage 3 (block_off 16385 0) (slice D (block_off 16385 0) (block_off 16385 1)));
             None;
             Some (NewPieceMessage 3 (block_off 16385 1) (slice D (block_off 16385 1) (block_off 16385 2)));
             Some (message MsgChoke [])] 3 in
  exists c', DownloadPiece (take 2) None true (fun _ => 0) D pw c = Ok (D, c') /\
    inp c' = [Some (message MsgChoke [])] /\
    out c' = [message MsgInterested []; NewRequestMessage 3 0 16384; NewRequestMessage 3 16384 1].
Proof.
  intros D pw c.
  refine (DownloadPiece_complete (take 2) None true (fun _ => 0) D D pw c
    [None; Some (message MsgHave [x00])] _ [Some (message MsgChoke [])] _ _ _ eq_refl _ eq_refl eq_refl
    eq_refl _ _).
  - unfold u32. cbn. lia.
  - subst D. by rewrite length_replicate.
  - cbn. lia.
  - lia.
  - apply (delivers_block pw D _ 0); [vm_compute; lia|].
    apply delivers_noise; [done|vm_compute; lia|].
    apply (delivers_block pw D _ 1); [vm_compute; lia|].
    apply (delivers_done pw D).
  - vm_compute. lia.
Defined.
