(* ===== verification/Engine.v ===== *)
(** * The engine's per-torrent logic ([engine/])

    File selection ([skip_mask.go]), per-file progress ([file_progress.go]), file
    completion and state changes ([session.go]), the stall detector
    ([stall_detector.go]) and the check of torrent names ([sanitize.go]).  Events
    are the list of what is published on the bus. *)

From S2P Require Import Prelude Bitfield Torrent Paths.
Set Warnings "-clear-no-such-hyp".
Local Open Scope Z_scope.

(** ** File selection *)

Definition PriorityNormal : Z := 0.
Definition PrioritySkip : Z := -1.

Record fileRange := mkRange { r_start : Z; r_end : Z; r_skip : bool }.

(** The ranges of the files, the first of them being file [i] at [offset]. *)
Fixpoint file_ranges (priorities : list Z) (i : nat) (offset : Z) (files : list File)
    : list fileRange :=
  match files with
  | [] => []
  | f :: files =>
      let skip := match priorities !! i with Some p => p =? PrioritySkip | None => false end in
      mkRange offset (i64 (offset + f_Length f)) skip ::
        file_ranges priorities (S i) (i64 (offset + f_Length f)) files
  end.

(** The inner loop: ([allSkipped], [coveredAny]). *)
Fixpoint scan_ranges (pieceStart pieceEnd : Z) (ranges : list fileRange) (coveredAny : bool)
    : bool * bool :=
  match ranges with
  | [] => (true, coveredAny)
  | r :: ranges =>
      if (r_end r <=? pieceStart) || (pieceEnd <=? r_start r)
      then scan_ranges pieceStart pieceEnd ranges coveredAny
      else if negb (r_skip r) then (false, true)
      else scan_ranges pieceStart pieceEnd ranges true
  end.

(** One piece of the outer loop. *)
Definition mask_piece (ranges : list fileRange) (pieceLength totalBytes : Z) (mask : Bitfield)
    (i : Z) : Bitfield :=
  let pieceStart := i64 (i * pieceLength) in
  let pieceEnd := i64 (pieceStart + pieceLength) in
  let pieceEnd := if totalBytes <? pieceEnd then totalBytes else pieceEnd in
  if pieceEnd <=? pieceStart then mask
  else
    let '(allSkipped, coveredAny) := scan_ranges pieceStart pieceEnd ranges false in
    if coveredAny && allSkipped then (SetPiece mask i).2 else mask.

Definition ComputeSkippedPieceMask (files : list File) (priorities : list Z)
    (pieceLength totalBytes numPieces : Z) : option Bitfield :=
  if (numPieces <=? 0) || (pieceLength <=? 0) || (len files =? 0) then None
  else Some (foldl (mask_piece (file_ranges priorities 0 0 files) pieceLength totalBytes)
               (new_bitfield numPieces) (seqZ 0 numPieces)).

Definition computeSkipMaskFromRecord (tf : option TorrentFile) (priorities : list Z)
    : option Bitfield :=
  match tf with
  | None => None
  | Some tf =>
      if len priorities =? 0 then None
      else if negb (existsb (Z.eqb PrioritySkip) priorities) then None
      else
        let info := t_Info tf in
        let files := if len (Files info) =? 0 then [mkFile (i_Length info) [Name info]]
                     else Files info in
        ComputeSkippedPieceMask files priorities (PieceLength info) (TotalSize tf)
          (len (PieceHashes info))
  end.

(** ** Per-file progress *)

Definition piece_bytes (bf : Bitfield) (offset end_ pieceLength totalBytes : Z) (downloaded i : Z) : Z :=
  if negb (HasPiece bf i) then downloaded
  else
    let pieceStart := i64 (i * pieceLength) in
    let pieceEnd := i64 (pieceStart + pieceLength) in
    let pieceEnd := if totalBytes <? pieceEnd then totalBytes else pieceEnd in
    let start := if pieceStart <? offset then offset else pieceStart in
    let finish := if end_ <? pieceEnd then end_ else pieceEnd in
    if start <? finish then i64 (downloaded + (finish - start)) else downloaded.

Definition computeFileDownloaded (bf : option Bitfield)
    (offset length pieceLength totalBytes numPieces : Z) : Z :=
  match bf with
  | None => 0
  | Some bf =>
      if (length <=? 0) || (pieceLength <=? 0) then 0
      else
        let end_ := i64 (offset + length) in
        let firstPiece := Z.quot offset pieceLength in
        let lastPiece := Z.quot (i64 (end_ - 1)) pieceLength in
        let lastPiece := if numPieces <=? lastPiece then numPieces - 1 else lastPiece in
        foldl (piece_bytes bf offset end_ pieceLength totalBytes) 0
          (seqZ firstPiece (lastPiece - firstPiece + 1))
  end.

(** ** File completion *)

Record fileRangeEntry := mkEntry {
  index : Z; path : bytes; size : Z; firstPiece : Z; lastPiece : Z
}.

Definition rangeFor (pieceLen numPieces start length : Z) : Z * Z :=
  if length <=? 0 then
    let first := Z.quot start pieceLen in
    let first := if numPieces <=? first then numPieces - 1 else first in
    (first, first)
  else
    let first := Z.quot start pieceLen in
    let last := Z.quot (i64 (i64 (start + length) - 1)) pieceLen in
    (first, if numPieces <=? last then numPieces - 1 else last).

Fixpoint file_entries (pieceLen numPieces i offset : Z) (files : list File) : list fileRangeEntry :=
  match files with
  | [] => []
  | f :: files =>
      let '(first, last) := rangeFor pieceLen numPieces offset (f_Length f) in
      mkEntry i (Join (f_Path f)) (f_Length f) first last ::
        file_entries pieceLen numPieces (i + 1) (i64 (offset + f_Length f)) files
  end.

Definition computeFileRanges (tf : option TorrentFile) : list fileRangeEntry :=
  match tf with
  | None => []
  | Some tf =>
      let info := t_Info tf in
      if PieceLength info <=? 0 then []
      else
        let numPieces := len (PieceHashes info) in
        if numPieces <=? 0 then []
        else if len (Files info) =? 0 then
          let '(first, last) := rangeFor (PieceLength info) numPieces 0 (i_Length info) in
          [mkEntry 0 (Name info) (i_Length info) first last]
        else file_entries (PieceLength info) numPieces 0 0 (Files info)
  end.

Definition has_range (bf : Bitfield) (fr : fileRangeEntry) : bool :=
  forallb (HasPiece bf) (seqZ (firstPiece fr) (lastPiece fr - firstPiece fr + 1)).

(** [completedFiles] is the set of the indices mapped to true. *)
Definition collect_step (bf : Bitfield) (st : gset Z * list fileRangeEntry) (fr : fileRangeEntry)
    : gset Z * list fileRangeEntry :=
  if bool_decide (index fr ∈ st.1) then st
  else if negb (has_range bf fr) then st
  else ({[index fr]} ∪ st.1, st.2 ++ [fr]).

Definition collectNewlyCompletedFiles (ranges : list fileRangeEntry) (bf : Bitfield)
    (completedFiles : gset Z) : gset Z * list fileRangeEntry :=
  if (len ranges =? 0) || (len bf =? 0) then (completedFiles, [])
  else foldl (collect_step bf) (completedFiles, []) ranges.

(** [for b != 0 { b &= b - 1; n++ }] on a byte takes at most eight rounds. *)
Fixpoint kernighan (fuel : nat) (b : Z) : Z :=
  match fuel with
  | O => 0
  | S fuel => if b =? 0 then 0 else 1 + kernighan fuel (Z.land b (wrapu 8 (b - 1)))
  end.

Definition popCount (bf : Bitfield) : Z := foldl (fun n b => n + kernighan 8 (u8 b)) 0 bf.

(** ** State changes *)

Inductive State :=
  | StateAdding | StateMetadata | StateVerifying | StateDownloading
  | StateSeeding | StateComplete | StatePaused | StateError.
#[export] Instance State_eq_dec : EqDecision State.
Proof. solve_decision. Defined.

Inductive Event :=
  | StateChanged (from to : State) | TorrentPaused | TorrentResumed
  | Stalled (dur : Z) | StallCleared (dur : Z).

(** The new state and the events published ([bus] is not nil). *)
Definition setState (newState old : State) : State * list Event :=
  if bool_decide (old = newState) then (old, [])
  else (newState,
        StateChanged old newState ::
          (if bool_decide (newState = StatePaused) && negb (bool_decide (old = StatePaused))
           then [TorrentPaused]
           else if bool_decide (old = StatePaused) && negb (bool_decide (newState = StatePaused))
           then [TorrentResumed] else [])).

(** ** Stall detection *)

(** Durations in nanoseconds; the zero [time.Time] is [None].  The published
    payload holds the duration in whole seconds. *)
Definition stallThreshold : Z := 30 * 10 ^ 9.

Record stall := mkStall { stalledSince : option Z; stalled : bool }.

Definition stall_step (threshold : Z) (st : stall) (t : Z) (count : Z) : stall * list Event :=
  if count <=? 0 then
    let since := default t (stalledSince st) in
    if negb (stalled st) && (threshold <=? t - since)
    then (mkStall (Some since) true, [Stalled (t - since)])
    else (mkStall (Some since) (stalled st), [])
  else
    (mkStall None false,
     if stalled st then [StallCleared (t - default 0 (stalledSince st))] else []).

(** [run] on the ticks it receives: (time, peer count at that time). *)
Fixpoint stall_run (threshold : Z) (st : stall) (ticks : list (Z * Z)) : stall * list Event :=
  match ticks with
  | [] => (st, [])
  | (t, count) :: ticks =>
      let '(st, ev) := stall_step threshold st t count in
      let '(st, evs) := stall_run threshold st ticks in
      (st, ev ++ evs)
  end.

Definition run (threshold : Z) (ticks : list (Z * Z)) : list Event :=
  (stall_run (if threshold <=? 0 then stallThreshold else threshold) (mkStall None false) ticks).2.

(** ** Torrent names *)

Inductive name_error := EmptyName | NullByte | AbsolutePath | DriveLetter | Traversal.

Definition sanitizeTorrentName (name : bytes) : result name_error () :=
  if bool_decide (name = []) then Err EmptyName
  else if existsb (Byte.eqb x00) name then Err NullByte
  else if rooted name then Err AbsolutePath
  else if match name !! 1%nat with Some c => Byte.eqb c x3a | None => false end then Err DriveLetter
  else
    let normalized := (fun c => if Byte.eqb c x5c then sep else c) <$> name in
    if existsb (fun part => bool_decide (part = dotdot) || bool_decide (part = dot)) (split_sep normalized)
    then Err Traversal
    else Ok ().
