(* ===== verification/EngineTheorems.v ===== *)
(** * Properties of the engine's per-torrent logic *)

From S2P Require Import Prelude Bitfield Torrent Paths Engine.
Set Warnings "-clear-no-such-hyp".
Local Open Scope Z_scope.

(** ** Files as intervals of the torrent's bytes *)

Fixpoint total_length (files : list File) : Z :=
  match files with [] => 0 | f :: files => f_Length f + total_length files end.

(** Where file [k] starts. *)
Definition file_start (files : list File) (k : nat) : Z := total_length (take k files).

(** Byte [x] of the torrent belongs to file [k]. *)
Definition in_file (files : list File) (k : nat) (x : Z) : Prop :=
  exists f, files !! k = Some f /\ file_start files k <= x < file_start files k + f_Length f.

Abbreviation lengths_ok := (Forall (fun f => 0 <= f_Length f)).

Lemma total_length_nonneg files : lengths_ok files -> 0 <= total_length files.
Proof. induction 1; cbn; lia. Qed.

Lemma file_start_bounds files k f :
  lengths_ok files -> files !! k = Some f ->
  0 <= file_start files k /\ file_start files k + f_Length f <= total_length files /\ 0 <= f_Length f.
Proof.
  intros H. revert k. induction H as [|g files Hg H IH]; intros [|k] Hk; cbn in Hk; [done..| |].
  - injection Hk as <-. unfold file_start. cbn. pose proof (total_length_nonneg _ H). lia.
  - apply IH in Hk. unfold file_start in *. cbn. lia.
Qed.

Lemma file_start_S files k f :
  files !! k = Some f -> file_start files (S k) = file_start files k + f_Length f.
Proof.
  unfold file_start. revert k. induction files as [|g files IH]; intros k Hk; [done|].
  destruct k as [|k].
  - injection Hk as ->. destruct files; cbn; lia.
  - cbn in Hk. apply IH in Hk. cbn [take total_length] in *. lia.
Qed.

(** Every byte of the torrent belongs to a file. *)
Lemma in_file_exists files x : 0 <= x < total_length files -> exists k, in_file files k x.
Proof.
  intros Hx. enough (forall off, off <= x < off + total_length files ->
    exists k f, files !! k = Some f /\ off + file_start files k <= x < off + file_start files k + f_Length f)
    as Hgen.
  { destruct (Hgen 0) as (k & f & Hf & ?); [lia|]. exists k, f. split; [done|lia]. }
  clear Hx. induction files as [|g files IH]; cbn; intros off Hx; [lia|].
  destruct (decide (x < off + f_Length g)).
  - exists 0%nat, g. split; [done|]. unfold file_start. cbn. lia.
  - destruct (IH (off + f_Length g)) as (k & f & Hf & Hb); [lia|].
    exists (S k), f. split; [done|]. unfold file_start in *. cbn. lia.
Qed.

Section Selection.
Context (files : list File) (priorities : list Z).

Definition marked_skip (k : nat) : bool :=
  match priorities !! k with Some p => p =? PrioritySkip | None => false end.

Lemma file_ranges_lookup fs i offset k :
  lengths_ok fs -> 0 <= offset -> offset + total_length fs <= MaxInt64 ->
  file_ranges priorities i offset fs !! k =
  (fun f => mkRange (offset + file_start fs k) (offset + file_start fs k + f_Length f) (marked_skip (i + k)))
    <$> fs !! k.
Proof.
  intros H. revert i offset k. induction H as [|g fs Hg H IH]; intros i offset k H0 Hmax; [done|].
  cbn in Hmax. pose proof (total_length_nonneg _ H).
  cbn [file_ranges]. rewrite i64_id by (unfold in_i64, MinInt64, MaxInt64 in *; lia).
  destruct k as [|k]; cbn.
  - unfold file_start. cbn. by rewrite Z.add_0_r, Nat.add_0_r.
  - rewrite IH by lia. destruct (fs !! k) as [f|]; cbn; [|done].
    unfold file_start. cbn. rewrite Nat.add_succ_r. do 2 f_equal; lia.
Qed.

Definition overlaps (ps pe : Z) (r : fileRange) : bool := negb ((r_end r <=? ps) || (pe <=? r_start r)).

Lemma scan_ranges_spec ps pe ranges cov :
  (let '(all, any) := scan_ranges ps pe ranges cov in any && all) =
  (cov || existsb (overlaps ps pe) ranges) &&
  forallb (fun r => negb (overlaps ps pe r) || r_skip r) ranges.
Proof.
  revert cov. induction ranges as [|r ranges IH]; intros cov; cbn [scan_ranges existsb forallb].
  { by rewrite orb_false_r. }
  unfold overlaps at 1 3. destruct ((r_end r <=? ps) || (pe <=? r_start r)); cbn [negb orb andb].
  - apply IH.
  - destruct (r_skip r); cbn [negb andb]; [|by rewrite andb_false_r].
    rewrite IH. by rewrite orb_true_r.
Qed.

(** Setting the bits of the indices that satisfy [p]. *)
Lemma mark_pieces (p : Z -> bool) (step : Bitfield -> Z -> Bitfield) l mask :
  (forall m i, i ∈ l -> step m i = if p i then (SetPiece m i).2 else m) ->
  (forall i, i ∈ l -> 0 <= i < 8 * len mask) ->
  forall j, HasPiece (foldl step mask l) j = HasPiece mask j || (bool_decide (j ∈ l) && p j).
Proof.
  revert mask. induction l as [|i l IH]; intros mask Hstep Hl j; cbn [foldl].
  { rewrite bool_decide_false by apply not_elem_of_nil. by rewrite orb_false_r. }
  assert (Hi : 0 <= i < 8 * len mask) by (apply Hl; left).
  assert (Hst : step mask i = if p i then (SetPiece mask i).2 else mask) by (apply Hstep; left).
  rewrite IH; [|intros; apply Hstep; by right|]; last first.
  { intros i' Hi'. rewrite Hst. destruct (p i); rewrite ?SetPiece_length; apply Hl; by right. }
  assert (Hmem : bool_decide (j ∈ i :: l) = (j =? i) || bool_decide (j ∈ l)).
  { apply eq_bool_prop_intro. rewrite orb_True, !bool_decide_spec, elem_of_cons, Is_true_true, Z.eqb_eq. done. }
  rewrite Hmem, Hst. destruct (p i) eqn:Hp.
  - rewrite HasPiece_SetPiece, (proj2 (SetPiece_flag mask i)) by done. cbn [andb].
    destruct (Z.eqb_spec j i) as [->|]; [rewrite Hp|]; by destruct (HasPiece _ _), (bool_decide _).
  - destruct (Z.eqb_spec j i) as [->|]; [by rewrite Hp, !andb_false_r|done].
Qed.
End Selection.

(** The bytes of piece [i]. *)
Definition piece_end (pieceLength total i : Z) : Z := Z.min ((i + 1) * pieceLength) total.
Definition in_piece (pieceLength total i x : Z) : Prop :=
  i * pieceLength <= x < piece_end pieceLength total i.

(** A file that counts for piece [i]: one of its bytes is in the piece, or it is
    empty and lies strictly inside. *)
Definition touches (files : list File) (pieceLength i : Z) (k : nat) : Prop :=
  (exists x, in_file files k x /\ in_piece pieceLength (total_length files) i x) \/
  (exists f, files !! k = Some f /\ f_Length f = 0 /\
     i * pieceLength < file_start files k < piece_end pieceLength (total_length files) i).

Lemma overlaps_touches files pl i k f :
  lengths_ok files -> files !! k = Some f -> i * pl < piece_end pl (total_length files) i ->
  forall b, overlaps (i * pl) (piece_end pl (total_length files) i)
    (mkRange (file_start files k) (file_start files k + f_Length f) b) = true <-> touches files pl i k.
Proof.
  intros Hok Hk Hne b. destruct (file_start_bounds files k f Hok Hk) as (H0 & H1 & H2).
  unfold overlaps, touches, in_file, in_piece. cbn [r_end r_start].
  rewrite negb_true_iff, orb_false_iff, !Z.leb_gt. split.
  - intros [Ha Hb]. destruct (decide (f_Length f = 0)) as [Hz|Hz].
    + right. exists f. split_and!; [done|done|lia|lia].
    + left. exists (Z.max (file_start files k) (i * pl)). split; [exists f; split; [done|]|]; lia.
  - intros [(x & (f' & Hf' & Hx) & Hp)|(f' & Hf' & Hz & Hx)];
      rewrite Hk in Hf'; injection Hf' as <-; lia.
Qed.

Lemma mask_piece_spec files priorities pl i mask :
  lengths_ok files -> total_length files <= MaxInt64 -> 0 <= i -> 0 < pl -> (i + 1) * pl <= MaxInt64 ->
  let p := bool_decide (i * pl < total_length files) &&
           (existsb (overlaps (i * pl) (piece_end pl (total_length files) i))
              (file_ranges priorities 0 0 files) &&
            forallb (fun r => negb (overlaps (i * pl) (piece_end pl (total_length files) i) r) || r_skip r)
              (file_ranges priorities 0 0 files)) in
  mask_piece (file_ranges priorities 0 0 files) pl (total_length files) mask i =
  if p then (SetPiece mask i).2 else mask.
Proof.
  intros Hok Hmax Hi Hpl Hb. cbn zeta. unfold mask_piece.
  assert (E1 : i64 (i * pl) = i * pl) by (apply i64_id; unfold in_i64, MinInt64, MaxInt64 in *; lia).
  assert (E2 : i64 (i * pl + pl) = (i + 1) * pl)
    by (rewrite i64_id by (unfold in_i64, MinInt64, MaxInt64 in *; lia); lia).
  rewrite E1, E2.
  assert (E3 : (if total_length files <? (i + 1) * pl then total_length files else (i + 1) * pl) =
               piece_end pl (total_length files) i).
  { unfold piece_end. destruct (Z.ltb_spec (total_length files) ((i + 1) * pl)); lia. }
  rewrite E3. destruct (Z.leb_spec (piece_end pl (total_length files) i) (i * pl)) as [Hle|Hlt].
  - rewrite bool_decide_false; [done|]. unfold piece_end in Hle. lia.
  - rewrite bool_decide_true by (unfold piece_end in Hlt; lia). cbn [andb].
    pose proof (scan_ranges_spec (i * pl) (piece_end pl (total_length files) i)
      (file_ranges priorities 0 0 files) false) as Hs.
    destruct (scan_ranges _ _ _ _) as [all any]. cbn [orb] in Hs. by rewrite <- Hs.
Qed.

Lemma seqZ_fits np pl j : 0 < pl -> np * pl <= MaxInt64 -> j ∈ seqZ 0 np -> (j + 1) * pl <= MaxInt64.
Proof. intros Hpl Hnp Hj%elem_of_seqZ. pose proof (Zmult_le_compat_r (j + 1) np pl). lia. Qed.

(** All ranges that overlap the piece are skipped: in terms of the files. *)
Lemma ranges_skipped files priorities pl i :
  lengths_ok files -> total_length files <= MaxInt64 -> 0 <= i -> 0 < pl ->
  i * pl < total_length files ->
  existsb (overlaps (i * pl) (piece_end pl (total_length files) i)) (file_ranges priorities 0 0 files) &&
  forallb (fun r => negb (overlaps (i * pl) (piece_end pl (total_length files) i) r) || r_skip r)
    (file_ranges priorities 0 0 files) = true <->
  forall k, touches files pl i k -> priorities !! k = Some PrioritySkip.
Proof.
  intros Hok Hmax Hi Hpl Hlt.
  assert (Hne : i * pl < piece_end pl (total_length files) i) by (unfold piece_end; lia).
  assert (Hl : forall k, file_ranges priorities 0 0 files !! k = (fun f => mkRange (file_start files k)
      (file_start files k + f_Length f) (marked_skip priorities k)) <$> files !! k)
    by (intros k; by rewrite (file_ranges_lookup priorities) by (done || lia)).
  assert (Hsk : forall k, marked_skip priorities k = true <-> priorities !! k = Some PrioritySkip).
  { intros k. unfold marked_skip. destruct (priorities !! k); [rewrite Z.eqb_eq|]; naive_solver. }
  rewrite andb_true_iff, existsb_exists, forallb_forall. split.
  - intros [_ Hall] k Ht. apply Hsk.
    assert (exists f, files !! k = Some f) as [f Hf] by (destruct Ht as [(x & (f & ? & _) & _)|(f & ? & _)]; eauto).
    specialize (Hall (mkRange (file_start files k) (file_start files k + f_Length f) (marked_skip priorities k))).
    rewrite (proj2 (overlaps_touches files pl i k f Hok Hf Hne _)) in Hall by done.
    apply Hall, list_elem_of_In, list_elem_of_lookup. exists k. by rewrite Hl, Hf.
  - intros Hall. split.
    + destruct (in_file_exists files (i * pl)) as (k & f & Hf & Hx); [lia|].
      eexists. split; [apply list_elem_of_In, list_elem_of_lookup; exists k; by rewrite Hl, Hf|].
      apply overlaps_touches; [done..|]. left. exists (i * pl). split; [by exists f|unfold in_piece; lia].
    + intros r (k & Hr)%list_elem_of_In%list_elem_of_lookup. rewrite Hl in Hr.
      destruct (files !! k) as [f|] eqn:Hf; [|done]. injection Hr as <-.
      destruct (overlaps _ _ _) eqn:Ho; [|done]. cbn [r_skip negb orb].
      apply Hsk, Hall. by apply (overlaps_touches files pl i k f Hok Hf Hne) in Ho.
Qed.

Lemma skip_mask_touches files priorities pl np i mask :
  lengths_ok files -> total_length files <= MaxInt64 -> np * pl <= MaxInt64 -> 0 <= i < np ->
  ComputeSkippedPieceMask files priorities pl (total_length files) np = Some mask ->
  HasPiece mask i = true <->
  i * pl < total_length files /\ forall k, touches files pl i k -> priorities !! k = Some PrioritySkip.
Proof.
  intros Hok Hmax Hnp Hi. unfold ComputeSkippedPieceMask.
  destruct ((np <=? 0) || (pl <=? 0) || (len files =? 0)) eqn:E; [done|]. intros [= <-].
  rewrite !orb_false_iff, !Z.leb_gt in E. destruct E as [[_ Hpl] _].
  erewrite mark_pieces; [|intros m j Hj; apply mask_piece_spec|].
  2-6: try done; by (apply elem_of_seqZ in Hj; lia) || by eapply seqZ_fits.
  2: { intros j Hj%elem_of_seqZ. pose proof (length_new_bitfield np). lia. }
  rewrite HasPiece_new. cbn [orb]. rewrite bool_decide_true by (apply elem_of_seqZ; lia). cbn [andb].
  destruct (decide (i * pl < total_length files)) as [Hlt|Hge].
  - rewrite bool_decide_true by done. cbn [andb]. rewrite ranges_skipped by (done || lia). naive_solver.
  - rewrite bool_decide_false by done. naive_solver.
Qed.

(** A decidable predicate that not all elements refute holds of one of them. *)
Lemma list_not_all {A} (P : A -> Prop) (l : list A) : (forall x, P x \/ ~ P x) ->
  ~ (forall x, x ∈ l -> ~ P x) -> exists x, x ∈ l /\ P x.
Proof.
  intros Hdec. induction l as [|a l IH]; intros Hn.
  - destruct Hn. by intros x ?%not_elem_of_nil.
  - destruct (Hdec a) as [Ha|Ha]; [exists a; split; [apply elem_of_cons; by left|done]|].
    destruct IH as (x & Hx & Px); [|exists x; split; [apply elem_of_cons; by right|done]].
    intros Hl. apply Hn. intros x [->|Hx]%elem_of_cons; [done|by apply Hl].
Qed.

(** A file with a byte in piece [i]. *)
Definition byte_in_piece (files : list File) (pieceLength i : Z) (k : nat) : Prop :=
  exists x, in_file files k x /\ in_piece pieceLength (total_length files) i x.

(** An empty file that lies strictly inside piece [i]. *)
Definition empty_inside (files : list File) (pieceLength i : Z) (k : nat) : Prop :=
  exists f, files !! k = Some f /\ f_Length f = 0 /\
    i * pieceLength < file_start files k < piece_end pieceLength (total_length files) i.

(** C40: no byte of a wanted file is ever skipped: when the mask has the bit of a piece, the
    piece has bytes and every file with a byte in it is marked skip.  Conversely such a
    piece has its bit set, so that no piece is downloaded that only serves skipped files,
    unless an empty file that is not marked skip lies strictly inside it; so in a torrent
    without empty files the bit says exactly that every file with a byte in the piece is
    skipped. *)
Theorem SkipMask_exact (files : list File) (priorities : list Z) (pl np i : Z) (mask : Bitfield) :
  Forall (fun f => 0 <= f_Length f) files -> total_length files <= MaxInt64 ->
  np * pl <= MaxInt64 -> 0 <= i < np ->
  ComputeSkippedPieceMask files priorities pl (total_length files) np = Some mask ->
  let skipped k := priorities !! k = Some PrioritySkip in
  let useless := i * pl < total_length files /\ forall k, byte_in_piece files pl i k -> skipped k in
  (HasPiece mask i = true -> useless) /\
  (useless -> HasPiece mask i = true \/ exists k, empty_inside files pl i k /\ ~ skipped k) /\
  (Forall (fun f => 0 < f_Length f) files -> HasPiece mask i = true <-> useless).
Proof.
  intros Hok Hmax Hnp Hi Hm skipped useless.
  pose proof (skip_mask_touches files priorities pl np i mask Hok Hmax Hnp Hi Hm) as Ht.
  assert (H1 : HasPiece mask i = true -> useless).
  { intros [Hlt Hall]%Ht. split; [done|]. intros k Hk. apply Hall. by left. }
  assert (H2 : useless -> HasPiece mask i = true \/ exists k, empty_inside files pl i k /\ ~ skipped k).
  { intros [Hlt Hall]. destruct (HasPiece mask i) eqn:E; [by left|right].
    assert (Hin : exists k, k ∈ seq 0 (length files) /\ (empty_inside files pl i k /\ ~ skipped k)).
    { apply list_not_all; [intros k; unfold empty_inside, skipped|].
      - destruct (files !! k) as [f|] eqn:Ef; [|right; intros [(? & ? & _) _]; congruence].
        destruct (decide (priorities !! k = Some PrioritySkip)); [right; tauto|].
        destruct (decide (f_Length f = 0 /\ i * pl < file_start files k < piece_end pl (total_length files) i)) as [?|Hno];
          [left; split; [by exists f|done]|right; intros [(f' & ? & ?) _]; simplify_eq; tauto].
      - intros Hno. apply diff_false_true, Ht. split; [done|]. intros k [Hk|Hk]; [by apply Hall|].
        apply dec_stable. intros Hs. apply (Hno k); [|by split].
        destruct Hk as (f & Hf & _). apply elem_of_seq. apply lookup_lt_Some in Hf. lia. }
    destruct Hin as (k & _ & Hk). by exists k. }
  split; [exact H1|split; [exact H2|]]. intros Hpos. split; [exact H1|].
  intros Hu. destruct (H2 Hu) as [?|(k & (f & Hf & Hz & _) & _)]; [done|].
  pose proof (Forall_lookup_1 _ _ _ _ Hpos Hf) as Hp. cbn in Hp. lia.
Qed.

Lemma SkipMask_exact_witness :
  let files := [mkFile 3 []; mkFile 2 []; mkFile 3 []] in
  let mask := default [] (ComputeSkippedPieceMask files [0; 0; -1] 2 8 4) in
  HasPiece mask 3 = true /\ HasPiece mask 2 = false /\
  forall k, byte_in_piece files 2 3 k -> [0; 0; -1] !! k = Some PrioritySkip.
Proof.
  intros files mask. split; [by vm_compute|split; [by vm_compute|]].
  assert (Hf : Forall (fun f => 0 <= f_Length f) files) by (repeat constructor; cbn; lia).
  destruct (SkipMask_exact files [0; 0; -1] 2 4 3 mask Hf) as (H & _); [by vm_compute|by vm_compute|lia|by vm_compute|].
  apply H. by vm_compute.
Defined.

(** A piece all of whose bytes are skipped is still downloaded when an empty
    wanted file lies strictly inside it. *)
Lemma empty_file_keeps_piece :
  ComputeSkippedPieceMask [mkFile 1 []; mkFile 0 []; mkFile 1 []] [-1; 0; -1] 2 2 1 = Some [x00].
Proof. by vm_compute. Qed.

(** ** Per-file progress *)

(** How many bytes [x] with [a <= x < b] satisfy [P]. *)
Definition count_bytes (P : Z -> Prop) {HdecP : forall x, Decision (P x)} (a b : Z) : Z :=
  len (filter P (seqZ a (b - a))).

Section Count.
Context (P : Z -> Prop) {HdecP : forall x, Decision (P x)}.

Lemma count_empty a b : b <= a -> count_bytes P a b = 0.
Proof. intros H. unfold count_bytes. by rewrite seqZ_nil by lia. Qed.

Lemma count_split a b c : a <= b <= c -> count_bytes P a c = count_bytes P a b + count_bytes P b c.
Proof.
  intros H. unfold count_bytes. replace (c - a) with ((b - a) + (c - b)) by lia.
  rewrite seqZ_app by lia. replace (a + (b - a)) with b by lia. rewrite filter_app, length_app. lia.
Qed.

Lemma count_all a b : a <= b -> (forall x, a <= x < b -> P x) -> count_bytes P a b = b - a.
Proof.
  intros H HP. unfold count_bytes. rewrite filter_all; [rewrite length_seqZ; lia|].
  intros x Hx%elem_of_seqZ. apply HP. lia.
Qed.

Lemma count_none a b : (forall x, a <= x < b -> ~ P x) -> count_bytes P a b = 0.
Proof.
  intros HP. unfold count_bytes. rewrite filter_none; [done|].
  intros x Hx%elem_of_seqZ. apply HP. lia.
Qed.

Lemma count_range a b : 0 <= count_bytes P a b <= Z.max 0 (b - a).
Proof.
  unfold count_bytes. pose proof (length_filter P (seqZ a (b - a))) as Hl. rewrite length_seqZ in Hl. lia.
Qed.
End Count.

(** Counting up to [b], or up to [e] with the bound in the predicate. *)
Lemma count_cut (P : Z -> Prop) {HdecP : forall x, Decision (P x)} a b e :
  count_bytes P a (Z.min e b) = count_bytes (fun x => P x /\ x < b) a e.
Proof.
  destruct (decide (Z.min e b < a)) as [Hlt|Hge].
  { rewrite count_empty by lia. destruct (decide (e <= a)); [by rewrite count_empty by lia|].
    rewrite (count_none (fun x => P x /\ x < b)); [done|]. intros x Hx [_ ?]. lia. }
  rewrite (count_split _ a (Z.min e b) e), (count_none _ (Z.min e b) e) by
    (lia || (intros x Hx [_ ?]; lia)).
  rewrite Z.add_0_r. unfold count_bytes. do 2 f_equal. apply filter_ext_in.
  intros x Hx%elem_of_seqZ. split; [intros ?; split; [done|lia]|tauto].
Qed.

(** Byte [x] lies in a complete piece. *)
Definition complete (bf : Bitfield) (pl x : Z) : Prop := HasPiece bf (x / pl) = true.
#[export] Instance complete_dec bf pl x : Decision (complete bf pl x).
Proof. unfold complete. apply _. Defined.

Lemma in_piece_div pl i x : 0 < pl -> i * pl <= x < (i + 1) * pl -> x / pl = i.
Proof. intros Hpl Hx. symmetry. apply (Z.div_unique x pl i (x - i * pl)); lia. Qed.

Lemma if_lt_max a b : (if a <? b then b else a) = Z.max a b.
Proof. destruct (Z.ltb_spec a b); lia. Qed.

Lemma if_lt_min a b : (if b <? a then b else a) = Z.min a b.
Proof. destruct (Z.ltb_spec b a); lia. Qed.

Lemma seqZ_snoc m n : 0 <= n -> seqZ m (Z.succ n) = seqZ m n ++ [m + n].
Proof. intros H. rewrite <- (Z2Nat.id n H), <- Nat2Z.inj_succ. apply seqZ_S. Qed.

(** One more piece: the count up to its start plus the part of it in the file. *)
Lemma count_step (P : Z -> Prop) {HdecP : forall x, Decision (P x)} a offset ps pe E :
  a <= Z.max offset ps -> offset <= a -> ps <= pe -> (a = offset \/ a <= ps) ->
  count_bytes P a (Z.min E pe) =
  count_bytes P a (Z.min E ps) + count_bytes P (Z.max offset ps) (Z.min E pe).
Proof.
  intros Ha Hoff Hp Hcase. destruct (decide (a <= Z.min E ps)) as [Hle|Hgt].
  - rewrite (count_split P a (Z.min E ps) (Z.min E pe)) by lia. f_equal.
    destruct (decide (E <= ps)); [rewrite !count_empty by lia; done|]. f_equal; lia.
  - rewrite (count_empty P a (Z.min E ps)) by lia. cbn [Z.add].
    destruct (decide (E < a)); [rewrite !count_empty by lia; done|]. replace (Z.max offset ps) with a by lia. lia.
Qed.

Lemma count_piece bf pl i a b :
  0 < pl -> i * pl <= a -> b <= (i + 1) * pl ->
  count_bytes (complete bf pl) a b = if HasPiece bf i then Z.max 0 (b - a) else 0.
Proof.
  intros Hpl Ha Hb. destruct (HasPiece bf i) eqn:Hp.
  - destruct (decide (a <= b)); [|rewrite count_empty by lia; lia].
    rewrite count_all; [lia|done|]. intros x Hx. unfold complete. by rewrite (in_piece_div pl i) by lia.
  - apply count_none. intros x Hx. unfold complete. rewrite (in_piece_div pl i) by lia. congruence.
Qed.

Lemma piece_bytes_sum bf offset end_ pl total first m d :
  0 <= offset <= end_ -> end_ <= MaxInt64 -> 0 < pl -> 0 <= first -> first * pl <= offset -> 0 <= m ->
  (first + m) * pl <= MaxInt64 -> 0 <= d -> d + (end_ - offset) <= MaxInt64 ->
  foldl (piece_bytes bf offset end_ pl total) d (seqZ first m) =
  d + count_bytes (complete bf pl) offset (Z.min (Z.min end_ total) ((first + m) * pl)).
Proof.
  intros Hoff Hend Hpl Hfirst Hfo Hm Hmax Hd Hsum. revert m Hm Hmax.
  refine (natlike_ind _ _ _).
  { intros _. rewrite count_empty by lia. by rewrite Z.add_0_r, seqZ_nil by lia. }
  intros m Hm IH Hmax. rewrite seqZ_snoc, foldl_snoc by done.
  rewrite IH by lia. clear IH. set (i := first + m).
  set (E := Z.min end_ total).
  replace ((first + Z.succ m) * pl) with ((i + 1) * pl) by (subst i; lia).
  replace ((first + Z.succ m) * pl) with ((i + 1) * pl) in Hmax by (subst i; lia).
  assert (0 <= i * pl) by (subst i; nia).
  pose proof (count_range (complete bf pl) offset (Z.min E (i * pl))) as Hc1.
  pose proof (count_range (complete bf pl) offset (Z.min E ((i + 1) * pl))) as Hc2.
  rewrite (count_step _ offset offset (i * pl) ((i + 1) * pl) E) in Hc2 |- * by lia.
  rewrite (count_piece bf pl i (Z.max offset (i * pl))) in Hc2 |- * by lia. unfold piece_bytes.
  rewrite (i64_id (i * pl)), (i64_id (i * pl + pl)) by (unfold in_i64, MinInt64, MaxInt64 in *; lia).
  destruct (HasPiece bf i); cbn [negb]; [|lia].
  rewrite if_lt_max, !if_lt_min. subst E.
  match goal with |- context [?x <? ?y] => destruct (Z.ltb_spec x y) end;
    rewrite ?i64_id by (unfold in_i64, MinInt64, MaxInt64 in *; lia); lia.
Qed.

(** The downloaded bytes of a file are exactly its bytes that lie in the
    torrent and in a complete piece: nothing is counted twice and nothing outside
    the file, however the file's ends cut its pieces. *)
Lemma FileDownloaded_exact (bf : Bitfield) (offset length pl total np : Z) :
  0 <= offset -> offset + length <= MaxInt64 -> 0 < pl -> 0 <= np -> np * pl <= MaxInt64 ->
  computeFileDownloaded (Some bf) offset length pl total np =
  len (filter (fun x => complete bf pl x /\ x < Z.min total (np * pl)) (seqZ offset length)).
Proof.
  intros H0 Hmax Hpl Hnp Hnpl. unfold computeFileDownloaded.
  destruct (Z.leb_spec length 0) as [Hz|Hpos]; cbn [orb].
  { by rewrite seqZ_nil by lia. }
  rewrite (proj2 (Z.leb_gt pl 0)) by done.
  rewrite (i64_id (offset + length)), (i64_id (offset + length - 1))
    by (unfold in_i64, MinInt64, MaxInt64 in *; lia).
  rewrite !Z.quot_div_nonneg by lia.
  pose proof (Z.div_mod offset pl ltac:(lia)) as Hf. pose proof (Z.mod_pos_bound offset pl Hpl) as Hfm.
  pose proof (Z.div_mod (offset + length - 1) pl ltac:(lia)) as Hl.
  pose proof (Z.mod_pos_bound (offset + length - 1) pl Hpl) as Hlm.
  pose proof (Z.div_pos offset pl H0 Hpl) as Hf0.
  pose proof (Z.div_le_mono offset (offset + length - 1) pl Hpl ltac:(lia)) as Hfl.
  set (first := offset / pl) in *. set (last := (offset + length - 1) / pl) in *.
  clearbody first last.
  trans (count_bytes (fun x => complete bf pl x /\ x < Z.min total (np * pl)) offset (offset + length));
    [|unfold count_bytes; by rewrite Z.add_simpl_l].
  rewrite <- count_cut.
  assert (Hlast : (if np <=? last then np - 1 else last) = Z.min last (np - 1))
    by (destruct (Z.leb_spec np last); lia).
  rewrite Hlast. destruct (decide (Z.min last (np - 1) - first + 1 < 0)) as [Hneg|Hm].
  { rewrite seqZ_nil by lia. cbn [foldl]. rewrite count_empty; [done|].
    assert (np * pl <= first * pl) by nia. lia. }
  assert (Hend : Z.min (last + 1) np * pl <= MaxInt64) by nia.
  rewrite piece_bytes_sum by lia.
  replace (first + (Z.min last (np - 1) - first + 1)) with (Z.min (last + 1) np) by lia.
  rewrite <- Z.mul_min_distr_nonneg_r by lia. rewrite Z.add_0_l. f_equal. lia.
Qed.

Lemma FileDownloaded_exact_witness :
  computeFileDownloaded (Some [x50]) 3 6 4 10 3 =
  len (filter (fun x => complete [x50] 4 x /\ x < Z.min 10 (3 * 4)) (seqZ 3 6)) /\
  computeFileDownloaded (Some [x50]) 3 6 4 10 3 = 4.
Proof.
  split; [|by vm_compute]. apply FileDownloaded_exact; try lia; unfold MaxInt64; lia.
Defined.

(** ** File completion *)

(** The files reported when the pieces present are, one call after the other, [bfs]. *)
Fixpoint completions (ranges : list fileRangeEntry) (done : gset Z) (bfs : list Bitfield)
    : list fileRangeEntry :=
  match bfs with
  | [] => []
  | bf :: bfs =>
      let '(done, new) := collectNewlyCompletedFiles ranges bf done in
      new ++ completions ranges done bfs
  end.

Definition newly (bf : Bitfield) (done : gset Z) (fr : fileRangeEntry) : Prop :=
  bf <> [] /\ (index fr ∉ done) /\ has_range bf fr = true.
#[export] Instance newly_dec bf done fr : Decision (newly bf done fr).
Proof. apply _. Defined.

Lemma NoDup_fmap_inj_in {A B} (f : A -> B) (l : list A) x y :
  NoDup (f <$> l) -> x ∈ l -> y ∈ l -> f x = f y -> x = y.
Proof.
  intros Hnd (i & Hi)%list_elem_of_lookup (j & Hj)%list_elem_of_lookup E.
  assert (i = j) as ->; [|congruence].
  apply (NoDup_lookup _ i j (f x)) in Hnd; [done|..]; rewrite list_lookup_fmap.
  - by rewrite Hi.
  - by rewrite Hj, E.
Qed.

Lemma collect_fold bf ranges done acc :
  bf <> [] -> NoDup (index <$> ranges) ->
  foldl (collect_step bf) (done, acc) ranges =
  (list_to_set (index <$> filter (newly bf done) ranges) ∪ done, acc ++ filter (newly bf done) ranges).
Proof.
  intros Hbf. revert done acc. induction ranges as [|fr ranges IH]; intros done acc Hnd; cbn [foldl].
  { cbn. by rewrite app_nil_r, union_empty_l_L. }
  apply NoDup_cons in Hnd as [Hfr Hnd]. rewrite filter_cons. unfold collect_step at 2. cbn [fst snd].
  case_bool_decide as Hin.
  { rewrite decide_False by (intros (_ & ? & _); done). by apply IH. }
  destruct (has_range bf fr) eqn:Hh; cbn [negb]; last first.
  { rewrite decide_False by (intros (_ & _ & ?); congruence). by apply IH. }
  rewrite decide_True by done. rewrite IH by done.
  assert (Hext : filter (newly bf ({[index fr]} ∪ done)) ranges = filter (newly bf done) ranges).
  { apply filter_ext_in. intros fr' Hfr'. unfold newly.
    assert (index fr' <> index fr) by (intros E; apply Hfr; rewrite <- E; by apply list_elem_of_fmap_2).
    set_solver. }
  rewrite Hext, <- (assoc_L (++)). cbn [fmap list_fmap list_to_set app].
  f_equal. rewrite !(assoc_L (∪)). f_equal. apply (comm_L (∪)).
Qed.

Lemma collect_spec bf ranges done :
  NoDup (index <$> ranges) ->
  collectNewlyCompletedFiles ranges bf done =
  (list_to_set (index <$> filter (newly bf done) ranges) ∪ done, filter (newly bf done) ranges).
Proof.
  intros Hnd. unfold collectNewlyCompletedFiles. destruct (decide (bf = [])) as [->|Hbf].
  { rewrite orb_true_r, filter_none by (intros ? _ [? _]; done). cbn. by rewrite union_empty_l_L. }
  destruct ranges as [|fr ranges]; [cbn; by rewrite union_empty_l_L|].
  destruct bf as [|b bf]; [done|]. cbn [orb length Z.of_nat Z.eqb].
  change (Z.pos _ =? 0) with false. cbn [orb]. rewrite collect_fold by done. done.
Qed.

Lemma completions_spec ranges done bfs :
  NoDup (index <$> ranges) ->
  NoDup (index <$> completions ranges done bfs) /\
  forall fr, fr ∈ completions ranges done bfs <->
    fr ∈ ranges /\ (index fr ∉ done) /\ exists bf, bf ∈ bfs /\ bf <> [] /\ has_range bf fr = true.
Proof.
  intros Hnd. revert done. induction bfs as [|bf bfs IH]; intros done; cbn [completions].
  { split; [constructor|]. intros fr. rewrite elem_of_nil. split; [done|].
    intros (_ & _ & bf & Hbf & _). by apply elem_of_nil in Hbf. }
  rewrite collect_spec by done.
  destruct (IH (list_to_set (index <$> filter (newly bf done) ranges) ∪ done)) as [IH1 IH2]. split.
  - rewrite fmap_app. apply NoDup_app. split_and!; [|intros i Hi (fr & -> & Hfr)%list_elem_of_fmap|done].
    + eapply sublist_NoDup; [exact Hnd|]. by apply fmap_sublist, sublist_filter.
    + apply IH2 in Hfr as (_ & Hn & _). apply Hn. set_solver.
  - intros fr. rewrite elem_of_app, IH2, list_elem_of_filter. unfold newly. split.
    + intros [((H1 & H2 & H3) & H4)|(H1 & H2 & bf' & H3 & H4)].
      * split_and!; [done..|]. exists bf. split; [left|done].
      * split_and!; [done|set_solver|]. exists bf'. split; [by right|done].
    + intros (H1 & H2 & bf' & [->|Hin]%elem_of_cons & H3 & H4); [by left|].
      destruct (decide (newly bf done fr)) as [Hn|Hn]; [by left|]. right.
      split_and!; [done| |by exists bf'].
      rewrite elem_of_union, elem_of_list_to_set, list_elem_of_fmap. intros [(fr' & E & Hf)|?]; [|done].
      apply list_elem_of_filter in Hf as [Hn' Hf].
      by rewrite (NoDup_fmap_inj_in index ranges fr fr' Hnd H1 Hf E) in Hn.
Qed.

Lemma file_entries_lookup pl np i off files k :
  lengths_ok files -> 0 <= off -> off + total_length files <= MaxInt64 ->
  file_entries pl np i off files !! k =
  (fun f => let '(first, last) := rangeFor pl np (off + file_start files k) (f_Length f) in
            mkEntry (i + Z.of_nat k) (Join (f_Path f)) (f_Length f) first last) <$> files !! k.
Proof.
  intros H. revert i off k. induction H as [|g files Hg H IH]; intros i off k H0 Hmax; [done|].
  cbn in Hmax. pose proof (total_length_nonneg _ H).
  cbn [file_entries]. rewrite i64_id by (unfold in_i64, MinInt64, MaxInt64 in *; lia).
  destruct (rangeFor pl np off (f_Length g)) as [a b] eqn:E. destruct k as [|k].
  - cbn. unfold file_start. cbn. by rewrite Z.add_0_r, E, Z.add_0_r.
  - replace (i + Z.of_nat (S k)) with (i + 1 + Z.of_nat k) by lia.
    replace (off + file_start (g :: files) (S k)) with (off + f_Length g + file_start files k)
      by (unfold file_start; cbn; lia).
    rewrite !lookup_cons. by apply IH; lia.
Qed.

(** The pieces from the first to the last byte's are those of the file's bytes. *)
Lemma has_range_bytes bf pl np start length i p :
  0 < pl -> 0 <= start -> 0 < length -> start + length <= np * pl -> start + length <= MaxInt64 ->
  let '(first, last) := rangeFor pl np start length in
  has_range bf (mkEntry i p length first last) = true <->
  forall x, start <= x < start + length -> complete bf pl x.
Proof.
  intros Hpl H0 Hlen Hnp Hmax. unfold rangeFor. rewrite (proj2 (Z.leb_gt length 0)) by done.
  rewrite !i64_id by (unfold in_i64, MinInt64, MaxInt64 in *; try rewrite i64_id; unfold in_i64, MinInt64, MaxInt64 in *; lia).
  rewrite !Z.quot_div_nonneg by lia.
  assert (Hlast : (start + length - 1) / pl < np) by (apply Z.div_lt_upper_bound; lia).
  rewrite (proj2 (Z.leb_gt np _)) by done.
  unfold has_range. cbn [firstPiece lastPiece]. rewrite forallb_forall. unfold complete. split.
  - intros Hall x Hx. apply Hall, list_elem_of_In, elem_of_seqZ.
    pose proof (Z.div_le_mono start x pl Hpl ltac:(lia)).
    pose proof (Z.div_le_mono x (start + length - 1) pl Hpl ltac:(lia)). lia.
  - intros Hall q Hq%list_elem_of_In%elem_of_seqZ.
    pose proof (Z.div_mod start pl ltac:(lia)). pose proof (Z.mod_pos_bound start pl Hpl).
    pose proof (Z.div_mod (start + length - 1) pl ltac:(lia)).
    pose proof (Z.mod_pos_bound (start + length - 1) pl Hpl).
    rewrite <- (in_piece_div pl q (Z.max start (q * pl))) by nia. apply Hall. nia.
Qed.

Lemma index_entry i p sz (r : Z * Z) : index (let '(a, b) := r in mkEntry i p sz a b) = i.
Proof. by destruct r. Qed.

(** The entries of a multi-file torrent's ranges, by file index. *)
Lemma file_entries_in pl np files fr :
  lengths_ok files -> total_length files <= MaxInt64 ->
  fr ∈ file_entries pl np 0 0 files <->
  exists k f, files !! k = Some f /\
    fr = let '(first, last) := rangeFor pl np (file_start files k) (f_Length f) in
         mkEntry (Z.of_nat k) (Join (f_Path f)) (f_Length f) first last.
Proof.
  intros Hok Hmax. rewrite list_elem_of_lookup. apply exist_proper. intros k.
  rewrite file_entries_lookup by (done || lia). rewrite !Z.add_0_l.
  destruct (files !! k) as [f|]; cbn; [|naive_solver]. split.
  - intros [= <-]. by exists f.
  - by intros (f' & [= <-] & ->).
Qed.

Lemma file_entries_nodup pl np files :
  lengths_ok files -> total_length files <= MaxInt64 -> NoDup (index <$> file_entries pl np 0 0 files).
Proof.
  intros Hok Hmax. apply NoDup_alt. intros a b x. rewrite !list_lookup_fmap, !file_entries_lookup by (done || lia).
  destruct (files !! a), (files !! b); cbn; try done.
  destruct (rangeFor _ _ _ _), (rangeFor _ _ _ _). cbn. intros [= <-] [= ?]. lia.
Qed.

Lemma computeFileRanges_multi tf k f :
  let info := t_Info tf in
  0 < PieceLength info -> 0 < len (PieceHashes info) -> Files info !! k = Some f ->
  computeFileRanges (Some tf) = file_entries (PieceLength info) (len (PieceHashes info)) 0 0 (Files info).
Proof.
  intros info Hpl Hnp Hk. unfold computeFileRanges. fold info.
  rewrite (proj2 (Z.leb_gt _ 0)), (proj2 (Z.leb_gt (len (PieceHashes info)) 0)) by done.
  by destruct (Files info).
Qed.

Lemma computeFileRanges_nodup tf :
  lengths_ok (Files (t_Info tf)) -> total_length (Files (t_Info tf)) <= MaxInt64 ->
  NoDup (index <$> computeFileRanges (Some tf)).
Proof.
  intros Hok Hmax. unfold computeFileRanges. destruct (_ <=? 0); [constructor|].
  destruct (_ <=? 0); [constructor|]. destruct (_ =? 0); [|by apply file_entries_nodup].
  destruct (rangeFor _ _ _ _). apply NoDup_singleton.
Qed.

(** Over any sequence of completed-piece bitfields each file of the torrent is
    reported complete at most once, and a file with bytes is reported exactly when
    one of the bitfields has every piece that holds a byte of it. *)
Lemma FileCompleted_exact (tf : TorrentFile) (bfs : list Bitfield) :
  let files := Files (t_Info tf) in
  let pl := PieceLength (t_Info tf) in
  let np := len (PieceHashes (t_Info tf)) in
  let reports := completions (computeFileRanges (Some tf)) ∅ bfs in
  Forall (fun f => 0 <= f_Length f) files -> 0 < pl -> total_length files <= np * pl ->
  total_length files <= MaxInt64 ->
  NoDup (index <$> reports) /\
  forall k f, files !! k = Some f -> 0 < f_Length f ->
    (Z.of_nat k ∈ (index <$> reports)) <->
    exists bf, bf ∈ bfs /\ forall x, in_file files k x -> complete bf pl x.
Proof.
  intros files pl np reports Hok Hpl Hnp Hmax.
  destruct (completions_spec (computeFileRanges (Some tf)) ∅ bfs) as [H1 H2];
    [by apply computeFileRanges_nodup|]. split; [done|].
  intros k f Hk Hpos. destruct (file_start_bounds files k f Hok Hk) as (Hs0 & Hs1 & _).
  pose proof (computeFileRanges_multi tf k f Hpl ltac:(fold pl np; nia) Hk) as Heq.
  pose proof (fun bf => has_range_bytes bf pl np (file_start files k) (f_Length f) (Z.of_nat k) (Join (f_Path f))
    Hpl Hs0 Hpos ltac:(lia) ltac:(lia)) as Hb.
  rewrite list_elem_of_fmap. split.
  - intros (fr & Ek & (Hin & _ & bf & Hbf & _ & Hr)%H2). exists bf. split; [done|].
    rewrite Heq in Hin. apply file_entries_in in Hin as (k' & f' & Hk' & ->); [|done..].
    rewrite index_entry in Ek. apply Nat2Z.inj in Ek as <-.
    fold files pl np in Hk', Hr. rewrite Hk in Hk'. injection Hk' as <-. specialize (Hb bf).
    destruct (rangeFor pl np _ _). rewrite Hb in Hr.
    intros x (f' & Hf' & Hx). rewrite Hk in Hf'. injection Hf' as <-. by apply Hr.
  - intros (bf & Hbf & Hall). specialize (Hb bf).
    assert (Hc : forall x, file_start files k <= x < file_start files k + f_Length f -> complete bf pl x)
      by (intros x Hx; apply Hall; by exists f).
    destruct (rangeFor pl np (file_start files k) (f_Length f)) as [first last] eqn:E.
    exists (mkEntry (Z.of_nat k) (Join (f_Path f)) (f_Length f) first last). split; [done|].
    apply H2. split_and!; [|set_solver|].
    + rewrite Heq. apply file_entries_in; [done..|]. exists k, f. fold pl np files. by rewrite E.
    + exists bf. split_and!; [done| |by apply Hb].
      intros ->. pose proof (Hc (file_start files k) ltac:(lia)) as Hx.
      apply HasPiece_range in Hx. cbn in Hx. lia.
Qed.

Lemma FileCompleted_exact_witness :
  let tf := mkTorrentFile [] [] (mkInfo (lit "n") 4 [[]; []; []] 0
              [mkFile 3 [lit "a"]; mkFile 6 [lit "b"]] false None) [] [] 0 [] in
  let reports := completions (computeFileRanges (Some tf)) ∅ [[x80]; [xa0]; [xe0]; [xe0]] in
  NoDup (index <$> reports) /\ (index <$> reports) = [0; 1].
Proof.
  intros tf reports. split; [|by vm_compute].
  apply (FileCompleted_exact tf [[x80]; [xa0]; [xe0]; [xe0]]);
    [repeat constructor; cbn; lia|by vm_compute..].
Defined.

(** ** Counting pieces *)

Lemma kernighan_byte (b : byte) (bf : Bitfield) :
  kernighan 8 (u8 b) = len (filter (fun j => HasPiece (b :: bf) j = true) (seqZ 0 8)).
Proof. destruct b; vm_compute; reflexivity. Qed.

Lemma HasPiece_tail b bf j : 0 <= j -> HasPiece (b :: bf) (j + 8) = HasPiece bf j.
Proof.
  intros Hj. unfold HasPiece. replace (j + 8) with (j + 1 * 8) by lia.
  rewrite Z.div_add, Z.mod_add by lia. pose proof (Z.div_pos j 8 Hj ltac:(lia)).
  rewrite (proj2 (Z.ltb_ge _ _)), (proj2 (Z.ltb_ge j 0)) by lia. cbn [length].
  destruct (Z.leb_spec (len bf) (j / 8)), (Z.leb_spec (Z.of_nat (S (length bf))) (j / 8 + 1)); try lia.
  by replace (Z.to_nat (j / 8 + 1)) with (S (Z.to_nat (j / 8))) by lia.
Qed.

Lemma popCount_acc bf n : foldl (fun n b => n + kernighan 8 (u8 b)) n bf = n + popCount bf.
Proof.
  unfold popCount. revert n. induction bf as [|b bf IH]; intros n; cbn [foldl]; [lia|].
  rewrite IH, (IH (0 + _)). lia.
Qed.

Lemma length_filter_fmap {A B} (f : A -> B) (P : B -> Prop) (Q : A -> Prop)
    {HP : forall x, Decision (P x)} {HQ : forall x, Decision (Q x)} (l : list A) :
  (forall x, x ∈ l -> P (f x) <-> Q x) -> length (filter P (f <$> l)) = length (filter Q l).
Proof.
  induction l as [|x l IH]; intros H; [done|]. rewrite fmap_cons, !filter_cons.
  assert (Hx : P (f x) <-> Q x) by (apply H; left).
  destruct (decide (P (f x))), (decide (Q x)); try tauto; cbn [length];
    rewrite IH by (intros; apply H; by right); done.
Qed.

(** [popCount] is the number of pieces the bitfield has. *)
Lemma popCount_spec bf :
  popCount bf = len (filter (fun j => HasPiece bf j = true) (seqZ 0 (8 * len bf))).
Proof.
  induction bf as [|b bf IH]; [done|].
  unfold popCount. cbn [foldl]. rewrite popCount_acc, IH, (kernighan_byte b bf).
  replace (8 * len (b :: bf)) with (8 + 8 * len bf) by (cbn [length]; lia).
  rewrite seqZ_app, filter_app, length_app by lia. rewrite Nat2Z.inj_add, !Z.add_0_l. f_equal.
  assert (Hs : seqZ 8 (8 * len bf) = (fun j => j + 8) <$> seqZ 0 (8 * len bf)).
  { rewrite <- (fmap_add_seqZ 8 0). apply list_fmap_ext. intros. lia. }
  rewrite Hs. f_equal. symmetry. apply length_filter_fmap.
  intros j Hj%elem_of_seqZ. by rewrite HasPiece_tail by lia.
Qed.

(** ** Stall detection *)

(** Stall events alternate, beginning with [Stalled] when [st] is not stalled, and
    a stall is announced only after the threshold. *)
Fixpoint alternates (th : Z) (st : bool) (evs : list Event) : Prop :=
  match evs, st with
  | [], _ => True
  | Stalled d :: evs, false => th <= d /\ alternates th true evs
  | StallCleared _ :: evs, true => alternates th false evs
  | _, _ => False
  end.

Lemma stall_run_alternates th st ticks : alternates th (stalled st) (stall_run th st ticks).2.
Proof.
  revert st. induction ticks as [|[t n] ticks IH]; intros st; cbn [stall_run]; [done|].
  destruct (stall_step th st t n) as [st' ev] eqn:E. specialize (IH st').
  destruct (stall_run th st' ticks) as [st'' evs]. cbn [snd] in *. unfold stall_step in E.
  destruct (n <=? 0); [destruct (negb (stalled st) && _) eqn:Ec|destruct (stalled st) eqn:Es];
    simplify_eq; cbn [stalled app] in *; try done.
  apply andb_prop in Ec as [Hs%negb_true_iff Ht%Z.leb_le]. rewrite Hs. done.
Qed.
