(* ===== verification/Utp.v ===== *)
(** * [utp]: the Micro Transport Protocol ([utp/packet.go], [utp/conn.go],
    [utp/listener.go], [utp/ledbat.go])

    Packet format, one connection with its reassembly buffer, retransmission
    buffer and windows, and the listener that routes packets.  Sequence numbers
    are 16-bit integers with their wrap-around.  Times are nanoseconds and arguments;
    the congestion window, a float, is an argument wherever it is read.  Blocking
    sends on [recvCh] only delay the caller, so the channel is an unbounded
    queue. *)

From S2P Require Import Prelude.
Set Warnings "-clear-no-such-hyp".
Local Open Scope Z_scope.

Definition u16 (z : Z) : Z := wrapu 16 z.

(** ** Packets *)

Definition StData : Z := 0.
Definition StFin : Z := 1.
Definition StState : Z := 2.
Definition StReset : Z := 3.
Definition StSyn : Z := 4.

Record Header := mkHeader {
  Type_ : Z; Version : Z; Extension_ : Z; h_ConnID : Z; Timestamp : Z; TSDiff : Z; WndSize : Z;
  SeqNr : Z; AckNr : Z
}.

Definition headerSize : Z := 20.

Record Packet := mkPacket { p_Header : Header; p_Payload : bytes }.

Definition Header_Marshal (h : Header) : bytes :=
  byte_of_Z (Z.lor (wrapu 8 (Z.shiftl (Type_ h) 4)) (Z.land (Version h) 15)) ::
  byte_of_Z (Extension_ h) ::
  be_put 2 (h_ConnID h) ++ be_put 4 (Timestamp h) ++ be_put 4 (TSDiff h) ++ be_put 4 (WndSize h) ++
  be_put 2 (SeqNr h) ++ be_put 2 (AckNr h).

Inductive utp_error := PacketTooShort (n : Z) | ErrClosed | ErrTimeout.

Definition ParseHeader (data : bytes) : result utp_error Header :=
  if len data <? headerSize then Err (PacketTooShort (len data))
  else
    let b0 := u8 (default x00 (data !! 0%nat)) in
    Ok (mkHeader (Z.shiftr b0 4) (Z.land b0 15) (u8 (default x00 (data !! 1%nat)))
          (be_get (slice data 2 4)) (be_get (slice data 4 8)) (be_get (slice data 8 12))
          (be_get (slice data 12 16)) (be_get (slice data 16 18)) (be_get (slice data 18 20))).

Definition Packet_Marshal (p : Packet) : bytes :=
  let hdr := Header_Marshal (p_Header p) in
  if len (p_Payload p) =? 0 then hdr else hdr ++ p_Payload p.

Definition ParsePacket (data : bytes) : result utp_error Packet :=
  h ← ParseHeader data;
  Ok (mkPacket h (if headerSize <? len data then slice data headerSize (len data) else [])).

Definition IsUTP (data : bytes) : bool :=
  if len data <? headerSize then false
  else Z.land (u8 (default x00 (data !! 0%nat))) 15 =? 1.

(** ** Sequence numbers *)

(** [int16(a-b) > 0] *)
Definition wrappingGT (a b : Z) : bool := 0 <? wraps 16 (a - b).
Definition wrappingLEQ (a b : Z) : bool := negb (wrappingGT a b).

(** [utpTimestamp], at [now] nanoseconds. *)
Definition utpTimestamp (now : Z) : Z := wrapu 32 (Z.land (now / 1000) 4294967295).

(** ** Delay history and flight size of the congestion control *)

Definition mss : Z := 1400.
Definition baseDelayBuckets : Z := 8.
Definition bucketInterval : Z := 30 * 10 ^ 9.

Record LEDBAT := mkLEDBAT {
  flightSize : Z; delays : list Z; currentBkt : nat; lastRotate : Z
}.

Definition NewLEDBAT (now : Z) : LEDBAT :=
  mkLEDBAT 0 (replicate (Z.to_nat baseDelayBuckets) MaxInt64) 0 now.

Definition rotateBuckets (now : Z) (l : LEDBAT) : LEDBAT :=
  if now - lastRotate l <? bucketInterval then l
  else
    let bkt := ((currentBkt l + 1) mod Z.to_nat baseDelayBuckets)%nat in
    mkLEDBAT (flightSize l) (<[bkt := MaxInt64]> (delays l)) bkt now.

Definition getBaseDelay (l : LEDBAT) : Z :=
  foldl (fun m d => if d <? m then d else m) MaxInt64 (delays l).

(** [OnAck] without the window update. *)
Definition OnAck (now delay ackedBytes : Z) (l : LEDBAT) : LEDBAT :=
  let l := rotateBuckets now l in
  let ds := alter (fun d => if delay <? d then delay else d) (currentBkt l) (delays l) in
  let flight := flightSize l - ackedBytes in
  mkLEDBAT (if flight <? 0 then 0 else flight) ds (currentBkt l) (lastRotate l).

(** The delay above the base delay [OnAck] computes the window from. *)
Definition queuingDelay (delay : Z) (l : LEDBAT) : Z :=
  let base := getBaseDelay l in
  if base =? MaxInt64 then 0 else let q := delay - base in if q <? 0 then 0 else q.

Definition set_flight (n : Z) (l : LEDBAT) : LEDBAT :=
  mkLEDBAT n (delays l) (currentBkt l) (lastRotate l).
Definition OnTimeout (l : LEDBAT) : LEDBAT := set_flight 0 l.
Definition OnSend (n : Z) (l : LEDBAT) : LEDBAT := set_flight (flightSize l + n) l.

(** [cwnd] is [int(l.cwnd)]. *)
Definition CanSend (cwnd : Z) (l : LEDBAT) : Z :=
  let avail := cwnd - flightSize l in if avail <? 0 then 0 else avail.

(** ** A connection *)

Definition maxRetransmits : Z := 4.
Definition reorderBufMax : Z := 64.
Definition recv_cap : Z := 1024.

Record sentPkt := mkSent { raw : bytes; sp_seqNr : Z; sentAt : Z; retries : Z }.

Record Conn := mkConn {
  connID : Z; seqNr : Z; ackNr : Z; ledbat : LEDBAT;
  recvBuf : bytes; recvCh : list bytes; closed : bool;
  finAcked : bool; finSeqNr : Z;
  sendBuf : gmap Z sentPkt; rto : Z;
  reorderBuf : gmap Z bytes; nextExpected : Z; recvInited : bool;
  remoteWnd : Z
}.

Definition newConn (now connID seqNr ackNr : Z) : Conn :=
  mkConn connID seqNr ackNr (NewLEDBAT now) [] [] false false 0 ∅ (10 ^ 9) ∅ 0 false (256 * mss).

(** Field updates. *)
Definition with_recv (next ack : Z) (inited : bool) (rb : gmap Z bytes) (ch : list bytes) (c : Conn)
    : Conn :=
  mkConn (connID c) (seqNr c) ack (ledbat c) (recvBuf c) ch (closed c) (finAcked c) (finSeqNr c)
    (sendBuf c) (rto c) rb next inited (remoteWnd c).
Definition with_send (seq : Z) (l : LEDBAT) (sb : gmap Z sentPkt) (c : Conn) : Conn :=
  mkConn (connID c) seq (ackNr c) l (recvBuf c) (recvCh c) (closed c) (finAcked c) (finSeqNr c)
    sb (rto c) (reorderBuf c) (nextExpected c) (recvInited c) (remoteWnd c).
Definition with_wnd (w : Z) (c : Conn) : Conn :=
  mkConn (connID c) (seqNr c) (ackNr c) (ledbat c) (recvBuf c) (recvCh c) (closed c) (finAcked c)
    (finSeqNr c) (sendBuf c) (rto c) (reorderBuf c) (nextExpected c) (recvInited c) w.
Definition with_close (cl fa : bool) (fs seq : Z) (c : Conn) : Conn :=
  mkConn (connID c) seq (ackNr c) (ledbat c) (recvBuf c) (recvCh c) cl fa fs (sendBuf c) (rto c)
    (reorderBuf c) (nextExpected c) (recvInited c) (remoteWnd c).
Definition with_read (buf : bytes) (ch : list bytes) (c : Conn) : Conn :=
  mkConn (connID c) (seqNr c) (ackNr c) (ledbat c) buf ch (closed c) (finAcked c) (finSeqNr c)
    (sendBuf c) (rto c) (reorderBuf c) (nextExpected c) (recvInited c) (remoteWnd c).

Definition setFirstExpected (seq : Z) (c : Conn) : Conn :=
  with_recv seq (ackNr c) true (reorderBuf c) (recvCh c) c.

(** The inner [for]: consecutive buffered packets; every round removes one. *)
Fixpoint flush_buf (fuel : nat) (next : Z) (rb : gmap Z bytes) (acc : list bytes)
    : Z * gmap Z bytes * list bytes :=
  match fuel with
  | O => (next, rb, acc)
  | S fuel =>
      match rb !! next with
      | None => (next, rb, acc)
      | Some p => flush_buf fuel (u16 (next + 1)) (delete next rb)
                    (if 0 <? len p then acc ++ [p] else acc)
      end
  end.

(** [closed_after] is how many payloads still go into [recvCh] when the
    connection is closed meanwhile (the [select] may take either branch). *)
Definition deliverInOrder (closed_after : nat) (seq : Z) (payload : bytes) (c : Conn) : Conn :=
  let next := if recvInited c then nextExpected c else seq in
  if seq =? next then
    let toDeliver := if 0 <? len payload then [payload] else [] in
    let '(next, rb, toDeliver) :=
      flush_buf (size (reorderBuf c)) (u16 (next + 1)) (reorderBuf c) toDeliver in
    with_recv next (u16 (next - 1)) true rb
      (recvCh c ++ (if closed c then take closed_after toDeliver else toDeliver)) c
  else if wrappingGT seq next then
    let rb := if Z.of_nat (size (reorderBuf c)) <? reorderBufMax
              then <[seq := payload]> (reorderBuf c) else reorderBuf c in
    with_recv next (ackNr c) true rb (recvCh c) c
  else with_recv next (ackNr c) true (reorderBuf c) (recvCh c) c.

Definition updateRemoteWnd (w : Z) (c : Conn) : Conn := with_wnd (if w <? mss then mss else w) c.

Definition effectiveCanSend (cwnd : Z) (c : Conn) : Z :=
  let cwndAvail := CanSend cwnd (ledbat c) in
  let remoteAvail := remoteWnd c - flightSize (ledbat c) in
  if remoteAvail <? cwndAvail then remoteAvail else cwndAvail.

Definition handleAck (now : Z) (h : Header) (c : Conn) : Conn :=
  let c := updateRemoteWnd (WndSize h) c in
  let l := if negb (TSDiff h =? 0) then OnAck now (TSDiff h) mss (ledbat c) else ledbat c in
  let sb := filter (fun kv => wrappingLEQ kv.1 (AckNr h) = false) (sendBuf c) in
  let c := with_send (seqNr c) l sb c in
  if closed c && negb (finSeqNr c =? 0) && wrappingLEQ (finSeqNr c) (AckNr h)
  then with_close (closed c) true (finSeqNr c) (seqNr c) c else c.

(** The advertised window of our packets. *)
Definition advertised (c : Conn) : Z :=
  let avail := recv_cap - len (recvCh c) in wrapu 32 ((if avail <? 0 then 0 else avail) * mss).

Definition sendAckFor (time dataTimestamp : Z) (c : Conn) : Packet :=
  let now := utpTimestamp time in
  let tsDiff := if negb (dataTimestamp =? 0) then wrapu 32 (now - dataTimestamp) else 0 in
  mkPacket (mkHeader StState 1 0 (connID c) now tsDiff (advertised c) (seqNr c) (ackNr c)) [].

(** One round of the loop of [Write], once the windows are open: the connection,
    the packet sent and what is left to write.  [cwnd] is the congestion window,
    [send_ok] whether the socket took the packet. *)
Definition write_chunk (now cwnd : Z) (send_ok : bool) (b : bytes) (c : Conn)
    : option (Conn * option Packet * bytes) :=
  let canSend := effectiveCanSend cwnd c in
  if canSend <=? 0 then None
  else
    let chunkSize := if len b <? mss then len b else mss in
    let chunkSize := if canSend <? chunkSize then canSend else chunkSize in
    let seq := u16 (seqNr c + 1) in
    let pkt := mkPacket (mkHeader StData 1 0 (connID c) (utpTimestamp now) 0 (advertised c) seq (ackNr c))
                 (slice b 0 chunkSize) in
    if negb send_ok then Some (with_send seq (ledbat c) (delete seq (sendBuf c)) c, None, b)
    else
      Some (with_send seq (OnSend chunkSize (ledbat c))
              (<[seq := mkSent (Packet_Marshal pkt) seq now 0]> (sendBuf c)) c,
            Some pkt, slice b chunkSize (len b)).

(** One packet of the retransmission loop: the bytes sent again, if any. *)
Definition retransmit_one (now : Z) (c : Conn) (seq : Z) : Conn * option bytes :=
  match sendBuf c !! seq with
  | None => (c, None)
  | Some sp =>
      if now - sentAt sp <? rto c then (c, None)
      else if maxRetransmits <=? retries sp then
        (with_send (seqNr c) (ledbat c) (delete seq (sendBuf c)) c, None)
      else (with_send (seqNr c) (OnTimeout (ledbat c))
              (<[seq := mkSent (raw sp) (sp_seqNr sp) now (retries sp + 1)]> (sendBuf c)) c,
            Some (raw sp))
  end.

(** A tick of the retransmission loop; [order] is the iteration order of the map. *)
Definition retransmit_tick (now : Z) (order : list Z) (c : Conn) : Conn * list bytes :=
  foldl (fun '(c, out) seq => let '(c, r) := retransmit_one now c seq in
                              (c, out ++ option_list r)) (c, []) order.

(** [Read] of at most [n] bytes.  [None] when it would block; on a closed
    connection with data in [recvCh] the [select] takes either branch
    ([prefer_data]). *)
Definition Read (n : Z) (prefer_data : bool) (c : Conn) : option (Conn * result utp_error bytes) :=
  if 0 <? len (recvBuf c) then
    let k := if len (recvBuf c) <? n then len (recvBuf c) else n in
    Some (with_read (slice (recvBuf c) k (len (recvBuf c))) (recvCh c) c,
          Ok (slice (recvBuf c) 0 k))
  else if closed c && negb (prefer_data && (0 <? len (recvCh c))) then Some (c, Err ErrClosed)
  else match recvCh c with
       | [] => None
       | data :: ch =>
           let k := if len data <? n then len data else n in
           Some (with_read (if k <? len data then slice data k (len data) else recvBuf c) ch c,
                 Ok (slice data 0 k))
       end.

(** [Close]: the FIN packet, unless closed before. *)
Definition Close (now : Z) (c : Conn) : Conn * option Packet :=
  if closed c then (c, None)
  else
    let seq := u16 (seqNr c + 1) in
    (with_close true (finAcked c) seq seq c,
     Some (mkPacket (mkHeader StFin 1 0 (connID c) (utpTimestamp now) 0 0 seq (ackNr c)) [])).

(** What a packet does to the connection it belongs to, and the answer sent: the
    [switch] shared by [handlePacket] and [clientReadLoop]. *)
Definition conn_packet (now : Z) (closed_after : nat) (pkt : Packet) (c : Conn)
    : Conn * option Packet :=
  let h := p_Header pkt in
  if Type_ h =? StData then
    let c := deliverInOrder closed_after (SeqNr h) (p_Payload pkt) (updateRemoteWnd (WndSize h) c) in
    (c, Some (sendAckFor now (Timestamp h) c))
  else if Type_ h =? StState then (handleAck now h c, None)
  else if (Type_ h =? StFin) || (Type_ h =? StReset) then
    (with_close true (finAcked c) (finSeqNr c) (seqNr c) c, None)
  else (c, None).

(** ** The listener *)

Definition maxConns : Z := 4096.
Definition accept_cap : Z := 64.

(** [store] holds the connections ever created; [conns] and [acceptCh] refer to them. *)
Record Listener := mkListener {
  store : list Conn; conns : gmap Z nat; acceptCh : list nat
}.

Definition handlePacket (now : Z) (closed_after : nat) (pkt : Packet) (l : Listener)
    : Listener * option Packet :=
  let h := p_Header pkt in
  if Type_ h =? StSyn then
    if maxConns <=? Z.of_nat (size (conns l)) then (l, None)
    else if accept_cap <=? len (acceptCh l) then (l, None)
    else
      let c := setFirstExpected (u16 (SeqNr h + 1)) (newConn now (u16 (h_ConnID h + 1)) 1 (SeqNr h)) in
      let id := length (store l) in
      (mkListener (store l ++ [c]) (<[h_ConnID h := id]> (conns l)) (acceptCh l ++ [id]),
       Some (sendAckFor now 0 c))
  else
    match match conns l !! h_ConnID h with
          | Some id => Some id
          | None => conns l !! u16 (h_ConnID h - 1)
          end with
    | None => (l, None)
    | Some id =>
        match store l !! id with
        | None => (l, None)
        | Some c =>
            let '(c, answer) := conn_packet now closed_after pkt c in
            let conns' :=
              if (Type_ h =? StFin) || (Type_ h =? StReset)
              then delete (u16 (h_ConnID h - 1)) (delete (h_ConnID h) (conns l)) else conns l in
            (mkListener (<[id := c]> (store l)) conns' (acceptCh l), answer)
        end
    end.

(** A datagram of [readLoop]. *)
Definition readLoop_step (now : Z) (closed_after : nat) (datagram : bytes) (l : Listener)
    : Listener * option Packet :=
  if len datagram <? headerSize then (l, None)
  else match ParsePacket datagram with
       | Err _ => (l, None)
       | Ok pkt => if negb (Version (p_Header pkt) =? 1) then (l, None)
                   else handlePacket now closed_after pkt l
       end.

(** A datagram of [clientReadLoop]: the connection, the answer and whether the loop ends. *)
Definition clientReadLoop_step (now : Z) (closed_after : nat) (datagram : bytes) (c : Conn)
    : Conn * option Packet * bool :=
  if len datagram <? headerSize then (c, None, false)
  else match ParsePacket datagram with
       | Err _ => (c, None, false)
       | Ok pkt =>
           if negb (Version (p_Header pkt) =? 1) then (c, None, false)
           else (conn_packet now closed_after pkt c,
                 (Type_ (p_Header pkt) =? StFin) || (Type_ (p_Header pkt) =? StReset))
       end.

(** [Accept], when a connection is waiting. *)
Definition Accept (l : Listener) : option (nat * Listener) :=
  match acceptCh l with
  | [] => None
  | id :: ch => Some (id, mkListener (store l) (conns l) ch)
  end.

(** ** Dialling *)

(** The SYN of [DialTimeout] and the connection it belongs to. *)
Definition dial_syn (now id : Z) : Conn * Packet :=
  (newConn now (u16 (id + 1)) 1 0,
   mkPacket (mkHeader StSyn 1 0 id (utpTimestamp now) 0 (256 * mss) 1 0) []).

(** A packet read while waiting for the answer: [Some] when it is the SYN-ACK. *)
Definition dial_answer (id : Z) (from_remote : bool) (data : bytes) (c : Conn) : option Conn :=
  if len data <? headerSize then None
  else match ParsePacket data with
  | Err _ => None
  | Ok pkt =>
      let h := p_Header pkt in
      if negb (Version h =? 1) || negb (Type_ h =? StState) || negb from_remote ||
         negb (h_ConnID h =? u16 (id + 1)) then None
      else
        Some (updateRemoteWnd (WndSize h)
                (setFirstExpected (u16 (SeqNr h + 1))
                   (with_recv (nextExpected c) (SeqNr h) (recvInited c) (reorderBuf c) (recvCh c) c)))
  end.

Definition maxSynRetries : Z := 4.

(** The datagrams read during one attempt, until its deadline. *)
Fixpoint dial_reads (id : Z) (reads : list (bool * bytes)) (c : Conn) : option Conn :=
  match reads with
  | [] => None
  | (from_remote, data) :: reads =>
      match dial_answer id from_remote data c with
      | Some c => Some c
      | None => dial_reads id reads c
      end
  end.

(** The attempts of [DialTimeout]: the connection, if one of them is answered, and
    the number of SYNs sent.  The overall deadline limits how many attempts there are. *)
Fixpoint dial_attempts (id : Z) (n : nat) (attempts : list (list (bool * bytes))) (c : Conn)
    : option Conn * nat :=
  match n, attempts with
  | S n, reads :: attempts =>
      match dial_reads id reads c with
      | Some c => (Some c, 1%nat)
      | None => let '(r, k) := dial_attempts id n attempts c in (r, S k)
      end
  | _, _ => (None, 0%nat)
  end.

Definition DialTimeout (now id : Z) (attempts : list (list (bool * bytes))) : option Conn * nat :=
  dial_attempts id (Z.to_nat maxSynRetries) attempts (dial_syn now id).1.
