(* ===== verification/UtpTheorems.v ===== *)
(** * Properties of uTP

    The receiver with 16-bit sequence numbers behaves as an ideal one that counts
    packets without bound, as long as packets are at most half the number space
    old; from that, the bytes handed to the reader are always the sender's, in
    order and without gaps, and nothing leaves the retransmission buffer before
    it has been delivered. *)

From S2P Require Import Prelude Utp.
Set Warnings "-clear-no-such-hyp".
Local Open Scope Z_scope.

(** ** Packet format *)

Definition wf_header (h : Header) : Prop :=
  0 <= Type_ h < 16 /\ 0 <= Version h < 16 /\ 0 <= Extension_ h < 256 /\ 0 <= h_ConnID h < 2 ^ 16 /\
  0 <= Timestamp h < 2 ^ 32 /\ 0 <= TSDiff h < 2 ^ 32 /\ 0 <= WndSize h < 2 ^ 32 /\
  0 <= SeqNr h < 2 ^ 16 /\ 0 <= AckNr h < 2 ^ 16.

Lemma nibbles a b : 0 <= a < 16 -> 0 <= b < 16 ->
  let z := Z.lor (wrapu 8 (Z.shiftl a 4)) (Z.land b 15) in
  0 <= z < 256 /\ Z.shiftr z 4 = a /\ Z.land z 15 = b.
Proof.
  intros Ha Hb.
  assert (Hall : forallb (fun a => forallb (fun b =>
    let z := Z.lor (wrapu 8 (Z.shiftl a 4)) (Z.land b 15) in
    (0 <=? z) && (z <? 256) && (Z.shiftr z 4 =? a) && (Z.land z 15 =? b)) (seqZ 0 16)) (seqZ 0 16) = true)
    by (vm_compute; reflexivity).
  assert (Hin : forall x, 0 <= x < 16 -> In x (seqZ 0 16))
    by (intros; apply list_elem_of_In, elem_of_seqZ; lia).
  rewrite forallb_forall in Hall.
  specialize (Hall a (Hin a Ha)).
  rewrite forallb_forall in Hall.
  specialize (Hall b (Hin b Hb)).
  cbn zeta in *. rewrite !andb_true_iff, Z.leb_le, Z.ltb_lt, !Z.eqb_eq in Hall. tauto.
Qed.

Lemma length_Header_Marshal h : length (Header_Marshal h) = 20%nat.
Proof. unfold Header_Marshal. cbn [length]. by rewrite !length_app, !length_be_put. Qed.

Lemma ParseHeader_Marshal h rest :
  wf_header h -> ParseHeader (Header_Marshal h ++ rest) = Ok h.
Proof.
  intros (H1 & H2 & H3 & H4 & H5 & H6 & H7 & H8 & H9). unfold ParseHeader.
  rewrite length_app, length_Header_Marshal. rewrite (proj2 (Z.ltb_ge _ _)) by (unfold headerSize; lia).
  destruct (nibbles (Type_ h) (Version h) H1 H2) as (Hz & Ht & Hv).
  unfold Header_Marshal. cbn [app lookup list_lookup from_option id].
  rewrite !u8_byte_of_Z, (Z.mod_small _ 256) by done. rewrite (Z.mod_small (Extension_ h)) by done.
  rewrite Ht, Hv. destruct h as [t v e ci ts td ws sn an]. cbn [Type_ Version Extension_ h_ConnID Timestamp
    TSDiff WndSize SeqNr AckNr] in *.
  assert (G : forall n x y, 0 <= x < 256 ^ Z.of_nat n -> y = be_put n x -> be_get y = x)
    by (intros n x y Hx ->; by apply be_get_put_id).
  do 2 f_equal; [apply (G 2%nat)|apply (G 4%nat)|apply (G 4%nat)|apply (G 4%nat)|apply (G 2%nat)|apply (G 2%nat)];
    done || reflexivity.
Qed.

Lemma ParsePacket_Marshal p : wf_header (p_Header p) -> ParsePacket (Packet_Marshal p) = Ok p.
Proof.
  intros H. destruct p as [h payload]. unfold ParsePacket, Packet_Marshal. cbn [p_Header p_Payload] in *.
  destruct (Z.eqb_spec (len payload) 0) as [E|E].
  - destruct payload; [|done]. pose proof (ParseHeader_Marshal h [] H) as Hp. rewrite app_nil_r in Hp.
    rewrite Hp. cbn [mbind result_bind]. by rewrite length_Header_Marshal.
  - rewrite ParseHeader_Marshal by done. cbn [mbind result_bind].
    rewrite (proj2 (Z.ltb_lt _ _)) by (rewrite length_app, length_Header_Marshal; unfold headerSize; lia).
    by rewrite slice_suffix by (by rewrite length_Header_Marshal).
Qed.

Lemma length_Packet_Marshal p : headerSize <= len (Packet_Marshal p).
Proof.
  unfold Packet_Marshal. destruct (_ =? 0); rewrite ?length_app, length_Header_Marshal; unfold headerSize; lia.
Qed.

(** ** Sequence numbers of packet indices *)

Definition half : Z := 2 ^ 15.

(** The number of packet [i] of a stream whose first packet has number [s]. *)
Definition seqn (s i : Z) : Z := u16 (s + i).

Lemma seqn_range s i : 0 <= seqn s i < 2 ^ 16.
Proof. apply wrapu_range. lia. Qed.

Lemma seqn_succ s i : u16 (seqn s i + 1) = seqn s (i + 1).
Proof. unfold seqn, u16, wrapu. rewrite Z.add_mod_idemp_l by lia. f_equal. lia. Qed.

Lemma seqn_pred s i : u16 (seqn s i - 1) = seqn s (i - 1).
Proof. unfold seqn, u16, wrapu. rewrite Zminus_mod_idemp_l. f_equal. lia. Qed.

Lemma seqn_inj s i j : - 2 ^ 16 < i - j < 2 ^ 16 -> seqn s i = seqn s j -> i = j.
Proof.
  unfold seqn, u16, wrapu. intros Hd E.
  pose proof (Z.div_mod (s + i) (2 ^ 16) ltac:(lia)). pose proof (Z.div_mod (s + j) (2 ^ 16) ltac:(lia)).
  nia.
Qed.

(** Comparison of numbers is comparison of indices less than half the space apart. *)
Lemma wrappingGT_seqn s i j : - half <= i - j < half -> wrappingGT (seqn s i) (seqn s j) = (j <? i).
Proof.
  unfold wrappingGT, wraps, seqn, u16, wrapu, half. intros Hd.
  change (16 - 1) with 15.
  rewrite <- (Zplus_mod_idemp_l ((s + i) mod 2 ^ 16 - (s + j) mod 2 ^ 16)), <- Zminus_mod, Zplus_mod_idemp_l.
  rewrite Z.mod_small by lia. destruct (Z.ltb_spec j i); [apply Z.ltb_lt|apply Z.ltb_ge]; lia.
Qed.

Lemma wrappingLEQ_seqn s i j : - half <= i - j < half -> wrappingLEQ (seqn s i) (seqn s j) = (i <=? j).
Proof. intros H. unfold wrappingLEQ. rewrite wrappingGT_seqn by done. symmetry. apply Z.leb_antisym. Qed.

(** ** The ideal receiver *)

Record ideal := mkIdeal { i_next : Z; i_buf : gmap Z bytes; i_out : list bytes }.

Fixpoint ideal_flush (fuel : nat) (next : Z) (buf : gmap Z bytes) (acc : list bytes)
    : Z * gmap Z bytes * list bytes :=
  match fuel with
  | O => (next, buf, acc)
  | S fuel =>
      match buf !! next with
      | None => (next, buf, acc)
      | Some p => ideal_flush fuel (next + 1) (delete next buf) (if 0 <? len p then acc ++ [p] else acc)
      end
  end.

Definition ideal_deliver (I : ideal) (i : Z) (payload : bytes) : ideal :=
  if i =? i_next I then
    let '(next, buf, out) := ideal_flush (size (i_buf I)) (i_next I + 1) (i_buf I)
                               (if 0 <? len payload then [payload] else []) in
    mkIdeal next buf (i_out I ++ out)
  else if i_next I <? i then
    mkIdeal (i_next I)
      (if Z.of_nat (size (i_buf I)) <? reorderBufMax then <[i := payload]> (i_buf I) else i_buf I) (i_out I)
  else I.

(** ** Simulation *)

Section Simulation.
Context (s : Z).

Record sim_buf (next_m : Z) (rb : gmap Z bytes) (next : Z) (buf : gmap Z bytes) : Prop := {
  sim_next : next_m = seqn s next;
  sim_fwd : forall j v, buf !! j = Some v -> next <= j < next + half /\ rb !! seqn s j = Some v;
  sim_bwd : forall k v, rb !! k = Some v -> exists j, k = seqn s j /\ buf !! j = Some v;
  sim_size : size rb = size buf
}.

Lemma sim_lookup next_m rb next buf j :
  sim_buf next_m rb next buf -> next - half <= j <= next + half -> rb !! seqn s j = buf !! j.
Proof.
  intros [_ Hf Hb _] Hj. destruct (buf !! j) as [v|] eqn:E; [by apply Hf|].
  destruct (rb !! seqn s j) as [v|] eqn:E'; [|done].
  apply Hb in E' as (j' & Ej & E'). pose proof (Hf _ _ E') as [Hw _].
  apply seqn_inj in Ej as ->; [congruence|]. unfold half in *. lia.
Qed.

Lemma sim_delete next_m rb next buf p :
  sim_buf next_m rb next buf -> buf !! next = Some p ->
  sim_buf (seqn s (next + 1)) (delete next_m rb) (next + 1) (delete next buf).
Proof.
  intros H Hp. destruct H as [-> Hf Hb Hs]. split; [done|..].
  - intros j v Hj. apply lookup_delete_Some in Hj as [Hne Hj]. apply Hf in Hj as [Hw Hr].
    split; [lia|]. rewrite lookup_delete_ne; [done|]. intros E. apply seqn_inj in E; [done|]. unfold half in *. lia.
  - intros k v Hk. apply lookup_delete_Some in Hk as [Hne Hk]. apply Hb in Hk as (j & -> & Hj).
    exists j. split; [done|]. apply lookup_delete_Some. split; [|done]. by intros ->.
  - rewrite !map_size_delete, Hp, (proj2 (Hf _ _ Hp)). lia.
Qed.

Lemma sim_insert next_m rb next buf i p :
  sim_buf next_m rb next buf -> next < i < next + half ->
  sim_buf next_m (<[seqn s i := p]> rb) next (<[i := p]> buf).
Proof.
  intros H Hi. pose proof (sim_lookup _ _ _ _ i H ltac:(unfold half in *; lia)) as Hl.
  destruct H as [-> Hf Hb Hs]. split; [done|..].
  - intros j v Hj. apply lookup_insert_Some in Hj as [[<- <-]|[Hne Hj]].
    + split; [lia|]. apply lookup_insert_eq.
    + apply Hf in Hj as [Hw Hr]. split; [done|]. rewrite lookup_insert_ne; [done|].
      intros E. apply seqn_inj in E; [done|]. unfold half in *. lia.
  - intros k v Hk. apply lookup_insert_Some in Hk as [[<- <-]|[Hne Hk]].
    + exists i. split; [done|apply lookup_insert_eq].
    + apply Hb in Hk as (j & -> & Hj). exists j. split; [done|].
      rewrite lookup_insert_ne; [done|]. by intros ->.
  - rewrite !map_size_insert, Hl. by destruct (buf !! i); rewrite Hs.
Qed.

Lemma sim_flush fuel : forall next_m rb next buf acc,
  sim_buf next_m rb next buf ->
  let '(nm, rb', out) := flush_buf fuel next_m rb acc in
  let '(n, buf', out') := ideal_flush fuel next buf acc in
  sim_buf nm rb' n buf' /\ out = out' /\ next <= n.
Proof.
  induction fuel as [|fuel IH]; intros next_m rb next buf acc H; [cbn; split_and!; [done|done|lia]|].
  pose proof (sim_lookup _ _ _ _ next H ltac:(unfold half; lia)) as Hl.
  pose proof (sim_next _ _ _ _ H) as Hn.
  cbn [flush_buf ideal_flush]. rewrite Hn, Hl. destruct (buf !! next) as [p|] eqn:Hp.
  - rewrite seqn_succ. pose proof (sim_delete _ _ _ _ p H Hp) as Hd. rewrite Hn in Hd.
    specialize (IH _ _ _ _ (if 0 <? len p then acc ++ [p] else acc) Hd).
    destruct (flush_buf _ _ _ _) as [[nm rb'] out]. destruct (ideal_flush _ _ _ _) as [[n buf'] out'].
    destruct IH as (? & ? & ?). split_and!; [done|done|lia].
  - split_and!; [by rewrite <- Hn|done|lia].
Qed.

Lemma ideal_flush_stop fuel : forall next buf acc,
  (size buf <= fuel)%nat ->
  let '(n, buf', _) := ideal_flush fuel next buf acc in buf' !! n = None.
Proof.
  induction fuel as [|fuel IH]; intros next buf acc Hs; cbn [ideal_flush].
  - assert (buf = ∅) as -> by (apply map_size_empty_iff; lia). apply lookup_empty.
  - destruct (buf !! next) as [p|] eqn:Hp; [|done]. apply IH.
    rewrite map_size_delete, Hp. cbn. lia.
Qed.

(** A connection and the ideal receiver in the same state; [got] is what the reader has taken. *)
Record sim (got : bytes) (c : Conn) (I : ideal) : Prop := {
  sim_bufs : sim_buf (nextExpected c) (reorderBuf c) (i_next I) (i_buf I);
  sim_gap : i_buf I !! i_next I = None;
  sim_inited : recvInited c = true;
  sim_open : closed c = false;
  sim_ack : ackNr c = seqn s (i_next I - 1);
  sim_ch : concat (i_out I) = got ++ recvBuf c ++ concat (recvCh c)
}.

Lemma sim_first c : recvInited c = true -> closed c = false -> nextExpected c = seqn s 0 ->
  ackNr c = seqn s (-1) -> reorderBuf c = ∅ -> recvBuf c = [] -> recvCh c = [] ->
  sim [] c (mkIdeal 0 ∅ []).
Proof.
  intros H1 H2 H3 H4 H5 H6 H7. split; cbn; try done; [|by rewrite H6, H7].
  rewrite H5. split; [done|..].
  - intros j v Hj. by rewrite lookup_empty in Hj.
  - intros k v Hk. by rewrite lookup_empty in Hk.
  - done.
Qed.

Lemma sim_deliver got k c I i p :
  sim got c I -> - half <= i - i_next I < half ->
  sim got (deliverInOrder k (seqn s i) p c) (ideal_deliver I i p).
Proof.
  intros [Hb Hg Hi Ho Ha Hc] Hw. pose proof (sim_next _ _ _ _ Hb) as Hn.
  pose proof (sim_size _ _ _ _ Hb) as Hsz.
  unfold deliverInOrder, ideal_deliver. rewrite Hi, Ho, Hsz, Hn.
  destruct (Z.eqb_spec i (i_next I)) as [->|Hne].
  - rewrite Z.eqb_refl, seqn_succ.
    assert (Hb' : sim_buf (seqn s (i_next I + 1)) (reorderBuf c) (i_next I + 1) (i_buf I)).
    { destruct Hb as [_ Hf Hbw Hs]. split; [done| |done..]. intros j v Hj.
      destruct (Hf j v Hj). split; [|done]. assert (j <> i_next I) by congruence. lia. }
    pose proof (sim_flush (size (i_buf I)) _ _ _ _ (if 0 <? len p then [p] else []) Hb') as Hsim.
    pose proof (ideal_flush_stop (size (i_buf I)) (i_next I + 1) (i_buf I)
      (if 0 <? len p then [p] else []) ltac:(lia)) as Hstop.
    destruct (flush_buf _ _ _ _) as [[nm rb'] out]. destruct (ideal_flush _ _ _ _) as [[n buf'] out'].
    destruct Hsim as (Hs & -> & Hle). split; cbn; [done|done|done|done| |by rewrite !concat_app, Hc, <- !(assoc_L (++))].
    rewrite (sim_next _ _ _ _ Hs). apply seqn_pred.
  - assert ((seqn s i =? seqn s (i_next I)) = false) as ->.
    { apply Z.eqb_neq. intros E. apply seqn_inj in E; [done|]. unfold half in *. lia. }
    rewrite wrappingGT_seqn by done. destruct (Z.ltb_spec (i_next I) i).
    + split; cbn; try done.
      * destruct (_ <? reorderBufMax); [|by rewrite <- Hn]. rewrite <- Hn. apply sim_insert; [done|lia].
      * destruct (_ <? reorderBufMax); [|done]. rewrite lookup_insert_ne; [done|lia].
    + split; cbn; try done. by rewrite <- Hn.
Qed.

Lemma sim_wnd got w c I : sim got c I -> sim got (updateRemoteWnd w c) I.
Proof. by intros []. Qed.

Lemma sim_read got n b c c' d I :
  0 <= n -> sim got c I -> Read n b c = Some (c', Ok d) -> sim (got ++ d) c' I.
Proof.
  intros Hn [Hb Hg Hi Ho Ha Hc]. unfold Read. rewrite Ho. cbn [andb].
  destruct (Z.ltb_spec 0 (len (recvBuf c))) as [Hr|Hr].
  - intros [= <- <-]. split; cbn; try done. rewrite Hc, <- (assoc_L (++)). f_equal.
    rewrite (assoc_L (++)). f_equal. symmetry. apply slice_split.
    destruct (Z.ltb_spec (len (recvBuf c)) n); lia.
  - assert (recvBuf c = []) as Hnil by (destruct (recvBuf c); cbn in Hr; [done|lia]).
    destruct (recvCh c) as [|data ch] eqn:Hch; [done|]. intros [= <- <-].
    split; cbn; try done. rewrite Hc, Hnil, <- (assoc_L (++)). f_equal. cbn.
    rewrite (assoc_L (++)). f_equal.
    set (k := if len data <? n then len data else n).
    assert (0 <= k <= len data) by (subst k; destruct (Z.ltb_spec (len data) n); lia).
    destruct (Z.ltb_spec k (len data)); [by rewrite slice_split|].
    replace k with (len data) by lia. by rewrite slice_full, app_nil_r.
Qed.
End Simulation.


(** ** What the ideal receiver hands out *)

(** [log] is the list of payloads sent so far. *)
Record ideal_ok (log : list bytes) (I : ideal) : Prop := {
  ok_next : 0 <= i_next I <= len log;
  ok_buf : forall j v, i_buf I !! j = Some v -> 0 <= j /\ log !! Z.to_nat j = Some v;
  ok_out : concat (i_out I) = concat (take (Z.to_nat (i_next I)) log)
}.

Lemma ideal_ok_snoc log I p : ideal_ok log I -> ideal_ok (log ++ [p]) I.
Proof.
  intros [Hn Hb Ho]. split.
  - rewrite length_app. cbn. lia.
  - intros j v Hj. destruct (Hb j v Hj). split; [done|by apply lookup_app_l_Some].
  - by rewrite take_app_le by lia.
Qed.

Lemma concat_nonempty (acc : list bytes) p :
  concat (if 0 <? len p then acc ++ [p] else acc) = concat acc ++ p.
Proof.
  destruct (Z.ltb_spec 0 (len p)) as [|E].
  - by rewrite concat_app, concat_cons, app_nil_r.
  - destruct p; [by rewrite app_nil_r|cbn in E; lia].
Qed.

Lemma concat_take_succ (log : list bytes) i p :
  0 <= i -> log !! Z.to_nat i = Some p ->
  i + 1 <= len log /\ concat (take (Z.to_nat (i + 1)) log) = concat (take (Z.to_nat i) log) ++ p.
Proof.
  intros H0 Hp. pose proof (lookup_lt_Some _ _ _ Hp). split; [lia|].
  replace (Z.to_nat (i + 1)) with (S (Z.to_nat i)) by lia.
  rewrite (take_S_r _ _ _ Hp), concat_app. cbn. by rewrite app_nil_r.
Qed.

Lemma ideal_flush_ok log o fuel : forall next buf acc,
  0 <= next <= len log ->
  (forall j v, buf !! j = Some v -> 0 <= j /\ log !! Z.to_nat j = Some v) ->
  o ++ concat acc = concat (take (Z.to_nat next) log) ->
  let '(n, buf', out) := ideal_flush fuel next buf acc in
  0 <= n <= len log /\ (forall j v, buf' !! j = Some v -> 0 <= j /\ log !! Z.to_nat j = Some v) /\
  o ++ concat out = concat (take (Z.to_nat n) log).
Proof.
  induction fuel as [|fuel IH]; intros next buf acc H0 Hb Ho; [done|]. cbn [ideal_flush].
  destruct (buf !! next) as [p|] eqn:Hp; [|done]. apply Hb in Hp as Hl. destruct Hl as [_ Hl].
  destruct (concat_take_succ _ _ _ (proj1 H0) Hl) as [Hle Hs]. apply IH; [lia|..].
  - intros j v [_ Hj]%lookup_delete_Some. by apply Hb.
  - by rewrite concat_nonempty, (assoc_L (++)), Ho, Hs.
Qed.

Lemma ideal_deliver_ok log I i p :
  0 <= i -> log !! Z.to_nat i = Some p -> ideal_ok log I -> ideal_ok log (ideal_deliver I i p).
Proof.
  intros H0 Hp [Hn Hb Ho]. unfold ideal_deliver. destruct (Z.eqb_spec i (i_next I)) as [->|].
  - destruct (concat_take_succ _ _ _ H0 Hp) as [Hle Hs].
    pose proof (ideal_flush_ok log (concat (i_out I)) (size (i_buf I)) (i_next I + 1) (i_buf I)
      (if 0 <? len p then [p] else []) ltac:(lia) Hb) as Hf.
    destruct (ideal_flush _ _ _ _) as [[n buf'] out]. destruct Hf as (? & ? & ?).
    { pose proof (concat_nonempty [] p) as E. cbn [app concat] in E. by rewrite E, Hs, Ho. }
    split; cbn; [done|done|]. by rewrite concat_app.
  - destruct (i_next I <? i); [|done]. split; cbn; [done| |done]. destruct (_ <? _); [|done].
    intros j v [[<- <-]|[_ Hj]]%lookup_insert_Some; [done|by apply Hb].
Qed.

(** A packet at or below the next one leaves the receiver past it. *)
Lemma ideal_flush_mono fuel : forall next buf acc, next <= (ideal_flush fuel next buf acc).1.1.
Proof.
  induction fuel as [|fuel IH]; intros next buf acc; cbn [ideal_flush]; [cbn; lia|].
  destruct (buf !! next); [|cbn; lia]. etrans; [|apply IH]. lia.
Qed.

Lemma ideal_deliver_next I p : i_next I + 1 <= i_next (ideal_deliver I (i_next I) p).
Proof.
  unfold ideal_deliver. rewrite Z.eqb_refl.
  pose proof (ideal_flush_mono (size (i_buf I)) (i_next I + 1) (i_buf I) (if 0 <? len p then [p] else [])).
  by destruct (ideal_flush _ _ _ _) as [[n buf'] out].
Qed.

Lemma ideal_deliver_mono I i p : i_next I <= i_next (ideal_deliver I i p).
Proof.
  destruct (Z.eqb_spec i (i_next I)) as [->|E]; [pose proof (ideal_deliver_next I p); lia|].
  unfold ideal_deliver. rewrite (proj2 (Z.eqb_neq _ _) E). destruct (_ <? _); cbn; lia.
Qed.

(** ** A transfer

    One direction of a connection, neither end closed, over a network that loses, repeats and
    reorders packets.  [data] holds every data packet a number was given to, [wire] the
    datagrams that may still arrive, [gone] the packets whose send failed and those the retransmission
    gave up, [acks] every answer with the number of packets delivered before it was sent. *)

Record net := mkNet {
  snd_c : Conn; rcv_c : Conn; data : list Packet; wire : list bytes; gone : list Packet; acks : list (Z * Packet);
  reader : bytes;      (** what [Read] has returned *)
  ghost : ideal        (** the ideal receiver, for the statement *)
}.

Definition payloads (n : net) : list bytes := p_Payload <$> data n.

(** The packet that was dropped from the retransmission buffer, if any. *)
Definition dropped (a a' : Conn) (seq : Z) : list Packet :=
  match sendBuf a !! seq, sendBuf a' !! seq with
  | Some sp, None => match ParsePacket (raw sp) with Ok pkt => [pkt] | Err _ => [] end
  | _, _ => []
  end.

Inductive net_step : net -> net -> Prop :=
  (** [Write] sends a chunk; at most half the number space is outstanding. *)
  | step_write now cwnd w a b ds ws gs ks rd I a' pkt rest :
      write_chunk now cwnd true w a = Some (a', Some pkt, rest) ->
      len ds - i_next I < half ->
      net_step (mkNet a b ds ws gs ks rd I) (mkNet a' b (ds ++ [pkt]) (ws ++ [Packet_Marshal pkt]) gs ks rd I)
  (** The socket refuses the packet: [Write] returns the error, the number is used up by a packet nobody sends. *)
  | step_write_fails now cwnd w a b ds ws gs ks rd I a' pkt rest :
      write_chunk now cwnd false w a = Some (a', None, rest) ->
      Type_ (p_Header pkt) = StData -> SeqNr (p_Header pkt) = seqNr a' -> len ds - i_next I < half ->
      net_step (mkNet a b ds ws gs ks rd I) (mkNet a' b (ds ++ [pkt]) ws (gs ++ [pkt]) ks rd I)
  (** The network loses datagrams. *)
  | step_lose a b ds ws gs ks rd I ws' :
      ws' ⊆ ws -> net_step (mkNet a b ds ws gs ks rd I) (mkNet a b ds ws' gs ks rd I)
  (** A data packet arrives, any number of times and in any order. *)
  | step_data now k i bs a b ds ws gs ks rd I b' pkt ack :
      bs ∈ ws -> ParsePacket bs = Ok pkt ->
      0 <= i -> ds !! Z.to_nat i = Some pkt -> - half <= i - i_next I ->
      conn_packet now k pkt b = (b', Some ack) ->
      net_step (mkNet a b ds ws gs ks rd I)
        (mkNet a b' ds ws gs (ks ++ [(i_next (ideal_deliver I i (p_Payload pkt)), ack)]) rd
           (ideal_deliver I i (p_Payload pkt)))
  (** An answer arrives. *)
  | step_ack now k m a b ds ws gs ks rd I a' ack r :
      (m, ack) ∈ ks -> len ds - m < half -> conn_packet now k ack a = (a', r) ->
      net_step (mkNet a b ds ws gs ks rd I) (mkNet a' b ds ws gs ks rd I)
  (** A packet is sent again, or the retransmission does nothing about it or gives it up. *)
  | step_retransmit now seq a b ds ws gs ks rd I a' bs :
      retransmit_one now a seq = (a', bs) ->
      net_step (mkNet a b ds ws gs ks rd I) (mkNet a' b ds (ws ++ option_list bs) (gs ++ dropped a a' seq) ks rd I)
  (** The reader takes some bytes. *)
  | step_read n p a b ds ws gs ks rd I b' d :
      0 <= n -> Read n p b = Some (b', Ok d) ->
      net_step (mkNet a b ds ws gs ks rd I) (mkNet a b' ds ws gs ks (rd ++ d) I).

Section Transfer.
(** The number of the first data packet. *)
Context (s : Z).

Record transfer_inv (n : net) : Prop := {
  tr_sim : sim s (reader n) (rcv_c n) (ghost n);
  tr_ok : ideal_ok (payloads n) (ghost n);
  tr_window : len (data n) - i_next (ghost n) <= half;
  tr_ids : 0 <= connID (snd_c n) < 2 ^ 16 /\ 0 <= ackNr (snd_c n) < 2 ^ 16;
  tr_seq : seqNr (snd_c n) = seqn s (len (data n) - 1);
  tr_data : forall (i : nat) pkt, data n !! i = Some pkt ->
    Type_ (p_Header pkt) = StData /\ SeqNr (p_Header pkt) = seqn s (Z.of_nat i);
  tr_kept : forall (i : nat) pkt, data n !! i = Some pkt -> i_next (ghost n) <= Z.of_nat i ->
    (exists sp, sendBuf (snd_c n) !! seqn s (Z.of_nat i) = Some sp /\ ParsePacket (raw sp) = Ok pkt) \/ pkt ∈ gone n;
  tr_acks : forall m ack, (m, ack) ∈ acks n ->
    m <= i_next (ghost n) /\ Type_ (p_Header ack) = StState /\ AckNr (p_Header ack) = seqn s (m - 1)
}.

Lemma write_chunk_spec now cwnd w a a' pkt rest :
  write_chunk now cwnd true w a = Some (a', Some pkt, rest) ->
  0 <= connID a < 2 ^ 16 -> 0 <= ackNr a < 2 ^ 16 ->
  let seq := u16 (seqNr a + 1) in
  seqNr a' = seq /\ connID a' = connID a /\ ackNr a' = ackNr a /\
  Type_ (p_Header pkt) = StData /\ SeqNr (p_Header pkt) = seq /\
  w = p_Payload pkt ++ rest /\
  exists sp, sendBuf a' = <[seq := sp]> (sendBuf a) /\ ParsePacket (raw sp) = Ok pkt.
Proof.
  intros Hw Hc Ha. unfold write_chunk in Hw.
  destruct (Z.leb_spec (effectiveCanSend cwnd a) 0) as [|He]; [done|]. cbn [negb] in Hw.
  set (seq := u16 (seqNr a + 1)) in *. simplify_eq Hw. intros <- <- <-.
  cbn. split_and!; try done.
  - symmetry. apply slice_split.
    destruct (Z.ltb_spec (len w) mss);
      match goal with |- context [if ?x <? ?y then _ else _] => destruct (Z.ltb_spec x y) end;
      unfold mss in *; lia.
  - eexists. split; [done|]. apply ParsePacket_Marshal.
    split_and!; cbn; try (unfold StData; lia); try (apply wrapu_range; lia); done.
Qed.

Lemma kept_handleAck now h c seq sp :
  wrappingLEQ seq (AckNr h) = false -> sendBuf c !! seq = Some sp ->
  sendBuf (handleAck now h c) !! seq = Some sp.
Proof.
  intros Hw Hs. unfold handleAck. cbn. destruct (_ && _); cbn; by apply map_lookup_filter_Some.
Qed.

Lemma handleAck_ids now h c :
  connID (handleAck now h c) = connID c /\ ackNr (handleAck now h c) = ackNr c /\
  seqNr (handleAck now h c) = seqNr c.
Proof. unfold handleAck. cbn. by destruct (_ && _). Qed.

Lemma retransmit_kept now c seq c' r k sp pkt :
  retransmit_one now c seq = (c', r) -> sendBuf c !! k = Some sp -> ParsePacket (raw sp) = Ok pkt ->
  (exists sp', sendBuf c' !! k = Some sp' /\ raw sp' = raw sp) \/ pkt ∈ dropped c c' seq.
Proof.
  unfold retransmit_one, dropped. destruct (sendBuf c !! seq) as [sq|] eqn:E; [|intros [= <- _]; eauto].
  destruct (_ <? _); [intros [= <- _]; eauto|]. destruct (_ <=? _); intros [= <- _] Hk Hp; cbn.
  - destruct (decide (seq = k)) as [->|Hne]; [right|left; rewrite lookup_delete_ne by done; by eexists].
    rewrite lookup_delete_eq. rewrite Hk in E. simplify_eq. rewrite Hp. by apply list_elem_of_singleton.
  - left. destruct (decide (seq = k)) as [->|Hne].
    + rewrite lookup_insert_eq. rewrite Hk in E. simplify_eq. by eexists.
    + rewrite lookup_insert_ne by done. by eexists.
Qed.

Lemma retransmit_ids now c seq c' r :
  retransmit_one now c seq = (c', r) ->
  connID c' = connID c /\ ackNr c' = ackNr c /\ seqNr c' = seqNr c.
Proof.
  unfold retransmit_one. destruct (sendBuf c !! seq); [|by intros [= <- _]].
  destruct (_ <? _); [by intros [= <- _]|]. destruct (_ <=? _); by intros [= <- _].
Qed.

(** A data packet: in-order delivery and an answer that acknowledges what was delivered. *)
Lemma conn_packet_data got now k pkt b b' ack I i :
  sim s got b I -> - half <= i - i_next I < half ->
  Type_ (p_Header pkt) = StData -> SeqNr (p_Header pkt) = seqn s i ->
  conn_packet now k pkt b = (b', Some ack) ->
  let I' := ideal_deliver I i (p_Payload pkt) in
  sim s got b' I' /\ Type_ (p_Header ack) = StState /\ AckNr (p_Header ack) = seqn s (i_next I' - 1).
Proof.
  intros Hs Hi Ht Hn. unfold conn_packet. rewrite Ht, Hn. cbn [StData Z.eqb]. intros [= <- <-].
  assert (Hsim : sim s got (deliverInOrder k (seqn s i) (p_Payload pkt)
    (updateRemoteWnd (WndSize (p_Header pkt)) b)) (ideal_deliver I i (p_Payload pkt)))
    by (apply sim_deliver; [by apply sim_wnd|done]).
  split_and!; [done|done|]. apply (sim_ack _ _ _ _ Hsim).
Qed.

Lemma conn_packet_state now k ack a a' r :
  Type_ (p_Header ack) = StState -> conn_packet now k ack a = (a', r) ->
  a' = handleAck now (p_Header ack) a.
Proof. intros Ht. unfold conn_packet. rewrite Ht. by intros [= <- _]. Qed.

Lemma payload_lookup n i pkt : data n !! i = Some pkt -> payloads n !! i = Some (p_Payload pkt).
Proof. intros H. unfold payloads. by rewrite list_lookup_fmap, H. Qed.

(** A number is given out: [sb] is the retransmission buffer after it. *)
Lemma snoc_preserves a b ds ws gs ks rd I a' ws' gs' pkt :
  transfer_inv (mkNet a b ds ws gs ks rd I) -> len ds - i_next I < half ->
  seqNr a' = u16 (seqNr a + 1) -> connID a' = connID a -> ackNr a' = ackNr a ->
  Type_ (p_Header pkt) = StData -> SeqNr (p_Header pkt) = u16 (seqNr a + 1) ->
  (forall k, k <> u16 (seqNr a + 1) -> sendBuf a' !! k = sendBuf a !! k) -> gs ⊆ gs' ->
  (exists sp, sendBuf a' !! u16 (seqNr a + 1) = Some sp /\ ParsePacket (raw sp) = Ok pkt) \/ pkt ∈ gs' ->
  transfer_inv (mkNet a' b (ds ++ [pkt]) ws' gs' ks rd I).
Proof.
  intros [Hs Hok Hw [Hi1 Hi2] Hq Hd Hk Ha] Hwin Eq Ei Ea Et En Esb Hg Hnew. cbn in *.
  rewrite Hq, seqn_succ in *. replace (len ds - 1 + 1) with (len ds) in * by lia.
  split; cbn; rewrite ?Ei, ?Ea; try done.
  - unfold payloads. cbn. rewrite fmap_app. by apply ideal_ok_snoc.
  - rewrite length_app. cbn. lia.
  - rewrite length_app. cbn. rewrite Eq. f_equal. lia.
  - intros i p Hp. apply lookup_snoc_Some in Hp as [[_ Hp]|[-> ->]]; [by apply Hd|done].
  - intros i p Hp Hge. apply lookup_snoc_Some in Hp as [[Hlt Hp]|[-> <-]]; [|done].
    destruct (Hk i p Hp Hge) as [(sp' & E1 & E2)|Hin]; [left|right; by apply Hg]. exists sp'. split; [|done].
    rewrite Esb; [done|]. intros E. apply seqn_inj in E; [lia|].
    pose proof (ok_next _ _ Hok). unfold half in *. lia.
Qed.

Lemma net_step_preserves n n' : net_step n n' -> transfer_inv n -> transfer_inv n'.
Proof.
  intros Hstep Hinv. destruct Hstep as [now cwnd w a b ds ws gs ks rd I a' pkt rest Hc Hwin|now cwnd w a b ds ws gs ks rd I a' pkt rest Hc Ht Hn Hwin
    |a b ds ws gs ks rd I ws' Hsub|now k i bs a b ds ws gs ks rd I b' pkt ack Hin Hpp Hi0 Hds Hold Hcp
    |now k m a b ds ws gs ks rd I a' ack r Hin Hm Hcp|now seq a b ds ws gs ks rd I a' r Hrt|n p a b ds ws gs ks rd I b' d Hn0 Hrd].
  - destruct (tr_ids _ Hinv) as [Hi1 Hi2].
    destruct (write_chunk_spec _ _ _ _ _ _ _ Hc) as (Eq & Ei & Ea & Et & En & _ & sp & Esb & Ep); [done..|].
    eapply snoc_preserves; try done; [|left; exists sp; by rewrite Esb, lookup_insert_eq].
    intros k Hk. by rewrite Esb, lookup_insert_ne.
  - unfold write_chunk in Hc. destruct (_ <=? 0); [done|]. cbn [negb] in Hc. injection Hc as <- <-.
    eapply snoc_preserves; try done; cbn.
    + intros k Hk. by rewrite lookup_delete_ne.
    + intros x Hx. apply elem_of_app. by left.
    + right. apply elem_of_app. right. by apply list_elem_of_singleton.
  - by destruct Hinv.
  - destruct Hinv as [Hs Hok Hw Hi Hq Hd Hk Ha]. cbn in *.
    destruct (Hd _ _ Hds) as [Ht Hsq]. rewrite Z2Nat.id in Hsq by done.
    pose proof (lookup_lt_Some _ _ _ Hds) as Hlt.
    destruct (conn_packet_data _ _ _ _ _ _ _ I i Hs ltac:(lia) Ht Hsq Hcp) as (Hs' & Hta & Hna).
    pose proof (ideal_deliver_mono I i (p_Payload pkt)) as Hmono.
    split; cbn; try done.
    + apply ideal_deliver_ok; [done| |done]. unfold payloads in *. cbn in *.
      by rewrite list_lookup_fmap, Hds.
    + lia.
    + intros j p Hp Hge. apply Hk; [done|lia].
    + intros m ak [Hin'|Hin']%elem_of_app; [destruct (Ha m ak Hin'); split; [lia|done]|].
      apply list_elem_of_singleton in Hin'. by simplify_eq.
  - destruct Hinv as [Hs Hok Hw Hi Hq Hd Hk Ha]. cbn in *. destruct (Ha _ _ Hin) as (Hle & Ht & Hn).
    apply conn_packet_state in Hcp as ->; [|done].
    destruct (handleAck_ids now (p_Header ack) a) as (E1 & E2 & E3).
    split; cbn; rewrite ?E1, ?E2, ?E3; try done.
    intros j p Hp Hge. destruct (Hk j p Hp Hge) as [(sp & Esp & Ep)|?]; [left|by right]. exists sp. split; [|done].
    apply kept_handleAck; [|done]. rewrite Hn. pose proof (lookup_lt_Some _ _ _ Hp).
    rewrite wrappingLEQ_seqn by (unfold half in *; lia). apply Z.leb_gt. lia.
  - destruct Hinv as [Hs Hok Hw Hi Hq Hd Hk Ha]. cbn in *.
    destruct (retransmit_ids _ _ _ _ _ Hrt) as (E1 & E2 & E3).
    split; cbn; rewrite ?E1, ?E2, ?E3; try done.
    intros j p Hp Hge. destruct (Hk j p Hp Hge) as [(sp & Esp & Ep)|?]; [|right; apply elem_of_app; by left].
    destruct (retransmit_kept _ _ _ _ _ _ _ _ Hrt Esp Ep) as [(sp' & Es' & Er)|?]; [left|right; apply elem_of_app; by right].
    exists sp'. by rewrite Er.
  - destruct Hinv as [Hs Hok Hw Hi Hq Hd Hk Ha]. cbn in *. split; cbn; try done.
    by eapply sim_read.
Qed.

Lemma net_steps_preserve n n' : rtc net_step n n' -> transfer_inv n -> transfer_inv n'.
Proof. induction 1; [done|]. eauto using net_step_preserves. Qed.
End Transfer.

(** ** The handshake *)

Definition ideal0 : ideal := mkIdeal 0 ∅ [].
Definition start_net (a b : Conn) : net := mkNet a b [] [] [] [] [] ideal0.

(** [DialTimeout] and the listener's answer: the two ends of the connection.
    The SYN and the SYN-ACK cross the wire as bytes; [lost] attempts go unanswered. *)
Definition handshake (now id : Z) (lost : nat) (l : Listener) : option (Conn * Conn * Listener) :=
  match readLoop_step now 0 (Packet_Marshal (dial_syn now id).2) l with
  | (l, Some ack) =>
      match DialTimeout now id (replicate lost [] ++ [[(true, Packet_Marshal ack)]]), last (acceptCh l) with
      | (Some c, _), Some sid => b ← store l !! sid; Some (c, b, l)
      | _, _ => None
      end
  | _ => None
  end.

(** What a fresh connection is to its sending and to its receiving side. *)
Definition fresh_conn (c : Conn) : Prop :=
  recvInited c = true /\ closed c = false /\ nextExpected c = 2 /\ ackNr c = 1 /\ seqNr c = 1 /\
  reorderBuf c = ∅ /\ recvBuf c = [] /\ recvCh c = [] /\ 0 <= connID c < 2 ^ 16.

Lemma transfer_start a b : fresh_conn a -> fresh_conn b -> transfer_inv 2 (start_net a b).
Proof.
  intros (_ & _ & _ & Ka & Sa & _ & _ & _ & Ca) (Ib & Ob & Nb & Kb & _ & Rb & Bb & Hb & _).
  split; cbn; try done.
  - by apply sim_first.
  - rewrite Ka. lia.
  - intros m ack H. inversion H.
Qed.

Lemma readLoop_step_Marshal now k p l : wf_header (p_Header p) -> Version (p_Header p) = 1 ->
  readLoop_step now k (Packet_Marshal p) l = handlePacket now k p l.
Proof.
  intros Hw Hv. unfold readLoop_step. rewrite ParsePacket_Marshal, Hv by done.
  rewrite (proj2 (Z.ltb_ge _ _)); [done|]. apply length_Packet_Marshal.
Qed.

Lemma dial_attempts_lost id k c : forall n lost, (lost < n)%nat ->
  dial_attempts id n (replicate lost [] ++ [[(true, k)]]) c =
  match dial_answer id true k c with Some c => (Some c, S lost) | None => (None, S lost) end.
Proof.
  induction n as [|n IH]; intros [|lost] Hl; try lia; cbn.
  - destruct (dial_answer id true k c); [done|]. by destruct n.
  - rewrite IH by lia. by destruct (dial_answer id true k c).
Qed.

Lemma wf_syn now id : 0 <= id < 2 ^ 16 -> wf_header (p_Header (dial_syn now id).2).
Proof.
  intros H. split_and!; cbn; unfold StSyn, mss; try (apply wrapu_range; lia); lia || done.
Qed.

(** Every attempt within the retry limit that reaches a listener with room connects. *)
Lemma handshake_spec now id lost l :
  0 <= id < 2 ^ 16 -> (lost < 4)%nat ->
  Z.of_nat (size (conns l)) < maxConns -> len (acceptCh l) < accept_cap ->
  exists c b l', handshake now id lost l = Some (c, b, l') /\ fresh_conn c /\ fresh_conn b /\
    connID b = connID c.
Proof.
  intros Hid Hl Hc Ha. unfold handshake.
  rewrite readLoop_step_Marshal by (done || by apply wf_syn).
  unfold handlePacket. cbn [dial_syn snd p_Header Type_ StSyn Z.eqb Pos.eqb].
  rewrite (proj2 (Z.leb_gt _ _)) by done. rewrite (proj2 (Z.leb_gt accept_cap _)) by done.
  cbn [h_ConnID SeqNr acceptCh store]. rewrite last_snoc, list_lookup_middle by done.
  assert (Hcid : 0 <= u16 (id + 1) < 2 ^ 16) by (apply wrapu_range; lia).
  unfold DialTimeout. rewrite dial_attempts_lost by done.
  unfold dial_answer. rewrite (proj2 (Z.ltb_ge _ _)) by apply length_Packet_Marshal.
  rewrite ParsePacket_Marshal.
  2: { split_and!; cbn; try done; try (apply wrapu_range; lia); lia. }
  cbn. rewrite Z.eqb_refl. cbn. eexists _, _, _. split_and!; [reflexivity|..]; done.
Qed.

Lemma handshake_inv now id lost l c b l' :
  0 <= id < 2 ^ 16 -> handshake now id lost l = Some (c, b, l') -> fresh_conn c /\ fresh_conn b.
Proof.
  intros Hid H.
  assert (Z.of_nat (size (conns l)) < maxConns /\ len (acceptCh l) < accept_cap /\ (lost < 4)%nat)
    as (Hc & Ha & Hl).
  { revert H. unfold handshake. rewrite readLoop_step_Marshal by (done || by apply wf_syn).
    unfold handlePacket. cbn [dial_syn snd p_Header Type_ StSyn Z.eqb Pos.eqb].
    destruct (Z.leb_spec maxConns (Z.of_nat (size (conns l)))); [done|].
    destruct (Z.leb_spec accept_cap (len (acceptCh l))); [done|].
    unfold DialTimeout. change (Z.to_nat maxSynRetries) with 4%nat. intros Hx. split_and!; [done|done|].
    do 4 (destruct lost as [|lost]; [lia|]). done. }
  destruct (handshake_spec now id lost l Hid Hl Hc Ha) as (c1 & b1 & l1 & E & ? & ? & _). by simplify_eq.
Qed.

Lemma transfer_prefix n : transfer_inv 2 n ->
  reader n ++ recvBuf (rcv_c n) ++ concat (recvCh (rcv_c n)) =
  concat (take (Z.to_nat (i_next (ghost n))) (payloads n)).
Proof.
  intros H. rewrite <- (ok_out _ _ (tr_ok _ _ H)). symmetry. apply (sim_ch _ _ _ _ (tr_sim _ _ H)).
Qed.

(** ** Completion *)

(** Everything undelivered is in the retransmission buffer, may still be sent again, and is due at the time [T]. *)
Definition due (T : Z) (n : net) : Prop :=
  forall (i : nat) pkt, data n !! i = Some pkt -> i_next (ghost n) <= Z.of_nat i ->
    exists sp, sendBuf (snd_c n) !! seqn 2 (Z.of_nat i) = Some sp /\ ParsePacket (raw sp) = Ok pkt /\
      retries sp < maxRetransmits /\ rto (snd_c n) <= T - sentAt sp.

(** A time at which all of them are. *)
Lemma due_time r (m : gmap Z sentPkt) : exists T, forall k sp, m !! k = Some sp -> r <= T - sentAt sp.
Proof.
  induction m as [|k sp m Hk [T HT]] using map_ind; [exists 0; intros k sp; by rewrite lookup_empty|].
  exists (Z.max T (r + sentAt sp)). intros k' sp'. destruct (decide (k = k')) as [->|Hne].
  - rewrite lookup_insert_eq. intros [= <-]. lia.
  - rewrite lookup_insert_ne by done. intros H. specialize (HT _ _ H). lia.
Qed.

(** The next packet is sent again and arrives. *)
Lemma resend_next T n : transfer_inv 2 n -> due T n -> i_next (ghost n) < len (data n) ->
  exists n', rtc net_step n n' /\ data n' = data n /\ gone n' = gone n /\ i_next (ghost n) < i_next (ghost n') /\ due T n'.
Proof.
  intros Hi Hdue Hlt. pose proof (ok_next _ _ (tr_ok _ _ Hi)) as Hn. unfold payloads in Hn. rewrite length_fmap in Hn.
  pose proof (tr_window _ _ Hi) as Hwin.
  destruct n as [a b ds ws gs ks rd I]. cbn [data ghost] in *. set (i := i_next I) in *.
  destruct (lookup_lt_is_Some_2 ds (Z.to_nat i) ltac:(lia)) as [pkt Hp].
  destruct (Hdue _ _ Hp) as (sp & Hsp & Hpp & Hr & Ht); [cbn; lia|]. cbn in Hsp, Ht. rewrite Z2Nat.id in Hsp by lia.
  destruct (tr_data _ _ Hi _ _ Hp) as [Hty _].
  set (a' := with_send (seqNr a) (OnTimeout (ledbat a)) (<[seqn 2 i := mkSent (raw sp) (sp_seqNr sp) T (retries sp + 1)]> (sendBuf a)) a).
  assert (Hre : retransmit_one T a (seqn 2 i) = (a', Some (raw sp))).
  { unfold retransmit_one. rewrite Hsp, (proj2 (Z.ltb_ge _ _)), (proj2 (Z.leb_gt _ _)) by lia. done. }
  assert (Hdr : dropped a a' (seqn 2 i) = []).
  { unfold dropped. rewrite Hsp. subst a'. cbn. by rewrite lookup_insert_eq. }
  pose proof (step_retransmit T (seqn 2 i) a b ds ws gs ks rd I a' _ Hre) as S1. rewrite Hdr, app_nil_r in S1. cbn [option_list] in S1.
  destruct (conn_packet T 0 pkt b) as [b' r] eqn:Hc.
  assert (exists ack, r = Some ack) as [ack ->].
  { unfold conn_packet in Hc. rewrite Hty in Hc. injection Hc as _ <-. by eexists. }
  assert (S2 : net_step (mkNet a' b ds (ws ++ [raw sp]) gs ks rd I)
    (mkNet a' b' ds (ws ++ [raw sp]) gs (ks ++ [(i_next (ideal_deliver I i (p_Payload pkt)), ack)]) rd (ideal_deliver I i (p_Payload pkt)))).
  { eapply (step_data T 0 i (raw sp)); [apply elem_of_app; right; by apply list_elem_of_singleton|done|lia|done|unfold half; lia|done]. }
  pose proof (ideal_deliver_next I (p_Payload pkt)) as Hnext. fold i in Hnext.
  eexists. split; [eapply rtc_l; [exact S1|by apply rtc_once]|]. cbn [data gone ghost]. split_and!; [done|done|lia|].
  intros j q Hq Hge. cbn in Hq, Hge |- *. destruct (Hdue j q Hq) as (sp' & Hsp' & ?); [cbn; lia|]. exists sp'. split; [|done].
  cbn in Hsp'. pose proof (lookup_lt_Some _ _ _ Hq). rewrite lookup_insert_ne; [done|].
  intros E. apply seqn_inj in E; unfold half in *; lia.
Qed.

Lemma deliver_rest T k : forall n, transfer_inv 2 n -> due T n -> len (data n) - i_next (ghost n) <= Z.of_nat k ->
  exists n', rtc net_step n n' /\ data n' = data n /\ i_next (ghost n') = len (data n).
Proof.
  induction k as [|k IH]; intros n Hi Hdue Hk.
  all: pose proof (ok_next _ _ (tr_ok _ _ Hi)) as Hn; unfold payloads in Hn; rewrite length_fmap in Hn.
  - exists n. split_and!; [done|done|lia].
  - destruct (decide (i_next (ghost n) = len (data n))) as [E|E]; [by exists n|].
    destruct (resend_next T n Hi Hdue ltac:(lia)) as (n1 & R1 & D1 & _ & X1 & Hdue1).
    destruct (IH n1) as (n' & Hr & Hd & Hx); [by eapply net_steps_preserve|done|rewrite D1; lia|].
    exists n'. split_and!; [by etrans|congruence|congruence].
Qed.

(** Reading with a buffer that is large enough empties the queue. *)
Lemma read_all m : forall n, transfer_inv 2 n -> length (recvCh (rcv_c n)) = m -> recvBuf (rcv_c n) = [] ->
  exists n', rtc net_step n n' /\ data n' = data n /\
    reader n' = reader n ++ concat (recvCh (rcv_c n)).
Proof.
  induction m as [|m IH]; intros n Hi Hm Hb.
  - exists n. destruct (recvCh (rcv_c n)); [|done]. by rewrite app_nil_r.
  - destruct n as [a b ds ws gs ks rd I]. cbn in *.
    destruct (recvCh b) as [|d ch] eqn:Hch; [done|].
    assert (Hst : net_step (mkNet a b ds ws gs ks rd I) (mkNet a (with_read [] ch b) ds ws gs ks (rd ++ d) I)).
    { pose proof (sim_open _ _ _ _ (tr_sim _ _ Hi)) as Ho. cbn in Ho.
      apply step_read with (n := len d) (p := true); [lia|]. unfold Read. rewrite Hb, Ho, Hch, !Z.ltb_irrefl. cbn. by rewrite slice_full. }
    pose proof (net_step_preserves _ _ _ Hst Hi) as Hi'.
    destruct (IH _ Hi') as (n' & Hr & Hd & Hx); [cbn; by injection Hm|done|].
    exists n'. split_and!; [by eapply rtc_l|done|]. rewrite Hx. cbn.
    by rewrite <- (assoc_L (++)).
Qed.

Lemma read_buf n : transfer_inv 2 n -> exists n', rtc net_step n n' /\ data n' = data n /\
  recvBuf (rcv_c n') = [] /\ ghost n' = ghost n.
Proof.
  intros Hi. destruct n as [a b ds ws gs ks rd I]. cbn in *.
  destruct (decide (0 < len (recvBuf b))) as [Hl|Hl].
  - eexists (mkNet a (with_read _ _ b) ds ws gs ks _ I). split_and!; [|done| |done].
    + apply rtc_once, step_read with (n := len (recvBuf b)) (p := true); [lia|]. unfold Read.
      rewrite (proj2 (Z.ltb_lt _ _)) by done. rewrite Z.ltb_irrefl. reflexivity.
    + cbn. unfold slice. by rewrite Z.sub_diag.
  - exists (mkNet a b ds ws gs ks rd I). split_and!; [done|done| |done]. cbn.
    destruct (recvBuf b); cbn in Hl; [done|lia].
Qed.

(** The network forgets whatever is under way. *)
Definition forget (n : net) : net := mkNet (snd_c n) (rcv_c n) (data n) [] (gone n) (acks n) (reader n) (ghost n).

Lemma forget_inv n : transfer_inv 2 n -> transfer_inv 2 (forget n).
Proof. by intros []. Qed.

Lemma transfer_completes n : transfer_inv 2 n -> gone n = [] ->
  (forall k sp, sendBuf (snd_c n) !! k = Some sp -> retries sp < maxRetransmits) ->
  exists n', rtc net_step (forget n) n' /\ data n' = data n /\ reader n' = concat (payloads n).
Proof.
  intros H0%forget_inv Hg Hre. destruct (due_time (rto (snd_c n)) (sendBuf (snd_c n))) as [T HT].
  assert (Hdue : due T (forget n)).
  { intros i pkt Hp Hge. destruct (tr_kept _ _ H0 i pkt Hp Hge) as [(sp & E1 & E2)|Hin].
    - exists sp. cbn in E1 |- *. split_and!; eauto.
    - cbn in Hin. rewrite Hg in Hin. by apply not_elem_of_nil in Hin. }
  destruct (deliver_rest T (Z.to_nat (len (data n) - i_next (ghost n))) (forget n) H0 Hdue) as (n1 & R1 & D1 & X1); [cbn; lia|].
  cbn [data forget] in D1, X1.
  pose proof (net_steps_preserve _ _ _ R1 H0) as H1.
  destruct (read_buf n1 H1) as (n2 & R2 & D2 & B2 & G2).
  pose proof (net_steps_preserve _ _ _ R2 H1) as H2.
  destruct (read_all _ n2 H2 eq_refl B2) as (n3 & R3 & D3 & X3).
  exists n3. split_and!; [by do 2 (etrans; [done|])|congruence|].
  pose proof (transfer_prefix n2 H2) as E. rewrite B2, G2, X1 in E. cbn in E. rewrite X3, E.
  unfold payloads. rewrite D2, D1. rewrite take_ge; [done|]. rewrite length_fmap. lia.
Qed.

(** ** Properties *)

(** Arrivals of packets that are at most half the number space from the receiver. *)
Fixpoint windowed (I : ideal) (arrivals : list (Z * bytes)) : Prop :=
  match arrivals with
  | [] => True
  | (i, p) :: arrivals => - half <= i - i_next I < half /\ windowed (ideal_deliver I i p) arrivals
  end.

Definition ideal_run (I : ideal) (arrivals : list (Z * bytes)) : ideal :=
  foldl (fun I a => ideal_deliver I a.1 a.2) I arrivals.
Definition receive (k : nat) (s : Z) (c : Conn) (arrivals : list (Z * bytes)) : Conn :=
  foldl (fun c a => deliverInOrder k (seqn s a.1) a.2 c) c arrivals.

Lemma sim_run s got k arrivals : forall c I,
  sim s got c I -> windowed I arrivals -> sim s got (receive k s c arrivals) (ideal_run I arrivals).
Proof.
  induction arrivals as [|[i p] arrivals IH]; intros c I Hs Hw; [done|].
  destruct Hw as [Hi Hw]. cbn. apply IH; [by apply sim_deliver|done].
Qed.

(** C18: the receiver, which only has 16-bit sequence numbers that wrap around, is
    equivalent to a reference receiver that numbers packets without bound: for
    every sequence of arrivals (lost, repeated, reordered) whose packets are less
    than half the number space from the next expected one, it hands out the same
    bytes, acknowledges the same packet and holds as many packets back. *)
Theorem Utp_receive_equiv k seq c arrivals :
  0 <= seq < 2 ^ 16 -> reorderBuf c = ∅ -> recvBuf c = [] -> recvCh c = [] -> closed c = false ->
  ackNr c = u16 (seq - 1) -> windowed ideal0 arrivals ->
  let c' := receive k seq (setFirstExpected seq c) arrivals in
  let I := ideal_run ideal0 arrivals in
  concat (recvCh c') = concat (i_out I) /\ nextExpected c' = u16 (seq + i_next I) /\
  ackNr c' = u16 (seq + i_next I - 1) /\ size (reorderBuf c') = size (i_buf I).
Proof.
  intros Hs Hr Hb Hc Ho Ha Hw.
  assert (Hsim : sim seq [] (setFirstExpected seq c) ideal0).
  { apply sim_first; cbn; try done. unfold seqn. rewrite Z.add_0_r. symmetry. by apply Z.mod_small. }
  pose proof (sim_run _ _ k arrivals _ _ Hsim Hw) as Hrun. destruct Hrun as [[E1 _ _ E2] _ _ _ E3 E4].
  assert (Eb : recvBuf (receive k seq (setFirstExpected seq c) arrivals) = []).
  { change (recvBuf c) with (recvBuf (setFirstExpected seq c)) in Hb. revert Hb.
    generalize (setFirstExpected seq c). clear. induction arrivals as [|a l IH]; intros c Hb; [done|].
    cbn. apply IH. unfold deliverInOrder. destruct (_ =? _); [destruct (flush_buf _ _ _ _) as [[]]; done|].
    by destruct (wrappingGT _ _). }
  cbn zeta. rewrite E4, Eb, E1, E3, E2. unfold seqn. split_and!; try done. f_equal. lia.
Qed.

Lemma Utp_receive_equiv_witness :
  let c := newConn 0 8 1 (u16 (65535 - 1)) in
  let arrivals := [(1, [x62]); (0, [x61]); (1, [x62]); (2, [x63])] in
  recvCh (receive 0 65535 (setFirstExpected 65535 c) arrivals) = [[x61]; [x62]; [x63]] /\
  nextExpected (receive 0 65535 (setFirstExpected 65535 c) arrivals) = 2.
Proof.
  cbn zeta. split; [reflexivity|].
  apply (Utp_receive_equiv 0 65535 (newConn 0 8 1 (u16 (65535 - 1)))
    [(1, [x62]); (0, [x61]); (1, [x62]); (2, [x63])]); try reflexivity; [lia|].
  vm_compute. intuition congruence.
Defined.

(** C16: after a handshake, and whatever the network loses, repeats and reorders, whatever sends fail and whatever the
    retransmission gives up, while neither end is closed and no more than half of the sequence numbers is outstanding:
    what the reader has taken plus what waits for it is exactly a prefix of the
    bytes written (the chunk of a failed write, if there is one, is never in it), the acknowledged number is the last packet of that prefix,
    and every packet beyond it is either still in the retransmission buffer of the
    sender, as bytes the receiver parses back to that packet, or was given up. *)
Theorem Utp_transfer now id lost l c b l' (reverse : bool) n :
  0 <= id < 2 ^ 16 -> handshake now id lost l = Some (c, b, l') ->
  rtc net_step (if reverse then start_net b c else start_net c b) n ->
  exists m : nat,
    reader n ++ recvBuf (rcv_c n) ++ concat (recvCh (rcv_c n)) = concat (take m (payloads n)) /\
    (m <= length (data n))%nat /\ ackNr (rcv_c n) = u16 (Z.of_nat m + 1) /\
    forall (i : nat) pkt, (m <= i)%nat -> data n !! i = Some pkt ->
      (exists sp, sendBuf (snd_c n) !! u16 (Z.of_nat i + 2) = Some sp /\ ParsePacket (raw sp) = Ok pkt) \/ pkt ∈ gone n.
Proof.
  intros Hid Hh Hr. destruct (handshake_inv _ _ _ _ _ _ _ Hid Hh) as [Hc Hb].
  assert (Hi : transfer_inv 2 n).
  { eapply net_steps_preserve; [done|]. destruct reverse; by apply transfer_start. }
  pose proof (ok_next _ _ (tr_ok _ _ Hi)) as Hn. unfold payloads in Hn. rewrite length_fmap in Hn.
  exists (Z.to_nat (i_next (ghost n))). split_and!.
  - by apply transfer_prefix.
  - lia.
  - rewrite (sim_ack _ _ _ _ (tr_sim _ _ Hi)). unfold seqn. f_equal. lia.
  - intros i pkt Hm Hp. destruct (tr_kept _ _ Hi i pkt Hp ltac:(lia)) as [(sp & E1 & E2)|?]; [left|by right].
    exists sp. split; [|done]. rewrite <- E1. unfold seqn. do 2 f_equal. lia.
Qed.

Definition demo_listener : Listener := mkListener [] ∅ [].
Definition demo_ends : option (Conn * Conn * Listener) := handshake 5000 7 1 demo_listener.

Lemma Utp_transfer_witness :
  exists c b l n m, demo_ends = Some (c, b, l) /\ payloads n = [[x61; x62]] /\
    reader n ++ recvBuf (rcv_c n) ++ concat (recvCh (rcv_c n)) = concat (take m (payloads n)).
Proof.
  destruct (handshake 5000 7 1 demo_listener) as [[[c b] l]|] eqn:Hh; [|vm_compute in Hh; discriminate].
  destruct (write_chunk 0 2800 true [x61; x62] c) as [[[c1 [pkt|]] rest]|] eqn:Hw;
    [|vm_compute in Hh; injection Hh as <- <- <-; vm_compute in Hw; discriminate..].
  assert (Hp : p_Payload pkt = [x61; x62]).
  { vm_compute in Hh. injection Hh as <- <- <-. vm_compute in Hw. injection Hw as _ <- _. reflexivity. }
  destruct (Utp_transfer 5000 7 1 demo_listener c b l false (mkNet c1 b [pkt] [Packet_Marshal pkt] [] [] [] ideal0))
    as (m & Hm & _); [lia|exact Hh| |].
  - apply rtc_once, (step_write 0 2800 [x61; x62] c b [] [] [] [] [] ideal0 c1 pkt rest Hw). done.
  - exists c, b, l, (mkNet c1 b [pkt] [Packet_Marshal pkt] [] [] [] ideal0), m. split_and!; [exact Hh| |exact Hm].
    unfold payloads. cbn. by rewrite Hp.
Defined.

(** C17: no loss is fatal while the retransmission has not given up: from every state of a transfer in which no send failed,
    nothing was given up and no packet has used up its retries, even when the network then loses every
    datagram that is under way, there is a continuation, without anything new being written, in which the retransmission
    brings the rest and the reader holds everything written, byte for byte. *)
Theorem Utp_completes now id lost l c b l' (reverse : bool) n :
  0 <= id < 2 ^ 16 -> handshake now id lost l = Some (c, b, l') ->
  rtc net_step (if reverse then start_net b c else start_net c b) n -> gone n = [] ->
  (forall k sp, sendBuf (snd_c n) !! k = Some sp -> retries sp < maxRetransmits) ->
  exists n', rtc net_step (forget n) n' /\ data n' = data n /\ reader n' = concat (payloads n).
Proof.
  intros Hid Hh Hr. destruct (handshake_inv _ _ _ _ _ _ _ Hid Hh) as [Hc Hb].
  apply transfer_completes. eapply net_steps_preserve; [done|]. destruct reverse; by apply transfer_start.
Qed.

Lemma Utp_completes_witness :
  exists c b l n pkt, demo_ends = Some (c, b, l) /\ payloads n = [[x61; x62]] /\ wire n = [Packet_Marshal pkt] /\
    exists n', rtc net_step (forget n) n' /\ reader n' = [x61; x62].
Proof.
  destruct (handshake 5000 7 1 demo_listener) as [[[c b] l]|] eqn:Hh; [|vm_compute in Hh; discriminate].
  destruct (write_chunk 0 2800 true [x61; x62] c) as [[[c1 [pkt|]] rest]|] eqn:Hw;
    [|vm_compute in Hh; injection Hh as <- <- <-; vm_compute in Hw; discriminate..].
  assert (Hp : p_Payload pkt = [x61; x62] /\ map_Forall (fun _ sp => retries sp < maxRetransmits) (sendBuf c1)).
  { vm_compute in Hh. injection Hh as <- <- <-. unfold write_chunk in Hw. vm_compute in Hw. injection Hw as <- <- _. split; [reflexivity|].
    apply (bool_decide_unpack _). vm_compute. exact I. }
  destruct Hp as [Hp Hre].
  destruct (Utp_completes 5000 7 1 demo_listener c b l false (mkNet c1 b [pkt] [Packet_Marshal pkt] [] [] [] ideal0))
    as (n' & Hr & _ & Hn); [lia|exact Hh| |reflexivity|exact Hre|].
  - apply rtc_once, (step_write 0 2800 [x61; x62] c b [] [] [] [] [] ideal0 c1 pkt rest Hw). done.
  - exists c, b, l, (mkNet c1 b [pkt] [Packet_Marshal pkt] [] [] [] ideal0), pkt.
    unfold payloads in *. cbn [data fmap list_fmap] in *. rewrite Hp in *. split_and!; [exact Hh|reflexivity|reflexivity|].
    exists n'. split; [exact Hr|exact Hn].
Defined.

(** ** Behaviour outside these theorems *)

(** Two peers whose connection ids are adjacent share a listener: the data packet
    of the first one (accepted as connection 0) is delivered to the second. *)
Example Listener_misroutes :
  let peer1 := dial_syn 5000 7 in
  let peer2 := dial_syn 5000 8 in
  let l1 := (handlePacket 0 0 peer1.2 demo_listener).1 in
  let l2 := (handlePacket 0 0 peer2.2 l1).1 in
  (match write_chunk 0 2800 true [x61] peer1.1 with
   | Some (_, Some pkt, _) => recvCh <$> store (handlePacket 0 0 pkt l2).1
   | _ => []
   end) = [[]; [[x61]]].
Proof. vm_compute. reflexivity. Qed.

(** A packet that was sent [maxRetransmits] times again is dropped from the buffer:
    the receiver then waits for it forever. *)
Example retransmit_gives_up :
  let c := with_send 2 (NewLEDBAT 0) {[ 2 := mkSent [x61] 2 0 maxRetransmits ]} (newConn 0 8 1 1) in
  sendBuf (retransmit_one (2 * 10 ^ 9) c 2).1 = ∅ /\ (retransmit_one (2 * 10 ^ 9) c 2).2 = None.
Proof. split; vm_compute; reflexivity. Qed.

(** A failed send uses up a sequence number that is never sent. *)
Example write_failure_leaves_gap :
  (match write_chunk 0 2800 false [x61] (newConn 0 8 1 1) with
   | Some (c, None, rest) => Some (seqNr c, size (sendBuf c), rest)
   | _ => None
   end) = Some (2, 0%nat, [x61]).
Proof. vm_compute. reflexivity. Qed.
