(* ===== verification/Tracker.v ===== *)
(** * [tracker]: announces over HTTP and UDP ([tracker/tracker.go], [tracker/udp.go])

    The parameters of an HTTP announce, the parser of its bencoded answer, the
    UDP packets (BEP 15), and the filter that keeps private addresses out.
    [net/url] and the sockets stay outside: the query of the announce URL is an
    argument, a datagram read is its bytes.  [net.ParseIP], which the parser of
    the uncompressed peer list calls, is a parameter. *)

From S2P Require Import Prelude Strconv Net Bencode.
Set Warnings "-clear-no-such-hyp".
Local Open Scope Z_scope.

(** ** Address classes of package [net] *)

Definition ip_byte (ip : IP) (i : nat) : Z := u8 (default x00 (ip !! i)).

Definition IsUnspecified (ip : IP) : bool :=
  match To4 ip with
  | Some ip4 => bool_decide (ip4 = replicate 4 x00)
  | None => bool_decide (ip = replicate 16 x00)
  end.
Definition IsLoopback (ip : IP) : bool :=
  match To4 ip with
  | Some ip4 => ip_byte ip4 0 =? 127
  | None => bool_decide (ip = replicate 15 x00 ++ [x01])
  end.
Definition IsPrivate (ip : IP) : bool :=
  match To4 ip with
  | Some ip4 => (ip_byte ip4 0 =? 10) ||
                ((ip_byte ip4 0 =? 172) && (Z.land (ip_byte ip4 1) 240 =? 16)) ||
                ((ip_byte ip4 0 =? 192) && (ip_byte ip4 1 =? 168))
  | None => (len ip =? 16) && (Z.land (ip_byte ip 0) 254 =? 252)
  end.
Definition IsLinkLocalMulticast (ip : IP) : bool :=
  match To4 ip with
  | Some ip4 => (ip_byte ip4 0 =? 224) && (ip_byte ip4 1 =? 0) && (ip_byte ip4 2 =? 0)
  | None => (len ip =? 16) && (ip_byte ip 0 =? 255) && (Z.land (ip_byte ip 1) 15 =? 2)
  end.
Definition IsLinkLocalUnicast (ip : IP) : bool :=
  match To4 ip with
  | Some ip4 => (ip_byte ip4 0 =? 169) && (ip_byte ip4 1 =? 254)
  | None => (len ip =? 16) && (ip_byte ip 0 =? 254) && (Z.land (ip_byte ip 1) 192 =? 128)
  end.

(** The test shared by [FilterPrivatePeers] and [resolveAndValidateTrackerHost]. *)
Definition reserved (ip : IP) : bool :=
  IsLoopback ip || IsPrivate ip || IsLinkLocalUnicast ip || IsLinkLocalMulticast ip || IsUnspecified ip.

(** ** Requests *)

Inductive AnnounceEvent := EventNone | EventStarted | EventCompleted | EventStopped.

Record Peer := mkPeer { IP_ : IP; Port : Z }.
Record AnnounceRequest := mkAnnounceRequest {
  AnnounceURL : bytes; r_InfoHash : bytes; r_PeerID : bytes; r_Port : Z;
  Uploaded : Z; Downloaded : Z; Left : Z; Event_ : AnnounceEvent; NumWant : Z; IPv6 : bytes
}.
Record AnnounceResponse := mkAnnounceResponse { Interval : Z; Peers : list Peer }.

Definition MaxTrackerResponseSize : Z := 10 * 1024 * 1024.
Definition MaxPeersPerResponse : Z := 10000.

Definition event_string (e : AnnounceEvent) : bytes :=
  match e with
  | EventNone => []
  | EventStarted => lit "started"
  | EventCompleted => lit "completed"
  | EventStopped => lit "stopped"
  end.

(** The query of the announce URL after [buildAnnounceURL]; [q] is the query the
    URL of the torrent already has. *)
Definition buildAnnounceURL (req : AnnounceRequest) (q : gmap bytes (list bytes)) : gmap bytes (list bytes) :=
  let set k v (q : gmap bytes (list bytes)) := <[lit k := [v]]> q in
  let q := set "info_hash" (r_InfoHash req) q in
  let q := set "peer_id" (r_PeerID req) q in
  let q := set "port" (itoa (r_Port req)) q in
  let q := set "uploaded" (itoa (Uploaded req)) q in
  let q := set "downloaded" (itoa (Downloaded req)) q in
  let q := set "left" (itoa (Left req)) q in
  let q := set "compact" (lit "1") q in
  let numWant := if NumWant req <=? 0 then 200 else NumWant req in
  let q := set "numwant" (itoa numWant) q in
  let q := match Event_ req with EventNone => q | e => set "event" (event_string e) q end in
  if bool_decide (IPv6 req = []) then q else set "ipv6" (IPv6 req) q.

(** ** Answers over HTTP *)

Inductive tracker_error :=
  | DecodeFailed (e : decode_error) | NotADict | FailureReason (reason : bytes)
  | CompactLength (n : Z) | Compact6Length (n : Z)
  | PeerNotDict | PeerMissingIP | InvalidPeerIP (s : bytes) | InvalidPeerPort
  | ResponseTooLarge (n : Z)
  | UDPReadFailed | UDPTooShort (n : Z) | TxnMismatch | UDPError (msg : bytes) | UnexpectedAction (a : Z)
  | HostReserved | HostUnresolved.

(** A compact record: address and big-endian port. *)
Definition compact_peer (w : nat) (r : bytes) : Peer := mkPeer (take w r) (be_get (drop w r)).

Definition compact_peers (w : nat) (data : bytes) : list Peer :=
  let numPeers := len data / Z.of_nat (w + 2) in
  let numPeers := if MaxPeersPerResponse <? numPeers then MaxPeersPerResponse else numPeers in
  compact_peer w <$> chunks (w + 2) (Z.to_nat numPeers) data.

Definition parseCompactPeers (data : bytes) : result tracker_error (list Peer) :=
  if negb (len data mod 6 =? 0) then Err (CompactLength (len data)) else Ok (compact_peers 4 data).

Definition parseCompactPeers6 (data : bytes) : result tracker_error (list Peer) :=
  if negb (len data mod 18 =? 0) then Err (Compact6Length (len data)) else Ok (compact_peers 16 data).

Section Responses.
Context (ParseIP : bytes -> option IP).

Definition dict_peer (item : any) : result tracker_error Peer :=
  match item with
  | AMap d =>
      match as_str (d !! lit "ip") with
      | None => Err PeerMissingIP
      | Some ipStr =>
          match ParseIP ipStr with
          | None => Err (InvalidPeerIP ipStr)
          | Some ip =>
              match as_int64 (d !! lit "port") with
              | Some portVal => if (portVal <=? 0) || (65535 <? portVal) then Err InvalidPeerPort
                                else Ok (mkPeer ip (wrapu 16 portVal))
              | None => Err InvalidPeerPort
              end
          end
      end
  | _ => Err PeerNotDict
  end.

Fixpoint parseDictPeers (items : list any) (peers : list Peer) : result tracker_error (list Peer) :=
  match items with
  | [] => Ok peers
  | item :: items =>
      if MaxPeersPerResponse <=? len peers then Ok peers
      else p ← dict_peer item; parseDictPeers items (peers ++ [p])
  end.

Definition parseAnnounceResponse (data : bytes) : result tracker_error AnnounceResponse :=
  match Decode data with
  | Err e => Err (DecodeFailed e)
  | Ok (AMap d) =>
      match as_str (d !! lit "failure reason") with
      | Some reason => Err (FailureReason reason)
      | None =>
          let interval := default 0 (as_int64 (d !! lit "interval")) in
          peers ← match d !! lit "peers" with
                  | Some (AStr s) => parseCompactPeers s
                  | Some (AList l) => parseDictPeers l []
                  | _ => Ok []
                  end;
          match as_str (d !! lit "peers6") with
          | Some s => v6Peers ← parseCompactPeers6 s; Ok (mkAnnounceResponse interval (peers ++ v6Peers))
          | None => Ok (mkAnnounceResponse interval peers)
          end
      end
  | Ok _ => Err NotADict
  end.

(** What [announceHTTP] makes of the body of the answer. *)
Definition http_body (body : bytes) : result tracker_error AnnounceResponse :=
  let body := slice body 0 (Z.min (len body) (MaxTrackerResponseSize + 1)) in
  if MaxTrackerResponseSize <? len body then Err (ResponseTooLarge (len body))
  else parseAnnounceResponse body.

(** [resolveAndValidateTrackerHost]; [addrs] is the result of the DNS lookup. *)
Fixpoint validate_addrs (addrs : list bytes) : result tracker_error bytes :=
  match addrs with
  | [] => Err HostUnresolved
  | addr :: addrs =>
      match ParseIP addr with
      | None => validate_addrs addrs
      | Some ip => if reserved ip then Err HostReserved else Ok (ip_String ip)
      end
  end.

Definition resolveAndValidateTrackerHost (host : bytes) (addrs : option (list bytes))
    : result tracker_error bytes :=
  if bool_decide (host = lit "localhost") then Err HostReserved
  else match ParseIP host with
       | Some ip => if reserved ip then Err HostReserved else Ok (ip_String ip)
       | None => match addrs with None => Err HostUnresolved | Some addrs => validate_addrs addrs end
       end.
End Responses.

(** [IP] is never [nil] in the lists the parsers build. *)
Definition FilterPrivatePeers (peers : list Peer) : list Peer :=
  filter (fun p => reserved (IP_ p) = false) peers.

(** ** UDP *)

Definition udpConnectMagic : Z := 4497486125440.
Definition actionConnect : Z := 0.
Definition actionAnnounce : Z := 1.
Definition actionError : Z := 3.

Definition connect_request (txnID : Z) : bytes :=
  be_put 8 udpConnectMagic ++ be_put 4 actionConnect ++ be_put 4 txnID.

(** [udpConnect] on the datagram read; the buffer holds 16 bytes. *)
Definition udpConnect (txnID : Z) (datagram : option bytes) : result tracker_error Z :=
  match datagram with
  | None => Err UDPReadFailed
  | Some d =>
      let resp := take 16 d in
      if len resp <? 16 then Err (UDPTooShort (len resp))
      else
        let action := be_get (slice resp 0 4) in
        let respTxnID := be_get (slice resp 4 8) in
        let connID := be_get (slice resp 8 16) in
        if negb (respTxnID =? txnID) then Err TxnMismatch
        else if action =? actionError then Err (UDPError [])
        else if negb (action =? actionConnect) then Err (UnexpectedAction action)
        else Ok connID
  end.

Definition event_code (e : AnnounceEvent) : Z :=
  match e with EventNone => 0 | EventCompleted => 1 | EventStarted => 2 | EventStopped => 3 end.

Definition announce_request (txnID connID : Z) (req : AnnounceRequest) : bytes :=
  be_put 8 connID ++ be_put 4 actionAnnounce ++ be_put 4 txnID ++ r_InfoHash req ++ r_PeerID req ++
  be_put 8 (Downloaded req) ++ be_put 8 (Left req) ++ be_put 8 (Uploaded req) ++
  be_put 4 (event_code (Event_ req)) ++ be_put 4 0 ++ be_put 4 0 ++ be_put 4 4294967295 ++
  be_put 2 (r_Port req).

(** [udpAnnounce] on the datagram read; the buffer holds 8192 bytes. *)
Definition udpAnnounce (txnID : Z) (datagram : option bytes) : result tracker_error AnnounceResponse :=
  match datagram with
  | None => Err UDPReadFailed
  | Some d =>
      let resp := take (Z.to_nat 8192) d in
      if len resp <? 20 then Err (UDPTooShort (len resp))
      else
        let action := be_get (slice resp 0 4) in
        let respTxnID := be_get (slice resp 4 8) in
        if negb (respTxnID =? txnID) then Err TxnMismatch
        else if action =? actionError then Err (UDPError (if 8 <? len resp then slice resp 8 (len resp) else []))
        else if negb (action =? actionAnnounce) then Err (UnexpectedAction action)
        else
          let interval := be_get (slice resp 8 12) in
          let peerData := slice resp 20 (len resp) in
          let peerData := if negb (len peerData mod 6 =? 0)
                          then slice peerData 0 (len peerData / 6 * 6) else peerData in
          peers ← parseCompactPeers peerData;
          Ok (mkAnnounceResponse interval peers)
  end.

(** [AnnounceUDP] against the two datagrams the tracker sends. *)
Definition AnnounceUDP (txn1 txn2 : Z) (d1 : option bytes) (d2 : Z -> option bytes)
    : result tracker_error AnnounceResponse :=
  connID ← udpConnect txn1 d1; udpAnnounce txn2 (d2 connID).
