(* ===== verification/TrackerTheorems.v ===== *)
(** * Properties of the tracker client

    The address filter against the reserved ranges written as numbers, the UDP
    exchange with a tracker that follows BEP 15, the peers of an HTTP answer, and
    which error each malformed answer gives. *)

From S2P Require Import Prelude Strconv Net Bencode BencodeFacts Tracker.
Set Warnings "-clear-no-such-hyp".
Local Open Scope Z_scope.

(** ** Reserved ranges *)

(** Inclusive ranges of address values: 0.0.0.0, 10/8, 127/8, 169.254/16, 172.16/12,
    192.168/16, 224.0.0/24. *)
Definition ranges4 : list (Z * Z) :=
  [(0, 0); (167772160, 184549375); (2130706432, 2147483647); (2851995648, 2852061183);
   (2886729728, 2887778303); (3232235520, 3232301055); (3758096384, 3758096639)].

(** ::, ::1, fc00::/7, fe80::/10 and ff?2::/16. *)
Definition ranges6 : list (Z * Z) :=
  let net hi n := (hi * 2 ^ 112, (hi + n) * 2 ^ 112 - 1) in
  [(0, 0); (1, 1); net 64512 512; net 65152 64] ++
  ((fun k => net (65282 + 16 * k) 1) <$> seqZ 0 16).

Definition in_ranges (rs : list (Z * Z)) (v : Z) : bool :=
  existsb (fun r => (r.1 <=? v) && (v <=? r.2)) rs.

(** A finite check over all bytes. *)
Lemma forall_u8 (P : Z -> bool) : forallb P (seqZ 0 256) = true -> forall b : byte, P (u8 b) = true.
Proof.
  intros H b. rewrite forallb_forall in H. apply H, list_elem_of_In, elem_of_seqZ.
  pose proof (u8_range b). lia.
Qed.

Lemma land_240 (b : byte) : (Z.land (u8 b) 240 =? 16) = ((16 <=? u8 b) && (u8 b <=? 31)).
Proof. apply (eqb_prop _ _), (forall_u8 (fun z => Bool.eqb (Z.land z 240 =? 16) ((16 <=? z) && (z <=? 31)))). by vm_compute. Qed.
Lemma land_254 (b : byte) : (Z.land (u8 b) 254 =? 252) = ((252 <=? u8 b) && (u8 b <=? 253)).
Proof. apply (eqb_prop _ _), (forall_u8 (fun z => Bool.eqb (Z.land z 254 =? 252) ((252 <=? z) && (z <=? 253)))). by vm_compute. Qed.
Lemma land_192 (b : byte) : (Z.land (u8 b) 192 =? 128) = ((128 <=? u8 b) && (u8 b <=? 191)).
Proof. apply (eqb_prop _ _), (forall_u8 (fun z => Bool.eqb (Z.land z 192 =? 128) ((128 <=? z) && (z <=? 191)))). by vm_compute. Qed.
Lemma land_15 (b : byte) : (Z.land (u8 b) 15 =? 2) = existsb (fun k => u8 b =? 2 + 16 * k) (seqZ 0 16).
Proof. apply (eqb_prop _ _), (forall_u8 (fun z => Bool.eqb (Z.land z 15 =? 2) (existsb (fun k => z =? 2 + 16 * k) (seqZ 0 16)))). by vm_compute. Qed.

(** Bytes as a number: equality and the leading bytes. *)
Lemma be_get_inj l1 l2 : length l1 = length l2 -> be_get l1 = be_get l2 -> l1 = l2.
Proof. intros Hl E. by rewrite <- (be_put_get l1), <- (be_put_get l2), Hl, E. Qed.

Lemma bool_decide_be_get l v l' : length l = length l' -> be_get l' = v ->
  bool_decide (l = l') = ((v <=? be_get l) && (be_get l <=? v)).
Proof.
  intros Hl Hv. case_bool_decide as H.
  - subst. by rewrite !Z.leb_refl.
  - symmetry. apply andb_false_iff. rewrite !Z.leb_gt.
    destruct (Z.lt_trichotomy v (be_get l)) as [?|[?|?]]; [by right| |by left].
    exfalso. apply H, be_get_inj; [done|congruence].
Qed.

Ltac ranges_lia :=
  apply eq_iff_eq_true; rewrite ?orb_true_iff, ?andb_true_iff, ?orb_false_iff, ?Z.leb_le, ?Z.eqb_eq;
  cbn [fst snd]; lia.

Lemma reserved_ranges4 (a b c d : byte) :
  reserved [a; b; c; d] = in_ranges ranges4 (be_get [a; b; c; d]).
Proof.
  unfold reserved, IsLoopback, IsPrivate, IsLinkLocalUnicast, IsLinkLocalMulticast, IsUnspecified.
  rewrite To4_4 by done. unfold ip_byte. cbn [lookup list_lookup from_option id default].
  rewrite land_240, (bool_decide_be_get [a; b; c; d] 0) by done.
  unfold in_ranges, ranges4. cbn [existsb fst snd]. cbn [be_get length Z.of_nat].
  change (256 ^ Z.of_nat 3) with 16777216. change (256 ^ Z.of_nat 2) with 65536.
  change (256 ^ Z.of_nat 1) with 256. change (256 ^ 0) with 1.
  pose proof (u8_range a). pose proof (u8_range b). pose proof (u8_range c). pose proof (u8_range d).
  ranges_lia.
Qed.

Lemma prefix_range hi n h v : 0 <= v < 2 ^ 112 ->
  ((hi * 2 ^ 112 <=? h * 2 ^ 112 + v) && (h * 2 ^ 112 + v <=? (hi + n) * 2 ^ 112 - 1)) =
  ((hi <=? h) && (h <? hi + n)).
Proof.
  intros Hv. apply eq_iff_eq_true. rewrite !andb_true_iff, !Z.leb_le, Z.ltb_lt.
  generalize dependent (2 ^ 112). intros q Hq. split; intros [H1 H2]; split; nia.
Qed.

Lemma reserved_ranges6 ip : length ip = 16%nat -> To4 ip = None ->
  reserved ip = in_ranges ranges6 (be_get ip).
Proof.
  intros Hl H4. destruct ip as [|a [|b l]]; [done..|].
  assert (Hv : be_get (a :: b :: l) = (u8 a * 256 + u8 b) * 2 ^ 112 + be_get l).
  { cbn [be_get length] in *. injection Hl as ->. change (256 ^ Z.of_nat 15) with (256 * 2 ^ 112).
    change (256 ^ Z.of_nat 14) with (2 ^ 112). lia. }
  assert (Hr : 0 <= be_get l < 2 ^ 112).
  { pose proof (be_get_range l). injection Hl as Hl. rewrite Hl in *. done. }
  pose proof (u8_range a). pose proof (u8_range b).
  unfold reserved, IsLoopback, IsPrivate, IsLinkLocalUnicast, IsLinkLocalMulticast, IsUnspecified.
  rewrite H4, Hl. unfold ip_byte. cbn [lookup list_lookup from_option id default Z.of_nat Z.eqb Pos.of_succ_nat].
  rewrite (bool_decide_be_get (a :: b :: l) 0 (replicate 16 x00)) by done.
  rewrite (bool_decide_be_get (a :: b :: l) 1 (replicate 15 x00 ++ [x01])) by done.
  rewrite land_254, land_192, land_15. rewrite Hv. unfold in_ranges, ranges6.
  rewrite existsb_app. cbn [existsb fst snd]. rewrite !prefix_range by done.
  set (h := u8 a * 256 + u8 b) in *.
  assert (Hm : existsb (fun r => (r.1 <=? h * 2 ^ 112 + be_get l) && (h * 2 ^ 112 + be_get l <=? r.2))
    ((fun k => ((65282 + 16 * k) * 2 ^ 112, (65282 + 16 * k + 1) * 2 ^ 112 - 1)) <$> seqZ 0 16) =
    (u8 a =? 255) && existsb (fun k => u8 b =? 2 + 16 * k) (seqZ 0 16)).
  { apply eq_iff_eq_true. rewrite andb_true_iff, Z.eqb_eq, !existsb_exists. split.
    - intros (r & Hin & Hx). apply list_elem_of_In, list_elem_of_fmap in Hin as (k & -> & Hk).
      cbn [fst snd] in Hx. rewrite prefix_range in Hx by done. apply elem_of_seqZ in Hk as Hk'.
      apply andb_true_iff in Hx as [H1%Z.leb_le H2%Z.ltb_lt]. split; [lia|].
      exists k. rewrite Z.eqb_eq. split; [by apply list_elem_of_In|lia].
    - intros [Ha (k & Hk & Hb%Z.eqb_eq)]. eexists. split.
      + apply list_elem_of_In, list_elem_of_fmap. exists k. split; [done|by apply list_elem_of_In].
      + cbn [fst snd]. rewrite prefix_range by done. apply andb_true_iff. rewrite Z.leb_le, Z.ltb_lt. lia. }
  rewrite Hm. generalize (existsb (fun k => u8 b =? 2 + 16 * k) (seqZ 0 16)). intros m.
  clear Hm Hv H4 Hl. subst h. generalize dependent (be_get l). intros v Hr.
  destruct m; apply eq_iff_eq_true;
    rewrite ?orb_true_iff, ?andb_true_iff, ?orb_false_iff, ?Z.leb_le, ?Z.ltb_lt, ?Z.eqb_eq; lia.
Qed.

Lemma reserved_To4 ip ip4 : To4 ip = Some ip4 -> reserved ip = reserved ip4.
Proof.
  intros H. pose proof (To4_4 ip4 (To4_length _ _ H)) as H4.
  unfold reserved, IsLoopback, IsPrivate, IsLinkLocalUnicast, IsLinkLocalMulticast, IsUnspecified.
  by rewrite H, H4.
Qed.

(** An address by its value: reserved when the value, IPv4 for an IPv4-mapped
    address, lies in one of the ranges. *)
Definition reserved_value (ip : IP) : bool :=
  match To4 ip with
  | Some ip4 => in_ranges ranges4 (be_get ip4)
  | None => in_ranges ranges6 (be_get ip)
  end.

Lemma reserved_spec ip : length ip = 4%nat \/ length ip = 16%nat -> reserved ip = reserved_value ip.
Proof.
  intros Hl. unfold reserved_value. destruct (To4 ip) as [ip4|] eqn:H4.
  - rewrite (reserved_To4 _ _ H4). apply To4_length in H4.
    destruct ip4 as [|a [|b [|c [|d [|]]]]]; try done. apply reserved_ranges4.
  - apply reserved_ranges6; [|done]. destruct Hl as [Hl|Hl]; [|done]. by rewrite (To4_4 _ Hl) in H4.
Qed.

(** ** UDP *)

(** A compact record. *)
Definition record4 (p : Peer) : bytes := IP_ p ++ be_put 2 (Port p).
Definition peer4_ok (p : Peer) : Prop := length (IP_ p) = 4%nat /\ 0 <= Port p < 2 ^ 16.

Lemma compact_peer_record p : peer4_ok p -> compact_peer 4 (record4 p) = p.
Proof.
  intros [Hl Hp]. unfold compact_peer, record4. rewrite take_app_length', drop_app_length' by done.
  rewrite be_get_put_id by done. by destruct p.
Qed.

Lemma take_concat (k n : nat) (rs : list bytes) :
  Forall (fun r => length r = k) rs -> take (k * n) (concat rs) = concat (take n rs).
Proof.
  intros H. revert n. induction H as [|r rs Hr Hrs IH]; intros [|n];
    [by destruct (k * _)%nat..|by rewrite Nat.mul_0_r|].
  - cbn [concat take]. rewrite take_app, Hr. replace (k * S n - k)%nat with (k * n)%nat by lia.
    rewrite IH, (take_ge r) by (rewrite Hr; lia). done.
Qed.

Lemma parseCompactPeers_records ps : Forall peer4_ok ps -> len ps <= MaxPeersPerResponse ->
  parseCompactPeers (concat (record4 <$> ps)) = Ok ps.
Proof.
  intros Hp Hm. unfold parseCompactPeers.
  assert (Hf : Forall (fun r : bytes => length r = 6%nat) (record4 <$> ps)).
  { apply Forall_fmap. eapply Forall_impl; [exact Hp|]. intros p [Hl _].
    unfold compose, record4. rewrite length_app, length_be_put. lia. }
  pose proof (concat_length_k 6 _ Hf) as Hl. rewrite length_fmap in Hl. rewrite Hl.
  replace (Z.of_nat (6 * length ps)) with (len ps * 6) by lia.
  rewrite Z.mod_mul by done. cbn [negb Z.eqb]. f_equal. unfold compact_peers. rewrite Hl.
  change (4 + 2)%nat with 6%nat. replace (Z.of_nat (6 * length ps)) with (len ps * 6) by lia.
  rewrite Z.div_mul by done. rewrite (proj2 (Z.ltb_ge _ _)) by done. rewrite Nat2Z.id.
  rewrite <- (length_fmap record4 ps) at 1. rewrite chunks_concat by done. rewrite <- list_fmap_compose.
  rewrite <- (list_fmap_id ps) at 2. apply list_fmap_ext. intros i p Hi. apply compact_peer_record.
  by eapply Forall_lookup_1.
Qed.

(** A tracker that follows BEP 15: what it answers to each request. *)
Definition bep15_connect (connID : Z) (request : bytes) : option bytes :=
  if (len request =? 16) && (be_get (slice request 0 8) =? 4497486125440) &&
     (be_get (slice request 8 12) =? 0)
  then Some (be_put 4 0 ++ slice request 12 16 ++ be_put 8 connID) else None.

Definition bep15_announce (connID interval leechers seeders : Z) (ps : list Peer) (request : bytes)
    : option bytes :=
  if (len request =? 98) && (be_get (slice request 0 8) =? connID) && (be_get (slice request 8 12) =? 1)
  then Some (be_put 4 1 ++ slice request 12 16 ++ be_put 4 interval ++ be_put 4 leechers ++
             be_put 4 seeders ++ concat (record4 <$> ps))
  else None.

Lemma udpConnect_bep15 txn connID :
  0 <= txn < 2 ^ 32 -> 0 <= connID < 2 ^ 64 ->
  udpConnect txn (bep15_connect connID (connect_request txn)) = Ok connID.
Proof.
  intros Ht Hc. unfold bep15_connect.
  assert (Hreq : (len (connect_request txn) =? 16) && (be_get (slice (connect_request txn) 0 8) =? 4497486125440)
    && (be_get (slice (connect_request txn) 8 12) =? 0) = true).
  { unfold connect_request. rewrite slice_prefix by (by rewrite length_be_put).
    rewrite (slice_mid (be_put 8 _)) by (by rewrite ?length_be_put).
    rewrite !length_app, !length_be_put. done. }
  rewrite Hreq.
  assert (Htx : slice (connect_request txn) 12 16 = be_put 4 txn).
  { unfold connect_request. rewrite (assoc_L (++)). rewrite <- (app_nil_r (be_put 4 txn)) at 1.
    apply slice_mid; rewrite length_app, !length_be_put; done. }
  rewrite Htx. unfold udpConnect.
  assert (Hlen : length (be_put 4 0 ++ be_put 4 txn ++ be_put 8 connID) = 16%nat)
    by (by rewrite !length_app, !length_be_put).
  rewrite take_ge by lia. rewrite Hlen. cbn [Z.of_nat Z.ltb Z.compare].
  rewrite slice_prefix by (by rewrite length_be_put).
  rewrite (slice_mid (be_put 4 0)) by (by rewrite ?length_be_put).
  rewrite (assoc_L (++)). rewrite <- (app_nil_r (be_put 8 connID)) at 1.
  rewrite (slice_mid (be_put 4 0 ++ be_put 4 txn)) by (by rewrite ?length_app, ?length_be_put).
  rewrite !be_get_put_id by (done || lia). by rewrite Z.eqb_refl.
Qed.

Lemma slice_concat (fields : list bytes) i f a b :
  fields !! i = Some f -> a = len (concat (take i fields)) -> b = a + len f ->
  slice (concat fields) a b = f.
Proof.
  intros Hi -> ->. rewrite <- (take_drop_middle fields i f Hi) at 1.
  rewrite concat_app, concat_cons. by apply slice_mid.
Qed.

(** The fields of an announce request. *)
Definition announce_fields (txn connID : Z) (req : AnnounceRequest) : list bytes :=
  [be_put 8 connID; be_put 4 actionAnnounce; be_put 4 txn; r_InfoHash req; r_PeerID req;
   be_put 8 (Downloaded req); be_put 8 (Left req); be_put 8 (Uploaded req);
   be_put 4 (event_code (Event_ req)); be_put 4 0; be_put 4 0; be_put 4 4294967295; be_put 2 (r_Port req)].

Lemma announce_request_fields txn connID req :
  announce_request txn connID req = concat (announce_fields txn connID req).
Proof. unfold announce_request, announce_fields. cbn [concat]. by rewrite app_nil_r. Qed.

Section Announce.
Context (txn connID : Z) (req : AnnounceRequest).
Context (Ht : 0 <= txn < 2 ^ 32) (Hc : 0 <= connID < 2 ^ 64).
Context (Hh : length (r_InfoHash req) = 20%nat) (Hp : length (r_PeerID req) = 20%nat).

Lemma announce_field i f a b :
  announce_fields txn connID req !! i = Some f ->
  a = len (concat (take i (announce_fields txn connID req))) -> b = a + len f ->
  slice (announce_request txn connID req) a b = f.
Proof. rewrite announce_request_fields. apply slice_concat. Qed.

Ltac field i :=
  rewrite (announce_field i _ _ _ eq_refl)
    by (cbn [announce_fields take concat]; rewrite ?length_app, ?length_be_put, ?Hh, ?Hp; reflexivity).

Lemma length_announce_request : len (announce_request txn connID req) = 98.
Proof. unfold announce_request. by rewrite !length_app, !length_be_put, Hh, Hp. Qed.

(** What a tracker finds at the offsets of BEP 15. *)
Lemma announce_request_bep15 :
  let r := announce_request txn connID req in
  be_get (slice r 0 8) = connID /\ be_get (slice r 8 12) = 1 /\ slice r 12 16 = be_put 4 txn /\
  slice r 16 36 = r_InfoHash req /\ slice r 36 56 = r_PeerID req /\
  be_get (slice r 56 64) = Downloaded req mod 2 ^ 64 /\ be_get (slice r 64 72) = Left req mod 2 ^ 64 /\
  be_get (slice r 72 80) = Uploaded req mod 2 ^ 64 /\
  be_get (slice r 80 84) = event_code (Event_ req) /\ be_get (slice r 96 98) = r_Port req mod 2 ^ 16.
Proof.
  cbn zeta. field 0%nat. field 1%nat. field 2%nat. field 3%nat. field 4%nat. field 5%nat. field 6%nat.
  field 7%nat. field 8%nat. field 12%nat. rewrite !be_get_put. split_and!; try done.
  - by apply Z.mod_small.
  - by destruct (Event_ req).
Qed.

Lemma udpAnnounce_bep15 interval leechers seeders ps :
  0 <= interval < 2 ^ 32 -> Forall peer4_ok ps ->
  udpAnnounce txn (bep15_announce connID interval leechers seeders ps (announce_request txn connID req)) =
    Ok (mkAnnounceResponse interval (take 1362 ps)).
Proof.
  intros Hi Hps. destruct announce_request_bep15 as (E1 & E2 & E3 & _).
  unfold bep15_announce. rewrite length_announce_request, E1, E2, E3, !Z.eqb_refl. cbn [andb].
  set (hdr := [be_put 4 1; be_put 4 txn; be_put 4 interval; be_put 4 leechers; be_put 4 seeders]).
  assert (Hd : be_put 4 1 ++ be_put 4 txn ++ be_put 4 interval ++ be_put 4 leechers ++ be_put 4 seeders ++
    concat (record4 <$> ps) = concat hdr ++ concat (record4 <$> ps))
    by (unfold hdr; cbn [concat]; by rewrite app_nil_r, <- !(assoc_L (++))).
  rewrite Hd. assert (Hh20 : length (concat hdr) = 20%nat)
    by (unfold hdr; cbn [concat]; by rewrite !length_app, !length_be_put).
  assert (Hf : Forall (fun r : bytes => length r = 6%nat) (record4 <$> ps)).
  { apply Forall_fmap. eapply Forall_impl; [exact Hps|]. intros p [Hl _].
    unfold compose, record4. rewrite length_app, length_be_put. lia. }
  unfold udpAnnounce.
  assert (Htk : take (Z.to_nat 8192) (concat hdr ++ concat (record4 <$> ps)) =
    concat hdr ++ concat (record4 <$> take 1362 ps)).
  { rewrite take_app, (take_ge (concat hdr)) by (rewrite Hh20; lia). f_equal.
    rewrite Hh20. replace (Z.to_nat 8192 - 20)%nat with (6 * 1362)%nat by lia.
    by rewrite (take_concat 6) by done; rewrite fmap_take. }
  rewrite Htk. set (body := concat (record4 <$> take 1362 ps)).
  assert (Hlen : len (concat hdr ++ body) = 20 + len body) by (rewrite length_app, Hh20; lia).
  rewrite (proj2 (Z.ltb_ge _ _)) by lia.
  assert (Hs : forall a b, 0 <= a <= b -> b <= 20 -> slice (concat hdr ++ body) a b = slice (concat hdr) a b)
    by (intros; apply slice_app_l; lia).
  rewrite (Hs 0 4), (Hs 4 8), (Hs 8 12) by lia.
  rewrite (slice_concat hdr 0 (be_put 4 1) 0 4), (slice_concat hdr 1 (be_put 4 txn) 4 8),
    (slice_concat hdr 2 (be_put 4 interval) 8 12)
    by (unfold hdr; cbn [take concat]; rewrite ?length_app, ?length_be_put; reflexivity).
  rewrite !be_get_put_id by (done || lia). rewrite Z.eqb_refl. cbn [negb Z.eqb actionError actionAnnounce Pos.eqb].
  rewrite slice_suffix by lia.
  assert (Hb : len body mod 6 = 0).
  { subst body. rewrite (concat_length_k 6) by (rewrite fmap_take; by apply Forall_take).
    replace (Z.of_nat (6 * length (record4 <$> take 1362 ps))) with (len (record4 <$> take 1362 ps) * 6) by lia.
    by apply Z.mod_mul. }
  rewrite Hb. cbn [negb Z.eqb]. subst body. rewrite parseCompactPeers_records; [done|by apply Forall_take|].
  rewrite length_take. unfold MaxPeersPerResponse. lia.
Qed.
End Announce.

(** ** Properties *)

(** The address filter keeps, in their order, exactly the peers whose address
    is outside the reserved ranges, the ranges given as numbers: unspecified,
    loopback, private, link-local unicast and link-local multicast, IPv4 and
    IPv6, an IPv4-mapped IPv6 address judged as the IPv4 address it holds. *)
Lemma FilterPrivatePeers_ranges peers :
  Forall (fun p => length (IP_ p) = 4%nat \/ length (IP_ p) = 16%nat) peers ->
  FilterPrivatePeers peers = filter (fun p => reserved_value (IP_ p) = false) peers.
Proof.
  intros H. rewrite Forall_forall in H. apply filter_ext_in.
  intros p Hp. by rewrite reserved_spec by (by apply H).
Qed.

Lemma FilterPrivatePeers_ranges_witness :
  let p a b c d := mkPeer [a; b; c; d] 6881 in
  FilterPrivatePeers [p x0a x00 x00 x01; p x08 x08 x08 x08; p xac x1f xff xff; p xac x20 x00 x00;
                      mkPeer (v4InV6Prefix ++ [x7f; x00; x00; x01]) 1] =
    [p x08 x08 x08 x08; p xac x20 x00 x00].
Proof.
  cbn zeta. rewrite FilterPrivatePeers_ranges; [by vm_compute|].
  repeat first [apply Forall_cons; split; [cbn; lia|] | apply Forall_nil]. done.
Defined.

(** The UDP announce against a tracker that follows BEP 15: the tracker finds the
    torrent, the peer, the counters, the event and the port at their offsets in
    the 98-byte request, and the client gets back the tracker's interval and its
    peers (those that fit the 8192-byte read buffer), each with its address and port. *)
Lemma AnnounceUDP_bep15 txn1 txn2 connID req interval leechers seeders ps :
  0 <= txn1 < 2 ^ 32 -> 0 <= txn2 < 2 ^ 32 -> 0 <= connID < 2 ^ 64 -> 0 <= interval < 2 ^ 32 ->
  length (r_InfoHash req) = 20%nat -> length (r_PeerID req) = 20%nat -> Forall peer4_ok ps ->
  AnnounceUDP txn1 txn2 (bep15_connect connID (connect_request txn1))
    (fun id => bep15_announce connID interval leechers seeders ps (announce_request txn2 id req)) =
    Ok (mkAnnounceResponse interval (take 1362 ps)) /\
  let r := announce_request txn2 connID req in
  len r = 98 /\ slice r 16 36 = r_InfoHash req /\ slice r 36 56 = r_PeerID req /\
  be_get (slice r 56 64) = Downloaded req mod 2 ^ 64 /\ be_get (slice r 64 72) = Left req mod 2 ^ 64 /\
  be_get (slice r 72 80) = Uploaded req mod 2 ^ 64 /\
  be_get (slice r 80 84) = event_code (Event_ req) /\ be_get (slice r 96 98) = r_Port req mod 2 ^ 16.
Proof.
  intros H1 H2 Hc Hi Hh Hp Hps. split.
  - unfold AnnounceUDP. rewrite udpConnect_bep15 by done. cbn [mbind result_bind].
    by apply udpAnnounce_bep15.
  - pose proof (announce_request_bep15 txn2 connID req Hc Hh Hp) as (_ & _ & _ & H).
    split; [by apply length_announce_request|exact H].
Qed.

Definition demo_req : AnnounceRequest :=
  mkAnnounceRequest [] (replicate 20 x01) (replicate 20 x02) 6881 0 5 10 EventStarted 0 [].

Lemma AnnounceUDP_bep15_witness :
  AnnounceUDP 7 8 (bep15_connect 99 (connect_request 7))
    (fun id => bep15_announce 99 1800 1 2 [mkPeer [x08; x08; x08; x08] 6881] (announce_request 8 id demo_req)) =
    Ok (mkAnnounceResponse 1800 [mkPeer [x08; x08; x08; x08] 6881]).
Proof.
  refine (proj1 (AnnounceUDP_bep15 7 8 99 demo_req 1800 1 2 [mkPeer [x08; x08; x08; x08] 6881] _ _ _ _ _ _ _));
    try lia; try reflexivity.
  apply Forall_cons. split; [split; [reflexivity|cbn; lia]|apply Forall_nil; done].
Defined.

(** The outcome of every UDP announce: each error has its exact cause, checked
    in the code's order (nothing read, shorter than 20 bytes, another transaction,
    the tracker's error with its message, another action), and otherwise the
    answer carries the interval and all complete 6-byte records of the datagram. *)
Lemma udpAnnounce_outcome txn datagram :
  match udpAnnounce txn datagram with
  | Err UDPReadFailed => datagram = None
  | Err e => exists d, datagram = Some d /\
      let r := take (Z.to_nat 8192) d in
      match e with
      | UDPTooShort n => n = len r /\ n < 20
      | TxnMismatch => 20 <= len r /\ be_get (slice r 4 8) <> txn
      | UDPError msg => 20 <= len r /\ be_get (slice r 4 8) = txn /\ be_get (slice r 0 4) = actionError /\
          r = slice r 0 8 ++ msg
      | UnexpectedAction a => 20 <= len r /\ be_get (slice r 4 8) = txn /\ a = be_get (slice r 0 4) /\
          a <> actionError /\ a <> actionAnnounce
      | _ => False
      end
  | Ok resp => exists d, datagram = Some d /\
      let r := take (Z.to_nat 8192) d in
      20 <= len r /\ be_get (slice r 4 8) = txn /\ be_get (slice r 0 4) = actionAnnounce /\
      Interval resp = be_get (slice r 8 12) /\
      len (Peers resp) = (len r - 20) / 6 /\
      forall i p, Peers resp !! i = Some p ->
        IP_ p = slice r (20 + 6 * Z.of_nat i) (24 + 6 * Z.of_nat i) /\
        Port p = be_get (slice r (24 + 6 * Z.of_nat i) (26 + 6 * Z.of_nat i))
  end.
Proof.
  unfold udpAnnounce. destruct datagram as [d|]; [|done].
  assert (Hmax : len (take (Z.to_nat 8192) d) <= 8192) by (rewrite length_take; lia).
  remember (take (Z.to_nat 8192) d) as r eqn:Hr.
  destruct (Z.ltb_spec (len r) 20); [by exists d; rewrite <- Hr|].
  destruct (Z.eqb_spec (be_get (slice r 4 8)) txn) as [Et|]; cbn [negb]; [|by exists d; rewrite <- Hr].
  destruct (Z.eqb_spec (be_get (slice r 0 4)) actionError) as [Ea|].
  { exists d. split; [done|]. cbn zeta. rewrite <- Hr. split_and!; [done|done|done|].
    rewrite (proj2 (Z.ltb_lt 8 (len r))) by lia. symmetry. apply slice_split. lia. }
  destruct (Z.eqb_spec (be_get (slice r 0 4)) actionAnnounce) as [Ea|]; cbn [negb]; [|by exists d; rewrite <- Hr].
  set (body := slice r 20 (len r)).
  set (peerData := if negb (len body mod 6 =? 0) then slice body 0 (len body / 6 * 6) else body).
  assert (Hb : len body = len r - 20) by (unfold body; rewrite length_slice; lia).
  assert (Hp : peerData = slice body 0 (len body / 6 * 6)).
  { unfold peerData. destruct (Z.eqb_spec (len body mod 6) 0) as [E|]; [|done]. cbn [negb].
    rewrite <- (slice_full body) at 1. f_equal. pose proof (Z.div_mod (len body) 6). lia. }
  pose proof (Z.mul_div_le (len body) 6 ltac:(lia)) as Hle.
  pose proof (Z.div_pos (len body) 6 ltac:(lia) ltac:(lia)) as Hpos.
  assert (Hl : len peerData = len body / 6 * 6) by (rewrite Hp, length_slice; lia).
  unfold parseCompactPeers. rewrite Hl, Z.mod_mul by done. cbn [negb Z.eqb mbind result_bind].
  exists d. cbn zeta. rewrite <- Hr. split_and!; try done; cbn [Interval Peers]; unfold compact_peers.
  - rewrite length_fmap, chunks_length, Hl, Z.div_mul, <- Hb by done.
    rewrite (proj2 (Z.ltb_ge _ _)); [lia|]. unfold MaxPeersPerResponse. lia.
  - intros i p. rewrite list_lookup_fmap, fmap_Some. intros (rec & [Hi Hrec]%chunks_lookup & ->).
    rewrite Hl in Hi. change (Z.of_nat (4 + 2)) with 6 in *. rewrite Z.div_mul in Hi by done.
    assert (Hle' : 6 * Z.of_nat i + 6 <= len body / 6 * 6).
    { destruct (_ <? _) eqn:E; unfold MaxPeersPerResponse in *; lia. }
    assert (Hrs : rec = slice r (20 + 6 * Z.of_nat i) (26 + 6 * Z.of_nat i)).
    { rewrite Hrec, Hp, slice_slice by lia. unfold body. rewrite slice_slice by lia. f_equal; lia. }
    assert (Hlr : len rec = 6) by (rewrite Hrs, length_slice; lia).
    unfold compact_peer. cbn [IP_ Port].
    assert (take 4 rec = slice rec 0 4) as -> by done.
    assert (drop 4 rec = slice rec 4 6) as ->.
    { unfold slice. rewrite take_ge; [done|]. rewrite length_drop. lia. }
    rewrite Hrs, !slice_slice by lia. split; f_equal; [lia|lia|f_equal; lia].
Qed.

(** An error answer is only recognised from 20 bytes on: a short message is lost. *)
Example short_udp_error_lost :
  udpAnnounce 7 (Some (be_put 4 actionError ++ be_put 4 7 ++ lit "banned")) = Err (UDPTooShort 14).
Proof. vm_compute. reflexivity. Qed.
