(* ===== verification/Magnet.v ===== *)
(** * [magnet]: magnet links ([magnet/magnet.go]) and the identity of a torrent source

    The link's query is an argument (the result of [net/url]); the decoding of
    hexadecimal and base32 info hashes is Go's [encoding/hex] and
    [encoding/base32], quantum by quantum with its padding rules. *)

From S2P Require Import Prelude Strconv Net Torrent.
Set Warnings "-clear-no-such-hyp".
Local Open Scope Z_scope.

(** ** [encoding/hex] *)

Definition from_hex (b : byte) : option Z :=
  let c := u8 b in
  if (48 <=? c) && (c <=? 57) then Some (c - 48)
  else if (97 <=? c) && (c <=? 102) then Some (c - 87)
  else if (65 <=? c) && (c <=? 70) then Some (c - 55)
  else None.

Fixpoint hex_DecodeString (s : bytes) : option bytes :=
  match s with
  | [] => Some []
  | a :: b :: s =>
      hi ← from_hex a; lo ← from_hex b; rest ← hex_DecodeString s;
      Some (byte_of_Z (Z.lor (Z.shiftl hi 4) lo) :: rest)
  | _ => None
  end.

Definition hex_EncodeToString (s : bytes) : bytes :=
  concat ((fun b => [hex_digit (u8 b / 16); hex_digit (u8 b mod 16)]) <$> s).

(** ** [encoding/base32] *)

Definition base32_alphabet : bytes := lit "ABCDEFGHIJKLMNOPQRSTUVWXYZ234567".

Definition from_base32 (b : byte) : option Z :=
  let c := u8 b in
  if (65 <=? c) && (c <=? 90) then Some (c - 65)
  else if (50 <=? c) && (c <=? 55) then Some (c - 24)
  else None.

Definition pad_char : byte := x3d.

(** The characters of one quantum, from position [j] on: the values and what is
    left, and whether padding ended it. *)
Fixpoint quantum (n : nat) (j : Z) (src : bytes) : option (list Z * bytes * bool) :=
  match n with
  | O => Some ([], src, false)
  | S n =>
      match src with
      | [] => None
      | c :: src =>
          if bool_decide (c = pad_char) && (2 <=? j) && (len src <? 8) then
            if len src + j <? 8 - 1 then None
            else if negb (forallb (fun x => bool_decide (x = pad_char)) (take (Z.to_nat (8 - 1 - j)) src))
            then None
            else if (j =? 1) || (j =? 3) || (j =? 6) then None
            else Some ([], src, true)
          else
            match from_base32 c with
            | None => None
            | Some v => '(vs, src, e) ← quantum n (j + 1) src; Some (v :: vs, src, e)
            end
      end
  end.

(** The bytes of a quantum: as many as its characters determine. *)
Definition pack (d : list Z) : bytes :=
  let v i := nth i d 0 in
  let b z := byte_of_Z z in
  let all := [b (Z.lor (Z.shiftl (v 0%nat) 3) (Z.shiftr (v 1%nat) 2));
              b (Z.lor (Z.lor (Z.shiftl (v 1%nat) 6) (Z.shiftl (v 2%nat) 1)) (Z.shiftr (v 3%nat) 4));
              b (Z.lor (Z.shiftl (v 3%nat) 4) (Z.shiftr (v 4%nat) 1));
              b (Z.lor (Z.lor (Z.shiftl (v 4%nat) 7) (Z.shiftl (v 5%nat) 2)) (Z.shiftr (v 6%nat) 3));
              b (Z.lor (Z.shiftl (v 6%nat) 5) (v 7%nat))] in
  take (match length d with 8 => 5 | 7 => 4 | 5 => 3 | 4 => 2 | 2 => 1 | _ => 0 end)%nat all.

Fixpoint base32_decode (fuel : nat) (src : bytes) : option bytes :=
  match fuel with
  | O => Some []
  | S fuel =>
      match src with
      | [] => Some []
      | _ => '(d, src, e) ← quantum 8 0 src;
             if e : bool then Some (pack d) else rest ← base32_decode fuel src; Some (pack d ++ rest)
      end
  end.

(** [DecodeString] drops newlines first. *)
Definition base32_DecodeString (s : bytes) : option bytes :=
  let s := filter (fun c => c <> x0d /\ c <> x0a) s in base32_decode (length s) s.

(** [strings.ToUpper]: the ASCII letters and the two other runes whose upper case
    is one, dotless i and long s. *)
Definition upper_byte (b : byte) : byte :=
  if (97 <=? u8 b) && (u8 b <=? 122) then byte_of_Z (u8 b - 32) else b.
Fixpoint ToUpper (s : bytes) : bytes :=
  match s with
  | xc4 :: xb1 :: s => x49 :: ToUpper s
  | xc5 :: xbf :: s => x53 :: ToUpper s
  | b :: s => upper_byte b :: ToUpper s
  | [] => []
  end.

(** ** Links *)

Inductive magnet_error :=
  | InvalidURI | BadScheme (s : bytes) | MissingXT | InvalidHex | InvalidBase32
  | UnexpectedLength (n : Z) | BadMultihash | V2Length (n : Z) | V2OnlyMagnet | MissingBTIH.

Record Magnet := mkMagnet {
  m_InfoHash : bytes; m_InfoHashV2 : bytes; HasV2 : bool;
  DisplayName : bytes; Trackers : list bytes; m_Peers : list bytes
}.

(** [copy(hash[:], decoded)] into a zero array. *)
Definition to_array (n : nat) (s : bytes) : bytes := take n s ++ replicate (n - length s) x00.

Definition parseInfoHashV1 (xt : bytes) : result magnet_error bytes :=
  let raw := drop 9 xt in
  if len raw =? 40 then
    match hex_DecodeString raw with Some d => Ok (to_array 20 d) | None => Err InvalidHex end
  else if len raw =? 32 then
    match base32_DecodeString (ToUpper raw) with
    | Some d => Ok (to_array 20 d)
    | None => Err InvalidBase32
    end
  else Err (UnexpectedLength (len raw)).

Definition has_prefix (p s : bytes) : bool := bool_decide (take (length p) s = p).

Definition parseInfoHashV2 (xt : bytes) : result magnet_error bytes :=
  let raw := drop 9 xt in
  if negb (has_prefix (lit "1220") raw) then Err BadMultihash
  else
    let hexStr := drop 4 raw in
    if negb (len hexStr =? 64) then Err (V2Length (len hexStr))
    else match hex_DecodeString hexStr with Some d => Ok (to_array 32 d) | None => Err InvalidHex end.

Fixpoint parse_xts (xts : list bytes) (m : Magnet) : result magnet_error Magnet :=
  match xts with
  | [] => Ok m
  | xt :: xts =>
      if has_prefix (lit "urn:btih:") xt then
        hash ← parseInfoHashV1 xt;
        parse_xts xts (mkMagnet hash (m_InfoHashV2 m) (HasV2 m) (DisplayName m) (Trackers m) (m_Peers m))
      else if has_prefix (lit "urn:btmh:") xt then
        hash ← parseInfoHashV2 xt;
        parse_xts xts (mkMagnet (m_InfoHash m) hash true (DisplayName m) (Trackers m) (m_Peers m))
      else parse_xts xts m
  end.

(** The result of [url.Parse]: the scheme and the query. *)
Record URL := mkURL { Scheme : bytes; Query : gmap bytes (list bytes) }.

Definition magnet_Parse (u : option URL) : result magnet_error Magnet :=
  match u with
  | None => Err InvalidURI
  | Some u =>
      if negb (bool_decide (Scheme u = lit "magnet")) then Err (BadScheme (Scheme u))
      else
        let param k := default [] (Query u !! lit k) in
        if len (param "xt") =? 0 then Err MissingXT
        else
          m ← parse_xts (param "xt") (mkMagnet (replicate 20 x00) (replicate 32 x00) false [] [] []);
          if bool_decide (m_InfoHash m = replicate 20 x00) then Err (if HasV2 m then V2OnlyMagnet else MissingBTIH)
          else Ok (mkMagnet (m_InfoHash m) (m_InfoHashV2 m) (HasV2 m) (default [] (head (param "dn")))
                     (param "tr") (param "x.pe"))
  end.

(** ** The identity of a source ([engine/session.go], [InfoHashHex]) *)

Inductive source_error := CannotRead | CannotParse (e : parse_error).

Section Source.
Context (sha1 sha256 : bytes -> bytes).

(** [u] is [url.Parse(source)] and [file] the content of the file the source names. *)
Definition InfoHashHex (u : option URL) (file : option bytes) : result source_error bytes :=
  match magnet_Parse u with
  | Ok m => Ok (hex_EncodeToString (m_InfoHash m))
  | Err _ =>
      match file with
      | None => Err CannotRead
      | Some data => match Parse sha1 sha256 data with
                     | Ok tf => Ok (hex_EncodeToString (InfoHash tf))
                     | Err e => Err (CannotParse e)
                     end
      end
  end.
End Source.

(** ** Round trips *)

Lemma from_hex_digit d : 0 <= d < 16 -> from_hex (hex_digit d) = Some d.
Proof.
  intros Hd. assert (H : forallb (fun d => bool_decide (from_hex (hex_digit d) = Some d)) (seqZ 0 16) = true)
    by (by vm_compute).
  rewrite forallb_forall in H. specialize (H d). rewrite bool_decide_eq_true in H. apply H.
  apply list_elem_of_In, elem_of_seqZ. lia.
Qed.

Lemma nibble_join (b : byte) : byte_of_Z (Z.lor (Z.shiftl (u8 b / 16) 4) (u8 b mod 16)) = b.
Proof. by destruct b; vm_compute. Qed.

Lemma hex_roundtrip s : hex_DecodeString (hex_EncodeToString s) = Some s.
Proof.
  induction s as [|b s IH]; [done|]. unfold hex_EncodeToString in *. cbn.
  pose proof (u8_range b).
  rewrite !from_hex_digit by (apply Z.mod_pos_bound || (split; [apply Z.div_pos|apply Z.div_lt_upper_bound]); lia).
  cbn. rewrite IH. cbn. by rewrite nibble_join.
Qed.

Lemma length_hex s : length (hex_EncodeToString s) = (2 * length s)%nat.
Proof. induction s as [|b s IH]; [done|]. unfold hex_EncodeToString in *. cbn in *. lia. Qed.

(** Base32 of five bytes, as RFC 4648 splits their bits. *)
Definition quintets (a b c d e : Z) : list Z :=
  [a / 8; (a mod 8) * 4 + b / 64; (b / 2) mod 32; (b mod 2) * 16 + c / 16;
   (c mod 16) * 2 + d / 128; (d / 4) mod 32; (d mod 4) * 8 + e / 32; e mod 32].
Definition letter32 (v : Z) : byte := nth (Z.to_nat v) base32_alphabet x00.
Fixpoint base32_encode (s : bytes) : bytes :=
  match s with
  | a :: b :: c :: d :: e :: s => (letter32 <$> quintets (u8 a) (u8 b) (u8 c) (u8 d) (u8 e)) ++ base32_encode s
  | _ => []
  end.

Lemma letter32_spec v : 0 <= v < 32 ->
  from_base32 (letter32 v) = Some v /\ letter32 v <> pad_char /\ letter32 v <> x0d /\ letter32 v <> x0a /\
  upper_byte (letter32 v) = letter32 v /\ letter32 v <> xc4 /\ letter32 v <> xc5.
Proof.
  intros Hv.
  assert (H : forallb (fun v => bool_decide (from_base32 (letter32 v) = Some v /\ letter32 v <> pad_char /\
    letter32 v <> x0d /\ letter32 v <> x0a /\ upper_byte (letter32 v) = letter32 v /\ letter32 v <> xc4 /\
    letter32 v <> xc5)) (seqZ 0 32) = true) by (by vm_compute).
  rewrite forallb_forall in H. specialize (H v). rewrite bool_decide_eq_true in H. apply H.
  apply list_elem_of_In, elem_of_seqZ. lia.
Qed.

Lemma quantum_letters vs : Forall (fun v => 0 <= v < 32) vs -> forall j rest,
  quantum (length vs) j ((letter32 <$> vs) ++ rest) = Some (vs, rest, false).
Proof.
  induction 1 as [|v vs Hv Hvs IH]; intros j rest; [done|].
  rewrite fmap_cons. cbn [length app quantum].
  destruct (letter32_spec v Hv) as (E & Hp & _). rewrite bool_decide_eq_false_2 by done. cbn [andb].
  rewrite E, IH. done.
Qed.

Lemma quintets_range (a b c d e : byte) :
  Forall (fun v => 0 <= v < 32) (quintets (u8 a) (u8 b) (u8 c) (u8 d) (u8 e)).
Proof.
  pose proof (u8_range a). pose proof (u8_range b). pose proof (u8_range c). pose proof (u8_range d).
  pose proof (u8_range e). unfold quintets.
  repeat (apply Forall_cons; split; [Z.to_euclidean_division_equations; lia|]). by apply Forall_nil.
Qed.

(** The bit operations of [pack] on 5-bit values, as arithmetic. *)
Lemma lor_32 (f g : Z -> Z -> Z) :
  forallb (fun x => forallb (fun y => f x y mod 256 =? g x y mod 256) (seqZ 0 32)) (seqZ 0 32) = true ->
  forall x y, 0 <= x < 32 -> 0 <= y < 32 -> byte_of_Z (f x y) = byte_of_Z (g x y).
Proof.
  intros H x y Hx Hy. rewrite forallb_forall in H.
  specialize (H x ltac:(apply list_elem_of_In, elem_of_seqZ; lia)). rewrite forallb_forall in H.
  specialize (H y ltac:(apply list_elem_of_In, elem_of_seqZ; lia)). apply Z.eqb_eq in H.
  apply u8_inj. by rewrite !u8_byte_of_Z.
Qed.

Lemma lor_32_3 (f g : Z -> Z -> Z -> Z) :
  forallb (fun x => forallb (fun y => forallb (fun z => f x y z mod 256 =? g x y z mod 256)
    (seqZ 0 32)) (seqZ 0 32)) (seqZ 0 32) = true ->
  forall x y z, 0 <= x < 32 -> 0 <= y < 32 -> 0 <= z < 32 -> byte_of_Z (f x y z) = byte_of_Z (g x y z).
Proof.
  intros H x y z Hx Hy Hz. rewrite forallb_forall in H.
  specialize (H x ltac:(apply list_elem_of_In, elem_of_seqZ; lia)). by apply (lor_32 (f x) (g x)).
Qed.

Definition pack_sum (d : list Z) : bytes :=
  let v i := nth i d 0 in
  [byte_of_Z (v 0%nat * 8 + v 1%nat / 4); byte_of_Z (v 1%nat * 64 + v 2%nat * 2 + v 3%nat / 16);
   byte_of_Z (v 3%nat * 16 + v 4%nat / 2); byte_of_Z (v 4%nat * 128 + v 5%nat * 4 + v 6%nat / 8);
   byte_of_Z (v 6%nat * 32 + v 7%nat)].

Lemma list5_eq {A} (a b c d e a' b' c' d' e' : A) :
  a = a' -> b = b' -> c = c' -> d = d' -> e = e' -> [a; b; c; d; e] = [a'; b'; c'; d'; e'].
Proof. congruence. Qed.

Lemma pack_8 d : length d = 8%nat -> Forall (fun v => 0 <= v < 32) d -> pack d = pack_sum d.
Proof.
  intros Hl Hd. do 8 (destruct d as [|? d]; [done|]). destruct d; [|done].
  repeat match goal with H : Forall _ (_ :: _) |- _ => apply Forall_cons in H as [? ?] end.
  unfold pack, pack_sum. cbn [length take nth]. apply list5_eq.
  - apply (lor_32 (fun x y => Z.lor (Z.shiftl x 3) (Z.shiftr y 2)) (fun x y => x * 8 + y / 4)); [by vm_compute|done..].
  - apply (lor_32_3 (fun x y z => Z.lor (Z.lor (Z.shiftl x 6) (Z.shiftl y 1)) (Z.shiftr z 4))
      (fun x y z => x * 64 + y * 2 + z / 16)); [by vm_compute|done..].
  - apply (lor_32 (fun x y => Z.lor (Z.shiftl x 4) (Z.shiftr y 1)) (fun x y => x * 16 + y / 2)); [by vm_compute|done..].
  - apply (lor_32_3 (fun x y z => Z.lor (Z.lor (Z.shiftl x 7) (Z.shiftl y 2)) (Z.shiftr z 3))
      (fun x y z => x * 128 + y * 4 + z / 8)); [by vm_compute|done..].
  - apply (lor_32 (fun x y => Z.lor (Z.shiftl x 5) y) (fun x y => x * 32 + y)); [by vm_compute|done..].
Qed.

Lemma pack_quintets (a b c d e : byte) :
  pack (quintets (u8 a) (u8 b) (u8 c) (u8 d) (u8 e)) = [a; b; c; d; e].
Proof.
  rewrite pack_8 by (done || apply quintets_range). unfold pack_sum, quintets. cbn [nth].
  pose proof (u8_range a). pose proof (u8_range b). pose proof (u8_range c). pose proof (u8_range d).
  pose proof (u8_range e).
  apply list5_eq; apply u8_inj; rewrite u8_byte_of_Z; Z.to_euclidean_division_equations; lia.
Qed.

Lemma base32_encode_cons a b c d e s : base32_encode (a :: b :: c :: d :: e :: s) =
  (letter32 <$> quintets (u8 a) (u8 b) (u8 c) (u8 d) (u8 e)) ++ base32_encode s.
Proof. done. Qed.

Lemma quantum_quintets a b c d e rest :
  quantum 8 0 ((letter32 <$> quintets (u8 a) (u8 b) (u8 c) (u8 d) (u8 e)) ++ rest) =
  Some (quintets (u8 a) (u8 b) (u8 c) (u8 d) (u8 e), rest, false).
Proof. exact (quantum_letters _ (quintets_range a b c d e) 0 rest). Qed.

Lemma base32_decode_encode n : forall s fuel,
  length s = (5 * n)%nat -> (n <= fuel)%nat -> base32_decode fuel (base32_encode s) = Some s.
Proof.
  induction n as [|n IH]; intros s fuel Hl Hf.
  - destruct s; [|done]. by destruct fuel.
  - destruct s as [|a [|b [|c [|d [|e s]]]]]; cbn in Hl; try lia. destruct fuel as [|fuel]; [lia|].
    rewrite base32_encode_cons. cbn [base32_decode]. rewrite quantum_quintets.
    destruct (_ ++ _) eqn:E; [done|]. clear E. cbn [mbind option_bind].
    rewrite IH by lia. cbn [mbind option_bind]. by rewrite pack_quintets.
Qed.

(** The letters of an encoding are neither newlines nor changed by [ToUpper]. *)
Lemma base32_encode_letters n : forall s, length s = (5 * n)%nat ->
  exists vs, base32_encode s = letter32 <$> vs /\ Forall (fun v => 0 <= v < 32) vs /\ length vs = (8 * n)%nat.
Proof.
  induction n as [|n IH]; intros s Hl.
  - exists []. by destruct s.
  - destruct s as [|a [|b [|c [|d [|e s]]]]]; cbn in Hl; try lia.
    destruct (IH s ltac:(lia)) as (vs & E & Hr & Hn).
    exists (quintets (u8 a) (u8 b) (u8 c) (u8 d) (u8 e) ++ vs). rewrite base32_encode_cons, E, fmap_app.
    split_and!; [done| |cbn; lia]. apply Forall_app. split; [apply quintets_range|done].
Qed.

Lemma ToUpper_cons b s : b <> xc4 -> b <> xc5 -> ToUpper (b :: s) = upper_byte b :: ToUpper s.
Proof. intros H1 H2. by destruct b. Qed.

Lemma letters_ToUpper vs : Forall (fun v => 0 <= v < 32) vs -> ToUpper (letter32 <$> vs) = letter32 <$> vs.
Proof.
  induction 1 as [|v vs Hv Hvs IH]; [done|]. destruct (letter32_spec v Hv) as (_ & _ & _ & _ & Hu & H4 & H5).
  rewrite fmap_cons, ToUpper_cons, Hu by done. by rewrite IH.
Qed.

Lemma letters_filter vs : Forall (fun v => 0 <= v < 32) vs ->
  filter (fun c : byte => c <> x0d /\ c <> x0a) (letter32 <$> vs) = letter32 <$> vs.
Proof.
  induction 1 as [|v vs Hv Hvs IH]; [done|]. destruct (letter32_spec v Hv) as (_ & _ & Hd & Ha & _).
  rewrite fmap_cons, filter_cons_True by done. by rewrite IH.
Qed.

Lemma base32_roundtrip s : length s = 20%nat ->
  len (base32_encode s) = 32 /\ base32_DecodeString (ToUpper (base32_encode s)) = Some s.
Proof.
  intros Hl. destruct (base32_encode_letters 4 s Hl) as (vs & E & Hr & Hn).
  split; [rewrite E, length_fmap, Hn; done|].
  rewrite E, letters_ToUpper by done. unfold base32_DecodeString. rewrite letters_filter by done.
  rewrite <- E at 2. apply (base32_decode_encode 4); [done|]. rewrite length_fmap. lia.
Qed.

Lemma to_array_id n s : length s = n -> to_array n s = s.
Proof. intros <-. unfold to_array. rewrite take_ge, Nat.sub_diag by lia. apply app_nil_r. Qed.

(** ** Properties *)

(** A magnet link names its torrent: whichever of the two encodings of the
    20-byte info hash its only [xt] uses, hexadecimal or base32, parsing the link
    gives back that info hash with the display name, trackers and peers of the
    query, and the torrent's id is the hash in hexadecimal. *)
Lemma Magnet_roundtrip (sha1 sha256 : bytes -> bytes) (q : gmap bytes (list bytes)) (h enc : bytes)
    (file : option bytes) :
  length h = 20%nat -> h <> replicate 20 x00 ->
  enc = hex_EncodeToString h \/ enc = base32_encode h ->
  q !! lit "xt" = Some [lit "urn:btih:" ++ enc] ->
  magnet_Parse (Some (mkURL (lit "magnet") q)) =
    Ok (mkMagnet h (replicate 32 x00) false (default [] (head (default [] (q !! lit "dn"))))
          (default [] (q !! lit "tr")) (default [] (q !! lit "x.pe"))) /\
  InfoHashHex sha1 sha256 (Some (mkURL (lit "magnet") q)) file = Ok (hex_EncodeToString h).
Proof.
  intros Hl Hz Henc Hq.
  assert (Hv1 : parseInfoHashV1 (lit "urn:btih:" ++ enc) = Ok h).
  { unfold parseInfoHashV1. change (drop 9 (lit "urn:btih:" ++ enc)) with enc.
    destruct Henc as [->| ->].
    - rewrite length_hex, Hl. cbn [Z.of_nat Z.eqb Pos.eqb Nat.mul]. cbn.
      rewrite hex_roundtrip. by rewrite to_array_id.
    - destruct (base32_roundtrip h Hl) as [-> ->]. cbn. by rewrite to_array_id. }
  assert (Hp : magnet_Parse (Some (mkURL (lit "magnet") q)) =
    Ok (mkMagnet h (replicate 32 x00) false (default [] (head (default [] (q !! lit "dn"))))
          (default [] (q !! lit "tr")) (default [] (q !! lit "x.pe")))).
  { unfold magnet_Parse. cbn [Scheme Query]. rewrite bool_decide_eq_true_2 by done. cbn [negb].
    rewrite Hq. cbn [from_option id length Z.of_nat Z.eqb parse_xts].
    assert (Hpre : has_prefix (lit "urn:btih:") (lit "urn:btih:" ++ enc) = true)
      by (apply bool_decide_eq_true; reflexivity).
    rewrite Hpre, Hv1. cbn [mbind result_bind m_InfoHash]. by rewrite bool_decide_eq_false_2. }
  split; [exact Hp|]. unfold InfoHashHex. by rewrite Hp.
Qed.

Lemma Magnet_roundtrip_witness :
  InfoHashHex id id (Some (mkURL (lit "magnet")
    {[ lit "xt" := [lit "urn:btih:" ++ base32_encode (replicate 20 x41)] ]})) None =
  Ok (hex_EncodeToString (replicate 20 x41)).
Proof.
  refine (proj2 (Magnet_roundtrip id id {[ lit "xt" := [lit "urn:btih:" ++ base32_encode (replicate 20 x41)] ]}
    (replicate 20 x41) (base32_encode (replicate 20 x41)) None _ _ _ _)).
  - reflexivity.
  - discriminate.
  - by right.
  - apply lookup_singleton_eq.
Defined.

(** A padded base32 value of 32 characters holds only 16 bytes: it is accepted, the
    rest of the info hash zero. *)
Example padded_base32_accepted :
  parseInfoHashV1 (lit "urn:btih:" ++ lit "MFRGGZDFMZTWQ2LKNNWG23TPOA======") =
    Ok (lit "abcdefghijklmnop" ++ replicate 4 x00).
Proof. vm_compute. reflexivity. Qed.
