(* ===== verification/Queue.v ===== *)
(** * [engine]: the torrents of the engine and their queue ([engine/engine.go],
    [engine/store.go], [Start] and [Pause] of [engine/session.go])

    The engine is the map of sessions, the record store with what was last
    written to disk, and the limit of active downloads.  A session holds its
    record, the cancel function of the goroutine it considers running and the
    goroutines really alive.  Operations of the engine, changes of state made by
    a session's goroutine and its exit are one step each: all of them run under
    the engine's lock or touch one record under its lock.  Go's iteration order
    over the session map is the argument [rng]; the times, the file named by a
    source and the parsed link are arguments of [AddTorrent].  Published events,
    the removal of files and the live piece queue are left out. *)

From S2P Require Import Prelude Strconv Quote Torrent Engine Magnet.
Set Warnings "-clear-no-such-hyp".
Local Open Scope Z_scope.

(** ** Data *)

Record TorrentRecord := mkRecord {
  ID : bytes; Name_ : bytes; Source : bytes; SavePath : bytes; TotalBytes : Z;
  State_ : State; QueuePosition : Z; AddedAt : Z; CompletedAt : Z; TorrentData : bytes;
  Bitfield_ : bytes; FilePriorities : list Z; Error_ : bytes; KnownPeers : Z
}.

Definition with_state (st : State) (r : TorrentRecord) : TorrentRecord :=
  mkRecord (ID r) (Name_ r) (Source r) (SavePath r) (TotalBytes r) st (QueuePosition r) (AddedAt r)
    (CompletedAt r) (TorrentData r) (Bitfield_ r) (FilePriorities r) (Error_ r) (KnownPeers r).
Definition with_position (p : Z) (r : TorrentRecord) : TorrentRecord :=
  mkRecord (ID r) (Name_ r) (Source r) (SavePath r) (TotalBytes r) (State_ r) p (AddedAt r)
    (CompletedAt r) (TorrentData r) (Bitfield_ r) (FilePriorities r) (Error_ r) (KnownPeers r).
Definition with_error (e : bytes) (r : TorrentRecord) : TorrentRecord :=
  mkRecord (ID r) (Name_ r) (Source r) (SavePath r) (TotalBytes r) (State_ r) (QueuePosition r) (AddedAt r)
    (CompletedAt r) (TorrentData r) (Bitfield_ r) (FilePriorities r) e (KnownPeers r).
Definition with_priorities (ps : list Z) (r : TorrentRecord) : TorrentRecord :=
  mkRecord (ID r) (Name_ r) (Source r) (SavePath r) (TotalBytes r) (State_ r) (QueuePosition r) (AddedAt r)
    (CompletedAt r) (TorrentData r) (Bitfield_ r) ps (Error_ r) (KnownPeers r).

(** [cancel] names the goroutine whose context it cancels; [procs] are the goroutines
    alive, with whether their context was cancelled. *)
Record Session := mkSession {
  record : TorrentRecord; tf : option TorrentFile; cancel : option nat; procs : gmap nat bool
}.

Definition on_record (f : TorrentRecord -> TorrentRecord) (s : Session) : Session :=
  mkSession (f (record s)) (tf s) (cancel s) (procs s).
Definition position (s : Session) : Z := QueuePosition (record s).
Definition state (s : Session) : State := State_ (record s).

Definition isRunning (s : Session) : bool := bool_decide (is_Some (cancel s)).

(** [setState] on the record. *)
Definition session_setState (st : State) (s : Session) : Session :=
  on_record (with_state (setState st (state s)).1) s.

Record engine := mkEngine {
  sessions : gmap bytes Session;
  store : gmap bytes TorrentRecord;   (** [Store.records] *)
  disk : gmap bytes TorrentRecord;    (** what [Store.Save] wrote last, as it is read back *)
  MaxActive : Z;
  next_proc : nat
}.

Definition with_sessions (m : gmap bytes Session) (e : engine) : engine :=
  mkEngine m (store e) (disk e) (MaxActive e) (next_proc e).
Definition on_session (id : bytes) (f : Session -> Session) (e : engine) : engine :=
  with_sessions (alter f id (sessions e)) e.

Inductive engine_error :=
  | SourceError (e : source_error) | SessionLimit | NotFound (id : bytes)
  | CannotResume (id : bytes) (st : State)
  | InvalidPriority (p : Z) | InvalidFileIndex (i : Z) | MetadataUnresolved (id : bytes)
  | FileIndexRange (i n : Z).

(** ** The store *)

Definition Put (r : TorrentRecord) (m : gmap bytes TorrentRecord) : gmap bytes TorrentRecord :=
  <[ID r := r]> m.
Definition Get (id : bytes) (m : gmap bytes TorrentRecord) : option TorrentRecord := m !! id.
Definition Delete (id : bytes) (m : gmap bytes TorrentRecord) : gmap bytes TorrentRecord := delete id m.

(** A record written as JSON and read back: the bytes are base64, numbers and states are exact, strings lose
    what is not UTF-8. *)
Definition json_record (r : TorrentRecord) : TorrentRecord :=
  mkRecord (json_string (ID r)) (json_string (Name_ r)) (json_string (Source r)) (json_string (SavePath r)) (TotalBytes r) (State_ r)
    (QueuePosition r) (AddedAt r) (CompletedAt r) (TorrentData r) (Bitfield_ r) (FilePriorities r) (json_string (Error_ r)) (KnownPeers r).

(** [Save], when the file could be written: the records as they will be read. *)
Definition Save (e : engine) : engine :=
  mkEngine (sessions e) (store e) (json_record <$> store e) (MaxActive e) (next_proc e).

(** [Load] of a decoded state file. *)
Definition Load (records : list TorrentRecord) : gmap bytes TorrentRecord :=
  foldl (fun m r => Put r m) ∅ records.

(** ** Sessions *)

Definition MaxSessions : Z := 10000.

(** [Session.Start]: a new goroutine; [cancel] now belongs to it. *)
Definition session_Start (t : nat) (s : Session) : Session :=
  mkSession (record s) (tf s) (Some t) (<[t := false]> (procs s)).

Definition startSession (id : bytes) (e : engine) : engine :=
  mkEngine (alter (session_Start (next_proc e)) id (sessions e)) (store e) (disk e) (MaxActive e)
    (S (next_proc e)).

Definition session_Pause (s : Session) : Session :=
  let s := match cancel s with
           | Some t => mkSession (record s) (tf s) None (alter (fun _ => true) t (procs s))
           | None => s
           end in
  match state s with
  | StateDownloading | StateMetadata | StateSeeding | StateVerifying | StateAdding =>
      session_setState StatePaused s
  | _ => s
  end.

(** The end of a session's goroutine: [err] is the error that is not a cancellation. *)
Definition session_exit (t : nat) (err : option bytes) (s : Session) : Session :=
  let s' := mkSession (match err with Some m => with_error m (record s) | None => record s end)
              (tf s) None (delete t (procs s)) in
  match err with
  | Some _ => if bool_decide (state s = StateError) then s' else session_setState StateError s'
  | None => s'
  end.

(** ** The queue *)

Section Queue.
(** Go's iteration order over the session map. *)
Context (rng : gmap bytes Session -> list bytes).

Definition isQueueActive (s : State) : bool :=
  match s with
  | StateAdding | StateDownloading | StateMetadata | StateVerifying => true
  | _ => false
  end.

Definition counts (s : Session) : bool :=
  match state s with
  | StateDownloading | StateMetadata | StateVerifying => true
  | StateAdding => isRunning s
  | _ => false
  end.

Definition activeCount (e : engine) : Z :=
  foldl (fun n id => match sessions e !! id with
                     | Some s => if counts s then n + 1 else n
                     | None => n
                     end) 0 (rng (sessions e)).

(** The inner loop of [sortByQueuePosition] on the sorted prefix, from its end. *)
Fixpoint insert_desc (x : bytes * Z) (prefix : list (bytes * Z)) : list (bytes * Z) :=
  match prefix with
  | y :: prefix => if x.2 <? y.2 then y :: insert_desc x prefix else x :: y :: prefix
  | [] => [x]
  end.

Definition sortByQueuePosition (l : list (bytes * Z)) : list (bytes * Z) :=
  rev (foldl (fun prefix x => insert_desc x prefix) [] l).

(** The sessions in iteration order, with their positions. *)
Definition positions (P : Session -> bool) (m : gmap bytes Session) : list (bytes * Z) :=
  omap (fun id => match m !! id with
                  | Some s => if P s then Some (id, position s) else None
                  | None => None
                  end) (rng m).

Definition maxQueuePosition (e : engine) : Z :=
  foldl (fun maxPos x => if maxPos <? x.2 then x.2 else maxPos) (-1)
    (positions (fun _ => true) (sessions e)).
Definition nextQueuePosition (e : engine) : Z := maxQueuePosition e + 1.

Fixpoint renumber (i : Z) (ids : list bytes) (m : gmap bytes Session) : gmap bytes Session :=
  match ids with
  | [] => m
  | id :: ids => renumber (i + 1) ids (alter (on_record (with_position i)) id m)
  end.

Definition compactQueueLocked (e : engine) : engine :=
  with_sessions (renumber 0 (sortByQueuePosition (positions (fun _ => true) (sessions e))).*1 (sessions e)) e.

Fixpoint start_loop (queued : list bytes) (active : Z) (e : engine) : engine :=
  match queued with
  | [] => e
  | id :: queued =>
      if MaxActive e <=? active then e
      else match sessions e !! id with
           | Some s => if isRunning s then start_loop queued active e
                       else start_loop queued (active + 1) (startSession id e)
           | None => start_loop queued active e
           end
  end.

Definition is_queued (s : Session) : bool := bool_decide (state s = StateAdding).

Definition startQueuedLocked (e : engine) : engine :=
  let active := activeCount e in
  if MaxActive e <=? active then e
  else start_loop (sortByQueuePosition (positions is_queued (sessions e))).*1 active e.

(** [saveStateLocked]. *)
Definition saveState (e : engine) : engine :=
  let st := foldl (fun m id => match sessions e !! id with Some s => Put (record s) m | None => m end)
              (store e) (rng (sessions e)) in
  Save (mkEngine (sessions e) st (disk e) (MaxActive e) (next_proc e)).

(** ** Operations *)

Abbreviation answer := (engine * result engine_error unit)%type.

Section Source.
Context (sha1 sha256 : bytes -> bytes).

(** [u] is the parsed link and [file] the content of the file named [source]. *)
Definition AddTorrent (source : bytes) (u : option URL) (file : option bytes) (now : Z) (e : engine) : answer :=
  match InfoHashHex sha1 sha256 u file with
  | Err err => (e, Err (SourceError err))
  | Ok id =>
      match sessions e !! id with
      | Some _ => (e, Ok tt)
      | None =>
          if MaxSessions <=? Z.of_nat (base.size (sessions e)) then (e, Err SessionLimit)
          else
            let parsed := match file with
                          | Some data => match Parse sha1 sha256 data with
                                         | Ok t => Some (data, t) | Err _ => None end
                          | None => None
                          end in
            let '(name, data, total) :=
              match parsed with
              | Some (data, t) => (Name (t_Info t), data, TotalSize t)
              | None => ([], [], 0)
              end in
            let name := match name with
                        | [] => match magnet_Parse u with Ok m => DisplayName m | Err _ => [] end
                        | _ => name
                        end in
            let r := mkRecord id name source [] total StateAdding (nextQueuePosition e) now 0 data [] [] [] 0 in
            let e := with_sessions (<[id := mkSession r None None ∅]> (sessions e)) e in
            (startQueuedLocked (saveState e), Ok tt)
      end
  end.

(** The metainfo [SetFilePriority] checks the file index against. *)
Definition metainfo (s : Session) : option TorrentFile :=
  match tf s with
  | Some t => Some t
  | None => if 0 <? len (TorrentData (record s))
            then match Parse sha1 sha256 (TorrentData (record s)) with Ok t => Some t | Err _ => None end
            else None
  end.

Definition SetFilePriority (id : bytes) (fileIndex priority : Z) (e : engine) : answer :=
  if negb (priority =? PriorityNormal) && negb (priority =? PrioritySkip)
  then (e, Err (InvalidPriority priority))
  else if fileIndex <? 0 then (e, Err (InvalidFileIndex fileIndex))
  else
    match sessions e !! id with
    | None => (e, Err (NotFound id))
    | Some s =>
        match metainfo s with
        | None => (e, Err (MetadataUnresolved id))
        | Some t =>
            let fileCount := if len (Files (t_Info t)) =? 0 then 1 else len (Files (t_Info t)) in
            if fileCount <=? fileIndex then (e, Err (FileIndexRange fileIndex fileCount))
            else
              let ps := FilePriorities (record s) in
              let ps := if len ps <? fileCount
                        then ps ++ replicate (Z.to_nat fileCount - length ps) 0 else ps in
              let ps := <[Z.to_nat fileIndex := priority]> ps in
              (saveState (on_session id (on_record (with_priorities ps)) e), Ok tt)
        end
    end.
End Source.

Definition RemoveTorrent (id : bytes) (e : engine) : answer :=
  match sessions e !! id with
  | None => (e, Err (NotFound id))
  | Some _ =>
      let e := on_session id session_Pause e in
      let e := mkEngine (delete id (sessions e)) (Delete id (store e)) (disk e) (MaxActive e) (next_proc e) in
      let e := compactQueueLocked e in
      (startQueuedLocked (Save e), Ok tt)
  end.

Definition PauseTorrent (id : bytes) (e : engine) : answer :=
  match sessions e !! id with
  | None => (e, Err (NotFound id))
  | Some _ => (startQueuedLocked (saveState (on_session id session_Pause e)), Ok tt)
  end.

Definition ResumeTorrent (id : bytes) (e : engine) : answer :=
  match sessions e !! id with
  | None => (e, Err (NotFound id))
  | Some s =>
      if negb (bool_decide (state s = StatePaused)) && negb (bool_decide (state s = StateError))
      then (e, Err (CannotResume id (state s)))
      else
        let e := on_session id (fun s => session_setState StateAdding (on_record (with_error []) s)) e in
        let e := if activeCount e <? MaxActive e then startSession id e else e in
        (saveState e, Ok tt)
  end.

(** [setQueuePosition] of every session: [id] gets [newPos], those between shift by one. *)
Definition shift_to (id : bytes) (oldPos newPos : Z) (k : bytes) (s : Session) : option Session :=
  let p := position s in
  Some (if bool_decide (k = id) then on_record (with_position newPos) s
        else if oldPos <? newPos then
          if (oldPos <? p) && (p <=? newPos) then on_record (with_position (p - 1)) s else s
        else
          if (newPos <=? p) && (p <? oldPos) then on_record (with_position (p + 1)) s else s).

Definition setQueuePosition (id : bytes) (newPos : Z) (e : engine) : answer :=
  match sessions e !! id with
  | None => (e, Err (NotFound id))
  | Some s =>
      if position s =? newPos then (e, Ok tt)
      else
        let e := with_sessions (map_imap (shift_to id (position s) newPos) (sessions e)) e in
        (startQueuedLocked (saveState e), Ok tt)
  end.

Definition QueueTop (id : bytes) (e : engine) : answer := setQueuePosition id 0 e.

(** The last session met whose position is [p]. *)
Definition at_position (p : Z) (e : engine) : option bytes :=
  foldl (fun acc x => if x.2 =? p then Some x.1 else acc) None (positions (fun _ => true) (sessions e)).

Definition swapQueuePositions (posA posB : Z) (e : engine) : engine :=
  let sa := at_position posA e in
  let sb := at_position posB e in
  let put o p e := match o with Some id => on_session id (on_record (with_position p)) e | None => e end in
  startQueuedLocked (saveState (put sb posA (put sa posB e))).

Definition QueueUp (id : bytes) (e : engine) : answer :=
  match sessions e !! id with
  | None => (e, Err (NotFound id))
  | Some s => if position s <=? 0 then (e, Ok tt)
              else (swapQueuePositions (position s) (position s - 1) e, Ok tt)
  end.

Definition QueueDown (id : bytes) (e : engine) : answer :=
  match sessions e !! id with
  | None => (e, Err (NotFound id))
  | Some s => if maxQueuePosition e <=? position s then (e, Ok tt)
              else (swapQueuePositions (position s) (position s + 1) e, Ok tt)
  end.

(** Neither saves nor starts queued torrents. *)
Definition QueueBottom (id : bytes) (e : engine) : answer :=
  match sessions e !! id with
  | None => (e, Err (NotFound id))
  | Some s =>
      let maxPos := maxQueuePosition e in
      if position s =? maxPos then (e, Ok tt)
      else
        (with_sessions (map_imap (fun k o =>
           Some (if bool_decide (k = id) then on_record (with_position maxPos) o
                 else if (position s <? position o) && (position o <=? maxPos)
                      then on_record (with_position (position o - 1)) o else o)) (sessions e)) e, Ok tt)
  end.

Definition SetMaxActive (n : Z) (e : engine) : engine :=
  startQueuedLocked (mkEngine (sessions e) (store e) (disk e) (if n <? 1 then 1 else n) (next_proc e)).

(** [runQueueOrchestrator] on a state-change event. *)
Definition orchestrate (from to : State) (e : engine) : engine :=
  if negb (isQueueActive from) || isQueueActive to then e
  else saveState (startQueuedLocked (compactQueueLocked e)).

(** A goroutine of session [id] sets its state. *)
Definition proc_setState (id : bytes) (t : nat) (st : State) (e : engine) : engine :=
  match sessions e !! id with
  | Some s => if bool_decide (is_Some (procs s !! t)) then on_session id (session_setState st) e else e
  | None => e
  end.

(** A goroutine of session [id] ends: [session_exit], then [onSessionDone]. *)
Definition proc_exit (id : bytes) (t : nat) (err : option bytes) (e : engine) : engine :=
  match sessions e !! id with
  | Some s => if bool_decide (is_Some (procs s !! t))
              then startQueuedLocked (saveState (on_session id (session_exit t err) e)) else e
  | None => e
  end.

(** ** Start *)

Definition resumable (s : State) : bool :=
  match s with
  | StateDownloading | StateMetadata | StateVerifying | StateAdding | StateSeeding => true
  | _ => false
  end.

(** The sessions part of [Engine.Start]; [records] is [store.All()] in iteration order. *)
Definition restore_one (r : TorrentRecord) (e : engine) : engine :=
  let e := with_sessions (<[ID r := mkSession r None None ∅]> (sessions e)) e in
  if resumable (State_ r) then
    if activeCount e <? MaxActive e then startSession (ID r) e else e
  else e.
Definition Start (records : list TorrentRecord) (e : engine) : engine :=
  foldl (fun e r => restore_one r e) e records.
End Queue.
