(* ===== verification/QueueTheorems.v ===== *)
(** * Properties of the engine's queue

    The queue positions are at all times the places of a list of torrents, each
    operation does to that list what it says, and queued torrents are started in
    its order up to the limit. *)

From stdpp Require Import sorting.
From S2P Require Import Prelude Strconv Torrent Engine Magnet Queue.
Set Warnings "-clear-no-such-hyp".
Local Open Scope Z_scope.

(** An iteration over a Go map visits every key once. *)
Definition valid_rng (rng : gmap bytes Session -> list bytes) : Prop :=
  forall m, rng m ≡ₚ (map_to_list m).*1.

Lemma rng_elem rng m id : valid_rng rng -> id ∈ rng m <-> is_Some (m !! id).
Proof.
  intros H. rewrite (H m), list_elem_of_fmap. split.
  - intros ([k s] & -> & Hs%elem_of_map_to_list). by exists s.
  - intros [s Hs]. exists (id, s). split; [done|by apply elem_of_map_to_list].
Qed.

Lemma rng_NoDup rng m : valid_rng rng -> NoDup (rng m).
Proof. intros H. rewrite (H m). apply NoDup_fst_map_to_list. Qed.

(** ** Sorting *)

Definition le_pos (x y : bytes * Z) : Prop := x.2 <= y.2.
Definition ge_pos (x y : bytes * Z) : Prop := y.2 <= x.2.

Lemma insert_desc_perm x l : insert_desc x l ≡ₚ x :: l.
Proof.
  induction l as [|y l IH]; [done|]. cbn. destruct (_ <? _); [|done]. rewrite IH. constructor.
Qed.

Lemma insert_desc_sorted x l : StronglySorted ge_pos l -> StronglySorted ge_pos (insert_desc x l).
Proof.
  induction 1 as [|y l Hl IH Hy]; cbn; [repeat constructor|].
  destruct (Z.ltb_spec x.2 y.2).
  - constructor; [done|]. rewrite insert_desc_perm. constructor; [|done]. unfold ge_pos. lia.
  - constructor; [by constructor|]. constructor; [done|]. eapply Forall_impl; [exact Hy|].
    unfold ge_pos. lia.
Qed.

Lemma sort_perm l : sortByQueuePosition l ≡ₚ l.
Proof.
  unfold sortByQueuePosition. rewrite <- Permutation_rev.
  enough (H : forall acc, foldl (fun p x => insert_desc x p) acc l ≡ₚ l ++ acc) by (by rewrite H, app_nil_r).
  induction l as [|x l IH]; intros acc; cbn; [done|].
  rewrite IH, insert_desc_perm. by rewrite Permutation_middle.
Qed.

Lemma rev_sorted l : StronglySorted ge_pos l -> StronglySorted le_pos (rev l).
Proof.
  induction 1 as [|y l Hl IH Hy]; cbn; [constructor|].
  apply StronglySorted_app. split_and!; [|done|repeat constructor].
  intros a b Ha Hb. apply list_elem_of_singleton in Hb as ->. rewrite list_elem_of_In, <- in_rev in Ha.
  rewrite Forall_forall in Hy. by apply (Hy a), list_elem_of_In.
Qed.

Lemma sort_sorted l : StronglySorted le_pos (sortByQueuePosition l).
Proof.
  apply rev_sorted.
  enough (H : forall acc, StronglySorted ge_pos acc ->
    StronglySorted ge_pos (foldl (fun p x => insert_desc x p) acc l)) by (apply H; constructor).
  induction l as [|x l IH]; intros acc Hacc; cbn; [done|]. apply IH. by apply insert_desc_sorted.
Qed.

(** ** The queue as a list *)

Definition pos_of (m : gmap bytes Session) (id : bytes) : option Z := position <$> m !! id.

(** The positions are the places in [l]. *)
Record queue_is (m : gmap bytes Session) (l : list bytes) : Prop := {
  queue_at : forall (i : nat) id, l !! i = Some id <-> pos_of m id = Some (Z.of_nat i);
  queue_nonneg : forall id p, pos_of m id = Some p -> 0 <= p
}.

Section QueueIs.
Context (rng : gmap bytes Session -> list bytes) (Hrng : valid_rng rng).

Lemma positions_elem P m id p :
  (id, p) ∈ positions rng P m <-> exists s, m !! id = Some s /\ P s = true /\ p = position s.
Proof.
  unfold positions. rewrite list_elem_of_omap. split.
  - intros (k & Hk & E). destruct (m !! k) as [s|] eqn:Es; [|done]. destruct (P s) eqn:EP; [|done].
    injection E as -> <-. by exists s.
  - intros (s & Es & EP & ->). exists id. split; [by apply rng_elem; [|exists s]|]. by rewrite Es, EP.
Qed.

Definition entry (P : Session -> bool) (m : gmap bytes Session) (id : bytes) : option (bytes * Z) :=
  match m !! id with
  | Some s => if P s then Some (id, position s) else None
  | None => None
  end.

Definition holds (P : Session -> bool) (m : gmap bytes Session) (id : bytes) : Prop :=
  (P <$> m !! id) = Some true.
#[export] Instance holds_dec P m id : Decision (holds P m id).
Proof. unfold holds. apply _. Defined.

Lemma entries_fst P m l : (omap (entry P m) l).*1 = filter (holds P m) l.
Proof.
  induction l as [|x l IH]; [done|]. rewrite filter_cons. cbn. unfold entry at 1.
  destruct (decide (holds P m x)) as [Hx|Hx]; unfold holds in Hx; destruct (m !! x) as [s|]; cbn in *.
  - injection Hx as ->. cbn. by rewrite <- IH.
  - done.
  - destruct (P s); [done|]. apply IH.
  - apply IH.
Qed.

Lemma queue_pos m l i id : queue_is m l -> l !! i = Some id ->
  exists s, m !! id = Some s /\ position s = Z.of_nat i.
Proof.
  intros H Hi. apply (queue_at _ _ H) in Hi. unfold pos_of in Hi. destruct (m !! id) as [s|]; [|done].
  cbn in Hi. exists s. split; [done|congruence].
Qed.

Lemma queue_NoDup m l : queue_is m l -> NoDup l.
Proof.
  intros H. apply NoDup_alt. intros i j id Hi Hj. apply (queue_at _ _ H) in Hi, Hj.
  rewrite Hi in Hj. injection Hj. lia.
Qed.

Lemma queue_index m l id s : queue_is m l -> m !! id = Some s ->
  l !! Z.to_nat (position s) = Some id /\ 0 <= position s < len l.
Proof.
  intros H Hs. assert (Hp : pos_of m id = Some (position s)) by (unfold pos_of; by rewrite Hs).
  pose proof (queue_nonneg _ _ H _ _ Hp) as H0.
  assert (Hl : l !! Z.to_nat (position s) = Some id).
  { apply (queue_at _ _ H). rewrite Hp. f_equal. lia. }
  split; [done|]. apply lookup_lt_Some in Hl. lia.
Qed.

Lemma queue_elem m l id : queue_is m l -> id ∈ l <-> is_Some (m !! id).
Proof.
  intros H. rewrite list_elem_of_lookup. split.
  - intros [i Hi]. destruct (queue_pos _ _ _ _ H Hi) as (s & -> & _). by eexists.
  - intros [s Hs]. eexists. by apply (queue_index m l id s).
Qed.

(** [l] lists the torrents by strictly increasing position, dense or not. *)
Definition lt_in (m : gmap bytes Session) (a b : bytes) : Prop :=
  exists p q, pos_of m a = Some p /\ pos_of m b = Some q /\ p < q.
Record ordered (m : gmap bytes Session) (l : list bytes) : Prop := {
  ord_sorted : StronglySorted (lt_in m) l;
  ord_dom : forall id, id ∈ l <-> is_Some (m !! id)
}.

Lemma sorted_index {A} (R : A -> A -> Prop) l :
  (forall i j a b, (i < j)%nat -> l !! i = Some a -> l !! j = Some b -> R a b) -> StronglySorted R l.
Proof.
  induction l as [|x l IH]; intros H; constructor.
  - apply IH. intros i j a b Hij Ha Hb. apply (H (S i) (S j)); [lia|done|done].
  - apply Forall_lookup. intros i y Hy. apply (H 0%nat (S i)); [lia|done|done].
Qed.

Lemma queue_ordered m l : queue_is m l -> ordered m l.
Proof.
  intros H. split; [|intros id; by apply queue_elem]. apply sorted_index.
  intros i j a b Hij Ha Hb. apply (queue_at _ _ H) in Ha, Hb.
  exists (Z.of_nat i), (Z.of_nat j). split_and!; [done|done|lia].
Qed.

Lemma sorted_NoDup m l : StronglySorted (lt_in m) l -> NoDup l.
Proof.
  induction 1 as [|x l Hl IH Hx]; constructor; [|done]. intros Hin. rewrite Forall_forall in Hx.
  destruct (Hx x Hin) as (p & q & E1 & E2 & Hlt). rewrite E1 in E2. injection E2. lia.
Qed.

Lemma ordered_perm m l : ordered m l -> rng m ≡ₚ l.
Proof.
  intros [Hs Hd]. apply NoDup_Permutation; [by apply rng_NoDup|by eapply sorted_NoDup|].
  intros id. rewrite Hd. by apply rng_elem.
Qed.

Lemma entries_sorted P m l : StronglySorted (lt_in m) l -> StronglySorted le_pos (omap (entry P m) l).
Proof.
  induction 1 as [|x l Hl IH Hx]; cbn; [constructor|]. destruct (entry P m x) as [[id p]|] eqn:E; [|done].
  constructor; [done|]. apply Forall_forall. intros [id' p'] Hin.
  apply list_elem_of_omap in Hin as (k & Hk & Ek). rewrite Forall_forall in Hx.
  destruct (Hx k Hk) as (a & b & Ha & Hb & Hab). unfold entry, pos_of in *.
  destruct (m !! x) as [sx|]; [|done]. destruct (m !! k) as [sk|]; [|done].
  destruct (P sx), (P sk); simplify_eq/=. unfold le_pos. cbn. lia.
Qed.

(** Sorting by position gives that order. *)
Lemma sort_ordered P m l : ordered m l ->
  (sortByQueuePosition (positions rng P m)).*1 = filter (holds P m) l.
Proof.
  intros H. rewrite <- entries_fst. f_equal.
  apply (StronglySorted_unique_strong le_pos).
  - intros [i1 p1] [i2 p2] H1 H2 Hle Hge. unfold le_pos in *. cbn in *.
    rewrite sort_perm in H1. apply positions_elem in H1 as (s1 & E1 & _ & ->).
    apply list_elem_of_omap in H2 as (k & Hk & E). unfold entry in E.
    destruct (m !! k) as [s2|] eqn:E2; [|done]. destruct (P s2); [|done]. injection E as -> <-.
    assert (Hne : forall a b, a ∈ l -> b ∈ l -> pos_of m a = pos_of m b -> a = b).
    { clear -H. intros a b Ha Hb E. destruct H as [Hs _]. revert Ha Hb.
      induction Hs as [|x l Hl IH Hx]; [by intros ?%not_elem_of_nil|]. rewrite Forall_forall in Hx.
      rewrite !elem_of_cons. intros [->|Ha] [->|Hb]; [done| | |by apply IH].
      - destruct (Hx b Hb) as (p & q & E1 & E2 & Hlt). rewrite E1, E2 in E. injection E. lia.
      - destruct (Hx a Ha) as (p & q & E1 & E2 & Hlt). rewrite E1, E2 in E. injection E. lia. }
    assert (i1 = i2) as ->.
    { apply Hne; [apply (ord_dom _ _ H); by eexists..|]. unfold pos_of. rewrite E1, E2. cbn. f_equal. lia. }
    congruence.
  - apply sort_sorted.
  - apply entries_sorted, H.
  - rewrite sort_perm. unfold positions. by rewrite (ordered_perm _ _ H).
Qed.

(** The largest position is the last place. *)
Lemma max_queue e l : queue_is (sessions e) l -> maxQueuePosition rng e = len l - 1.
Proof.
  intros H. unfold maxQueuePosition.
  assert (Hm : forall xs acc, let r := foldl (fun maxPos x => if maxPos <? x.2 then x.2 else maxPos) acc xs in
    (r = acc \/ exists x : bytes * Z, x ∈ xs /\ r = x.2) /\ acc <= r /\ Forall (fun x => x.2 <= r) xs).
  { induction xs as [|x xs IH]; intros acc; cbn; [split_and!; [by left|lia|constructor]|].
    destruct (IH (if acc <? x.2 then x.2 else acc)) as (Hr & Hle & Hf).
    destruct (Z.ltb_spec acc x.2); split_and!; try lia.
    - right. destruct Hr as [->|(y & Hy & ->)]; [exists x; split; [left|done]|exists y; split; [by right|done]].
    - constructor; [lia|done].
    - destruct Hr as [->|(y & Hy & ->)]; [by left|right; exists y; split; [by right|done]].
    - constructor; [lia|done]. }
  specialize (Hm (positions rng (fun _ => true) (sessions e)) (-1)). cbn zeta in Hm.
  set (r := foldl _ _ _) in *. destruct Hm as (Hr & Hle & Hf). rewrite Forall_forall in Hf.
  assert (Hup : r <= len l - 1).
  { destruct Hr as [->|([id p] & Hx & ->)]; [lia|]. cbn.
    apply positions_elem in Hx as (s & Hs & _ & ->). pose proof (queue_index _ _ _ _ H Hs). lia. }
  destruct (decide (l = [])) as [->|Hne]; [cbn in *; lia|].
  assert (0 < len l) by (destruct l; [done|cbn; lia]).
  destruct (lookup_lt_is_Some_2 l (length l - 1)) as [id Hid]; [lia|].
  destruct (queue_pos _ _ _ _ H Hid) as (s & Hs & Hp).
  pose proof (Hf (id, position s) ltac:(apply positions_elem; by exists s)) as Hge. cbn in Hge. lia.
Qed.

Lemma at_position_queue e l p : queue_is (sessions e) l -> 0 <= p ->
  at_position rng p e = l !! Z.to_nat p.
Proof.
  intros H Hp. unfold at_position.
  assert (Hm : forall xs acc, Forall (fun x : bytes * Z => x.2 = p -> l !! Z.to_nat p = Some x.1) xs ->
    let r := foldl (fun acc x => if x.2 =? p then Some x.1 else acc) acc xs in
    (acc = l !! Z.to_nat p \/ Exists (fun x => x.2 = p) xs -> r = l !! Z.to_nat p) /\
    (acc = None -> r = None \/ r = l !! Z.to_nat p)).
  { induction xs as [|x xs IH]; intros acc Hx; cbn.
    - split; [|by left]. intros [H'|H']; [done|by apply Exists_nil in H'].
    - apply Forall_cons in Hx as [Hx Hxs]. destruct (IH (if x.2 =? p then Some x.1 else acc) Hxs) as [I1 I2].
      cbn zeta in *. destruct (Z.eqb_spec x.2 p) as [E|E].
      + rewrite I1 by (left; by rewrite Hx). split; [done|by right].
      + split; [|exact I2]. intros [Ha|He]; apply I1; [by left|right].
        apply Exists_cons in He as [|]; [congruence|done]. }
  assert (Hall : Forall (fun x : bytes * Z => x.2 = p -> l !! Z.to_nat p = Some x.1)
    (positions rng (fun _ => true) (sessions e))).
  { apply Forall_forall. intros [id q] Hx Hq. cbn in *. subst q.
    apply positions_elem in Hx as (s & Hs & _ & ->). by apply (queue_index _ _ _ _ H). }
  destruct (Hm _ None Hall) as [I1 I2]. cbn zeta in *. destruct (l !! Z.to_nat p) as [id|] eqn:El.
  - apply I1. right. apply Exists_exists. destruct (queue_pos _ _ _ _ H El) as (s & Hs & Hps).
    exists (id, position s). split; [apply positions_elem; by exists s|cbn; lia].
  - by destruct (I2 eq_refl).
Qed.

(** ** Operations that keep the positions *)

(** Same torrents, same ids and positions. *)
Definition frame (m m' : gmap bytes Session) : Prop :=
  forall id, (fun s => (ID (record s), position s)) <$> m' !! id = (fun s => (ID (record s), position s)) <$> m !! id.

#[export] Instance frame_refl : Reflexive frame.
Proof. by intros m id. Qed.
#[export] Instance frame_trans : Transitive frame.
Proof. intros m1 m2 m3 H1 H2 id. by rewrite H2, H1. Qed.

Lemma frame_pos m m' id : frame m m' -> pos_of m' id = pos_of m id.
Proof.
  intros H. specialize (H id). unfold pos_of.
  destruct (m !! id), (m' !! id); cbn in *; try done. by injection H as _ ->.
Qed.

Lemma frame_queue m m' l : frame m m' -> queue_is m l -> queue_is m' l.
Proof.
  intros Hf [Ha Hn]. split; intros; [rewrite Ha|eapply Hn]; rewrite <- (frame_pos _ _ _ Hf); done.
Qed.

Lemma frame_alter m f id :
  (forall s, ID (record (f s)) = ID (record s) /\ position (f s) = position s) -> frame m (alter f id m).
Proof.
  intros Hf k. destruct (decide (k = id)) as [->|Hne].
  - rewrite lookup_alter_eq. destruct (m !! id) as [s|]; [|done]. cbn. by destruct (Hf s) as [-> ->].
  - by rewrite lookup_alter_ne.
Qed.

Lemma frame_start id e : frame (sessions e) (sessions (startSession id e)).
Proof. by apply frame_alter. Qed.

Lemma frame_start_loop q : forall active e, frame (sessions e) (sessions (start_loop q active e)).
Proof.
  induction q as [|id q IH]; intros active e; cbn [start_loop]; [done|].
  destruct (_ <=? _); [done|]. destruct (sessions e !! id) as [s|]; [|apply IH].
  destruct (isRunning s); [apply IH|]. etrans; [apply (frame_start id)|apply IH].
Qed.

Lemma frame_startQueued e : frame (sessions e) (sessions (startQueuedLocked rng e)).
Proof. unfold startQueuedLocked. destruct (_ <=? _); [done|apply frame_start_loop]. Qed.

Lemma frame_setState st s : ID (record (session_setState st s)) = ID (record s) /\
  position (session_setState st s) = position s.
Proof. done. Qed.

Lemma frame_Pause s : ID (record (session_Pause s)) = ID (record s) /\ position (session_Pause s) = position s.
Proof.
  unfold session_Pause. destruct (cancel s) as [t|].
  - by destruct (state (mkSession (record s) (tf s) None (alter (fun _ => true) t (procs s)))).
  - by destruct (state s).
Qed.

Lemma frame_exit t err s : ID (record (session_exit t err s)) = ID (record s) /\
  position (session_exit t err s) = position s.
Proof. unfold session_exit. destruct err; [|done]. by destruct (bool_decide _). Qed.

(** ** Renumbering *)

Lemma renumber_other ids : forall i m id, id ∉ ids -> renumber i ids m !! id = m !! id.
Proof.
  induction ids as [|x ids IH]; intros i m id H; [done|]. cbn. apply not_elem_of_cons in H as [Hne Hni].
  rewrite IH by done. by rewrite lookup_alter_ne.
Qed.

Lemma renumber_lookup ids : forall i m (j : nat) id, NoDup ids -> ids !! j = Some id ->
  renumber i ids m !! id = on_record (with_position (i + Z.of_nat j)) <$> m !! id.
Proof.
  induction ids as [|x ids IH]; intros i m j id Hnd Hj; [done|]. cbn. apply NoDup_cons in Hnd as [Hx Hnd].
  destruct j as [|j].
  - injection Hj as ->. rewrite renumber_other by done. rewrite lookup_alter_eq. by rewrite Z.add_0_r.
  - cbn in Hj. rewrite (IH _ _ j id) by done. rewrite lookup_alter_ne.
    + do 3 f_equal. lia.
    + intros ->. apply Hx, list_elem_of_lookup. by exists j.
Qed.

Lemma renumber_queue ids m : NoDup ids -> (forall id, id ∈ ids <-> is_Some (m !! id)) ->
  queue_is (renumber 0 ids m) ids.
Proof.
  intros Hnd Hdom. unfold pos_of.
  assert (Hl : forall j id, ids !! j = Some id -> exists s, renumber 0 ids m !! id = Some s /\ position s = Z.of_nat j).
  { intros j id Hj. rewrite (renumber_lookup _ _ _ j) by done.
    destruct (proj1 (Hdom id)) as [s ->]; [apply list_elem_of_lookup; by exists j|]. by eexists. }
  assert (Hr : forall id s, renumber 0 ids m !! id = Some s -> exists j, ids !! j = Some id /\ position s = Z.of_nat j).
  { intros id s Hs. destruct (decide (id ∈ ids)) as [Hin|Hni].
    - apply list_elem_of_lookup in Hin as [j Hj]. destruct (Hl j id Hj) as (s' & E & Hp). exists j.
      split; [done|congruence].
    - rewrite renumber_other in Hs by done. exfalso. apply Hni, Hdom. by exists s. }
  split.
  - intros i id. split.
    + intros Hi. unfold pos_of. destruct (Hl i id Hi) as (s & -> & <-). done.
    + unfold pos_of. destruct (renumber 0 ids m !! id) as [s|] eqn:E; [|done]. cbn. intros [= Hp].
      destruct (Hr id s E) as (j & Hj & Hpj). assert (i = j) as -> by lia. done.
  - intros id p. unfold pos_of. destruct (renumber 0 ids m !! id) as [s|] eqn:E; [|done]. cbn. intros [= <-].
    destruct (Hr id s E) as (j & _ & ->). lia.
Qed.

(** Compaction makes any distinct positions dense and keeps their order. *)
Lemma compact_ordered e l : ordered (sessions e) l -> queue_is (sessions (compactQueueLocked rng e)) l.
Proof.
  intros H. unfold compactQueueLocked. cbn. rewrite (sort_ordered _ _ _ H), filter_all.
  - apply renumber_queue; [eapply sorted_NoDup, H|apply H].
  - intros id Hin. apply (ord_dom _ _ H) in Hin as [s Hs]. unfold holds. by rewrite Hs.
Qed.

Lemma filter_ne_delete (l : list bytes) p id : NoDup l -> l !! p = Some id ->
  filter (fun x => x <> id) l = delete p l.
Proof.
  intros Hnd. revert p. induction Hnd as [|x l Hx Hnd IH]; intros p Hp; [done|]. destruct p as [|p].
  - injection Hp as ->. rewrite filter_cons_False by tauto. cbn. apply filter_all.
    intros y Hy ->. done.
  - cbn in Hp. rewrite filter_cons_True; [by rewrite (IH p)|].
    intros ->. apply Hx, list_elem_of_lookup. by exists p.
Qed.

Lemma ordered_remove m l id : ordered m l -> ordered (delete id m) (filter (fun x => x <> id) l).
Proof.
  intros [Hs Hd]. split.
  - assert (Hin : forall x, x ∈ filter (fun x => x <> id) l -> x <> id) by (intros x [? _]%list_elem_of_filter; done).
    assert (Hs' : StronglySorted (lt_in m) (filter (fun x => x <> id) l)).
    { clear -Hs. induction Hs as [|x l Hl IH Hx]; [constructor|]. rewrite filter_cons.
      destruct (decide _); [|done]. constructor; [done|]. rewrite Forall_forall in *.
      intros y [_ Hy]%list_elem_of_filter. by apply Hx. }
    induction Hs' as [|x l' Hl IH Hx]; constructor.
    + apply IH. intros y Hy. apply Hin. by right.
    + rewrite Forall_forall in *. intros y Hy. destruct (Hx y Hy) as (p & q & E1 & E2 & Hlt).
      exists p, q. unfold pos_of in *. rewrite !lookup_delete_ne; [done|..];
        apply not_eq_sym, Hin; [by right|left].
  - intros x. rewrite list_elem_of_filter, Hd. destruct (decide (x = id)) as [->|Hne].
    + rewrite lookup_delete_eq. split; [tauto|by intros []].
    + rewrite lookup_delete_ne by done. tauto.
Qed.

(** ** Moves *)

(** [id] taken out and put at place [n]. *)
Definition move_to (id : bytes) (n : nat) (l : list bytes) : list bytes :=
  let l := filter (fun x => x <> id) l in take n l ++ id :: drop n l.

(** The new position of another torrent at [q] when one goes from [p] to [n]. *)
Definition shifted (p n q : Z) : Z :=
  if p <? n then (if (p <? q) && (q <=? n) then q - 1 else q)
  else (if (n <=? q) && (q <? p) then q + 1 else q).

Lemma shift_pos m id p n k :
  pos_of (map_imap (shift_to id p n) m) k =
  (fun q => if bool_decide (k = id) then n else shifted p n q) <$> pos_of m k.
Proof.
  unfold pos_of, shifted. rewrite map_lookup_imap. destruct (m !! k) as [s|]; [|done]. cbn. f_equal.
  destruct (bool_decide _); [done|]. destruct (p <? n).
  - by destruct (_ && _).
  - by destruct (_ && _).
Qed.

(** Place [q] before the move is place [i] after it. *)
Definition moved (p n q i : nat) : Prop :=
  ((i < n /\ i < p /\ q = i) \/ (i < n /\ p <= i /\ q = S i) \/
   (n < i /\ i - 1 < p /\ q = i - 1) \/ (n < i /\ p <= i - 1 /\ q = i))%nat.

Lemma shifted_moved p n q i : q <> p ->
  shifted (Z.of_nat p) (Z.of_nat n) (Z.of_nat q) = Z.of_nat i <-> moved p n q i.
Proof.
  intros Hq. unfold shifted, moved. destruct (Z.ltb_spec (Z.of_nat p) (Z.of_nat n)).
  - destruct (Z.ltb_spec (Z.of_nat p) (Z.of_nat q)), (Z.leb_spec (Z.of_nat q) (Z.of_nat n)); cbn [andb]; lia.
  - destruct (Z.leb_spec (Z.of_nat n) (Z.of_nat q)), (Z.ltb_spec (Z.of_nat q) (Z.of_nat p)); cbn [andb]; lia.
Qed.

Lemma shifted_nonneg p n q : 0 <= p -> 0 <= q -> 0 <= shifted p n q.
Proof.
  unfold shifted. intros Hp Hq. destruct (p <? n).
  - destruct (Z.ltb_spec p q), (q <=? n); cbn [andb]; lia.
  - destruct (_ && _); lia.
Qed.

Lemma lookup_delete_at (l : list bytes) p j : delete p l !! j = if (j <? p)%nat then l !! j else l !! S j.
Proof.
  destruct (Nat.ltb_spec j p); [by apply list_lookup_delete_lt|by apply list_lookup_delete_ge].
Qed.

Lemma lookup_insert_at (l : list bytes) n (x : bytes) j : (n <= length l)%nat ->
  (take n l ++ x :: drop n l) !! j =
  if (j <? n)%nat then l !! j else if (j =? n)%nat then Some x else l !! (j - 1)%nat.
Proof.
  intros Hn. destruct (Nat.ltb_spec j n).
  - rewrite lookup_app_l by (rewrite length_take; lia). by rewrite lookup_take_lt.
  - rewrite lookup_app_r by (rewrite length_take; lia). rewrite length_take, Nat.min_l by done.
    destruct (Nat.eqb_spec j n) as [->|]; [by rewrite Nat.sub_diag|].
    rewrite lookup_cons_ne_0, lookup_drop by lia. f_equal. lia.
Qed.

Lemma move_lookup (l : list bytes) p n id i k : NoDup l -> l !! p = Some id -> (n < length l)%nat ->
  move_to id n l !! i = Some k <->
  (k = id /\ i = n) \/ (k <> id /\ exists q, l !! q = Some k /\ moved p n q i).
Proof.
  intros Hnd Hp Hn. unfold move_to. rewrite (filter_ne_delete l p id) by done.
  rewrite lookup_insert_at by (rewrite length_delete by (by exists id); lia). rewrite !lookup_delete_at.
  assert (Hne : forall q, l !! q = Some id -> q = p) by (intros q Hq; by eapply NoDup_lookup).
  unfold moved. destruct (Nat.ltb_spec i n); [|destruct (Nat.eqb_spec i n) as [->|]].
  - destruct (Nat.ltb_spec i p); split.
    + intros E. right. split; [intros ->; apply Hne in E; lia|]. eexists. split; [exact E|lia].
    + intros [[-> ->]|(_ & q & <- & Hc)]; [lia|]. f_equal. lia.
    + intros E. right. split; [intros ->; apply Hne in E; lia|]. eexists. split; [exact E|lia].
    + intros [[-> ->]|(_ & q & <- & Hc)]; [lia|]. f_equal. lia.
  - split; [intros [= ->]; by left|]. intros [[-> _]|(_ & q & _ & Hc)]; [done|lia].
  - destruct (Nat.ltb_spec (i - 1) p); split.
    + intros E. right. split; [intros ->; apply Hne in E; lia|]. eexists. split; [exact E|lia].
    + intros [[-> ->]|(_ & q & <- & Hc)]; [lia|]. f_equal. lia.
    + intros E. right. split; [intros ->; apply Hne in E; lia|]. eexists. split; [exact E|lia].
    + intros [[-> ->]|(_ & q & <- & Hc)]; [lia|]. f_equal. lia.
Qed.

Lemma queue_shift m l id s n : queue_is m l -> m !! id = Some s -> (n < length l)%nat ->
  queue_is (map_imap (shift_to id (position s) (Z.of_nat n)) m) (move_to id n l).
Proof.
  intros H Hs Hn. destruct (queue_index _ _ _ _ H Hs) as [Hp Hb]. pose proof (queue_NoDup _ _ H) as Hnd.
  remember (Z.to_nat (position s)) as p eqn:Ep. assert (position s = Z.of_nat p) as -> by lia. clear Ep Hs Hb.
  split.
  - intros i k. rewrite (move_lookup l p) by done. rewrite shift_pos. case_bool_decide as Hk.
    + subst k. rewrite (proj1 (queue_at _ _ H p id) Hp). cbn. split; [|intros [= E]; left; split; [done|lia]].
      intros [[_ ->]|[? _]]; done.
    + split.
      * intros [[? _]|(_ & q & Hq & Hc)]; [done|]. apply (queue_at _ _ H) in Hq as Hpk. rewrite Hpk. cbn. f_equal.
        apply shifted_moved; [|done]. intros ->. congruence.
      * destruct (pos_of m k) as [q|] eqn:Hq; [|done]. cbn. intros [= E].
        destruct (Z_of_nat_complete q) as [q' ->]; [by eapply queue_nonneg|].
        apply (queue_at _ _ H) in Hq. right. split; [done|]. exists q'.
        split; [done|]. apply shifted_moved; [|done]. intros ->. congruence.
  - intros k q. rewrite shift_pos. destruct (pos_of m k) as [q'|] eqn:Hq; [|done]. cbn. intros [= <-].
    pose proof (queue_nonneg _ _ H _ _ Hq). destruct (bool_decide _); [lia|]. apply shifted_nonneg; lia.
Qed.

(** Two torrents exchange their places. *)
Lemma queue_swap m l (a b : nat) x y : queue_is m l -> a <> b -> l !! a = Some x -> l !! b = Some y ->
  queue_is (alter (on_record (with_position (Z.of_nat a))) y (alter (on_record (with_position (Z.of_nat b))) x m))
    (<[a := y]> (<[b := x]> l)).
Proof.
  intros H Hab Hx Hy. assert (Hxy : x <> y) by (intros ->; apply Hab; eapply NoDup_lookup; [by eapply queue_NoDup|done..]).
  destruct (queue_pos _ _ _ _ H Hx) as (sx & Ex & Px). destruct (queue_pos _ _ _ _ H Hy) as (sy & Ey & Py).
  set (m' := alter _ y (alter _ x m)).
  assert (Pm : forall k, pos_of m' k = if bool_decide (k = x) then Some (Z.of_nat b)
    else if bool_decide (k = y) then Some (Z.of_nat a) else pos_of m k).
  { intros k. unfold pos_of, m'. case_bool_decide as K1; [|case_bool_decide as K2].
    - subst k. rewrite lookup_alter_ne, lookup_alter_eq, Ex by done. done.
    - subst k. rewrite lookup_alter_eq, lookup_alter_ne, Ey by done. done.
    - by rewrite !lookup_alter_ne by done. }
  pose proof (lookup_lt_Some _ _ _ Hx) as La. pose proof (lookup_lt_Some _ _ _ Hy) as Lb. split.
  - intros i k. rewrite Pm, list_lookup_insert_Some, list_lookup_insert_Some, length_insert.
    destruct (bool_decide_reflect (k = x)) as [->|K1]; [|destruct (bool_decide_reflect (k = y)) as [->|K2]].
    + split; [|intros [= E]; assert (i = b) as -> by lia; tauto].
      intros [(-> & ? & _)|(Ha & [(-> & _ & _)|(Hb & E)])]; [done|done|].
      exfalso. apply Ha. symmetry. eapply NoDup_lookup; [by eapply queue_NoDup|done..].
    + split; [|intros [= E]; assert (i = a) as -> by lia; tauto].
      intros [(-> & _ & _)|(Ha & [(-> & ? & _)|(Hb & E)])]; [done|done|].
      exfalso. apply Hb. symmetry. eapply NoDup_lookup; [by eapply queue_NoDup|done..].
    + rewrite <- (queue_at _ _ H). split.
      * intros [(-> & ? & _)|(Ha & [(-> & ? & _)|(Hb & E)])]; [done..|done].
      * intros E. right. split; [intros ->; congruence|]. right. split; [intros ->; congruence|done].
  - intros k p. rewrite Pm. case_bool_decide; [intros [= <-]; lia|]. case_bool_decide; [intros [= <-]; lia|].
    apply (queue_nonneg _ _ H).
Qed.
End QueueIs.

(** ** The operations and what they do to the queue *)

Inductive op :=
  | OAdd (source : bytes) (u : option URL) (file : option bytes) (now : Z)
  | ORemove (id : bytes) | OPause (id : bytes) | OResume (id : bytes)
  | OTop (id : bytes) | OUp (id : bytes) | ODown (id : bytes) | OBottom (id : bytes)
  | OPriority (id : bytes) (fileIndex priority : Z)
  | OMaxActive (n : Z) | OOrchestrate (from to : State)
  | OProcState (id : bytes) (t : nat) (st : State) | OProcExit (id : bytes) (t : nat) (err : option bytes)
  | OSave.

Section Refinement.
Context (sha1 sha256 : bytes -> bytes).

Definition exec (rng : gmap bytes Session -> list bytes) (o : op) (e : engine) : engine * result engine_error unit :=
  match o with
  | OAdd source u file now => AddTorrent rng sha1 sha256 source u file now e
  | ORemove id => RemoveTorrent rng id e
  | OPause id => PauseTorrent rng id e
  | OResume id => ResumeTorrent rng id e
  | OTop id => QueueTop rng id e
  | OUp id => QueueUp rng id e
  | ODown id => QueueDown rng id e
  | OBottom id => QueueBottom rng id e
  | OPriority id i p => SetFilePriority rng sha1 sha256 id i p e
  | OMaxActive n => (SetMaxActive rng n e, Ok tt)
  | OOrchestrate from to => (orchestrate rng from to e, Ok tt)
  | OProcState id t st => (proc_setState id t st e, Ok tt)
  | OProcExit id t err => (proc_exit rng id t err e, Ok tt)
  | OSave => (saveState rng e, Ok tt)
  end.

(** The place of a torrent in a list. *)
Definition index_of (id : bytes) (l : list bytes) : option nat := fst <$> list_find (fun x => x = id) l.

(** The queue as a list of torrents. *)
Definition queue_op (o : op) (l : list bytes) : list bytes :=
  match o with
  | OAdd _ u file _ =>
      match InfoHashHex sha1 sha256 u file with
      | Ok id => if bool_decide (id ∈ l) || (MaxSessions <=? len l) then l else l ++ [id]
      | Err _ => l
      end
  | ORemove id => filter (fun x => x <> id) l
  | OTop id => if bool_decide (id ∈ l) then id :: filter (fun x => x <> id) l else l
  | OBottom id => if bool_decide (id ∈ l) then filter (fun x => x <> id) l ++ [id] else l
  | OUp id =>
      match index_of id l with
      | Some (S p) => match l !! p with Some y => <[p := id]> (<[S p := y]> l) | None => l end
      | _ => l
      end
  | ODown id =>
      match index_of id l with
      | Some p => match l !! S p with Some y => <[S p := id]> (<[p := y]> l) | None => l end
      | None => l
      end
  | _ => l
  end.

Lemma index_of_queue m l id s : queue_is m l -> m !! id = Some s -> index_of id l = Some (Z.to_nat (position s)).
Proof.
  intros H Hs. destruct (queue_index _ _ _ _ H Hs) as [Hp _]. unfold index_of.
  destruct (list_find_elem_of (fun x => x = id) l id) as [[i x] E]; [apply list_elem_of_lookup; by eexists|done|].
  rewrite E. cbn. f_equal. apply list_find_Some in E as (Hi & -> & _).
  eapply NoDup_lookup; [by eapply queue_NoDup|done..].
Qed.

Lemma index_of_none m l id : queue_is m l -> m !! id = None -> index_of id l = None.
Proof.
  intros H Hs. unfold index_of. destruct (list_find _ l) as [[i x]|] eqn:E; [|done].
  apply list_find_Some in E as (Hi & -> & _). destruct (queue_pos _ _ _ _ H Hi) as (s & Es & _). congruence.
Qed.

Section Step.
Context (rng : gmap bytes Session -> list bytes) (Hrng : valid_rng rng).

Lemma queue_size m l : queue_is m l -> Z.of_nat (base.size m) = len l.
Proof.
  intros H. rewrite <- (ordered_perm rng Hrng m l (queue_ordered m l H)), (Hrng m), length_fmap.
  by rewrite length_map_to_list.
Qed.

Lemma queue_save e : sessions (saveState rng e) = sessions e.
Proof. done. Qed.

Lemma queue_startQueued e l : queue_is (sessions e) l -> queue_is (sessions (startQueuedLocked rng e)) l.
Proof. apply frame_queue, frame_startQueued. Qed.

Lemma queue_add e l id s : queue_is (sessions e) l -> sessions e !! id = None -> position s = len l ->
  queue_is (<[id := s]> (sessions e)) (l ++ [id]).
Proof.
  intros H Hn Hp. split.
  - intros i k. rewrite lookup_snoc_Some. unfold pos_of. destruct (decide (k = id)) as [->|Hk].
    + rewrite lookup_insert_eq. cbn. rewrite Hp. split.
      * intros [[_ E]|[-> _]]; [|done]. destruct (queue_pos _ _ _ _ H E) as (s' & E' & _). congruence.
      * intros [= E]. right. split; [lia|done].
    + rewrite lookup_insert_ne by done. fold (pos_of (sessions e) k). rewrite <- (queue_at _ _ H). split.
      * intros [[_ E]|[_ E]]; congruence.
      * intros E. left. split; [by eapply lookup_lt_Some|done].
  - intros k p. unfold pos_of. destruct (decide (k = id)) as [->|Hk].
    + rewrite lookup_insert_eq. cbn. intros [= <-]. lia.
    + rewrite lookup_insert_ne by done. apply (queue_nonneg _ _ H).
Qed.

Lemma step_add source u file now e l :
  queue_is (sessions e) l ->
  queue_is (sessions (AddTorrent rng sha1 sha256 source u file now e).1) (queue_op (OAdd source u file now) l).
Proof.
  intros H. unfold AddTorrent. cbn [queue_op]. destruct (InfoHashHex sha1 sha256 u file) as [id|]; [|done].
  destruct (sessions e !! id) as [s|] eqn:E.
  { rewrite bool_decide_eq_true_2; [done|]. apply (queue_elem _ _ _ H). by exists s. }
  rewrite bool_decide_eq_false_2 by (rewrite (queue_elem _ _ _ H), E; by intros []).
  rewrite (queue_size _ _ H). cbn [orb]. destruct (_ <=? _); [done|].
  destruct (match match file with Some _ => _ | None => _ end with Some _ => _ | None => _ end) as [[name data] total].
  cbn [fst]. apply queue_startQueued, queue_add; [done|done|].
  unfold position. cbn [record QueuePosition]. unfold nextQueuePosition. rewrite (max_queue rng Hrng e l H). lia.
Qed.

Lemma step_remove id e l : queue_is (sessions e) l ->
  queue_is (sessions (RemoveTorrent rng id e).1) (filter (fun x => x <> id) l).
Proof.
  intros H. unfold RemoveTorrent. destruct (sessions e !! id) as [s|] eqn:E.
  - cbn [fst]. apply queue_startQueued. apply (compact_ordered rng Hrng). cbn [sessions on_session with_sessions].
    rewrite delete_alter_eq. by apply ordered_remove, queue_ordered.
  - cbn. rewrite filter_all; [done|]. intros x Hx ->. apply (queue_elem _ _ _ H) in Hx. rewrite E in Hx. by destruct Hx.
Qed.

Lemma step_top id e l : queue_is (sessions e) l ->
  queue_is (sessions (QueueTop rng id e).1) (queue_op (OTop id) l).
Proof.
  intros H. unfold QueueTop, setQueuePosition. cbn [queue_op]. destruct (sessions e !! id) as [s|] eqn:E.
  - rewrite bool_decide_eq_true_2 by (apply (queue_elem _ _ _ H); by exists s).
    destruct (queue_index _ _ _ _ H E) as [Hl Hb]. destruct (Z.eqb_spec (position s) 0) as [E0|E0]; cbn [fst].
    + rewrite E0 in Hl. destruct l as [|x l]; [done|]. injection Hl as ->.
      rewrite (filter_ne_delete _ 0%nat) by (done || by eapply queue_NoDup). done.
    + apply queue_startQueued. rewrite queue_save. apply (queue_shift (sessions e) l id s 0); [done|done|lia].
  - rewrite bool_decide_eq_false_2; [done|]. rewrite (queue_elem _ _ _ H), E. by intros [].
Qed.

Lemma step_bottom id e l : queue_is (sessions e) l ->
  queue_is (sessions (QueueBottom rng id e).1) (queue_op (OBottom id) l).
Proof.
  intros H. unfold QueueBottom. cbn [queue_op]. destruct (sessions e !! id) as [s|] eqn:E.
  - rewrite bool_decide_eq_true_2 by (apply (queue_elem _ _ _ H); by exists s).
    destruct (queue_index _ _ _ _ H E) as [Hl Hb]. pose proof (queue_NoDup _ _ H) as Hnd.
    rewrite (max_queue rng Hrng e l H).
    assert (Hmove : filter (fun x => x <> id) l ++ [id] = move_to id (length l - 1) l).
    { unfold move_to. assert (Hlen : length (filter (fun x => x <> id) l) = (length l - 1)%nat).
      { rewrite (filter_ne_delete _ _ _ Hnd Hl), length_delete by (by eexists). done. }
      rewrite <- Hlen. by rewrite take_ge, drop_ge by lia. }
    rewrite Hmove. pose proof (queue_shift (sessions e) l id s (length l - 1) H E ltac:(lia)) as Hq.
    replace (Z.of_nat (length l - 1)) with (len l - 1) in Hq by lia.
    destruct (Z.eqb_spec (position s) (len l - 1)) as [E0|E0]; cbn [fst].
    + eapply frame_queue; [|exact Hq]. intros k. rewrite map_lookup_imap.
      destruct (sessions e !! k) as [s'|] eqn:Es; [|done]. cbn. f_equal.
      destruct (bool_decide_reflect (k = id)) as [->|Hk].
      * rewrite Es in E. injection E as ->. unfold position in *. cbn. by rewrite <- E0.
      * rewrite E0, Z.ltb_irrefl. rewrite (proj2 (andb_false_iff _ _)); [done|].
        destruct (Z.leb_spec (len l - 1) (position s')); [right; apply Z.ltb_ge; lia|by left].
    + cbn [sessions with_sessions]. match goal with |- queue_is ?a _ => replace a with
        (map_imap (shift_to id (position s) (len l - 1)) (sessions e)); [exact Hq|] end.
      apply map_eq. intros k. rewrite !map_lookup_imap. destruct (sessions e !! k); [|done].
      cbn [mbind option_bind]. unfold shift_to. by rewrite (proj2 (Z.ltb_lt (position s) (len l - 1))) by lia.
  - rewrite bool_decide_eq_false_2; [done|]. rewrite (queue_elem _ _ _ H), E. by intros [].
Qed.

Lemma step_up id e l : queue_is (sessions e) l ->
  queue_is (sessions (QueueUp rng id e).1) (queue_op (OUp id) l).
Proof.
  intros H. unfold QueueUp. cbn [queue_op]. destruct (sessions e !! id) as [s|] eqn:E.
  - rewrite (index_of_queue _ _ _ _ H E). destruct (queue_index _ _ _ _ H E) as [Hl Hb].
    destruct (Z.leb_spec (position s) 0); cbn [fst].
    + by replace (Z.to_nat (position s)) with 0%nat by lia.
    + remember (Z.to_nat (position s)) as p eqn:Ep. destruct p as [|p]; [lia|].
      destruct (lookup_lt_is_Some_2 l p) as [y Hy]; [lia|]. rewrite Hy.
      unfold swapQueuePositions. rewrite !(at_position_queue rng Hrng e l) by (done || lia).
      replace (Z.to_nat (position s)) with (S p) by lia. replace (Z.to_nat (position s - 1)) with p by lia.
      rewrite Hl, Hy. apply queue_startQueued. rewrite queue_save. cbn [sessions on_session with_sessions].
      replace (position s) with (Z.of_nat (S p)) by lia. replace (Z.of_nat (S p) - 1) with (Z.of_nat p) by lia.
      rewrite list_insert_insert_ne by lia. by apply queue_swap.
  - by rewrite (index_of_none _ _ _ H E).
Qed.

Lemma step_down id e l : queue_is (sessions e) l ->
  queue_is (sessions (QueueDown rng id e).1) (queue_op (ODown id) l).
Proof.
  intros H. unfold QueueDown. cbn [queue_op]. destruct (sessions e !! id) as [s|] eqn:E.
  - rewrite (index_of_queue _ _ _ _ H E), (max_queue rng Hrng e l H). destruct (queue_index _ _ _ _ H E) as [Hl Hb].
    destruct (Z.leb_spec (len l - 1) (position s)); cbn [fst].
    + by rewrite lookup_ge_None_2 by lia.
    + remember (Z.to_nat (position s)) as p eqn:Ep.
      destruct (lookup_lt_is_Some_2 l (S p)) as [y Hy]; [lia|]. rewrite Hy.
      unfold swapQueuePositions. rewrite !(at_position_queue rng Hrng e l) by (done || lia).
      replace (Z.to_nat (position s)) with p by lia. replace (Z.to_nat (position s + 1)) with (S p) by lia.
      rewrite Hl, Hy. apply queue_startQueued. rewrite queue_save. cbn [sessions on_session with_sessions].
      replace (position s) with (Z.of_nat p) by lia. replace (Z.of_nat p + 1) with (Z.of_nat (S p)) by lia.
      rewrite list_insert_insert_ne by lia. apply queue_swap; [done|lia|done|done].
  - by rewrite (index_of_none _ _ _ H E).
Qed.

Lemma frame_on_session id f e :
  (forall s, ID (record (f s)) = ID (record s) /\ position (f s) = position s) ->
  frame (sessions e) (sessions (on_session id f e)).
Proof. apply frame_alter. Qed.

Lemma frame_resume id e : frame (sessions e) (sessions (ResumeTorrent rng id e).1).
Proof.
  unfold ResumeTorrent. destruct (sessions e !! id) as [s|]; [|done]. destruct (_ && _); [done|].
  cbn [fst]. rewrite queue_save. destruct (_ <? _).
  - etrans; [|apply frame_start]. by apply frame_on_session.
  - by apply frame_on_session.
Qed.

Lemma frame_pause id e : frame (sessions e) (sessions (PauseTorrent rng id e).1).
Proof.
  unfold PauseTorrent. destruct (sessions e !! id) as [s|]; [|done]. cbn [fst].
  etrans; [|apply frame_startQueued]. rewrite queue_save. apply frame_on_session, frame_Pause.
Qed.

Lemma frame_priority id i p e : frame (sessions e) (sessions (SetFilePriority rng sha1 sha256 id i p e).1).
Proof.
  unfold SetFilePriority. destruct (_ && _); [done|]. destruct (_ <? 0); [done|].
  destruct (sessions e !! id) as [s|]; [|done]. destruct (metainfo _ _ s) as [t|]; [|done].
  destruct (_ <=? i); [done|]. cbn [fst]. rewrite queue_save. by apply frame_on_session.
Qed.

Lemma frame_proc_exit id t err e : frame (sessions e) (sessions (proc_exit rng id t err e)).
Proof.
  unfold proc_exit. destruct (sessions e !! id) as [s|]; [|done]. destruct (bool_decide _); [|done].
  etrans; [|apply frame_startQueued]. rewrite queue_save. apply frame_on_session, frame_exit.
Qed.

Lemma frame_proc_setState id t st e : frame (sessions e) (sessions (proc_setState id t st e)).
Proof.
  unfold proc_setState. destruct (sessions e !! id) as [s|]; [|done]. destruct (bool_decide _); [|done].
  by apply frame_on_session.
Qed.

Lemma step_orchestrate from to e l : queue_is (sessions e) l -> queue_is (sessions (orchestrate rng from to e)) l.
Proof.
  intros H. unfold orchestrate. destruct (_ || _); [done|]. rewrite queue_save.
  by apply queue_startQueued, (compact_ordered rng Hrng), queue_ordered.
Qed.

Lemma step_queue o e l : queue_is (sessions e) l -> queue_is (sessions (exec rng o e).1) (queue_op o l).
Proof.
  intros H. destruct o; cbn [exec].
  - by apply step_add.
  - by apply step_remove.
  - eapply frame_queue; [apply frame_pause|done].
  - eapply frame_queue; [apply frame_resume|done].
  - by apply step_top.
  - by apply step_up.
  - by apply step_down.
  - by apply step_bottom.
  - eapply frame_queue; [apply frame_priority|done].
  - by apply queue_startQueued.
  - by apply step_orchestrate.
  - eapply frame_queue; [apply frame_proc_setState|done].
  - eapply frame_queue; [apply frame_proc_exit|done].
  - done.
Qed.
End Step.

Definition engine0 (n : Z) : engine := mkEngine ∅ ∅ ∅ n 0.

Definition run_ops (ops : list ((gmap bytes Session -> list bytes) * op)) (e : engine) : engine :=
  foldl (fun e o => (exec o.1 o.2 e).1) e ops.
Definition run_queue (ops : list ((gmap bytes Session -> list bytes) * op)) (l : list bytes) : list bytes :=
  foldl (fun l o => queue_op o.2 l) l ops.

Lemma run_queue_is ops : Forall (fun o => valid_rng o.1) ops ->
  forall e l, queue_is (sessions e) l -> queue_is (sessions (run_ops ops e)) (run_queue ops l).
Proof.
  induction 1 as [|[rng o] ops Hr Hops IH]; intros e l H; [done|]. cbn. by apply IH, step_queue.
Qed.

Lemma queue_empty n : queue_is (sessions (engine0 n)) [].
Proof.
  split; [intros i id|intros id p]; unfold pos_of; cbn; rewrite lookup_empty; [split; [by destruct i|done]|done].
Qed.
End Refinement.

(** ** Starting queued torrents *)

(** Queued and without a goroutine. *)
Definition waits (s : Session) : bool := is_queued s && negb (isRunning s).
Definition idle (s : Session) : bool := negb (isRunning s).

Lemma holds_true P m id : holds P m id <-> exists s, m !! id = Some s /\ P s = true.
Proof.
  unfold holds. destruct (m !! id) as [s|]; cbn; split.
  - intros [= E]. by exists s.
  - by intros (s' & [= <-] & ->).
  - done.
  - by intros (s' & ? & _).
Qed.

Definition start_all (ids : list bytes) (e : engine) : engine := foldl (fun e id => startSession id e) e ids.

Lemma start_loop_eq q : forall active e, NoDup q ->
  start_loop q active e = start_all (take (Z.to_nat (MaxActive e - active)) (filter (holds idle (sessions e)) q)) e.
Proof.
  induction q as [|id q IH]; intros active e Hnd; cbn [start_loop].
  { change (filter (holds idle (sessions e)) []) with (@nil bytes). by rewrite take_nil. }
  apply NoDup_cons in Hnd as [Hid Hnd]. rewrite filter_cons.
  destruct (Z.leb_spec (MaxActive e) active) as [Hle|Hlt].
  { by replace (Z.to_nat (MaxActive e - active)) with 0%nat by lia. }
  destruct (sessions e !! id) as [s|] eqn:E.
  - destruct (isRunning s) eqn:Hr.
    + rewrite decide_False; [by apply IH|]. rewrite holds_true. intros (s' & Es & Hi). simplify_eq.
      unfold idle in Hi. by rewrite Hr in Hi.
    + rewrite decide_True by (apply holds_true; exists s; unfold idle; by rewrite Hr).
      replace (Z.to_nat (MaxActive e - active)) with (S (Z.to_nat (MaxActive e - (active + 1)))) by lia.
      rewrite IH by done. cbn [take start_all foldl]. unfold start_all. do 2 f_equal.
      apply filter_ext_in. intros x Hx. unfold holds. cbn [startSession sessions].
      rewrite lookup_alter_ne; [done|]. by intros ->.
  - rewrite decide_False; [by apply IH|]. rewrite holds_true. intros (s' & Es & _). congruence.
Qed.

Lemma start_all_lookup ids : forall e id, NoDup ids ->
  (id ∉ ids -> sessions (start_all ids e) !! id = sessions e !! id) /\
  (id ∈ ids -> exists t, sessions (start_all ids e) !! id = session_Start t <$> sessions e !! id).
Proof.
  induction ids as [|x ids IH]; intros e id Hnd; [split; [done|by intros ?%not_elem_of_nil]|].
  apply NoDup_cons in Hnd as [Hx Hnd]. destruct (IH (startSession x e) id Hnd) as [I1 I2]. cbn [start_all foldl].
  unfold start_all in *. split.
  - intros [Hne Hni]%not_elem_of_cons. rewrite I1 by done. cbn. by rewrite lookup_alter_ne.
  - intros [->|Hin]%elem_of_cons.
    + exists (next_proc e). rewrite I1 by done. cbn. by rewrite lookup_alter_eq.
    + destruct (I2 Hin) as [t Ht]. exists t. rewrite Ht. cbn. rewrite lookup_alter_ne; [done|]. by intros ->.
Qed.

Lemma start_all_MaxActive ids : forall e, MaxActive (start_all ids e) = MaxActive e.
Proof. induction ids as [|x ids IH]; intros e; [done|]. unfold start_all in *. cbn. by rewrite IH. Qed.

Section Active.
Context (rng : gmap bytes Session -> list bytes) (Hrng : valid_rng rng).

Lemma activeCount_filter e : activeCount rng e = len (filter (holds counts (sessions e)) (rng (sessions e))).
Proof.
  unfold activeCount.
  enough (Hf : forall ids n, foldl (fun n id => match sessions e !! id with
      | Some s => if counts s then n + 1 else n | None => n end) n ids = n + len (filter (holds counts (sessions e)) ids))
    by (rewrite Hf; lia).
  induction ids as [|id ids IH]; intros n; [cbn; lia|]. cbn [foldl]. rewrite IH, filter_cons.
  destruct (decide (holds counts (sessions e) id)) as [Hc|Hc].
  - apply holds_true in Hc as (s & -> & ->). cbn [length]. lia.
  - destruct (sessions e !! id) as [s|] eqn:E; [|lia]. destruct (counts s) eqn:Ec; [|lia].
    exfalso. apply Hc, holds_true. by exists s.
Qed.

Lemma activeCount_queue e l : queue_is (sessions e) l -> activeCount rng e = len (filter (holds counts (sessions e)) l).
Proof.
  intros H. rewrite activeCount_filter. f_equal. apply Permutation_length.
  by rewrite (ordered_perm rng Hrng _ _ (queue_ordered _ _ H)).
Qed.

(** Starting waiting torrents makes each of them count. *)
Lemma count_start ids : forall e l, queue_is (sessions e) l -> NoDup ids ->
  Forall (holds waits (sessions e)) ids ->
  len (filter (holds counts (sessions (start_all ids e))) l) = len (filter (holds counts (sessions e)) l) + len ids.
Proof.
  intros e l H Hnd Hw. rewrite Forall_forall in Hw.
  assert (Hc : forall x, x ∈ l -> holds counts (sessions (start_all ids e)) x <-> holds counts (sessions e) x \/ x ∈ ids).
  { intros x Hx. destruct (start_all_lookup ids e x Hnd) as [I1 I2]. rewrite !holds_true.
    destruct (decide (x ∈ ids)) as [Hin|Hni]; [|rewrite I1 by done; tauto].
    destruct (I2 Hin) as [t ->]. split; [by right|]. intros _.
    apply Hw, holds_true in Hin as (s & -> & Hs). exists (session_Start t s). split; [done|].
    unfold waits, is_queued in Hs. apply andb_true_iff in Hs as [Hs _]. apply bool_decide_eq_true in Hs.
    unfold counts, state in *. cbn. by rewrite Hs. }
  rewrite (filter_ext_in _ (fun x => holds counts (sessions e) x \/ x ∈ ids) l Hc).
  assert (Hdisj : forall x, x ∈ ids -> ~ holds counts (sessions e) x).
  { intros x Hin. apply Hw, holds_true in Hin as (s & Es & Hs). rewrite holds_true. intros (s' & Es' & Hs').
    simplify_eq. unfold waits, is_queued, counts in *. apply andb_true_iff in Hs as [H1%bool_decide_eq_true H2].
    rewrite H1 in Hs'. by rewrite Hs' in H2. }
  assert (Hsub : forall x, x ∈ ids -> x ∈ l).
  { intros x Hin. apply (queue_elem _ _ _ H). apply Hw, holds_true in Hin as (s & Es & _). by exists s. }
  assert (Hp : filter (fun x => holds counts (sessions e) x \/ x ∈ ids) l ≡ₚ
    filter (holds counts (sessions e)) l ++ ids).
  { pose proof (queue_NoDup _ _ H) as Hl. apply NoDup_Permutation.
    - by apply NoDup_filter.
    - apply NoDup_app. split_and!; [by apply NoDup_filter| |done].
      intros x [Hx _]%list_elem_of_filter Hi. by apply (Hdisj x).
    - intros x. rewrite elem_of_app, !list_elem_of_filter. split; [tauto|].
      intros [[? ?]|Hi]; [tauto|]. split; [by right|by apply Hsub]. }
  rewrite Hp, length_app. lia.
Qed.
End Active.

(** ** Properties *)

(** C15: the queue positions of the engine are always the places 0, 1, 2, ... of one
    list of its torrents, and that list is what the operations say: a new torrent
    goes to its end, a removed one leaves it, top and bottom move one torrent, up
    and down exchange neighbours, and no other operation, nor any step of a
    torrent's goroutine, nor the iteration order of the session map, changes it. *)
Theorem Queue_refines sha1 sha256 n ops :
  Forall (fun o => valid_rng o.1) ops ->
  queue_is (sessions (run_ops sha1 sha256 ops (engine0 n))) (run_queue sha1 sha256 ops []).
Proof. intros H. apply run_queue_is; [done|apply queue_empty]. Qed.

Definition keys (m : gmap bytes Session) : list bytes := (map_to_list m).*1.
Lemma keys_valid : valid_rng keys.
Proof. by intros m. Qed.

(** The link of a torrent with info hash [b, b, ...]. *)
Definition demo_link (b : byte) : option URL :=
  Some (mkURL (lit "magnet") {[ lit "xt" := [lit "urn:btih:" ++ hex_EncodeToString (replicate 20 b)] ]}).
Definition demo_id (b : byte) : bytes := hex_EncodeToString (replicate 20 b).
Definition demo_add (b : byte) : op := OAdd [] (demo_link b) None 0.

Lemma Queue_refines_witness :
  queue_is (sessions (run_ops id id ((keys,.) <$> [demo_add x01; demo_add x02; demo_add x03;
      OTop (demo_id x03); ODown (demo_id x01)]) (engine0 2)))
    [demo_id x03; demo_id x02; demo_id x01].
Proof.
  refine (Queue_refines id id 2 ((keys,.) <$> [demo_add x01; demo_add x02; demo_add x03;
    OTop (demo_id x03); ODown (demo_id x01)]) _).
  apply Forall_fmap, Forall_true. intros x. apply keys_valid.
Defined.

(** Starting queued torrents: exactly the first waiting torrents of the queue get
    a goroutine, as many as the limit of active torrents leaves room for; no record
    changes, and the number of active torrents grows by the number started. *)
Lemma StartQueued_spec rng e l :
  valid_rng rng -> queue_is (sessions e) l ->
  let e' := startQueuedLocked rng e in
  let started := take (Z.to_nat (MaxActive e - activeCount rng e)) (filter (holds waits (sessions e)) l) in
  (forall id, record <$> sessions e' !! id = record <$> sessions e !! id) /\
  (forall id s s', sessions e !! id = Some s -> sessions e' !! id = Some s' ->
     isRunning s' = true <-> isRunning s = true \/ id ∈ started) /\
  activeCount rng e' = activeCount rng e + len started.
Proof.
  intros Hrng H. cbn zeta. set (started := take _ _).
  assert (He : startQueuedLocked rng e = start_all started e).
  { unfold startQueuedLocked. destruct (Z.leb_spec (MaxActive e) (activeCount rng e)).
    - subst started. by replace (Z.to_nat (MaxActive e - activeCount rng e)) with 0%nat by lia.
    - rewrite (sort_ordered rng Hrng _ _ _ (queue_ordered _ _ H)).
      rewrite start_loop_eq by (apply NoDup_filter; by eapply queue_NoDup). subst started. do 2 f_equal.
      rewrite list_filter_filter. apply filter_ext_in. intros x _. rewrite !holds_true. unfold waits, idle.
      split; [intros ((s & E & Hi) & (s' & E' & Hq)); simplify_eq; exists s; by rewrite Hi, Hq|].
      intros (s & E & Hw). apply andb_true_iff in Hw as [H1 H2]. split; exists s; by rewrite ?H1, ?H2. }
  assert (Hnd : NoDup started).
  { eapply sublist_NoDup; [|apply sublist_take]. apply NoDup_filter. by eapply queue_NoDup. }
  assert (Hw : Forall (holds waits (sessions e)) started).
  { apply Forall_take, Forall_forall. by intros x [? _]%list_elem_of_filter. }
  rewrite He. split_and!.
  - intros id. destruct (start_all_lookup started e id Hnd) as [I1 I2].
    destruct (decide (id ∈ started)) as [Hin|Hni]; [|by rewrite I1].
    destruct (I2 Hin) as [t ->]. by destruct (sessions e !! id).
  - intros id s s' Es Es'. destruct (start_all_lookup started e id Hnd) as [I1 I2].
    destruct (decide (id ∈ started)) as [Hin|Hni].
    + destruct (I2 Hin) as [t Ht]. rewrite Es', Es in Ht. simplify_eq/=. tauto.
    + rewrite I1, Es in Es' by done. simplify_eq. tauto.
  - assert (Hq : queue_is (sessions (start_all started e)) l) by (rewrite <- He; by apply queue_startQueued).
    rewrite (activeCount_queue rng Hrng _ _ Hq), (activeCount_queue rng Hrng _ _ H). by apply count_start.
Qed.

Definition demo_ops : list ((gmap bytes Session -> list bytes) * op) :=
  (keys,.) <$> [demo_add x01; demo_add x02; demo_add x03; OPause (demo_id x01)].
Definition demo_queue : list bytes := [demo_id x01; demo_id x02; demo_id x03].

Definition set_max (n : Z) (e : engine) : engine := mkEngine (sessions e) (store e) (disk e) n (next_proc e).
Lemma sessions_set_max n e : sessions (set_max n e) = sessions e.
Proof. done. Qed.
Definition demo_engine : engine := set_max 2 (run_ops id id demo_ops (engine0 1)).

Lemma demo_queue_is : queue_is (sessions demo_engine) demo_queue.
Proof.
  assert (Hl : run_queue id id demo_ops [] = demo_queue) by (vm_compute; reflexivity).
  rewrite <- Hl. unfold demo_engine. rewrite sessions_set_max. apply run_queue_is; [|apply queue_empty].
  apply Forall_fmap, Forall_true. intros x. apply keys_valid.
Qed.

Lemma StartQueued_spec_witness : activeCount keys (startQueuedLocked keys demo_engine) = 2.
Proof.
  destruct (StartQueued_spec keys demo_engine demo_queue keys_valid demo_queue_is) as (_ & _ & E).
  rewrite E. vm_compute. reflexivity.
Defined.
