(* ===== verification/RestartTheorems.v ===== *)
(** * Errors of the engine's operations, and restarting it

    Which error each operation gives and that an error changes nothing; the saved
    state brings back every torrent with its record, so also the queue. *)

From S2P Require Import Prelude Strconv Net Quote Torrent Engine Magnet Queue QueueTheorems.
Set Warnings "-clear-no-such-hyp".
Local Open Scope Z_scope.

(** ** Identities *)

(** Sessions and stored records are filed under their id, and nothing is stored
    for a torrent the engine does not have. *)
Record engine_inv (e : engine) : Prop := {
  inv_ids : forall id s, sessions e !! id = Some s -> ID (record s) = id;
  inv_store : forall id r, store e !! id = Some r -> is_Some (sessions e !! id);
  inv_text : forall id, is_Some (sessions e !! id) -> json_string id = id
}.

(** Same torrents with the same ids. *)
Definition id_frame (m m' : gmap bytes Session) : Prop :=
  forall id, (fun s => ID (record s)) <$> m' !! id = (fun s => ID (record s)) <$> m !! id.

#[export] Instance id_frame_refl : Reflexive id_frame.
Proof. by intros m id. Qed.
#[export] Instance id_frame_trans : Transitive id_frame.
Proof. intros m1 m2 m3 H1 H2 id. by rewrite H2, H1. Qed.

Lemma frame_id m m' : frame m m' -> id_frame m m'.
Proof.
  intros H id. specialize (H id). destruct (m !! id), (m' !! id); cbn in *; try done. by injection H as -> _.
Qed.

Lemma id_frame_alter m f id : (forall s, ID (record (f s)) = ID (record s)) -> id_frame m (alter f id m).
Proof.
  intros Hf k. destruct (decide (k = id)) as [->|Hne]; [rewrite lookup_alter_eq|by rewrite lookup_alter_ne].
  destruct (m !! id) as [s|]; [|done]. cbn. by rewrite Hf.
Qed.

Lemma id_frame_imap m f :
  (forall k s, exists s', f k s = Some s' /\ ID (record s') = ID (record s)) -> id_frame m (map_imap f m).
Proof.
  intros Hf k. rewrite map_lookup_imap. destruct (m !! k) as [s|]; [|done]. cbn.
  destruct (Hf k s) as (s' & -> & E). cbn. by rewrite E.
Qed.

Lemma id_frame_renumber ids : forall i m, id_frame m (renumber i ids m).
Proof.
  induction ids as [|x ids IH]; intros i m; cbn; [done|]. etrans; [|apply IH]. by apply id_frame_alter.
Qed.

Lemma inv_frame e e' : engine_inv e -> id_frame (sessions e) (sessions e') ->
  (forall id r, store e' !! id = Some r -> is_Some (store e !! id) \/ is_Some (sessions e' !! id)) -> engine_inv e'.
Proof.
  intros [Hi Hs Ht] Hf Hst. split.
  - intros id s' Hs'. specialize (Hf id). rewrite Hs' in Hf. destruct (sessions e !! id) as [s|] eqn:E; [|done].
    injection Hf as ->. by apply Hi.
  - intros id r Hr. destruct (Hst id r Hr) as [[r' Hr']|H]; [|done].
    destruct (Hs id r' Hr') as [s Es]. specialize (Hf id). rewrite Es in Hf.
    destruct (sessions e' !! id) eqn:E'; [by eexists|]. done.
  - intros id [s' Hs']. apply Ht. specialize (Hf id). rewrite Hs' in Hf. destruct (sessions e !! id); [by eexists|done].
Qed.

Lemma store_start_loop q : forall active e, store (start_loop q active e) = store e.
Proof.
  induction q as [|id q IH]; intros active e; cbn [start_loop]; [done|].
  destruct (_ <=? _); [done|]. destruct (sessions e !! id) as [s|]; [|apply IH].
  destruct (isRunning s); [apply IH|]. by rewrite IH.
Qed.

Lemma store_startQueued rng e : store (startQueuedLocked rng e) = store e.
Proof. unfold startQueuedLocked. destruct (_ <=? _); [done|apply store_start_loop]. Qed.

Lemma inv_startQueued rng e : engine_inv e -> engine_inv (startQueuedLocked rng e).
Proof.
  intros H. eapply inv_frame; [done|apply frame_id, frame_startQueued|].
  intros id r. rewrite store_startQueued. intros E. left. by eexists.
Qed.

Lemma inv_frame_same e e' : engine_inv e -> id_frame (sessions e) (sessions e') -> store e' = store e -> engine_inv e'.
Proof. intros H Hf Hs. eapply inv_frame; [done..|]. intros id r Hr. left. rewrite <- Hs. by eexists. Qed.

(** ** Saving *)

Section Save.
Context (rng : gmap bytes Session -> list bytes) (Hrng : valid_rng rng).

Lemma save_lookup e id : engine_inv e -> store (saveState rng e) !! id = record <$> sessions e !! id.
Proof.
  intros [Hi Hs _]. cbn.
  set (put := fun (m : gmap bytes TorrentRecord) k => match sessions e !! k with Some s => Put (record s) m | None => m end).
  assert (Hput : forall m k, put m k !! id = if bool_decide (k = id) then
    (match sessions e !! id with Some s => Some (record s) | None => m !! id end) else m !! id).
  { intros m k. unfold put, Put. case_bool_decide as E.
    - subst k. destruct (sessions e !! id) as [s|] eqn:Es; [|done]. by rewrite (Hi _ _ Es), lookup_insert_eq.
    - destruct (sessions e !! k) as [s|] eqn:Es; [|done]. by rewrite (Hi _ _ Es), lookup_insert_ne. }
  assert (Hf : forall ids m, (forall s, sessions e !! id = Some s -> id ∈ ids \/ m !! id = Some (record s) ->
      foldl put m ids !! id = Some (record s)) /\ (sessions e !! id = None -> foldl put m ids !! id = m !! id)).
  { induction ids as [|x ids IH]; intros m; cbn; [split; [by intros s _ [?%not_elem_of_nil|?]|done]|].
    destruct (IH (put m x)) as [I1 I2]. split.
    - intros s Es Hin. apply I1; [done|]. rewrite Hput, Es, elem_of_cons in *.
      case_bool_decide; [by right|]. destruct Hin as [[->|?]|?]; [done|by left|by right].
    - intros En. rewrite (I2 En), Hput, En. by case_bool_decide. }
  destruct (Hf (rng (sessions e)) (store e)) as [I1 I2]. destruct (sessions e !! id) as [s|] eqn:Es; cbn.
  - apply I1; [done|]. left. apply rng_elem; [done|by exists s].
  - rewrite I2 by done. destruct (store e !! id) as [r|] eqn:Er; [|done].
    destruct (Hs id r Er) as [s Es']. congruence.
Qed.

Lemma inv_save e : engine_inv e -> engine_inv (saveState rng e).
Proof.
  intros H. split; [apply (inv_ids _ H)| |apply (inv_text _ H)]. intros id r Hr. rewrite save_lookup in Hr by done.
  change (sessions (saveState rng e)) with (sessions e). destruct (sessions e !! id); [by eexists|done].
Qed.

Lemma disk_lookup e id : engine_inv e -> disk (saveState rng e) !! id = json_record <$> (record <$> sessions e !! id).
Proof. intros H. rewrite <- (save_lookup e id H). cbn. by rewrite lookup_fmap. Qed.

(** ** Every operation keeps the identities *)

Lemma hex_text s : json_string (hex_EncodeToString s) = hex_EncodeToString s.
Proof.
  apply json_string_valid, ascii_valid. unfold hex_EncodeToString.
  assert (Hd : forall d, 0 <= d < 16 -> u8 (hex_digit d) < 0x80).
  { intros d Hd. unfold hex_digit. destruct (d <? 10) eqn:E; rewrite u8_byte by lia; lia. }
  induction s as [|b s IH]; [done|]. cbn. pose proof (u8_range b). rewrite !Forall_cons. split_and!; [| |done]; apply Hd.
  - split; [apply Z.div_pos; lia|apply Z.div_lt_upper_bound; lia].
  - apply Z.mod_pos_bound. lia.
Qed.

Lemma id_text (sha1 sha256 : bytes -> bytes) u file id : InfoHashHex sha1 sha256 u file = Ok id -> json_string id = id.
Proof.
  unfold InfoHashHex. destruct (magnet_Parse u); [intros [= <-]; apply hex_text|].
  destruct file; [|done]. destruct (Parse _ _ _); [intros [= <-]; apply hex_text|done].
Qed.

Lemma InfoHash_ok (sha1 sha256 : bytes -> bytes) source u file now e : engine_inv e ->
  engine_inv (AddTorrent rng sha1 sha256 source u file now e).1.
Proof.
  intros H. unfold AddTorrent. destruct (InfoHashHex sha1 sha256 u file) as [id|] eqn:Eid; [|done].
  destruct (sessions e !! id) eqn:E; [done|]. destruct (_ <=? _); [done|].
  destruct (match match file with Some _ => _ | None => _ end with Some _ => _ | None => _ end) as [[name data] total].
  cbn [fst]. apply inv_startQueued, inv_save. split; cbn [sessions store with_sessions].
  - intros k s [[<- <-]|[_ Hk]]%lookup_insert_Some; [done|by apply (inv_ids _ H)].
  - intros k r Hr. destruct (decide (id = k)) as [->|]; [rewrite lookup_insert_eq; by eexists|].
    rewrite lookup_insert_ne by done. by apply (inv_store _ H k r).
  - intros k [s [[<- _]|[_ Hk]]%lookup_insert_Some]; [by eapply id_text|apply (inv_text _ H); by eexists].
Qed.

Lemma inv_remove id e : engine_inv e -> engine_inv (RemoveTorrent rng id e).1.
Proof.
  intros H. unfold RemoveTorrent. destruct (sessions e !! id) eqn:E; [|done]. cbn [fst].
  apply inv_startQueued.
  assert (H1 : engine_inv (mkEngine (delete id (sessions e)) (Delete id (store e)) (disk e) (MaxActive e) (next_proc e))).
  { split; cbn; unfold Delete.
    - intros k s' [_ Hk]%lookup_delete_Some. by apply (inv_ids _ H).
    - intros k r [Hne Hr]%lookup_delete_Some. rewrite lookup_delete_ne by done. by apply (inv_store _ H k r).
    - intros k [s' [_ Hk]%lookup_delete_Some]. apply (inv_text _ H). by eexists. }
  eapply (inv_frame_same _ _ H1); [|done]. unfold compactQueueLocked.
  cbn [sessions Save with_sessions on_session]. rewrite delete_alter_eq. apply id_frame_renumber.
Qed.

Lemma id_frame_shift id p n m : id_frame m (map_imap (shift_to id p n) m).
Proof.
  apply id_frame_imap. intros k s. eexists. split; [reflexivity|].
  destruct (bool_decide _); [done|]. destruct (p <? n); by destruct (_ && _).
Qed.

Lemma inv_swap a b e : engine_inv e -> engine_inv (swapQueuePositions rng a b e).
Proof.
  intros H. unfold swapQueuePositions. apply inv_startQueued, inv_save. eapply (inv_frame_same e); [done|..].
  - destruct (at_position rng a e), (at_position rng b e); cbn; try done; [|by apply id_frame_alter..].
    etrans; by apply id_frame_alter.
  - by destruct (at_position rng a e), (at_position rng b e).
Qed.

Lemma store_inv_exec sha1 sha256 o e : engine_inv e -> engine_inv (exec sha1 sha256 rng o e).1.
Proof.
  intros H. destruct o; cbn [exec].
  - by apply InfoHash_ok.
  - by apply inv_remove.
  - unfold PauseTorrent. destruct (sessions e !! id); [|done]. cbn [fst]. apply inv_startQueued, inv_save.
    eapply (inv_frame_same e); [done| |done]. apply frame_id, frame_on_session, frame_Pause.
  - unfold ResumeTorrent. destruct (sessions e !! id) as [s|]; [|done]. destruct (_ && _); [done|]. cbn [fst].
    apply inv_save. eapply (inv_frame_same e); [done|..]; [|by destruct (_ <? _)].
    destruct (_ <? _); [etrans; [|apply frame_id, frame_start]|]; apply frame_id; by apply frame_on_session.
  - unfold QueueTop, setQueuePosition. destruct (sessions e !! id) as [s|]; [|done]. destruct (_ =? _); [done|].
    cbn [fst]. apply inv_startQueued, inv_save. eapply (inv_frame_same e); [done|apply id_frame_shift|done].
  - unfold QueueUp. destruct (sessions e !! id) as [s|]; [|done]. destruct (_ <=? _); [done|]. by apply inv_swap.
  - unfold QueueDown. destruct (sessions e !! id) as [s|]; [|done]. destruct (_ <=? _); [done|]. by apply inv_swap.
  - unfold QueueBottom. destruct (sessions e !! id) as [s|]; [|done]. destruct (_ =? _); [done|].
    eapply (inv_frame_same e); [done| |done]. apply id_frame_imap. intros k s'. eexists. split; [reflexivity|].
    destruct (bool_decide _); [done|]. by destruct (_ && _).
  - unfold SetFilePriority. destruct (_ && _); [done|]. destruct (_ <? 0); [done|].
    destruct (sessions e !! id) as [s|]; [|done]. destruct (metainfo _ _ s); [|done]. destruct (_ <=? fileIndex); [done|].
    cbn [fst]. apply inv_save. eapply (inv_frame_same e); [done| |done]. by apply id_frame_alter.
  - unfold SetMaxActive. apply inv_startQueued. by eapply (inv_frame_same e).
  - unfold orchestrate. destruct (_ || _); [done|]. apply inv_save, inv_startQueued.
    eapply (inv_frame_same e); [done|apply id_frame_renumber|done].
  - unfold proc_setState. destruct (sessions e !! id); [|done]. destruct (bool_decide _); [|done].
    eapply (inv_frame_same e); [done| |done]. by apply id_frame_alter.
  - unfold proc_exit. destruct (sessions e !! id); [|done]. destruct (bool_decide _); [|done].
    apply inv_startQueued, inv_save. eapply (inv_frame_same e); [done| |done].
    apply frame_id, frame_on_session, frame_exit.
  - by apply inv_save.
Qed.
End Save.

(** ** Restoring *)

Lemma restore_record rng r e id :
  record <$> sessions (restore_one rng r e) !! id = if bool_decide (id = ID r) then Some r else record <$> sessions e !! id.
Proof.
  unfold restore_one.
  assert (Hs : forall e', record <$> sessions (startSession (ID r) e') !! id = record <$> sessions e' !! id).
  { intros e'. cbn. destruct (decide (id = ID r)) as [->|Hne]; [rewrite lookup_alter_eq|by rewrite lookup_alter_ne].
    by destruct (sessions e' !! ID r). }
  assert (Hi : record <$> <[ID r := mkSession r None None ∅]> (sessions e) !! id =
    if bool_decide (id = ID r) then Some r else record <$> sessions e !! id).
  { case_bool_decide as E; [subst; by rewrite lookup_insert_eq|by rewrite lookup_insert_ne]. }
  destruct (resumable _); [|exact Hi]. destruct (_ <? _); [|exact Hi]. rewrite Hs. exact Hi.
Qed.

Lemma Start_record rng recs : forall e, NoDup (ID <$> recs) ->
  (forall r, r ∈ recs -> record <$> sessions (Start rng recs e) !! ID r = Some r) /\
  (forall id, id ∉ ID <$> recs -> record <$> sessions (Start rng recs e) !! id = record <$> sessions e !! id).
Proof.
  induction recs as [|x recs IH]; intros e Hnd; [split; [by intros r ?%not_elem_of_nil|done]|].
  rewrite fmap_cons in Hnd. apply NoDup_cons in Hnd as [Hx Hnd]. destruct (IH (restore_one rng x e) Hnd) as [I1 I2].
  unfold Start in *. cbn [foldl]. split.
  - intros r [->|Hr]%elem_of_cons; [|by apply I1]. rewrite I2 by done. by rewrite restore_record, bool_decide_eq_true_2.
  - intros id Hid. rewrite fmap_cons, not_elem_of_cons in Hid. destruct Hid as [Hne Hni].
    rewrite I2 by done. by rewrite restore_record, bool_decide_eq_false_2.
Qed.

Lemma queue_records m m' l : (forall id s, m !! id = Some s -> json_string (ID (record s)) = ID (record s)) ->
  (forall id, record <$> m' !! id = json_record <$> (record <$> m !! id)) -> queue_is m l -> queue_is m' l.
Proof.
  intros Hi Hr. apply frame_queue. intros id. specialize (Hr id). specialize (Hi id).
  destruct (m !! id) as [s|], (m' !! id); cbn in *; try done. unfold position. injection Hr as ->. cbn. by rewrite (Hi s eq_refl).
Qed.

Lemma store_inv_run sha1 sha256 ops : Forall (fun o => valid_rng o.1) ops ->
  forall e, engine_inv e -> engine_inv (run_ops sha1 sha256 ops e).
Proof.
  induction 1 as [|[rng o] ops Hr Hops IH]; intros e H; [done|]. cbn. apply IH. by apply store_inv_exec.
Qed.

Lemma inv_engine0 n : engine_inv (engine0 n).
Proof. split; [done|done|]. by intros id [? ?]. Qed.

(** The strings of a record are UTF-8. *)
Definition text_ok (r : TorrentRecord) : bool :=
  ValidString (Name_ r) && ValidString (Source r) && ValidString (SavePath r) && ValidString (Error_ r).

Lemma json_record_id r : json_string (ID r) = ID r -> text_ok r = true -> json_record r = r.
Proof.
  intros Hi [[[Hn Hs]%andb_true_iff Hp]%andb_true_iff He]%andb_true_iff. unfold json_record. rewrite Hi.
  apply json_string_valid in Hn as ->, Hs as ->, Hp as ->, He as ->. by destruct r.
Qed.

(** ** Properties *)

(** C30: what the engine saves is what it restores: after any operations and a save of its state that was written (not the save
    inside of [RemoveTorrent], which comes before the queue is compacted), an engine started from the records on disk, in whatever order
    they are read and restored, has the same torrents with the same records, so also the same
    queue, except that in the name, source, path and error what is not UTF-8 became U+FFFD; a record whose strings are
    UTF-8 comes back as it was. *)
Theorem Restart_restores sha1 sha256 n n' ops rng rng' recs :
  Forall (fun o => valid_rng o.1) ops -> valid_rng rng ->
  let e := run_ops sha1 sha256 ops (engine0 n) in
  recs ≡ₚ (map_to_list (disk (saveState rng e))).*2 ->
  let e' := Start rng' recs (engine0 n') in
  (forall id, record <$> sessions e' !! id = json_record <$> (record <$> sessions e !! id)) /\
  (forall id s, sessions e !! id = Some s -> text_ok (record s) = true -> record <$> sessions e' !! id = Some (record s)) /\
  queue_is (sessions e') (run_queue sha1 sha256 ops []).
Proof.
  intros Hops Hrng e Hrecs e'.
  assert (He : engine_inv e) by (apply store_inv_run; [done|apply inv_engine0]).
  set (d := disk (saveState rng e)) in *.
  assert (Hd : forall id, d !! id = json_record <$> (record <$> sessions e !! id)) by (intros id; by apply disk_lookup).
  assert (Hid : forall k r, d !! k = Some r -> ID r = k).
  { intros k r. rewrite Hd. destruct (sessions e !! k) as [s|] eqn:E; [|done]. intros [= <-]. cbn.
    rewrite (inv_ids _ He _ _ E). apply (inv_text _ He). by eexists. }
  assert (Hkeys : ID <$> (map_to_list d).*2 = (map_to_list d).*1).
  { rewrite <- list_fmap_compose. apply list_fmap_ext. intros i [k r] Hi. cbn. apply Hid.
    apply elem_of_map_to_list, list_elem_of_lookup. by exists i. }
  assert (Hnd : NoDup (ID <$> recs)) by (rewrite Hrecs, Hkeys; apply NoDup_fst_map_to_list).
  assert (Hrec : forall id, record <$> sessions e' !! id = json_record <$> (record <$> sessions e !! id)).
  { intros id. destruct (Start_record rng' recs (engine0 n') Hnd) as [I1 I2]. rewrite <- Hd.
    destruct (d !! id) as [r|] eqn:E.
    - rewrite <- (Hid _ _ E). apply I1. rewrite Hrecs. apply list_elem_of_fmap. exists (id, r).
      split; [done|by apply elem_of_map_to_list].
    - unfold e'. rewrite I2; [done|]. rewrite Hrecs, Hkeys, list_elem_of_fmap.
      intros ([k r] & -> & Hk%elem_of_map_to_list). cbn [fst] in E. rewrite Hk in E. discriminate. }
  assert (Htext : forall id s, sessions e !! id = Some s -> json_string (ID (record s)) = ID (record s)).
  { intros id s Hs. rewrite (inv_ids _ He _ _ Hs). apply (inv_text _ He). by eexists. }
  split; [done|]. split.
  - intros id s Hs Ht. rewrite Hrec, Hs. cbn. f_equal. apply json_record_id; [by eapply Htext|done].
  - eapply queue_records; [exact Htext|exact Hrec|]. apply run_queue_is; [done|apply queue_empty].
Qed.

Lemma Restart_restores_witness :
  exists recs, length recs = 3%nat /\ queue_is (sessions (Start keys recs (engine0 5))) demo_queue.
Proof.
  exists (map_to_list (disk (saveState keys (run_ops id id demo_ops (engine0 1))))).*2.
  split; [vm_compute; reflexivity|].
  assert (Hl : run_queue id id demo_ops [] = demo_queue) by (vm_compute; reflexivity). rewrite <- Hl.
  refine (proj2 (proj2 (Restart_restores id id 1 5 demo_ops keys keys _ _ keys_valid _))).
  - apply Forall_fmap, Forall_true. intros x. apply keys_valid.
  - reflexivity.
Defined.

(** An operation that fails changes nothing, and each error has its cause: an id
    the engine does not have, a source it cannot read, the session limit, a torrent
    that is neither paused nor failed, a priority or file index out of range. *)
Lemma Engine_errors sha1 sha256 rng o e e' err :
  exec sha1 sha256 rng o e = (e', Err err) ->
  e' = e /\
  match err with
  | SourceError se => exists source u file now,
      o = OAdd source u file now /\ InfoHashHex sha1 sha256 u file = Err se
  | SessionLimit => MaxSessions <= Z.of_nat (base.size (sessions e))
  | NotFound id => sessions e !! id = None
  | CannotResume id st => exists s, sessions e !! id = Some s /\ state s = st /\ st <> StatePaused /\ st <> StateError
  | InvalidPriority p => p <> PriorityNormal /\ p <> PrioritySkip
  | InvalidFileIndex i => i < 0
  | MetadataUnresolved id => exists s, sessions e !! id = Some s /\ metainfo sha1 sha256 s = None
  | FileIndexRange i n => exists id s t, sessions e !! id = Some s /\ metainfo sha1 sha256 s = Some t /\
      n = Z.max 1 (len (Files (t_Info t))) /\ n <= i
  end.
Proof.
  destruct o; cbn [exec].
  - unfold AddTorrent. destruct (InfoHashHex sha1 sha256 u file) as [id|se] eqn:E.
    + destruct (sessions e !! id); [done|]. destruct (Z.leb_spec MaxSessions (Z.of_nat (base.size (sessions e)))).
      * by intros [= <- <-].
      * destruct (match match file with Some _ => _ | None => _ end with Some _ => _ | None => _ end) as [[name data] total].
        done.
    + intros [= <- <-]. split; [done|]. by exists source, u, file, now.
  - unfold RemoveTorrent. destruct (sessions e !! id) eqn:E; by intros [= <- <-].
  - unfold PauseTorrent. destruct (sessions e !! id) eqn:E; by intros [= <- <-].
  - unfold ResumeTorrent. destruct (sessions e !! id) as [s|] eqn:E; [|by intros [= <- <-]].
    destruct (bool_decide_reflect (state s = StatePaused)); [done|].
    destruct (bool_decide_reflect (state s = StateError)); [done|]. intros [= <- <-]. split; [done|]. by exists s.
  - unfold QueueTop, setQueuePosition. destruct (sessions e !! id) eqn:E; [|by intros [= <- <-]]. by destruct (_ =? _).
  - unfold QueueUp. destruct (sessions e !! id) eqn:E; [|by intros [= <- <-]]. by destruct (_ <=? _).
  - unfold QueueDown. destruct (sessions e !! id) eqn:E; [|by intros [= <- <-]]. by destruct (_ <=? _).
  - unfold QueueBottom. destruct (sessions e !! id) eqn:E; [|by intros [= <- <-]]. by destruct (_ =? _).
  - unfold SetFilePriority. destruct (Z.eqb_spec priority PriorityNormal); cbn [negb andb].
    all: try (destruct (Z.eqb_spec priority PrioritySkip); cbn [negb andb]; [|by intros [= <- <-]]).
    all: destruct (Z.ltb_spec fileIndex 0); [by intros [= <- <-]|].
    all: destruct (sessions e !! id) as [s|] eqn:E; [|by intros [= <- <-]].
    all: destruct (metainfo sha1 sha256 s) as [t|] eqn:Et; [|intros [= <- <-]; split; [done|]; by exists s].
    all: destruct (Z.leb_spec (if len (Files (t_Info t)) =? 0 then 1 else len (Files (t_Info t))) fileIndex); [|done].
    all: intros [= <- <-]; split; [done|]; exists id, s, t; split_and!; [done|done| |done].
    all: destruct (Z.eqb_spec (len (Files (t_Info t))) 0); lia.
  - done.
  - done.
  - done.
  - done.
  - done.
Qed.

Lemma Engine_errors_witness :
  exec id id keys (OPause (lit "ab")) (engine0 1) = (engine0 1, Err (NotFound (lit "ab"))) /\
  sessions (engine0 1) !! lit "ab" = None.
Proof.
  assert (H : exec id id keys (OPause (lit "ab")) (engine0 1) = (engine0 1, Err (NotFound (lit "ab"))))
    by (vm_compute; reflexivity).
  split; [exact H|]. exact (proj2 (Engine_errors id id keys (OPause (lit "ab")) (engine0 1) _ _ H)).
Defined.

(** ** Behaviour of the goroutines *)

(** One active torrent and its goroutine 0. *)
Definition one_ops (ops : list op) : engine := run_ops id id ((keys,.) <$> (demo_add x01 :: ops)) (engine0 1).

(** A pause during verification is overwritten when the verification ends: the torrent
    is left downloading without a goroutine, holds the only slot and cannot be resumed. *)
Example pause_while_verifying_lost :
  let e := one_ops [OProcState (demo_id x01) 0 StateVerifying; OPause (demo_id x01);
                    OProcState (demo_id x01) 0 StateDownloading; OProcExit (demo_id x01) 0 None] in
  (fun s => (state s, cancel s, base.size (procs s))) <$> sessions e !! demo_id x01 =
    Some (StateDownloading, None, 0%nat) /\
  activeCount keys e = 1 /\
  (exec id id keys (OResume (demo_id x01)) e).2 = Err (CannotResume (demo_id x01) StateDownloading).
Proof. vm_compute. split_and!; reflexivity. Qed.

(** A goroutine that ends after its torrent was paused and resumed clears the cancel
    function of its successor; the torrent is started again and runs twice. *)
Example stale_exit_starts_twice :
  let e := one_ops [OPause (demo_id x01); OResume (demo_id x01); OProcExit (demo_id x01) 0 None] in
  (fun s => procs s) <$> sessions e !! demo_id x01 = Some (<[2%nat := false]> {[1%nat := false]}).
Proof. vm_compute. reflexivity. Qed.

(** A restored download counts as active before it is started, so with a limit of one
    it is never started. *)
Example restored_download_not_started :
  let r := mkRecord (demo_id x01) [] [] [] 0 StateDownloading 0 0 0 [] [] [] [] 0 in
  (isRunning <$> sessions (Start keys [r] (engine0 1)) !! demo_id x01) = Some false.
Proof. vm_compute. reflexivity. Qed.

(** Removing a torrent writes the store before the compacted positions reach it: the
    file keeps a hole in the queue. *)
Example remove_saves_hole :
  let e := run_ops id id ((keys,.) <$> [demo_add x01; demo_add x02; ORemove (demo_id x01)]) (engine0 1) in
  (QueuePosition <$> disk e !! demo_id x02) = Some 1 /\ pos_of (sessions e) (demo_id x02) = Some 0.
Proof. vm_compute. split; reflexivity. Qed.

(** The path of a torrent whose name is not UTF-8 is another one after a restart: the files are not found there. *)
Example path_not_restored :
  let r := mkRecord (lit "ab") [xff] [] (lit "/dl/" ++ [xff]) 1 StateSeeding 0 0 0 [] [] [] [] 0 in
  SavePath (json_record r) = lit "/dl/" ++ [xef; xbf; xbd].
Proof. vm_compute. reflexivity. Qed.
