(* ===== verification/DhtNode.v ===== *)
(** * [dht]: the node ([dht/node.go])

    Routing of packets, answers to queries, tokens, pending transactions and the
    iterative lookup.  Times, random secrets and transaction ids are arguments.
    The answers to the queries of a round are processed by concurrent goroutines:
    their critical sections are the steps here, in the order they happen. *)

From S2P Require Import Prelude Strconv Net Bencode Dht Tracker.
Set Warnings "-clear-no-such-hyp".
Local Open Scope Z_scope.

Definition DefaultAlpha : Z := 8.
Definition MaxLookupNodes : Z := 1000.
Definition MaxLookupPeers : Z := 5000.
Definition PendingTTL : Z := 15 * 10 ^ 9.

Record DHT := mkDHT {
  d_id : ID; table : RoutingTable; tableV6 : RoutingTable; alpha : Z;
  pending : gmap bytes Z;   (** transaction id to creation time *)
  tokenSecret : bytes; tokenSecretOld : bytes
}.

Definition with_tables (t4 t6 : RoutingTable) (d : DHT) : DHT :=
  mkDHT (d_id d) t4 t6 (alpha d) (pending d) (tokenSecret d) (tokenSecretOld d).
Definition with_pending (p : gmap bytes Z) (d : DHT) : DHT :=
  mkDHT (d_id d) (table d) (tableV6 d) (alpha d) p (tokenSecret d) (tokenSecretOld d).

Definition rotateToken (secret : bytes) (d : DHT) : DHT :=
  mkDHT (d_id d) (table d) (tableV6 d) (alpha d) (pending d) secret (tokenSecret d).

(** [New] with the alpha of [WithAlpha], if given. *)
Definition New (id : ID) (secret : bytes) (withAlpha : option Z) : DHT :=
  let a := match withAlpha with Some a => if 0 <? a then a else DefaultAlpha | None => DefaultAlpha end in
  rotateToken secret
    (mkDHT id (NewRoutingTable id) (NewRoutingTable id) a ∅ (replicate 20 x00) (replicate 20 x00)).

Definition updateNode (now : Z) (n : Node) (d : DHT) : DHT :=
  match To4 (a_IP (n_Addr n)) with
  | Some _ => with_tables (Update now n (table d)) (tableV6 d) d
  | None => match To16 (a_IP (n_Addr n)) with
            | Some _ => with_tables (table d) (Update now n (tableV6 d)) d
            | None => d
            end
  end.

(** ** Tokens *)

Section Tokens.
Context (sha1 : bytes -> bytes).

Definition token_of (ip secret : bytes) : bytes := take 8 (sha1 (ip ++ secret)).
Definition makeToken (addr : UDPAddr) (d : DHT) : bytes := token_of (a_IP addr) (tokenSecret d).
Definition validateToken (addr : UDPAddr) (token : bytes) (d : DHT) : bool :=
  existsb (fun secret => bool_decide (token_of (a_IP addr) secret = token)) [tokenSecret d; tokenSecretOld d].

(** ** Queries answered *)

Definition str_arg (a : option (gmap bytes any)) (k : string) : bytes :=
  default [] (as_str (default ∅ a !! lit k)).

Definition parseWant (a : option (gmap bytes any)) : bool * bool :=
  match as_list (default ∅ a !! lit "want") with
  | None => (true, false)
  | Some want =>
      let '(v4, v6) := foldl (fun '(v4, v6) v =>
        match v with
        | AStr s => (v4 || bool_decide (s = lit "n4"), v6 || bool_decide (s = lit "n6"))
        | _ => (v4, v6)
        end) (false, false) want in
      if negb v4 && negb v6 then (true, false) else (v4, v6)
  end.

Definition closestAsCompact (rt : RoutingTable) (target : ID) : list CompactNodeInfo :=
  (fun n => mkNodeInfo (n_ID n) (n_Addr n)) <$> Closest rt target (Z.to_nat K).

(** The bytes sent; an encoding error sends an empty packet. *)
Definition encode_or_empty (m : KRPCMessage) : bytes :=
  match EncodeKRPC m with Ok b => b | Err _ => [] end.

(** The node lists of [respondFindNode] and [respondGetPeers]. *)
Definition add_nodes (want : bool * bool) (target : ID) (d : DHT) (r : gmap bytes any) : gmap bytes any :=
  let r := if want.1
           then <[lit "nodes" := AStr (MarshalCompactNodeInfo (closestAsCompact (table d) target))]> r else r in
  if want.2
  then <[lit "nodes6" := AStr (MarshalCompactNodeInfo6 (closestAsCompact (tableV6 d) target))]> r else r.

Definition respondPing (txnID : bytes) (d : DHT) : KRPCMessage :=
  NewResponse txnID {[ lit "id" := AStr (d_id d) ]}.

Definition respondFindNode (msg : KRPCMessage) (d : DHT) : option KRPCMessage :=
  let targetStr := str_arg (A msg) "target" in
  if negb (len targetStr =? 20) then None
  else Some (NewResponse (T msg)
               (add_nodes (parseWant (A msg)) (IDFromBytes targetStr) d {[ lit "id" := AStr (d_id d) ]})).

Definition respondGetPeers (msg : KRPCMessage) (addr : UDPAddr) (d : DHT) : option KRPCMessage :=
  let infoHashStr := str_arg (A msg) "info_hash" in
  if negb (len infoHashStr =? 20) then None
  else Some (NewResponse (T msg)
               (add_nodes (parseWant (A msg)) (IDFromBytes infoHashStr) d
                  {[ lit "id" := AStr (d_id d); lit "token" := AStr (makeToken addr d) ]})).

Definition respondAnnouncePeer (msg : KRPCMessage) (addr : UDPAddr) (d : DHT) : option KRPCMessage :=
  if negb (validateToken addr (str_arg (A msg) "token") d) then None
  else Some (NewResponse (T msg) {[ lit "id" := AStr (d_id d) ]}).

Definition handleQuery (now : Z) (msg : KRPCMessage) (addr : UDPAddr) (d : DHT) : DHT * option KRPCMessage :=
  let d := match as_str (default ∅ (A msg) !! lit "id") with
           | Some idStr => if len idStr =? 20 then updateNode now (mkNode (IDFromBytes idStr) addr 0) d else d
           | None => d
           end in
  (d, if bool_decide (Q msg = lit "ping") then Some (respondPing (T msg) d)
      else if bool_decide (Q msg = lit "find_node") then respondFindNode msg d
      else if bool_decide (Q msg = lit "get_peers") then respondGetPeers msg addr d
      else if bool_decide (Q msg = lit "announce_peer") then respondAnnouncePeer msg addr d
      else None).

(** The message a waiting query receives, if any. *)
Definition handleResponse (msg : KRPCMessage) (d : DHT) : DHT * option KRPCMessage :=
  match pending d !! T msg with
  | Some _ => (with_pending (delete (T msg) (pending d)) d, Some msg)
  | None => (d, None)
  end.

(** What a datagram leads to: an answer on the wire, or a message for a waiting query. *)
Inductive effect := Send (data : bytes) | Deliver (msg : KRPCMessage) | Nothing.

Definition readLoop_packet (now : Z) (data : bytes) (addr : UDPAddr) (d : DHT) : DHT * effect :=
  match DecodeKRPC data with
  | Err _ => (d, Nothing)
  | Ok msg =>
      if bool_decide (Y msg = lit "r") || bool_decide (Y msg = lit "e") then
        match handleResponse msg d with (d, Some m) => (d, Deliver m) | (d, None) => (d, Nothing) end
      else if bool_decide (Y msg = lit "q") then
        match handleQuery now msg addr d with
        | (d, Some m) => (d, Send (encode_or_empty m))
        | (d, None) => (d, Nothing)
        end
      else (d, Nothing)
  end.
End Tokens.

(** ** Queries sent *)

Definition sendQuery (now : Z) (msg : KRPCMessage) (d : DHT) : DHT * option bytes :=
  match EncodeKRPC msg with
  | Ok data => (with_pending (<[T msg := now]> (pending d)) d, Some data)
  | Err _ => (with_pending (delete (T msg) (pending d)) d, None)
  end.

Definition cleanStalePending (now ttl : Z) (d : DHT) : DHT :=
  with_pending (filter (fun kv => now - ttl <= kv.2) (pending d)) d.

(** ** Lookups *)

Abbreviation nodeEntry := (Node * bool)%type.

Record lookup_state := mkLookup {
  seen : gmap ID nodeEntry; allPeers : list bytes; l_dht : DHT
}.

Definition seed (v4 v6 : list Node) : gmap ID nodeEntry :=
  let s := foldl (fun (s : gmap ID nodeEntry) n => <[n_ID n := (n, false)]> s) ∅ v4 in
  foldl (fun (s : gmap ID nodeEntry) n =>
    match s !! n_ID n with Some _ => s | None => <[n_ID n := (n, false)]> s end) s v6.

(** The inner loop of [sortEntries] on the reversed sorted prefix. *)
Fixpoint shift_entry (target : ID) (key : nodeEntry) (rprefix : list nodeEntry) : list nodeEntry :=
  match rprefix with
  | e :: rprefix' =>
      if Less (Distance (n_ID key.1) target) (Distance (n_ID e.1) target)
      then e :: shift_entry target key rprefix' else key :: rprefix
  | [] => [key]
  end.
Definition sortEntries (entries : list nodeEntry) (target : ID) : list nodeEntry :=
  rev (foldl (fun rprefix key => shift_entry target key rprefix) [] entries).

(** The first [alpha] entries not queried yet, in order. *)
Fixpoint pick_unqueried (a : Z) (entries : list nodeEntry) (toQuery : list Node) : list Node :=
  match entries with
  | [] => toQuery
  | e :: entries =>
      if negb e.2 && (len toQuery <? a) then pick_unqueried a entries (toQuery ++ [e.1])
      else pick_unqueried a entries toQuery
  end.

Definition mark_queried (toQuery : list Node) (s : gmap ID nodeEntry) : gmap ID nodeEntry :=
  foldl (fun s n => alter (fun e : nodeEntry => (e.1, true)) (n_ID n) s) s toQuery.

(** The critical sections of a goroutine that got an answer. *)
Inductive part :=
  | PUpdate (n : Node)
  | PPeers (p : list bytes)
  | PNodes (nodes : list CompactNodeInfo).

Definition parts_of (getPeers : bool) (n : Node) (resp : option KRPCMessage) : list part :=
  match resp with
  | Some m =>
      if bool_decide (Y m = lit "e") then []
      else match R m with
           | None => []
           | Some r =>
               (match as_str (r !! lit "id") with
                | Some idStr => if len idStr =? 20 then [PUpdate (mkNode (IDFromBytes idStr) (n_Addr n) 0)] else []
                | None => []
                end) ++
               (if getPeers then
                  match as_list (r !! lit "values") with
                  | Some values => [PPeers (ParseCompactPeers values)] | None => [] end
                else []) ++
               (match as_str (r !! lit "nodes") with
                | Some s => match UnmarshalCompactNodeInfo s with Ok ns => [PNodes ns] | Err _ => [] end
                | None => []
                end) ++
               (match as_str (r !! lit "nodes6") with
                | Some s => match UnmarshalCompactNodeInfo6 s with Ok ns => [PNodes ns] | Err _ => [] end
                | None => []
                end)
           end
  | None => []
  end.

(** The loop over returned nodes stops at the limit. *)
Fixpoint add_seen (now : Z) (nodes : list CompactNodeInfo) (st : lookup_state) : lookup_state :=
  match nodes with
  | [] => st
  | ni :: nodes =>
      if MaxLookupNodes <=? Z.of_nat (size (seen st)) then st
      else match seen st !! ni_ID ni with
           | Some _ => add_seen now nodes st
           | None =>
               let node := mkNode (ni_ID ni) (ni_Addr ni) 0 in
               add_seen now nodes
                 (mkLookup (<[ni_ID ni := (node, false)]> (seen st)) (allPeers st)
                    (updateNode now node (l_dht st)))
           end
  end.

Definition apply_part (now : Z) (st : lookup_state) (p : part) : lookup_state :=
  match p with
  | PUpdate n => mkLookup (seen st) (allPeers st) (updateNode now n (l_dht st))
  | PPeers p =>
      let space := MaxLookupPeers - len (allPeers st) in
      if 0 <? space then
        mkLookup (seen st) (allPeers st ++ (if space <? len p then slice p 0 space else p)) (l_dht st)
      else st
  | PNodes nodes => add_seen now nodes st
  end.

(** What happens in a round besides the code: the iteration order of [seen], whether the
    lookup is over by time or shutdown, and the critical sections performed. *)
Record round_env := mkRoundEnv {
  r_rng : gmap ID nodeEntry -> list nodeEntry; r_stop : bool; r_now : Z; r_parts : list Node -> list part
}.

(** The nodes a round queries. *)
Definition round_query (target : ID) (env : round_env) (st : lookup_state) : list Node :=
  pick_unqueried (alpha (l_dht st)) (sortEntries (r_rng env (seen st)) target) [].

(** The rounds of [iterativeLookup]; also the nodes queried, round by round. *)
Fixpoint lookup_rounds (target : ID) (getPeers : bool) (rounds : list round_env) (st : lookup_state)
    : lookup_state * list (list Node) :=
  match rounds with
  | [] => (st, [])
  | env :: rounds =>
      if r_stop env then (st, [])
      else
        let toQuery := round_query target env st in
        let st := mkLookup (mark_queried toQuery (seen st)) (allPeers st) (l_dht st) in
        if len toQuery =? 0 then (st, [])
        else
          let st := foldl (apply_part (r_now env)) st (r_parts env toQuery) in
          if getPeers && (0 <? len (allPeers st)) then (st, [toQuery])
          else let '(st, qs) := lookup_rounds target getPeers rounds st in (st, toQuery :: qs)
  end.

Definition max_rounds : nat := 10.

(** [None] when both tables are empty. *)
Definition iterativeLookup (target : ID) (getPeers : bool) (envs : list round_env) (d : DHT)
    : option (lookup_state * list (list Node)) :=
  let v4 := Closest (table d) target (Z.to_nat K) in
  let v6 := Closest (tableV6 d) target (Z.to_nat K) in
  if (len v4 =? 0) && (len v6 =? 0) then None
  else Some (lookup_rounds target getPeers (take max_rounds envs) (mkLookup (seed v4 v6) [] d)).

(** [FilterPrivatePeers] on [host:port] strings; [split] is [net.SplitHostPort]. *)
Definition dht_FilterPrivatePeers (split : bytes -> option (bytes * bytes)) (ParseIP : bytes -> option IP)
    (peers : list bytes) : list bytes :=
  filter (fun p => match split p with
                   | Some (host, _) => match ParseIP host with Some ip => negb (reserved ip) | None => false end
                   | None => false
                   end = true) peers.

Definition GetPeers (split : bytes -> option (bytes * bytes)) (ParseIP : bytes -> option IP)
    (infoHash : ID) (envs : list round_env) (d : DHT) : option (list bytes) :=
  '(st, _) ← iterativeLookup infoHash true envs d;
  Some (dht_FilterPrivatePeers split ParseIP (allPeers st)).

(** ** Bootstrap *)

(** What the wait for one bootstrap node ends with. *)
Inductive boot_wait := BootAnswer (addr : UDPAddr) (resp : KRPCMessage) | BootTimeout | BootClosed.

Definition update_all (now : Z) (nodes : result dht_error (list CompactNodeInfo)) (d : DHT) : DHT :=
  match nodes with
  | Ok nodes => foldl (fun d ni => updateNode now (mkNode (ni_ID ni) (ni_Addr ni) 0) d) d nodes
  | Err _ => d
  end.

Definition boot_answer (now : Z) (addr : UDPAddr) (resp : KRPCMessage) (d : DHT) : DHT :=
  match R resp with
  | None => d
  | Some r =>
      let d := match as_str (r !! lit "id") with
               | Some idStr => if len idStr =? 20 then updateNode now (mkNode (IDFromBytes idStr) addr 0) d else d
               | None => d
               end in
      let d := match as_str (r !! lit "nodes") with
               | Some s => update_all now (UnmarshalCompactNodeInfo s) d | None => d end in
      match as_str (r !! lit "nodes6") with
      | Some s => update_all now (UnmarshalCompactNodeInfo6 s) d | None => d end
  end.

(** The collection of the answers; [false] when the node was closed meanwhile. *)
Fixpoint boot_collect (now : Z) (ws : list boot_wait) (d : DHT) : DHT * bool :=
  match ws with
  | [] => (d, true)
  | BootAnswer addr resp :: ws => boot_collect now ws (boot_answer now addr resp d)
  | BootTimeout :: ws => boot_collect now ws d
  | BootClosed :: _ => (d, false)
  end.

(** [Bootstrap] from the moment the queries are sent. *)
Definition Bootstrap (now : Z) (ws : list boot_wait) (envs : list round_env) (d : DHT) : DHT :=
  let '(d, open) := boot_collect now ws d in
  if open then match iterativeLookup (d_id d) false envs d with Some (st, _) => l_dht st | None => d end
  else d.
