(* ===== verification/DhtNodeTheorems.v ===== *)
(** * Properties of the DHT node

    The lookup asks the closest nodes it has not asked yet, never the same node
    twice, within fixed bounds whatever the network answers; a query and its
    answer fit together over the wire; tokens live for two secrets. *)

From S2P Require Import Prelude Strconv Net Bencode BencodeFacts Dht DhtTheorems Tracker DhtNode.
Set Warnings "-clear-no-such-hyp".
Local Open Scope Z_scope.

(** ** One round *)

Definition unqueried (e : nodeEntry) : bool := negb e.2.

Lemma pick_unqueried_eq a es : forall acc, pick_unqueried a es acc =
  acc ++ take (Z.to_nat (a - len acc)) (filter (fun e => unqueried e = true) es).*1.
Proof.
  induction es as [|e es IH]; intros acc; cbn [pick_unqueried].
  { change (filter (fun e => unqueried e = true) []) with (@nil nodeEntry). cbn [fmap list_fmap].
    by rewrite take_nil, app_nil_r. }
  rewrite filter_cons. change (negb e.2) with (unqueried e).
  destruct (decide (unqueried e = true)) as [->|E]; cbn [andb].
  - destruct (Z.ltb_spec (len acc) a).
    + rewrite IH, length_app, <- (assoc_L (++)). f_equal. cbn [length].
      replace (Z.to_nat (a - len acc)) with (S (Z.to_nat (a - Z.of_nat (length acc + 1)))) by lia. done.
    + rewrite IH. by replace (Z.to_nat (a - len acc)) with 0%nat by lia.
  - apply not_true_is_false in E. rewrite E. apply IH.
Qed.

(** Sorting entries is sorting their nodes. *)
Lemma shift_entry_fst target key l : (shift_entry target key l).*1 = shift_down target key.1 l.*1.
Proof. induction l as [|e l IH]; cbn; [done|]. destruct (Less _ _); cbn; [by rewrite IH|done]. Qed.

Lemma rev_fst (l : list nodeEntry) : (rev l).*1 = rev l.*1.
Proof. induction l as [|e l IH]; [done|]. cbn [rev fmap list_fmap]. by rewrite fmap_app, IH. Qed.

Lemma sortEntries_fst target es : (sortEntries es target).*1 = sortByDistance es.*1 target.
Proof.
  unfold sortEntries, sortByDistance. rewrite rev_fst. f_equal.
  enough (H : forall acc, (foldl (fun r k => shift_entry target k r) acc es).*1 =
    foldl (fun r k => shift_down target k r) acc.*1 es.*1) by apply (H []).
  induction es as [|e es IH]; intros acc; [done|]. cbn [foldl fmap list_fmap]. by rewrite IH, shift_entry_fst.
Qed.

Lemma shift_entry_perm target key l : shift_entry target key l ≡ₚ key :: l.
Proof.
  induction l as [|e l IH]; [done|]. cbn [shift_entry]. destruct (Less _ _); [|done].
  rewrite IH. apply Permutation_swap.
Qed.

Lemma sortEntries_perm es target : sortEntries es target ≡ₚ es.
Proof.
  unfold sortEntries. rewrite <- Permutation_rev.
  enough (H : forall acc, foldl (fun r k => shift_entry target k r) acc es ≡ₚ es ++ acc) by (by rewrite H, app_nil_r).
  induction es as [|e es IH]; intros acc; [done|]. cbn [foldl].
  rewrite IH, shift_entry_perm. cbn [app]. by rewrite Permutation_middle.
Qed.

(** ** The state of a lookup *)

(** Entries are filed under the id of their node. *)
Definition wf_seen (s : gmap ID nodeEntry) : Prop := forall k e, s !! k = Some e -> n_ID e.1 = k.

Definition valid_entries (rng : gmap ID nodeEntry -> list nodeEntry) : Prop :=
  forall s, rng s ≡ₚ (map_to_list s).*2.

Lemma entries_elem rng s e : valid_entries rng -> wf_seen s -> e ∈ rng s <-> s !! n_ID e.1 = Some e.
Proof.
  intros Hr Hw. rewrite (Hr s), list_elem_of_fmap. split.
  - intros ([k e'] & -> & Hk%elem_of_map_to_list). cbn. by rewrite (Hw _ _ Hk).
  - intros He. exists (n_ID e.1, e). split; [done|by apply elem_of_map_to_list].
Qed.

Lemma entries_ids rng s : valid_entries rng -> wf_seen s -> NoDup (n_ID <$> (rng s).*1).
Proof.
  intros Hr Hw. rewrite (Hr s).
  assert (E : n_ID <$> (map_to_list s).*2.*1 = (map_to_list s).*1); [|rewrite E; apply NoDup_fst_map_to_list].
  assert (Hin : forall k e, (k, e) ∈ map_to_list s -> n_ID e.1 = k)
    by (intros k e Hk%elem_of_map_to_list; by apply Hw).
  revert Hin. generalize (map_to_list s). induction l as [|[k e] l IH]; intros Hin; [done|].
  cbn [fmap list_fmap]. cbn. rewrite (Hin k e) by left. f_equal. apply IH. intros k' e' H. apply Hin. by right.
Qed.

Section Round.
Context (target : ID) (env : round_env) (st : lookup_state).
Context (Hrng : valid_entries (r_rng env)) (Hw : wf_seen (seen st)).

Lemma round_query_eq : round_query target env st =
  take (Z.to_nat (alpha (l_dht st)))
    (filter (fun e => unqueried e = true) (sortEntries (r_rng env (seen st)) target)).*1.
Proof. unfold round_query. rewrite pick_unqueried_eq. cbn [app length Z.of_nat]. by rewrite Z.sub_0_r. Qed.

Lemma round_query_elem n : n ∈ round_query target env st -> seen st !! n_ID n = Some (n, false).
Proof.
  rewrite round_query_eq. intros H. apply list_elem_of_lookup in H as [i [Hi _]%lookup_take_Some].
  apply list_elem_of_lookup_2, list_elem_of_fmap in Hi as (e & -> & [Hu He]%list_elem_of_filter).
  rewrite sortEntries_perm in He. apply (entries_elem _ _ _ Hrng Hw) in He. rewrite He.
  destruct e as [n q]. unfold unqueried in Hu. cbn in *. by destruct q.
Qed.

Lemma round_query_NoDup : NoDup (n_ID <$> round_query target env st).
Proof.
  rewrite round_query_eq, fmap_take. eapply sublist_NoDup; [|apply sublist_take].
  rewrite <- list_fmap_compose.
  assert (Hnd : NoDup ((n_ID ∘ fst) <$> sortEntries (r_rng env (seen st)) target)).
  { rewrite sortEntries_perm, list_fmap_compose. by apply entries_ids. }
  revert Hnd. generalize (sortEntries (r_rng env (seen st)) target).
  induction l as [|e l IH]; [done|]. rewrite fmap_cons, filter_cons. intros [Hx Hnd]%NoDup_cons.
  destruct (decide _); [|by apply IH]. rewrite fmap_cons. constructor; [|by apply IH].
  intros (e' & E & [_ He]%list_elem_of_filter)%list_elem_of_fmap. apply Hx. rewrite E.
  apply list_elem_of_fmap. by exists e'.
Qed.

Lemma round_query_length : len (round_query target env st) <= Z.max 0 (alpha (l_dht st)).
Proof. rewrite round_query_eq, length_take. lia. Qed.
End Round.

(** ** The bounds *)

(** What every step keeps. *)
Record lookup_ok (st : lookup_state) : Prop := {
  ok_seen : wf_seen (seen st);
  ok_nodes : Z.of_nat (size (seen st)) <= MaxLookupNodes;
  ok_peers : len (allPeers st) <= MaxLookupPeers
}.

(** Nodes once asked stay asked, and the concurrency does not change. *)
Definition later (st st' : lookup_state) : Prop :=
  (forall k n, seen st !! k = Some (n, true) -> seen st' !! k = Some (n, true)) /\
  alpha (l_dht st') = alpha (l_dht st).

#[export] Instance later_refl : Reflexive later.
Proof. by split. Qed.
#[export] Instance later_trans : Transitive later.
Proof. intros a b c [H1 E1] [H2 E2]. split; [auto|congruence]. Qed.

Lemma alpha_updateNode now n d : alpha (updateNode now n d) = alpha d.
Proof. unfold updateNode. destruct (To4 _); [done|]. by destruct (To16 _). Qed.

Lemma add_seen_ok now nodes : forall st, lookup_ok st -> lookup_ok (add_seen now nodes st) /\ later st (add_seen now nodes st).
Proof.
  induction nodes as [|ni nodes IH]; intros st H; cbn [add_seen]; [done|].
  destruct (Z.leb_spec MaxLookupNodes (Z.of_nat (size (seen st)))); [done|].
  destruct (seen st !! ni_ID ni) as [e|] eqn:E; [by apply IH|].
  set (st1 := mkLookup _ _ _). assert (H1 : lookup_ok st1).
  { split; cbn.
    - intros k e [[<- <-]|[_ Hk]]%lookup_insert_Some; [done|by apply (ok_seen _ H)].
    - rewrite map_size_insert_None by done. lia.
    - apply (ok_peers _ H). }
  destruct (IH st1 H1) as [Hok Hl]. split; [done|]. etrans; [|exact Hl]. split; cbn.
  - intros k n Hk. rewrite lookup_insert_ne; [done|]. intros <-. congruence.
  - apply alpha_updateNode.
Qed.

Lemma apply_part_ok now st p : lookup_ok st -> lookup_ok (apply_part now st p) /\ later st (apply_part now st p).
Proof.
  intros H. destruct p as [n|p|nodes]; cbn [apply_part].
  - split; [by split; apply H|]. split; [done|]. apply alpha_updateNode.
  - destruct (Z.ltb_spec 0 (MaxLookupPeers - len (allPeers st))); [|done]. split; [|done].
    split; [apply H..|]. cbn. rewrite length_app. pose proof (ok_peers _ H).
    destruct (Z.ltb_spec (MaxLookupPeers - len (allPeers st)) (len p)); [rewrite length_slice by lia|]; lia.
  - by apply add_seen_ok.
Qed.

Lemma apply_parts_ok now ps : forall st, lookup_ok st ->
  lookup_ok (foldl (apply_part now) st ps) /\ later st (foldl (apply_part now) st ps).
Proof.
  induction ps as [|p ps IH]; intros st H; [done|]. cbn [foldl].
  destruct (apply_part_ok now st p H) as [H1 L1]. destruct (IH _ H1) as [H2 L2].
  split; [done|]. by etrans.
Qed.

Lemma mark_lookup ns : forall s k,
  mark_queried ns s !! k = (fun e : nodeEntry => if bool_decide (k ∈ n_ID <$> ns) then (e.1, true) else e) <$> s !! k.
Proof.
  unfold mark_queried. induction ns as [|n ns IH]; intros s k; cbn [foldl].
  { destruct (s !! k); [|done]. by rewrite bool_decide_eq_false_2 by (by intros ?%not_elem_of_nil). }
  rewrite IH. destruct (decide (k = n_ID n)) as [->|Hne].
  - rewrite lookup_alter_eq. destruct (s !! n_ID n) as [e|]; [|done]. cbn.
    rewrite (bool_decide_eq_true_2 (n_ID n ∈ n_ID n :: (n_ID <$> ns))) by left. by case_bool_decide.
  - rewrite lookup_alter_ne by done. destruct (s !! k); [|done]. cbn. f_equal.
    erewrite (bool_decide_ext (k ∈ n_ID n :: (n_ID <$> ns))); [done|]. rewrite elem_of_cons. tauto.
Qed.

Lemma mark_ok ns st : lookup_ok st -> let st' := mkLookup (mark_queried ns (seen st)) (allPeers st) (l_dht st) in
  lookup_ok st' /\ later st st'.
Proof.
  intros H. split; split; cbn; [|..|done]; [|..].
  - intros k e. rewrite mark_lookup. destruct (seen st !! k) as [e'|] eqn:E; [|done]. cbn. intros [= <-].
    pose proof (ok_seen _ H k e' E). by case_bool_decide.
  - assert (Hd : dom (mark_queried ns (seen st)) = dom (seen st)).
    { apply set_eq. intros k. rewrite !elem_of_dom, mark_lookup. by destruct (seen st !! k). }
    rewrite <- !size_dom, Hd, size_dom. apply H.
  - apply H.
  - intros k n Hk. rewrite mark_lookup, Hk. cbn. by case_bool_decide.
Qed.

Lemma lookup_rounds_ok target getPeers rounds : forall st,
  Forall (fun env => valid_entries (r_rng env)) rounds -> lookup_ok st ->
  let '(st', qs) := lookup_rounds target getPeers rounds st in
  lookup_ok st' /\ (length qs <= length rounds)%nat /\
  Forall (fun q => 0 < len q <= Z.max 0 (alpha (l_dht st))) qs /\ NoDup (n_ID <$> concat qs) /\
  forall n m, n ∈ concat qs -> seen st !! n_ID n <> Some (m, true).
Proof.
  induction rounds as [|env rounds IH]; intros st Hr H; cbn [lookup_rounds].
  { split_and!; [done|done|constructor|constructor|by intros n m ?%not_elem_of_nil]. }
  apply Forall_cons in Hr as [Henv Hr]. destruct (r_stop env).
  { split_and!; [done|cbn; lia|constructor|constructor|by intros n m ?%not_elem_of_nil]. }
  set (q := round_query target env st).
  pose proof (round_query_NoDup target env st Henv (ok_seen _ H)) as Hnd. fold q in Hnd.
  pose proof (round_query_length target env st) as Hlen. fold q in Hlen.
  pose proof (fun n => round_query_elem target env st Henv (ok_seen _ H) n) as Helem. fold q in Helem.
  destruct (mark_ok q st H) as [H1 L1]. set (st1 := mkLookup (mark_queried q (seen st)) _ _) in *.
  destruct (Z.eqb_spec (len q) 0) as [E0|E0].
  { split_and!; [done|cbn; lia|constructor|constructor|by intros n m ?%not_elem_of_nil]. }
  destruct (apply_parts_ok (r_now env) (r_parts env q) st1 H1) as [H2 L2].
  set (st2 := foldl (apply_part (r_now env)) st1 (r_parts env q)) in *.
  assert (Hq : forall n m, n ∈ q -> seen st !! n_ID n <> Some (m, true)) by (intros n m Hn; by rewrite (Helem n Hn)).
  destruct (getPeers && (0 <? len (allPeers st2))).
  { split_and!; [done|cbn; lia| |cbn; by rewrite app_nil_r|cbn; by rewrite app_nil_r].
    constructor; [lia|constructor]. }
  specialize (IH st2 Hr H2). destruct (lookup_rounds target getPeers rounds st2) as [st' qs].
  destruct IH as (Hok & Hl & Ha & Hnds & Hnew). cbn [concat length].
  assert (Hmarked : forall n, n ∈ q -> seen st2 !! n_ID n = Some (n, true)).
  { intros n Hn. apply L2. cbn. rewrite mark_lookup, (Helem n Hn). cbn.
    rewrite bool_decide_eq_true_2; [done|]. apply list_elem_of_fmap. by exists n. }
  pose proof (proj2 (transitivity L1 L2)) as Ealpha. rewrite Ealpha in Ha. split_and!.
  - done.
  - lia.
  - constructor; [lia|done].
  - rewrite fmap_app. apply NoDup_app. split_and!; [done| |done].
    intros x (n & -> & Hn)%list_elem_of_fmap (n' & E & Hn')%list_elem_of_fmap.
    apply (Hnew n' n Hn'). rewrite <- E. by apply Hmarked.
  - intros n m [Hn|Hn]%elem_of_app; [by apply Hq|]. intros Hs. apply (Hnew n m Hn).
    apply (transitivity L1 L2). done.
Qed.

Lemma seed_ok v4 v6 : wf_seen (seed v4 v6) /\ (size (seed v4 v6) <= length v4 + length v6)%nat.
Proof.
  unfold seed.
  assert (H4 : forall s : gmap ID nodeEntry, wf_seen s ->
    let s' := foldl (fun (s : gmap ID nodeEntry) n => <[n_ID n := (n, false)]> s) s v4 in
    wf_seen s' /\ (size s' <= size s + length v4)%nat).
  { induction v4 as [|n v4 IH]; intros s Hs; cbn; [split; [done|lia]|].
    destruct (IH (<[n_ID n := (n, false)]> s)) as [I1 I2].
    - intros k e [[<- <-]|[_ Hk]]%lookup_insert_Some; [done|by apply Hs].
    - split; [done|]. rewrite map_size_insert in I2. destruct (s !! n_ID n); cbn in I2; lia. }
  destruct (H4 ∅) as [I1 I2]; [by intros k e|]. cbn zeta in *. rewrite map_size_empty in I2.
  set (s4 := foldl _ _ _) in *. clearbody s4. revert I1 I2. generalize (length v4). intros n4. revert s4 n4.
  induction v6 as [|n v6 IH]; intros s4 n4 Hs Hsz; cbn; [split; [done|lia]|].
  destruct (s4 !! n_ID n) eqn:E.
  - destruct (IH s4 n4 Hs Hsz). split; [done|lia].
  - destruct (IH (<[n_ID n := (n, false)]> s4) (S n4)) as [J1 J2].
    + intros k e [[<- <-]|[_ Hk]]%lookup_insert_Some; [done|by apply Hs].
    + rewrite map_size_insert_None by done. lia.
    + split; [done|lia].
Qed.

(** ** Properties *)

(** C37: a lookup ends within fixed bounds whatever the network answers and in whatever
    order the answers are processed: at most ten rounds of at most alpha queries, no
    node asked twice, at most 1000 nodes remembered and 5000 peers collected. *)
Theorem Lookup_bounds target getPeers envs d st qs :
  Forall (fun env => valid_entries (r_rng env)) envs ->
  iterativeLookup target getPeers envs d = Some (st, qs) ->
  (length qs <= 10)%nat /\ Forall (fun q => 0 < len q <= Z.max 0 (alpha d)) qs /\
  NoDup (n_ID <$> concat qs) /\
  Z.of_nat (size (seen st)) <= MaxLookupNodes /\ len (allPeers st) <= MaxLookupPeers.
Proof.
  intros He. unfold iterativeLookup. destruct (_ && _); [done|]. intros [= Hl].
  set (v4 := Closest (table d) target (Z.to_nat K)) in *. set (v6 := Closest (tableV6 d) target (Z.to_nat K)) in *.
  assert (Hv : (length v4 <= 8)%nat /\ (length v6 <= 8)%nat)
    by (split; unfold v4, v6, Closest; rewrite length_take; unfold K; lia).
  destruct (seed_ok v4 v6) as [Hw Hs].
  assert (H0 : lookup_ok (mkLookup (seed v4 v6) [] d)).
  { split; cbn; [done| |unfold MaxLookupPeers; lia]. unfold MaxLookupNodes. lia. }
  pose proof (lookup_rounds_ok target getPeers (take max_rounds envs) _ (Forall_take _ _ _ He) H0) as H.
  rewrite Hl in H. destruct H as (Hok & Hlen & Ha & Hnd & _).
  rewrite length_take in Hlen. unfold max_rounds in Hlen.
  split_and!; [lia|done|done|apply Hok|apply Hok].
Qed.

(** Each round asks the closest nodes not asked yet: the queried nodes are in order
    of distance to the target, as many as the concurrency allows or all that are
    left, and none left out is closer than one asked. *)
Lemma Round_closest target env st :
  valid_entries (r_rng env) -> wf_seen (seen st) -> id_ok target ->
  (forall k e, seen st !! k = Some e -> id_ok k) ->
  let q := round_query target env st in
  let left := filter (fun e => unqueried e.2 = true) (map_to_list (seen st)) in
  StronglySorted (fun m n => dist target m <= dist target n) q /\
  length q = Nat.min (Z.to_nat (alpha (l_dht st))) (length left) /\
  (forall n, n ∈ q -> seen st !! n_ID n = Some (n, false)) /\
  (forall m n, m ∈ q -> seen st !! n_ID n = Some (n, false) -> (n ∉ q) -> dist target m <= dist target n).
Proof.
  intros Hrng Hw Ht Hids. cbn zeta.
  set (es := sortEntries (r_rng env (seen st)) target).
  assert (Hes : forall e, e ∈ es <-> seen st !! n_ID e.1 = Some e).
  { intros e. unfold es. rewrite sortEntries_perm. by apply entries_elem. }
  assert (Hsort : StronglySorted (fun m n => dist target m <= dist target n) es.*1).
  { unfold es. rewrite sortEntries_fst. apply sortByDistance_spec; [done|].
    apply Forall_fmap, Forall_forall. intros e He. apply (entries_elem _ _ _ Hrng Hw) in He. by eapply Hids. }
  assert (Hsf : StronglySorted (fun m n => dist target m <= dist target n)
    (filter (fun e => unqueried e = true) es).*1).
  { clear -Hsort. induction es as [|e es IH]; [constructor|]. cbn [fmap list_fmap] in Hsort.
    apply StronglySorted_inv in Hsort as [Hs Hf]. rewrite filter_cons. destruct (decide _); [|by apply IH].
    cbn [fmap list_fmap]. constructor; [by apply IH|]. rewrite Forall_forall in *.
    intros n (e' & -> & [_ He]%list_elem_of_filter)%list_elem_of_fmap. apply Hf, list_elem_of_fmap. by exists e'. }
  rewrite round_query_eq. fold es. set (fs := (filter (fun e => unqueried e = true) es).*1) in *.
  set (a := Z.to_nat (alpha (l_dht st))). split_and!.
  - rewrite <- (take_drop a fs) in Hsf. by eapply StronglySorted_app_1_l.
  - rewrite length_take. f_equal. unfold fs. rewrite length_fmap.
    assert (Hp : es ≡ₚ (map_to_list (seen st)).*2) by (unfold es; rewrite sortEntries_perm; apply Hrng).
    rewrite Hp. generalize (map_to_list (seen st)). induction l as [|[k e] l IH]; [done|].
    cbn [fmap list_fmap]. rewrite !filter_cons. cbn [snd]. destruct (decide _); cbn [length]; by rewrite IH.
  - intros n Hn. apply (round_query_elem target env st Hrng Hw). by rewrite round_query_eq.
  - intros m n Hm Hn Hni. rewrite <- (take_drop a fs) in Hsf.
    eapply (StronglySorted_app_1_elem_of _ _ _ _ _ Hsf); [exact Hm|].
    assert (Hin : n ∈ fs).
    { apply list_elem_of_fmap. exists (n, false). split; [done|]. apply list_elem_of_filter. split; [done|]. by apply Hes. }
    rewrite <- (take_drop a fs), elem_of_app in Hin. tauto.
Qed.

(** ** A query and its answer *)

(** Bounds of values whose strings are known by their length only. *)
Lemma size_insert_bound (m : gmap bytes any) k x n :
  Z.of_nat (size m) <= n -> Z.of_nat (size (<[k := x]> m)) <= n + 1.
Proof. intros. rewrite map_size_insert. destruct (m !! k); unfold id; lia. Qed.

Ltac size_known :=
  lazymatch goal with
  | |- Z.of_nat (size (<[_ := _]> _)) <= _ => eapply size_insert_bound; size_known
  | |- Z.of_nat (size {[_ := _]}) <= _ => rewrite <- insert_empty; size_known
  | |- Z.of_nat (size ∅) <= _ => rewrite map_size_empty; apply Z.le_refl
  end.

Ltac fits_known :=
  lazymatch goal with
  | |- fits _ (AStr _) =>
      apply fits_str; [by vm_compute|first [assumption | unfold MaxStringLength; lia | by vm_compute] ]
  | |- fits _ (AMap (<[_ := _]> _)) =>
      apply fits_map_insert;
        [fits_known|fits_known|by vm_compute|eapply Z.le_lt_trans; [size_known|by vm_compute] ]
  | |- fits _ (AMap {[_ := _]}) => rewrite <- insert_empty; fits_known
  | |- fits _ (AMap ∅) => apply fits_empty_map; by vm_compute
  | |- fits _ (AList _) =>
      apply fits_list; [by vm_compute|by vm_compute|apply Forall_forall;
        repeat (apply Forall_cons; split); [fits_known..|by apply Forall_nil] ]
  end.

Lemma items_insert_bound (m : gmap bytes any) k x a b :
  items (AMap m) <= a -> items x <= b -> items (AMap (<[k := x]> m)) <= a + 1 + b.
Proof. intros. pose proof (items_insert_le m k x). lia. Qed.

Ltac items_known :=
  lazymatch goal with
  | |- items (AMap (<[_ := _]> _)) <= _ => eapply items_insert_bound; items_known
  | |- items (AMap {[_ := _]}) <= _ => rewrite <- insert_empty; items_known
  | |- _ => apply Z.le_refl
  end.

Lemma find_node_query_roundtrip t own target :
  len t <= MaxStringLength -> id_ok own -> id_ok target ->
  exists data, EncodeKRPC (NewFindNodeQuery t own target) = Ok data /\
    DecodeKRPC data = Ok (NewFindNodeQuery t own target).
Proof.
  intros Ht Hi Hg. unfold id_ok in *. apply KRPC_roundtrip; [constructor| |].
  all: unfold krpc_dict, NewFindNodeQuery, query, bep32Want; cbn [T Y Q A R E];
    rewrite bool_decide_eq_true_2 by done; cbn [default from_option id].
  - assert (len own = 20) by lia. assert (len target = 20) by lia. fits_known.
  - eapply Z.le_trans; [items_known|]. by vm_compute.
Qed.

Lemma find_node_answer_roundtrip t own n4 n6 :
  len t <= MaxStringLength -> id_ok own -> len n4 <= MaxStringLength -> len n6 <= MaxStringLength ->
  let m := NewResponse t (<[lit "nodes6" := AStr n6]> (<[lit "nodes" := AStr n4]> {[ lit "id" := AStr own ]})) in
  exists data, EncodeKRPC m = Ok data /\ DecodeKRPC data = Ok m.
Proof.
  intros Ht Hi H4 H6. unfold id_ok in *. apply KRPC_roundtrip; [constructor| |].
  all: unfold krpc_dict, NewResponse; cbn [T Y Q A R E];
    rewrite bool_decide_eq_false_2, bool_decide_eq_true_2 by done; cbn [default from_option id].
  - assert (len own = 20) by lia. fits_known.
  - eapply Z.le_trans; [items_known|]. by vm_compute.
Qed.

(** Every node of a table can be written as a compact record of its family. *)
Definition clean_tables (d : DHT) : Prop :=
  Forall (fun n => wf_node4 (mkNodeInfo (n_ID n) (n_Addr n))) (AllNodes (table d)) /\
  Forall (fun n => wf_node6 (mkNodeInfo (n_ID n) (n_Addr n))) (AllNodes (tableV6 d)).

Lemma sortByDistance_perm ns target : sortByDistance ns target ≡ₚ ns.
Proof.
  unfold sortByDistance. rewrite <- Permutation_rev.
  enough (H : forall acc, foldl (fun r k => shift_down target k r) acc ns ≡ₚ ns ++ acc) by (by rewrite H, app_nil_r).
  induction ns as [|e ns IH]; intros acc; [done|]. cbn [foldl].
  rewrite IH, shift_down_perm. cbn [app]. by rewrite Permutation_middle.
Qed.

Lemma closestAsCompact_wf (P : CompactNodeInfo -> Prop) rt target :
  Forall (fun n => P (mkNodeInfo (n_ID n) (n_Addr n))) (AllNodes rt) ->
  Forall P (closestAsCompact rt target) /\ (length (closestAsCompact rt target) <= 8)%nat.
Proof.
  intros H. unfold closestAsCompact, Closest. split.
  - apply Forall_fmap, Forall_take. by rewrite sortByDistance_perm.
  - rewrite length_fmap, length_take. unfold K. lia.
Qed.

Lemma records_length (f : CompactNodeInfo -> bytes) (k : nat) ns :
  Forall (fun n => length (f n) = k) ns -> (length (concat (f <$> ns)) = length ns * k)%nat.
Proof. induction 1 as [|n ns Hn _ IH]; [done|]. cbn. rewrite length_app. lia. Qed.

(** What a node that asked [n] for a target makes of its answer. *)
Definition answer_parts (n : Node) (own target : ID) (d : DHT) : list part :=
  [PUpdate (mkNode own (n_Addr n) 0); PNodes (closestAsCompact (table d) target);
   PNodes (closestAsCompact (tableV6 d) target)].

Lemma IDFromBytes_id id : id_ok id -> IDFromBytes id = id.
Proof. intros H. unfold IDFromBytes. by rewrite take_app_length' by done. Qed.

(** The query is answered from the table that already holds the querier. *)
Lemma find_node_answered (sha1 : bytes -> bytes) now t (a target : ID) addr b :
  id_ok a -> id_ok target -> let b' := updateNode now (mkNode a addr 0) b in
  handleQuery sha1 now (NewFindNodeQuery t a target) addr b =
  (b', Some (NewResponse t
    (<[lit "nodes6" := AStr (MarshalCompactNodeInfo6 (closestAsCompact (tableV6 b') target))]>
      (<[lit "nodes" := AStr (MarshalCompactNodeInfo (closestAsCompact (table b') target))]>
        {[ lit "id" := AStr (d_id b') ]})))).
Proof.
  intros Ha Ht. unfold id_ok in *. unfold handleQuery, respondFindNode, str_arg, parseWant, NewFindNodeQuery, query.
  cbn [A Q T default from_option id]. map_lookup. cbn [as_str as_list default from_option id].
  rewrite !(proj2 (Z.eqb_eq _ 20)) by lia. rewrite !IDFromBytes_id by done. done.
Qed.

Lemma find_node_parts n t own (target : ID) d :
  id_ok own -> clean_tables d ->
  parts_of false n (Some (NewResponse t
    (<[lit "nodes6" := AStr (MarshalCompactNodeInfo6 (closestAsCompact (tableV6 d) target))]>
      (<[lit "nodes" := AStr (MarshalCompactNodeInfo (closestAsCompact (table d) target))]>
        {[ lit "id" := AStr own ]})))) = answer_parts n own target d.
Proof.
  intros Ho [H4 H6]. unfold parts_of, NewResponse. cbn [Y R].
  rewrite bool_decide_eq_false_2 by done. map_lookup. cbn [as_str as_list].
  rewrite marshal_roundtrip, marshal6_roundtrip by (by apply closestAsCompact_wf).
  unfold id_ok in Ho. rewrite (proj2 (Z.eqb_eq _ 20)), IDFromBytes_id by (done || lia). done.
Qed.

Lemma clean_tables_length d target : clean_tables d ->
  len (MarshalCompactNodeInfo (closestAsCompact (table d) target)) <= MaxStringLength /\
  len (MarshalCompactNodeInfo6 (closestAsCompact (tableV6 d) target)) <= MaxStringLength.
Proof.
  intros [H4 H6]. apply (closestAsCompact_wf _ _ target) in H4 as [H4 L4], H6 as [H6 L6].
  unfold MarshalCompactNodeInfo, MarshalCompactNodeInfo6, MaxStringLength.
  rewrite (records_length marshal_node 26), (records_length marshal_node6 38); [lia|..].
  - eapply Forall_impl; [exact H6|]. intros. by apply unmarshal_marshal6.
  - eapply Forall_impl; [exact H4|]. intros. by apply unmarshal_marshal.
Qed.

(** A find_node query sent by one node, received by another and answered over the wire
    brings the closest nodes of the other's tables to the querier: the answer is
    delivered to the waiting query, whose transaction ends, and what the lookup makes of
    it is the answering node itself followed by its eight closest IPv4 and IPv6 nodes,
    in order; the answering node has learnt the querier. *)
Lemma FindNode_exchange (sha1 : bytes -> bytes) t target now1 now2 now3 a b n addr :
  len t <= MaxStringLength -> id_ok (d_id a) -> id_ok (d_id b) -> id_ok target ->
  let b' := updateNode now2 (mkNode (d_id a) addr 0) b in
  clean_tables b' ->
  exists a' q ans m,
    sendQuery now1 (NewFindNodeQuery t (d_id a) target) a = (a', Some q) /\
    readLoop_packet sha1 now2 q addr b = (b', Send ans) /\
    readLoop_packet sha1 now3 ans (n_Addr n) a' = (with_pending (delete t (pending a)) a, Deliver m) /\
    parts_of false n (Some m) = answer_parts n (d_id b) target b'.
Proof.
  intros Ht Ha Hb Hg b' Hc.
  assert (Eb : d_id b' = d_id b) by (unfold b', updateNode; by repeat case_match).
  destruct (find_node_query_roundtrip t (d_id a) target) as (q & Eq & Dq); [done..|].
  destruct (clean_tables_length b' target Hc) as [L4 L6].
  destruct (find_node_answer_roundtrip t (d_id b')
    (MarshalCompactNodeInfo (closestAsCompact (table b') target))
    (MarshalCompactNodeInfo6 (closestAsCompact (tableV6 b') target))) as (ans & Ea & Da); [done|by rewrite Eb|done..|].
  do 4 eexists. split_and!.
  - unfold sendQuery. rewrite Eq. done.
  - unfold readLoop_packet. rewrite Dq, find_node_answered by done. fold b'. cbv zeta.
    unfold encode_or_empty. rewrite Ea. done.
  - unfold readLoop_packet. rewrite Da. unfold NewResponse. cbn [Y].
    rewrite bool_decide_eq_true_2 by done. cbn [orb].
    unfold handleResponse, with_pending, NewFindNodeQuery, query. cbn [T pending].
    rewrite lookup_insert_eq, delete_insert_eq. done.
  - rewrite Eb. by apply find_node_parts.
Qed.

(** ** Tokens *)

(** A token stays valid for the address it was made for until the second rotation. *)
Lemma token_lives_one_rotation (sha1 : bytes -> bytes) addr secret d :
  validateToken sha1 addr (makeToken sha1 addr d) d = true /\
  validateToken sha1 addr (makeToken sha1 addr d) (rotateToken secret d) = true.
Proof.
  unfold validateToken, makeToken, rotateToken. cbn [tokenSecret tokenSecretOld existsb].
  split; rewrite !(bool_decide_eq_true_2 (token_of sha1 _ (tokenSecret d) = _)) by done; [done|by rewrite orb_true_r].
Qed.

(** Until its first rotation a new node also accepts tokens made with the secret of
    all zero bytes, which anyone can compute: the old secret is not set yet. *)
Lemma zero_secret_accepted (sha1 : bytes -> bytes) id secret al addr msg :
  str_arg (A msg) "token" = token_of sha1 (a_IP addr) (replicate 20 x00) ->
  respondAnnouncePeer sha1 msg addr (New id secret al) =
    Some (NewResponse (T msg) {[ lit "id" := AStr id ]}).
Proof.
  intros H. unfold respondAnnouncePeer. rewrite H. unfold validateToken, New, rotateToken. cbn [tokenSecret tokenSecretOld existsb].
  rewrite (bool_decide_eq_true_2 (token_of sha1 _ (replicate 20 x00) = _)) by done. by rewrite orb_true_r.
Qed.

(** ** The tables over the life of a node *)

(** What can happen to a node.  A lookup runs on the parts its answers consist of. *)
Definition genuine (env : round_env) : Prop :=
  forall q p, p ∈ r_parts env q -> exists getPeers n resp, p ∈ parts_of getPeers n resp.

Section Life.
Context (sha1 : bytes -> bytes).

Inductive dht_step (d : DHT) : DHT -> Prop :=
  | step_packet now data addr : dht_step d (readLoop_packet sha1 now data addr d).1
  | step_send now msg : dht_step d (sendQuery now msg d).1
  | step_timeout t : dht_step d (with_pending (delete t (pending d)) d)
  | step_rotate secret : dht_step d (rotateToken secret d)
  | step_clean now : dht_step d (cleanStalePending now PendingTTL d)
  | step_lookup target getPeers envs st qs :
      Forall genuine envs -> iterativeLookup target getPeers envs d = Some (st, qs) -> dht_step d (l_dht st)
  | step_bootstrap now ws envs : Forall genuine envs -> dht_step d (Bootstrap now ws envs d).

(** Both tables are sound tables of the node's own id; each holds addresses of its family. *)
Definition family4 (n : Node) : Prop := To4 (a_IP (n_Addr n)) <> None.
Definition family6 (n : Node) : Prop :=
  To4 (a_IP (n_Addr n)) = None /\ To16 (a_IP (n_Addr n)) <> None.

Record dht_ok (own : ID) (d : DHT) : Prop := {
  ok_id : d_id d = own;
  ok_alpha : 0 < alpha d;
  ok_t4 : RTInv (table d) /\ self (table d) = own /\ Forall family4 (AllNodes (table d));
  ok_t6 : RTInv (tableV6 d) /\ self (tableV6 d) = own /\ Forall family6 (AllNodes (tableV6 d))
}.

Lemma Update_forall (P : Node -> Prop) now n rt :
  (forall m, n_Addr m = n_Addr n -> P m) -> Forall P (AllNodes rt) -> Forall P (AllNodes (Update now n rt)).
Proof.
  intros Hn H. unfold Update, AllNodes in *. case_bool_decide; [done|]. cbn [tbuckets].
  apply Forall_concat in H. apply Forall_concat. apply Forall_alter; [done|].
  intros b Hb HP. unfold update_bucket. destruct (list_find _ b) as [[j ex]|].
  - apply Forall_app. split; [by apply Forall_delete|]. apply Forall_singleton, Hn. done.
  - destruct (_ <? K); [|done]. apply Forall_app. split; [done|]. apply Forall_singleton, Hn. done.
Qed.

Lemma Update_self now n rt : self (Update now n rt) = self rt.
Proof. unfold Update. by case_bool_decide. Qed.

Lemma updateNode_ok own now n d : id_ok (n_ID n) -> dht_ok own d -> dht_ok own (updateNode now n d).
Proof.
  intros Hid [Hi Ha (H4 & S4 & F4) (H6 & S6 & F6)]. unfold updateNode.
  destruct (To4 _) eqn:E4; [|destruct (To16 _) eqn:E6; [|by split] ]; split; cbn; try done; split_and!;
    try (by apply rtinv_Update); try (by rewrite Update_self); apply Update_forall; try done;
    intros m Hm; unfold family4, family6; rewrite Hm; by rewrite ?E4, ?E6.
Qed.

Lemma IDFromBytes_ok b : id_ok (IDFromBytes b).
Proof. unfold id_ok, IDFromBytes. rewrite length_take, length_app, length_replicate. lia. Qed.

(** The ids of decoded nodes have full length. *)
Lemma unmarshal_ids (w k : nat) data : (20 <= k)%nat -> len data mod Z.of_nat k = 0 ->
  Forall (fun ni => id_ok (ni_ID ni)) (unmarshal_node w <$> chunks k (Z.to_nat (len data / Z.of_nat k)) data).
Proof.
  intros Hk Hm. apply Forall_fmap, Forall_forall. intros r [i Hr]%list_elem_of_lookup.
  apply chunks_lookup in Hr as [Hi ->]. unfold id_ok. cbn. rewrite length_take, length_slice; [lia|lia|].
  pose proof (Z.div_mod (len data) (Z.of_nat k)) as Hd. nia.
Qed.

Lemma Unmarshal_ids data ns :
  UnmarshalCompactNodeInfo data = Ok ns \/ UnmarshalCompactNodeInfo6 data = Ok ns ->
  Forall (fun ni => id_ok (ni_ID ni)) ns.
Proof.
  unfold UnmarshalCompactNodeInfo, UnmarshalCompactNodeInfo6.
  intros [H|H].
  - destruct (Z.eqb_spec (len data mod 26) 0); cbn [negb] in H; simplify_eq. by apply (unmarshal_ids 4 26); [lia|].
  - destruct (Z.eqb_spec (len data mod 38) 0); cbn [negb] in H; simplify_eq. by apply (unmarshal_ids 16 38); [lia|].
Qed.

Lemma foldl_updateNode_ok own now ns d : Forall (fun ni => id_ok (ni_ID ni)) ns -> dht_ok own d ->
  dht_ok own (foldl (fun d ni => updateNode now (mkNode (ni_ID ni) (ni_Addr ni) 0) d) d ns).
Proof. intros H. revert d. induction H as [|ni ns Hn _ IH]; intros d Hd; [done|]. apply IH. by apply updateNode_ok. Qed.

(** Nodes brought in by an answer have ids of full length. *)
Definition part_ok (p : part) : Prop :=
  match p with
  | PUpdate n => id_ok (n_ID n) | PPeers _ => True | PNodes ns => Forall (fun ni => id_ok (ni_ID ni)) ns
  end.

Lemma parts_of_ok getPeers n resp : Forall part_ok (parts_of getPeers n resp).
Proof.
  destruct resp as [m|]; [|constructor]. unfold parts_of. case_bool_decide; [constructor|].
  destruct (R m) as [r|]; [|constructor]. repeat apply Forall_app_2.
  - destruct (as_str _); [|constructor]. case_match; constructor; [apply IDFromBytes_ok|constructor].
  - destruct getPeers; [|constructor]. destruct (as_list _); repeat constructor.
  - destruct (as_str _); [|constructor]. case_match eqn:E; [|constructor..].
    constructor; [|constructor]. eapply Unmarshal_ids. by left.
  - destruct (as_str _); [|constructor]. case_match eqn:E; [|constructor..].
    constructor; [|constructor]. eapply Unmarshal_ids. by right.
Qed.

Lemma add_seen_dht own now ns st : Forall (fun ni => id_ok (ni_ID ni)) ns ->
  dht_ok own (l_dht st) -> dht_ok own (l_dht (add_seen now ns st)).
Proof.
  intros H. revert st. induction H as [|ni ns Hn _ IH]; intros st Hd; cbn [add_seen]; [done|].
  destruct (_ <=? _); [done|]. destruct (seen st !! _); [by apply IH|]. apply IH. by apply updateNode_ok.
Qed.

Lemma parts_dht own now ps st : Forall part_ok ps ->
  dht_ok own (l_dht st) -> dht_ok own (l_dht (foldl (apply_part now) st ps)).
Proof.
  intros H. revert st. induction H as [|p ps Hp _ IH]; intros st Hd; [done|]. apply IH.
  destruct p; cbn [apply_part].
  - by apply updateNode_ok.
  - by case_match.
  - by apply add_seen_dht.
Qed.

Lemma lookup_ok_dht own target getPeers envs st : Forall genuine envs ->
  dht_ok own (l_dht st) -> dht_ok own (l_dht (lookup_rounds target getPeers envs st).1).
Proof.
  intros H. revert st. induction H as [|env envs Hg _ IH]; intros st Hd; [done|]. cbn [lookup_rounds].
  destruct (r_stop env); [done|]. destruct (_ =? 0); [done|].
  set (st' := foldl _ _ _). assert (Hd' : dht_ok own (l_dht st')).
  { apply parts_dht; [|done]. apply Forall_forall. intros p (gp & n & resp & Hp)%Hg.
    by apply (proj1 (Forall_forall _ _) (parts_of_ok gp n resp)). }
  destruct (_ && _); [done|]. specialize (IH st' Hd'). by destruct (lookup_rounds _ _ _ st') as [st2 qs].
Qed.

Lemma iterativeLookup_ok own target getPeers envs d st qs : Forall genuine envs -> dht_ok own d ->
  iterativeLookup target getPeers envs d = Some (st, qs) -> dht_ok own (l_dht st).
Proof.
  intros Hg Hd. unfold iterativeLookup. destruct (_ && _); [done|]. intros [= E].
  pose proof (lookup_ok_dht own target getPeers (take max_rounds envs)
    (mkLookup (seed (Closest (table d) target (Z.to_nat K)) (Closest (tableV6 d) target (Z.to_nat K))) [] d)) as H.
  rewrite E in H. apply H; [by apply Forall_take|done].
Qed.

Lemma update_all_ok own now data d :
  dht_ok own d -> dht_ok own (update_all now (UnmarshalCompactNodeInfo data) d) /\
  dht_ok own (update_all now (UnmarshalCompactNodeInfo6 data) d).
Proof.
  intros Hd. split; unfold update_all; case_match eqn:E; try done; apply foldl_updateNode_ok; try done.
  - eapply Unmarshal_ids. by left.
  - eapply Unmarshal_ids. by right.
Qed.

Lemma boot_answer_ok own now addr resp d : dht_ok own d -> dht_ok own (boot_answer now addr resp d).
Proof.
  intros Hd. unfold boot_answer. destruct (R resp) as [r|]; [|done].
  set (d1 := match as_str (r !! lit "id") with Some _ => _ | None => _ end).
  assert (H1 : dht_ok own d1) by (unfold d1; repeat case_match; try done; apply updateNode_ok; [apply IDFromBytes_ok|done]).
  set (d2 := match as_str (r !! lit "nodes") with Some _ => _ | None => _ end).
  assert (H2 : dht_ok own d2) by (unfold d2; case_match; [by apply update_all_ok|done]).
  case_match; [by apply update_all_ok|done].
Qed.

Lemma Bootstrap_ok own now ws envs d : Forall genuine envs -> dht_ok own d -> dht_ok own (Bootstrap now ws envs d).
Proof.
  intros Hg Hd. unfold Bootstrap.
  assert (Hc : dht_ok own (boot_collect now ws d).1).
  { revert d Hd. induction ws as [|[addr resp| |] ws IH]; intros d Hd; cbn [boot_collect]; try done; try (by apply IH).
    by apply IH, boot_answer_ok. }
  destruct (boot_collect now ws d) as [d' []]; [|done]. cbn [fst] in Hc.
  destruct (iterativeLookup _ _ _ _) as [[st qs]|] eqn:E; [|done]. by eapply iterativeLookup_ok.
Qed.

Lemma dht_ok_tables own d d' : d_id d' = d_id d -> alpha d' = alpha d -> table d' = table d ->
  tableV6 d' = tableV6 d -> dht_ok own d -> dht_ok own d'.
Proof. intros E1 E2 E3 E4 [? ? ? ?]. split; by rewrite ?E1, ?E2, ?E3, ?E4. Qed.

Lemma packet_ok own now data addr d : dht_ok own d -> dht_ok own (readLoop_packet sha1 now data addr d).1.
Proof.
  intros Hd. unfold readLoop_packet. destruct (DecodeKRPC data) as [msg|]; [|done].
  destruct (_ || _).
  { unfold handleResponse. destruct (pending d !! T msg); [|done]. by apply (dht_ok_tables own d). }
  case_bool_decide; [|done].
  assert (Hq : dht_ok own (handleQuery sha1 now msg addr d).1).
  { unfold handleQuery. cbn [fst]. repeat case_match; try done. apply updateNode_ok; [apply IDFromBytes_ok|done]. }
  by destruct (handleQuery _ _ _ _ _) as [d' []].
Qed.

Lemma dht_step_ok own d d' : dht_step d d' -> dht_ok own d -> dht_ok own d'.
Proof.
  destruct 1; intros Hd; try (by apply (dht_ok_tables own d)).
  - by apply packet_ok.
  - unfold sendQuery. destruct (EncodeKRPC msg); by apply (dht_ok_tables own d).
  - by eapply iterativeLookup_ok.
  - by apply Bootstrap_ok.
Qed.

(** C36: whatever packets arrive, queries, lookups and bootstraps run and in whatever
    order, the tables of a node stay sound: every bucket within its bound and of the
    right distance, no id twice, the node's own id in neither, IPv4 nodes in one
    and IPv6 nodes in the other. *)
Theorem DHT_invariant own secret al d :
  id_ok own -> rtc dht_step (New own secret al) d ->
  dht_ok own d /\
  (NoDup (n_ID <$> AllNodes (table d)) /\ own ∉ (n_ID <$> AllNodes (table d))) /\
  (NoDup (n_ID <$> AllNodes (tableV6 d)) /\ own ∉ (n_ID <$> AllNodes (tableV6 d))).
Proof.
  intros Ho Hr.
  assert (H0 : dht_ok own (New own secret al)).
  { pose proof (rtinv_New own Ho) as Hn. assert (E : AllNodes (NewRoutingTable own) = []) by done.
    split; cbn [d_id alpha table tableV6 New rotateToken]; [done| |by rewrite E|by rewrite E].
    destruct al as [a|]; [|done]. by destruct (Z.ltb_spec 0 a). }
  assert (Hd : dht_ok own d).
  { revert H0. induction Hr as [|d1 d2 d3 Hs _ IH]; [done|]. intros H1. by apply IH, (dht_step_ok _ d1). }
  split; [done|]. destruct Hd as [_ _ (H4 & S4 & _) (H6 & S6 & _)].
  assert (Hrt : forall rt, RTInv rt -> self rt = own -> NoDup (n_ID <$> AllNodes rt) /\ own ∉ (n_ID <$> AllNodes rt)).
  { intros rt H Hs. destruct (rt_all rt H) as (Hnd & Hall & _). split; [done|].
    intros (n & Hn & Hin)%list_elem_of_fmap. destruct (Hall n Hin). congruence. }
  split; by apply Hrt.
Qed.
End Life.

(** ** Concrete instances *)

Definition demo_dht : DHT := mkDHT (replicate 20 x00) demo_table (NewRoutingTable (replicate 20 x00)) 2 ∅ [] [].
Definition demo_env : round_env := mkRoundEnv (fun s => (map_to_list s).*2) false 0 (fun _ => []).
Definition demo_target : ID := replicate 19 x00 ++ [x03].

Lemma demo_env_valid : valid_entries (r_rng demo_env).
Proof. intros s. reflexivity. Qed.

Lemma Lookup_bounds_witness :
  (fun p => length p.2) <$> iterativeLookup demo_target false [demo_env; demo_env; demo_env] demo_dht = Some 2%nat /\
  (forall st qs, iterativeLookup demo_target false [demo_env; demo_env; demo_env] demo_dht = Some (st, qs) ->
    (length qs <= 10)%nat /\ NoDup (n_ID <$> concat qs)).
Proof.
  split; [vm_compute; reflexivity|].
  intros st qs H. destruct (Lookup_bounds demo_target false [demo_env; demo_env; demo_env] demo_dht st qs)
    as (Hl & _ & Hn & _); [|exact H|exact (conj Hl Hn)].
  repeat (apply Forall_cons; split); [apply demo_env_valid..|apply Forall_nil; exact I].
Defined.

Definition demo_lookup : lookup_state :=
  mkLookup (seed (Closest demo_table demo_target 8) []) [] demo_dht.

Lemma Round_closest_witness :
  StronglySorted (fun m n => dist demo_target m <= dist demo_target n) (round_query demo_target demo_env demo_lookup) /\
  length (round_query demo_target demo_env demo_lookup) = 2%nat.
Proof.
  destruct (Round_closest demo_target demo_env demo_lookup) as (Hs & Hl & _); [..|split; [exact Hs|by vm_compute] ].
  - apply demo_env_valid.
  - apply seed_ok.
  - reflexivity.
  - intros k e Hk. apply elem_of_map_to_list in Hk.
    assert (Ha : Forall (fun p => id_ok p.1) (map_to_list (seen demo_lookup))) by (vm_compute; by repeat constructor).
    rewrite Forall_forall in Ha. exact (Ha (k, e) Hk).
Defined.

Definition seen_node (b : byte) (t : Z) : Node :=
  mkNode (replicate 19 x00 ++ [b]) (mkUDPAddr [x0a; x00; x00; b] 6881) t.

Lemma demo_nodes : let d := updateNode 2 (seen_node x07 0) demo_dht in
  AllNodes (table d) = [seen_node x07 2; seen_node x02 2; seen_node x03 4; seen_node x01 3] /\
  AllNodes (tableV6 d) = [].
Proof. vm_compute. split; reflexivity. Qed.

Lemma demo_clean : clean_tables (updateNode 2 (seen_node x07 0) demo_dht).
Proof.
  split; [rewrite (proj1 demo_nodes)|rewrite (proj2 demo_nodes); apply Forall_nil; exact I].
  repeat constructor; simpl; lia.
Qed.

Lemma FindNode_exchange_witness :
  exists a' q ans m,
    sendQuery 1 (NewFindNodeQuery (lit "aa") (replicate 19 x00 ++ [x07]) demo_target)
      (New (replicate 19 x00 ++ [x07]) [] None) = (a', Some q) /\
    readLoop_packet (fun b => b) 2 q (mkUDPAddr [x0a; x00; x00; x07] 6881) demo_dht =
      (updateNode 2 (seen_node x07 0) demo_dht, Send ans) /\
    readLoop_packet (fun b => b) 3 ans (n_Addr (demo_node x01)) a' =
      (with_pending (delete (lit "aa") ∅) (New (replicate 19 x00 ++ [x07]) [] None), Deliver m) /\
    parts_of false (demo_node x01) (Some m) = answer_parts (demo_node x01) (replicate 20 x00) demo_target
      (updateNode 2 (seen_node x07 0) demo_dht).
Proof.
  apply (FindNode_exchange (fun b => b) (lit "aa") demo_target 1 2 3
    (New (replicate 19 x00 ++ [x07]) [] None) demo_dht (demo_node x01) (mkUDPAddr [x0a; x00; x00; x07] 6881));
    [by vm_compute|done|done|done|].
  exact demo_clean.
Defined.

(** A node learns the sender of a query. *)
Definition demo_query : bytes := encode_or_empty (NewPingQuery (lit "aa") (replicate 19 x00 ++ [x07])).

Lemma DHT_invariant_witness :
  let d := (readLoop_packet (fun b => b) 5 demo_query (mkUDPAddr [x0a; x00; x00; x07] 6881)
              (New (replicate 20 x00) [] None)).1 in
  AllNodes (table d) = [seen_node x07 5] /\ dht_ok (replicate 20 x00) d.
Proof.
  split; [vm_compute; reflexivity|].
  refine (proj1 (DHT_invariant (fun b => b) (replicate 20 x00) [] None _ _ _)); [reflexivity|].
  apply rtc_once. apply (step_packet (fun b => b)).
Defined.
