(* ===== verification/Upload.v ===== *)
(** * The upload side ([download/upload.go], [download/peermgr.go])

    Clients are shared between the uploader, the peer manager and the goroutine
    that serves them, so they live in a store indexed by pointer.  A serving
    goroutine reads messages one after the other; what the other goroutines do to
    its client (choke, unchoke, have) comes in between, also between the test of the choke flag and
    the write of the block, and [SendChoke] and [SendUnchoke] are three steps each: the test of the flag, the
    message, the change of the flag.  A message is written as a whole.  Measured speeds and the order [sort.Slice] leaves equal elements in are
    arguments. *)

From S2P Require Import Prelude Bitfield Wire Torrent Storage Extension PieceQueue Client.
Set Warnings "-clear-no-such-hyp".
Local Open Scope Z_scope.

(** ** Serving one peer *)

Inductive reason :=
  | PeerGone | BadRequest (e : payload_error) | InvalidIndex | TooLarge | OutOfRange | ReadFailed
  | WriteFailed | StorageOpenFailed.

Definition maxBlock : Z := 32 * 1024.

Section Serve.
Context {R : Type} {HR : ReadAtReader R}.
(** Of the torrent and of the handshake. *)
Context (numPieces pieceLen totalSize : Z) (fastExt : bool).

(** Where the serving goroutine is: it reads the next message, is in [SendUnchoke] after the test of the flag, after the
    message was written (under [wmu]), or has an answer to write ([block]: its length if it is a block). *)
Inductive serve_pc := Reading | UnchokeTested | UnchokeWritten | Answering (m : Message) (block : option Z).
(** Where the peer manager is with this client: in [SendChoke] or [SendUnchoke] after the test, after the message. *)
Inductive manager_pc := ManagerIdle | ManagerTested (choke : bool) | ManagerWritten (choke : bool).

(** The client, the open file and the bytes counted as uploaded. *)
Record serving := mkServing { sv_client : Client; sv_file : R; uploaded : Z; sv_pc : serve_pc; sv_mgr : manager_pc }.

Definition on_client (f : Client -> Client) (s : serving) : serving :=
  mkServing (f (sv_client s)) (sv_file s) (uploaded s) (sv_pc s) (sv_mgr s).
Definition at_pc (pc : serve_pc) (s : serving) : serving :=
  mkServing (sv_client s) (sv_file s) (uploaded s) pc (sv_mgr s).
Definition at_mgr (m : manager_pc) (s : serving) : serving :=
  mkServing (sv_client s) (sv_file s) (uploaded s) (sv_pc s) m.

(** An ignored write error leaves the client as it is. *)
Definition try_send (f : Client -> option Client) (c : Client) : Client := default c (f c).

(** A request, from the test of [IsChoking] to the answer that is then written. *)
Definition serve_request (payload : bytes) (s : serving) : serving * option reason :=
  if choking (sv_client s) then
    (if fastExt then
       match ParseRequest payload with
       | Ok (idx, begin, length) => at_pc (Answering (NewRejectMessage idx begin length) None) s
       | Err _ => s
       end
     else s, None)
  else
    match ParseRequest payload with
    | Err e => (s, Some (BadRequest e))
    | Ok (index, begin, length) =>
        if wrapu 32 numPieces <=? index then (s, Some InvalidIndex)
        else if maxBlock <? length then (s, Some TooLarge)
        else
          let offset := i64 (i64 (index * pieceLen) + begin) in
          if (offset <? 0) || (totalSize <? i64 (offset + length)) then (s, Some OutOfRange)
          else
            let '(r, (block, err)) := readAt (sv_file s) length offset in
            let s := mkServing (sv_client s) r (uploaded s) (sv_pc s) (sv_mgr s) in
            match err with
            | Some _ => (s, Some ReadFailed)
            | None =>
                if negb (len block =? length) then (s, Some ReadFailed)
                else (at_pc (Answering (NewPieceMessage index begin block) (Some length)) s, None)
            end
    end.

(** The switch of [serveLoop] on a message that is not a keep-alive; [SendUnchoke] up to its test. *)
Definition serve_message (msg : Message) (s : serving) : serving * option reason :=
  let id := u8 (ID msg) in
  if id =? MsgInterested then (if choking (sv_client s) then at_pc UnchokeTested s else s, None)
  else if id =? MsgNotInterested then (s, None)
  else if id =? MsgRequest then serve_request (Payload msg) s
  else if id =? MsgCancel then (s, None)
  else if id =? MsgHave then (on_client (on_have (Payload msg)) s, None)
  else if id =? MsgBitfield then (on_client (set_known (Some (Payload msg)) false) s, None)
  else if id =? MsgHaveAll then (on_client (fun c => set_known (bitfield c) true c) s, None)
  else if id =? MsgHaveNone then (on_client (set_known (Some []) false) s, None)
  else (s, None).

(** What the goroutine does next when it is not reading.  A block and a reject are written without [wmu]. *)
Definition serve_go (s : serving) : serving * option reason :=
  match sv_pc s with
  | Reading => (s, None)
  | UnchokeTested =>
      match sv_mgr s with
      | ManagerWritten _ => (s, None)
      | _ => match send (message MsgUnchoke []) (sv_client s) with
             | Some c => (at_pc UnchokeWritten (on_client (fun _ => c) s), None)
             | None => (at_pc Reading s, None)
             end
      end
  | UnchokeWritten => (at_pc Reading (on_client (set_choking false) s), None)
  | Answering m None => (at_pc Reading (on_client (try_send (send m)) s), None)
  | Answering m (Some length) =>
      match send m (sv_client s) with
      | None => (s, Some WriteFailed)
      | Some c => (mkServing c (sv_file s) (uploaded s + length) Reading (sv_mgr s), None)
      end
  end.

(** The peer manager's [SendChoke] ([choke]) or [SendUnchoke]: the test, the message, the flag. *)
Definition manager_test (choke : bool) (s : serving) : serving :=
  match sv_mgr s with
  | ManagerIdle => if Bool.eqb (choking (sv_client s)) choke then s else at_mgr (ManagerTested choke) s
  | _ => s
  end.
Definition manager_go (s : serving) : serving :=
  match sv_mgr s with
  | ManagerIdle => s
  | ManagerTested choke =>
      match sv_pc s with
      | UnchokeWritten => s
      | _ => match send (message (if choke then MsgChoke else MsgUnchoke) []) (sv_client s) with
             | Some c => at_mgr (ManagerWritten choke) (on_client (fun _ => c) s)
             | None => at_mgr ManagerIdle s
             end
      end
  | ManagerWritten choke => at_mgr ManagerIdle (on_client (set_choking choke) s)
  end.

(** What happens on the connection: a message arrives ([None]: keep-alive) or the read fails, the serving goroutine goes
    on, the peer manager begins to choke or unchoke or goes on with it, a piece is announced. *)
Inductive serve_event :=
  | EvMsg (m : option Message) | EvGone | EvGo | EvChoke | EvUnchoke | EvManager | EvHave (index : Z).

(** An event that is not possible then changes nothing. *)
Definition serve_step (ev : serve_event) (s : serving) : serving * option reason :=
  match ev with
  | EvMsg None => (s, None)
  | EvMsg (Some m) => match sv_pc s with Reading => serve_message m s | _ => (s, None) end
  | EvGone => match sv_pc s with Reading => (s, Some PeerGone) | _ => (s, None) end
  | EvGo => serve_go s
  | EvChoke => (manager_test true s, None)
  | EvUnchoke => (manager_test false s, None)
  | EvManager => (manager_go s, None)
  | EvHave i => (on_client (try_send (SendHave i)) s, None)
  end.

(** [None]: the connection is still served. *)
Fixpoint serveLoop (evs : list serve_event) (s : serving) : serving * option reason :=
  match evs with
  | [] => (s, None)
  | ev :: evs =>
      match serve_step ev s with
      | (s, None) => serveLoop evs s
      | (s, Some why) => (s, Some why)
      end
  end.

Definition serve_start (c : Client) (r : R) : serving := mkServing c r 0 Reading ManagerIdle.

(** The first message of [HandleIncoming]; the bitfield may be nil. *)
Definition initial_message (bf : option Bitfield) : option Message :=
  let allHave := match bf with
                 | None => true
                 | Some b => forallb (HasPiece b) (seqZ 0 numPieces)
                 end in
  if fastExt && allHave then Some (message MsgHaveAll [])
  else if fastExt && match bf with Some b => len b =? 0 | None => false end then Some (message MsgHaveNone [])
  else if 0 <? len (default [] bf) then Some (message MsgBitfield (default [] bf))
  else None.
End Serve.

Arguments serving : clear implicits.
Arguments mkServing {R} _ _ _ _ _.
Arguments serve_start {R} _ _.

(** The reader [serveLoop] opens and the loop on it. *)
Definition open_and_serve (can_open : bytes -> bool) (path : bytes) (tf : TorrentFile) (F : fs) (fastExt : bool)
    (evs : list serve_event) (c : Client) : Client * Z * option reason :=
  let n := len (PieceHashes (t_Info tf)) in
  let pl := PieceLength (t_Info tf) in
  if IsMultiFile tf then
    match NewMultiFileWriter can_open path tf with
    | Err _ => (c, 0, Some StorageOpenFailed)
    | Ok mw =>
        let '(s, why) := serveLoop (HR := multi_reader can_open) n pl (TotalSize tf) fastExt evs
                           (serve_start c (F, mw)) in
        (sv_client s, uploaded s, why)
    end
  else
    match F !! path with
    | Some content =>
        if can_open path then
          let '(s, why) := serveLoop n pl (TotalSize tf) fastExt evs (serve_start c content) in
          (sv_client s, uploaded s, why)
        else (c, 0, Some StorageOpenFailed)
    | None => (c, 0, Some StorageOpenFailed)
    end.

(** A client as [HandleIncoming] builds it. *)
Definition incoming_client (room : nat) : Client :=
  mkClient None false false true false 0 0 0 0 0 0 [] [] [] room.

(** [HandleIncoming] from the handshake on, with [Register] and the rest left to the
    uploader below. *)
Definition serve_connection (can_open : bytes -> bool) (path : bytes) (tf : TorrentFile) (F : fs) (fastExt : bool)
    (bf : option Bitfield) (evs : list serve_event) (c : Client) : Client * Z * option reason :=
  match initial_message (len (PieceHashes (t_Info tf))) fastExt bf with
  | Some m => match send m c with
              | Some c => open_and_serve can_open path tf F fastExt evs c
              | None => (c, 0, Some WriteFailed)
              end
  | None => open_and_serve can_open path tf F fastExt evs c
  end.

(** ** The peer manager *)

Abbreviation ptr := Z (only parsing).
(** The clients the goroutines share. *)
Abbreviation heap := (gmap ptr Client).

Definition DefaultUnchokeSlots : Z := 8.

Record PeerManager := mkPM { pm_peers : list ptr; unchokeSlots : Z; optimisticPeer : option ptr }.

Definition NewPeerManager (slots : Z) : PeerManager :=
  mkPM [] (if slots <=? 0 then DefaultUnchokeSlots else slots) None.

Definition Register (c : ptr) (pm : PeerManager) : PeerManager :=
  mkPM (pm_peers pm ++ [c]) (unchokeSlots pm) (optimisticPeer pm).

(** Removes the first occurrence; the flag is [removed]. *)
Definition Unregister (c : ptr) (pm : PeerManager) : PeerManager * bool :=
  match list_find (fun p => p = c) (pm_peers pm) with
  | Some (i, _) =>
      (mkPM (delete i (pm_peers pm)) (unchokeSlots pm)
         (if bool_decide (optimisticPeer pm = Some c) then None else optimisticPeer pm), true)
  | None => (pm, false)
  end.

(** The clients in order of rank, from place [i] on. *)
Fixpoint choke_loop (slots : Z) (opt : option ptr) (i : Z) (ranked : list ptr) (H : heap) : heap :=
  match ranked with
  | [] => H
  | p :: ranked =>
      choke_loop slots opt (i + 1) ranked
        (alter (try_send (if (i <? slots) || bool_decide (opt = Some p) then SendUnchoke else SendChoke)) p H)
  end.

(** [sortSlice] is what [sort.Slice] makes of the clients, by the speeds just measured. *)
Definition rechoke (sortSlice : list ptr -> list ptr) (pm : PeerManager) (H : heap) : heap :=
  if len (pm_peers pm) =? 0 then H
  else choke_loop (unchokeSlots pm) (optimisticPeer pm) 0 (sortSlice (pm_peers pm)) H.

Definition is_choking (H : heap) (p : ptr) : bool :=
  match H !! p with Some c => choking c | None => false end.

(** The round robin from [startIdx + i] on, [n] more peers to try. *)
Fixpoint rotate_loop (n : nat) (startIdx i : Z) (pm : PeerManager) (H : heap) : PeerManager * heap * Z :=
  match n with
  | O => (pm, H, startIdx)
  | S n =>
      let idx := (startIdx + i) mod len (pm_peers pm) in
      match pm_peers pm !! Z.to_nat idx with
      | Some p =>
          if is_choking H p
          then (mkPM (pm_peers pm) (unchokeSlots pm) (Some p), alter (try_send SendUnchoke) p H,
                (idx + 1) mod len (pm_peers pm))
          else rotate_loop n startIdx (i + 1) pm H
      | None => (pm, H, startIdx)
      end
  end.

Definition rotateOptimistic (startIdx : Z) (pm : PeerManager) (H : heap) : PeerManager * heap * Z :=
  if len (pm_peers pm) =? 0 then (pm, H, 0)
  else rotate_loop (length (pm_peers pm)) startIdx 0 pm H.

Definition send_have_all (index : Z) (ps : list ptr) (H : heap) : heap :=
  foldl (fun H p => alter (try_send (SendHave index)) p H) H ps.

Definition BroadcastHave (index : Z) (pm : PeerManager) (H : heap) : heap :=
  send_have_all index (pm_peers pm) H.

(** ** The uploader *)

Record Uploader := mkUploader {
  u_bitfield : option Bitfield; u_pm : PeerManager; u_clients : list ptr; u_stopped : bool; serveWg : Z
}.

Definition NewUploader (bf : option Bitfield) : Uploader :=
  mkUploader bf (NewPeerManager DefaultUnchokeSlots) [] false 0.

Definition with_clients (cs : list ptr) (u : Uploader) : Uploader :=
  mkUploader (u_bitfield u) (u_pm u) cs (u_stopped u) (serveWg u).
Definition with_pm (pm : PeerManager) (u : Uploader) : Uploader :=
  mkUploader (u_bitfield u) pm (u_clients u) (u_stopped u) (serveWg u).
Definition with_wg (n : Z) (u : Uploader) : Uploader :=
  mkUploader (u_bitfield u) (u_pm u) (u_clients u) (u_stopped u) n.

(** [Uploader.SetPiece]: the bitfield, then a have message to every client. *)
Definition upload_SetPiece (index : Z) (u : Uploader) (H : heap) : Uploader * heap :=
  (mkUploader ((fun bf => (SetPiece bf index).2) <$> u_bitfield u) (u_pm u) (u_clients u) (u_stopped u) (serveWg u),
   send_have_all (wrapu 32 index) (u_clients u) H).

(** All pieces, as [phaseDownload] marks them when the download is over. *)
Definition mark_all (numPieces : Z) (u : Uploader) (H : heap) : Uploader * heap :=
  foldl (fun '(u, H) i => upload_SetPiece i u H) (u, H) (seqZ 0 numPieces).

(** Removes the first occurrence. *)
Definition remove_client (p : ptr) (cs : list ptr) : list ptr :=
  match list_find (fun c => c = p) cs with Some (i, _) => delete i cs | None => cs end.

(** Where a goroutine in [HandleIncoming] is, and where [Stop] is. *)
Inductive stage := Entered | Registered | Serving | Unlisted | Unregistered.
Inductive stop_stage := NotCalled | Closing (rest : list ptr) | Returned.

Record upload_sys := mkSys {
  sys_u : Uploader; sys_handlers : gmap ptr stage; sys_closed : gset ptr; sys_stop : stop_stage
}.

(** The steps of the goroutines: [HandleIncoming] of connection [p] and the first [Stop]. *)
Inductive upload_label :=
  | LEnter (p : ptr) | LHandshakeFails (p : ptr) | LRegister (p : ptr) | LList (p : ptr)
  | LServeEnds (p : ptr) | LUnregister (p : ptr) | LDone (p : ptr)
  | LStop | LStopClose | LStopWaited.

Definition upload_step (l : upload_label) (s : upload_sys) : option upload_sys :=
  let u := sys_u s in
  let hs := sys_handlers s in
  match l with
  | LEnter p =>
      if bool_decide (hs !! p = None) && bool_decide (p ∉ sys_closed s) then
        Some (if u_stopped u then mkSys u hs ({[p]} ∪ sys_closed s) (sys_stop s)
              else mkSys (with_wg (serveWg u + 1) u) (<[p := Entered]> hs) (sys_closed s) (sys_stop s))
      else None
  | LHandshakeFails p =>
      match hs !! p with
      | Some Entered => Some (mkSys (with_wg (serveWg u - 1) u) (delete p hs) (sys_closed s) (sys_stop s))
      | _ => None
      end
  | LRegister p =>
      match hs !! p with
      | Some Entered =>
          Some (mkSys (with_pm (Register p (u_pm u)) u) (<[p := Registered]> hs) (sys_closed s) (sys_stop s))
      | _ => None
      end
  | LList p =>
      match hs !! p with
      | Some Registered =>
          Some (mkSys (with_clients (u_clients u ++ [p]) u) (<[p := Serving]> hs) (sys_closed s) (sys_stop s))
      | _ => None
      end
  | LServeEnds p =>
      match hs !! p with
      | Some Serving =>
          Some (mkSys (with_clients (remove_client p (u_clients u)) u) (<[p := Unlisted]> hs)
                  ({[p]} ∪ sys_closed s) (sys_stop s))
      | _ => None
      end
  | LUnregister p =>
      match hs !! p with
      | Some Unlisted =>
          Some (mkSys (with_pm (Unregister p (u_pm u)).1 u) (<[p := Unregistered]> hs) (sys_closed s) (sys_stop s))
      | _ => None
      end
  | LDone p =>
      match hs !! p with
      | Some Unregistered => Some (mkSys (with_wg (serveWg u - 1) u) (delete p hs) (sys_closed s) (sys_stop s))
      | _ => None
      end
  | LStop =>
      if u_stopped u then None
      else Some (mkSys (mkUploader (u_bitfield u) (u_pm u) (u_clients u) true (serveWg u)) hs (sys_closed s)
                   (Closing (u_clients u)))
  | LStopClose =>
      match sys_stop s with
      | Closing (p :: rest) => Some (mkSys u hs ({[p]} ∪ sys_closed s) (Closing rest))
      | _ => None
      end
  | LStopWaited =>
      match sys_stop s with
      | Closing [] => if serveWg u =? 0 then Some (mkSys u hs (sys_closed s) Returned) else None
      | _ => None
      end
  end.

Definition upload_start (bf : option Bitfield) : upload_sys := mkSys (NewUploader bf) ∅ ∅ NotCalled.

Inductive upload_reach (bf : option Bitfield) : upload_sys -> Prop :=
  | upload_init : upload_reach bf (upload_start bf)
  | upload_next s l s' : upload_reach bf s -> upload_step l s = Some s' -> upload_reach bf s'.
