(* ===== verification/UploadTheorems.v ===== *)
(** * Properties of the upload side

    Only requested data of the torrent is sent, for requests read while the peer was not choked,
    and a downloading client gets a piece from it; the choking algorithm keeps the
    fastest peers and the optimistic one unchoked; when [Stop] returns nothing is
    being served. *)

From S2P Require Import Prelude Bitfield Wire Torrent Storage StorageTheorems Extension PieceQueue Client ClientTheorems Upload.
Set Warnings "-clear-no-such-hyp".
Local Open Scope Z_scope.

(** ** What a peer sees *)

Definition is_piece (m : Message) : bool := u8 (ID m) =? MsgPiece.
Definition is_unchoke (m : Message) : bool := u8 (ID m) =? MsgUnchoke.

(** What the peer was told last. *)
Fixpoint choke_state (ch : bool) (ms : list Message) : bool :=
  match ms with
  | [] => ch
  | m :: ms =>
      choke_state (if u8 (ID m) =? MsgChoke then true else if u8 (ID m) =? MsgUnchoke then false else ch) ms
  end.

Lemma choke_state_app ms : forall ch ms', choke_state ch (ms ++ ms') = choke_state (choke_state ch ms) ms'.
Proof. induction ms as [|m ms IH]; intros ch ms'; [done|]. cbn [app choke_state]. by rewrite IH. Qed.

(** The peer was not choked to begin with or has been told so since. *)
Definition opened (ch : bool) (ms : list Message) : Prop := ch = false \/ exists m, m ∈ ms /\ is_unchoke m = true.

Lemma opened_app ch ms ms' : opened ch ms -> opened ch (ms ++ ms').
Proof. intros [?|(m & Hm & ?)]; [by left|right; exists m; split; [apply elem_of_app; by left|done]]. Qed.

Lemma choke_state_opened ms : forall ch, choke_state ch ms = false -> opened ch ms.
Proof.
  induction ms as [|m ms IH]; intros ch H; cbn [choke_state] in H; [by left|].
  destruct (IH _ H) as [E|(m' & Hm & Hu)]; [|right; exists m'; split; [by right|done]].
  destruct (u8 (ID m) =? MsgChoke); [done|]. destruct (u8 (ID m) =? MsgUnchoke) eqn:Eu; [|by left].
  right. exists m. split; [left|done].
Qed.

(** Every block comes after that. *)
Definition blocks_opened (ch : bool) (ms : list Message) : Prop :=
  forall a m b, ms = a ++ m :: b -> is_piece m = true -> opened ch a.

Lemma blocks_opened_snoc ch ms m : blocks_opened ch ms -> (is_piece m = true -> opened ch ms) -> blocks_opened ch (ms ++ [m]).
Proof.
  intros Hb Hm a m' b E Hp. destruct b as [|x b _] using rev_ind.
  - apply app_inj_tail in E as [-> ->]. by apply Hm.
  - rewrite app_comm_cons, app_assoc in E. apply app_inj_tail in E as [-> _]. by eapply Hb.
Qed.

(** ** Serving arbitrary peers *)

Section Sound.
Context {R : Type} `{!ReadAtReader R} (inv : R -> Prop) (data : bytes) `{!ReadsStream R inv data}.
Context (n pl tl : Z) (fastExt : bool).
Context (Hn : 0 <= n < 2 ^ 32) (Hpl : 0 < pl) (Htl : (n - 1) * pl <= tl) (Hmax : tl + 2 ^ 33 <= MaxInt64).

Abbreviation request := (Z * Z * Z)%type.

Definition request_of (m : Message) : option request :=
  if u8 (ID m) =? MsgRequest then match ParseRequest (Payload m) with Ok r => Some r | Err _ => None end
  else None.

(** The request that is read by the event while the peer is not choked. *)
Definition admits (ev : serve_event) (s : serving R) : list request :=
  match ev, sv_pc s with
  | EvMsg (Some m), Reading => if choking (sv_client s) then [] else option_list (request_of m)
  | _, _ => []
  end.
(** All of a run, in order. *)
Fixpoint admitted (evs : list serve_event) (s : serving R) : list request :=
  match evs with
  | [] => []
  | ev :: evs => admits ev s ++ match serve_step n pl tl fastExt ev s with (s', None) => admitted evs s' | (_, Some _) => [] end
  end.

Definition in_torrent (rq : request) : Prop :=
  let '(index, begin, length) := rq in
  0 <= index < n /\ 0 <= begin /\ 0 <= length <= maxBlock /\ index * pl + begin + length <= tl.

(** The answer: the requested range of the torrent's data. *)
Definition block_of (rq : request) : Message :=
  let '(index, begin, length) := rq in
  NewPieceMessage index begin (take (Z.to_nat length) (drop (Z.to_nat (index * pl + begin)) data)).

Definition bytes_of (acc : list request) : Z := foldr (fun rq n => rq.2 + n) 0 acc.

Lemma bytes_of_snoc acc rq : bytes_of (acc ++ [rq]) = bytes_of acc + rq.2.
Proof. unfold bytes_of. rewrite foldr_app. cbn [foldr]. induction acc as [|a acc IH]; cbn [foldr] in *; lia. Qed.

(** What the peer has been told, from where the two goroutines are. *)
Definition view (s : serving R) : bool :=
  match sv_pc s, sv_mgr s with
  | UnchokeWritten, _ => false
  | _, ManagerWritten k => k
  | _, _ => choking (sv_client s)
  end.

(** Only one of them is between the message and the flag. *)
Definition exclusive (s : serving R) : Prop :=
  match sv_pc s, sv_mgr s with UnchokeWritten, ManagerWritten _ => False | _, _ => True end.

(** The request whose block is still to be written. *)
Definition pending_ok (s : serving R) (pend : list request) : Prop :=
  match sv_pc s with
  | Answering m (Some l) => exists rq, pend = [rq] /\ m = block_of rq /\ l = rq.2 /\ in_torrent rq
  | Answering m None => pend = [] /\ exists i b l, m = NewRejectMessage i b l
  | _ => pend = []
  end.

(** [pre] was sent since the start, with the blocks of [acc]. *)
Record serve_inv (o0 : list Message) (ch0 : bool) (s : serving R) (pre : list Message) (acc pend : list request) : Prop := {
  si_file : inv (sv_file s);
  si_pending : pending_ok s pend;
  si_out : out (sv_client s) = o0 ++ pre;
  si_blocks : filter (fun m => is_piece m = true) pre = block_of <$> acc;
  si_uploaded : uploaded s = bytes_of acc;
  si_in : Forall in_torrent acc;
  si_excl : exclusive s;
  si_view : view s = choke_state ch0 pre;
  si_open : choking (sv_client s) = false \/ pend <> [] -> opened ch0 pre;
  si_opened : blocks_opened ch0 pre
}.

Section Steps.
Context (o0 : list Message) (ch0 : bool) (s : serving R) (pre : list Message) (acc pend : list request).
Context (I : serve_inv o0 ch0 s pre acc pend).

(** A step without a message. *)
Lemma si_quiet s' pend' : inv (sv_file s') -> out (sv_client s') = out (sv_client s) -> uploaded s' = uploaded s ->
  exclusive s' -> view s' = view s -> pending_ok s' pend' ->
  (choking (sv_client s') = false -> choking (sv_client s) = false \/ view s = false) ->
  (pend' <> [] -> pend <> [] \/ choking (sv_client s) = false) -> serve_inv o0 ch0 s' pre acc pend'.
Proof.
  intros Hf Ho Hu He Hv Hp Hc Hq. destruct I. constructor; try done; [congruence..|].
  assert (Hopen : view s = false -> opened ch0 pre) by (intros; apply choke_state_opened; congruence). intuition.
Qed.

(** A message other than a block. *)
Lemma si_send s' m : inv (sv_file s') -> out (sv_client s') = out (sv_client s) ++ [m] -> uploaded s' = uploaded s ->
  is_piece m = false -> exclusive s' -> view s' = choke_state (view s) [m] -> pending_ok s' [] ->
  choking (sv_client s') = choking (sv_client s) -> serve_inv o0 ch0 s' (pre ++ [m]) acc [].
Proof.
  intros Hf Ho Hu Hm He Hv Hp Hc. destruct I. constructor; try done.
  - rewrite Ho, si_out0. by rewrite <- (assoc_L (++)).
  - rewrite filter_app, filter_cons, decide_False by congruence. by rewrite app_nil_r.
  - congruence.
  - by rewrite choke_state_app, <- si_view0.
  - intros [H|?]; [|done]. apply opened_app. rewrite Hc in H. auto.
  - apply blocks_opened_snoc; [done|congruence].
Qed.
End Steps.

(** The same with a request still pending. *)
Lemma si_send_pending o0 ch0 s pre acc pend s' m : serve_inv o0 ch0 s pre acc pend ->
  sv_file s' = sv_file s -> out (sv_client s') = out (sv_client s) ++ [m] -> uploaded s' = uploaded s ->
  is_piece m = false -> exclusive s' -> view s' = choke_state (view s) [m] -> sv_pc s' = sv_pc s ->
  choking (sv_client s') = choking (sv_client s) -> serve_inv o0 ch0 s' (pre ++ [m]) acc pend.
Proof.
  intros [] Hf Ho Hu Hm He Hv Hp Hc. constructor; try done.
  - by rewrite Hf.
  - unfold pending_ok. by rewrite Hp.
  - rewrite Ho, si_out0. by rewrite <- (assoc_L (++)).
  - rewrite filter_app, filter_cons, decide_False by congruence. by rewrite app_nil_r.
  - congruence.
  - by rewrite choke_state_app, <- si_view0.
  - intros H. apply opened_app. rewrite Hc in H. auto.
  - apply blocks_opened_snoc; [done|congruence].
Qed.

(** A block. *)
Lemma si_block o0 ch0 s pre acc rq c' : serve_inv o0 ch0 s pre acc [rq] -> sv_pc s = Answering (block_of rq) (Some rq.2) -> in_torrent rq ->
  send (block_of rq) (sv_client s) = Some c' ->
  serve_inv o0 ch0 (mkServing c' (sv_file s) (uploaded s + rq.2) Reading (sv_mgr s)) (pre ++ [block_of rq]) (acc ++ [rq]) [].
Proof.
  intros [] Epc Hrq Hs. unfold send in Hs. destruct (wleft (sv_client s)); [done|]. injection Hs as <-.
  assert (Hp : is_piece (block_of rq) = true) by (by destruct rq as [[i b] l]).
  assert (Hk : u8 (ID (block_of rq)) = MsgPiece) by (by destruct rq as [[i b] l]).
  unfold exclusive, view in *. rewrite Epc in *. constructor; cbn [sv_client sv_file uploaded sv_pc sv_mgr out choking]; try done.
  - rewrite si_out0. by rewrite <- (assoc_L (++)).
  - rewrite filter_app, fmap_app, si_blocks0. f_equal. by rewrite filter_cons, decide_True.
  - by rewrite bytes_of_snoc, si_uploaded0.
  - by apply Forall_app_2, Forall_singleton.
  - unfold view. cbn [sv_client sv_pc sv_mgr choking]. rewrite choke_state_app, <- si_view0. cbn [choke_state]. by rewrite Hk.
  - intros [H|?]; [|done]. apply opened_app. auto.
  - apply blocks_opened_snoc; [done|]. intros _. apply si_open0. by right.
Qed.

Lemma ParseRequest_range p i b l : ParseRequest p = Ok (i, b, l) -> u32 i /\ u32 b /\ u32 l.
Proof.
  unfold ParseRequest. destruct (Z.ltb_spec (len p) 12); [done|]. intros [= <- <- <-].
  assert (Hf : forall a, 0 <= a -> a + 4 <= 12 -> u32 (be_get (slice p a (a + 4)))).
  { intros a Ha Hb. pose proof (be_get_range (slice p a (a + 4))) as Hr.
    rewrite length_slice in Hr by lia. unfold u32. replace (Z.to_nat _) with 4%nat in Hr by lia. lia. }
  split_and!; [apply (Hf 0)|apply (Hf 4)|apply (Hf 8)]; lia.
Qed.

(** A request that is read leaves its answer to be written, and nothing else changes. *)
Lemma request_checked p s : inv (sv_file s) -> sv_pc s = Reading ->
  exists r' pc', (serve_request n pl tl fastExt p s).1 = mkServing (sv_client s) r' (uploaded s) pc' (sv_mgr s) /\ inv r' /\
    (pc' = Reading \/ (exists i b l, pc' = Answering (NewRejectMessage i b l) None) \/
     exists rq, pc' = Answering (block_of rq) (Some rq.2) /\ in_torrent rq /\ ParseRequest p = Ok rq /\ choking (sv_client s) = false).
Proof.
  intros Hi Epc. destruct s as [c r up pc mg]. cbn [sv_pc sv_client sv_file uploaded sv_mgr] in *. subst pc. unfold serve_request.
  cbn [sv_client sv_file uploaded sv_mgr sv_pc].
  assert (Hsame : exists r' pc', mkServing c r up Reading mg = mkServing c r' up pc' mg /\ inv r' /\
    (pc' = Reading \/ (exists i b l, pc' = Answering (NewRejectMessage i b l) None) \/
     exists rq, pc' = Answering (block_of rq) (Some rq.2) /\ in_torrent rq /\ ParseRequest p = Ok rq /\ choking c = false)).
  { exists r, Reading. split; [done|]. split; [done|by left]. }
  destruct (choking c) eqn:Ec.
  { destruct fastExt; [|exact Hsame]. destruct (ParseRequest p) as [[[i b] l]|]; [|exact Hsame].
    exists r, (Answering (NewRejectMessage i b l) None). split; [done|]. split; [done|]. right; left. by exists i, b, l. }
  destruct (ParseRequest p) as [[[i b] l]|e] eqn:Ep; [|exact Hsame].
  apply ParseRequest_range in Ep as (Hi32 & Hb32 & Hl32). unfold u32 in *.
  rewrite (wrapu_id 32 n) by lia.
  destruct (Z.leb_spec n i); [exact Hsame|]. destruct (Z.ltb_spec maxBlock l); [exact Hsame|].
  assert (Hip : 0 <= i * pl <= tl) by nia. unfold maxBlock in *.
  rewrite (i64_id (i * pl)), (i64_id (i * pl + b)), (i64_id (i * pl + b + l))
    by (unfold in_i64, MinInt64, MaxInt64 in *; lia).
  rewrite (proj2 (Z.ltb_ge _ 0)) by lia. cbn [orb].
  destruct (Z.ltb_spec tl (i * pl + b + l)); [exact Hsame|].
  pose proof (reads_stream r l (i * pl + b) Hi ltac:(lia) ltac:(lia)) as Hr.
  destruct (readAt r l (i * pl + b)) as [r' [block err]]. destruct Hr as (Hr & Hb & _).
  destruct err; [exists r', Reading; split; [done|]; split; [done|by left]|].
  destruct (negb _); [exists r', Reading; split; [done|]; split; [done|by left]|].
  exists r', (Answering (NewPieceMessage i b block) (Some l)). split; [done|]. split; [done|]. right; right.
  exists (i, b, l). split; [cbn; by rewrite <- Hb|]. split; [cbn; unfold maxBlock; lia|done].
Qed.

(** The step of the invariant, by event. *)
Definition goes_on (o0 : list Message) (ch0 : bool) (s : serving R) (acc pend adm : list request) : Prop :=
  exists pre' acc' pend', serve_inv o0 ch0 s pre' acc' pend' /\ sublist (acc' ++ pend') (acc ++ pend ++ adm).

Lemma goes_on_keep o0 ch0 s pre acc pend adm : serve_inv o0 ch0 s pre acc pend -> goes_on o0 ch0 s acc pend adm.
Proof.
  intros I. exists pre, acc, pend. split; [done|]. apply sublist_app; [done|]. by apply sublist_inserts_r.
Qed.

Lemma message_goes_on o0 ch0 s pre acc m : serve_inv o0 ch0 s pre acc [] -> sv_pc s = Reading ->
  goes_on o0 ch0 (serve_message n pl tl fastExt m s).1 acc [] (admits (EvMsg (Some m)) s).
Proof.
  intros I Epc. unfold serve_message.
  assert (Hkeep : forall f, (forall c, out (f c) = out c /\ choking (f c) = choking c) ->
    goes_on o0 ch0 (on_client f s) acc [] (admits (EvMsg (Some m)) s)).
  { intros f Hf. destruct (Hf (sv_client s)) as [Hf1 Hf2]. eapply goes_on_keep, (si_quiet _ _ _ _ _ _ I _ []); cbn; try done; try apply I.
    - unfold view. cbn. by rewrite Epc, Hf2.
    - rewrite Hf2. by left. }
  destruct (_ =? MsgInterested).
  { destruct (choking (sv_client s)) eqn:Ec; [|by eapply goes_on_keep].
    eapply goes_on_keep, (si_quiet _ _ _ _ _ _ I _ []); cbn; try done; try apply I.
    - unfold view. cbn. by rewrite Epc.
    - by left. }
  destruct (_ =? MsgNotInterested); [by eapply goes_on_keep|].
  destruct (u8 (ID m) =? MsgRequest) eqn:E.
  { destruct (request_checked (Payload m) s (si_file _ _ _ _ _ _ I) Epc) as (r' & pc' & -> & Hr & Hpc).
    assert (Hstep : forall pend', pending_ok (mkServing (sv_client s) r' (uploaded s) pc' (sv_mgr s)) pend' ->
      pc' <> UnchokeWritten -> (pend' <> [] -> choking (sv_client s) = false) ->
      serve_inv o0 ch0 (mkServing (sv_client s) r' (uploaded s) pc' (sv_mgr s)) pre acc pend').
    { intros pend' Hp Hne Hc. apply (si_quiet _ _ _ _ _ _ I); cbn; try done; auto; unfold exclusive, view; cbn; rewrite ?Epc; by destruct pc'. }
    destruct Hpc as [->|[(i & b & l & ->)|(rq & -> & Hin & Hrq & Hc)]].
    - by eapply goes_on_keep, Hstep.
    - eapply goes_on_keep, Hstep; [|done..]. split; [done|]. by exists i, b, l.
    - exists pre, acc, [rq]. split; [apply Hstep; [by exists rq|done|done]|]. cbn [app admits]. rewrite Epc, Hc. unfold request_of. by rewrite E, Hrq. }
  destruct (_ =? MsgCancel); [by eapply goes_on_keep|].
  destruct (_ =? MsgHave).
  { apply Hkeep. intros c. unfold on_have, safeBitfieldSet. by repeat case_match. }
  destruct (_ =? MsgBitfield); [by apply Hkeep|]. destruct (_ =? MsgHaveAll); [by apply Hkeep|].
  destruct (_ =? MsgHaveNone); [by apply Hkeep|by eapply goes_on_keep].
Qed.

Lemma sent_out m c c' : send m c = Some c' -> out c' = out c ++ [m] /\ choking c' = choking c.
Proof. unfold send. destruct (wleft c); [done|]. by intros [= <-]. Qed.

Ltac serve_done :=
  cbn; try done; unfold exclusive, view, try_send, SendHave; cbn;
  repeat match goal with E : sv_pc _ = _ |- _ => rewrite E | E : sv_mgr _ = _ |- _ => rewrite E | E : send _ _ = _ |- _ => rewrite E end;
  cbn; try done; try (by left).

Lemma go_goes_on o0 ch0 s pre acc pend : serve_inv o0 ch0 s pre acc pend -> goes_on o0 ch0 (serve_go s).1 acc pend [].
Proof.
  intros I. pose proof (si_pending _ _ _ _ _ _ I) as Hp. unfold pending_ok in Hp. unfold serve_go.
  destruct (sv_pc s) as [| | |m [l|]] eqn:Epc; [by eapply goes_on_keep|..].
  - subst pend. destruct (sv_mgr s) as [|k|k] eqn:Em; [| |by eapply goes_on_keep].
    all: destruct (send _ _) as [c'|] eqn:Es; cbn [fst];
      [|eapply goes_on_keep, (si_quiet _ _ _ _ _ _ I _ []); try apply I; serve_done].
    all: destruct (sent_out _ _ _ Es) as [Eo Ec]; exists (pre ++ [message MsgUnchoke []]), acc, []; split; [|done].
    all: apply (si_send _ _ _ _ _ _ I); try apply I; serve_done.
  - subst pend. pose proof (si_excl _ _ _ _ _ _ I) as He. unfold exclusive in He. rewrite Epc in He.
    eapply goes_on_keep, (si_quiet _ _ _ _ _ _ I _ []); try apply I; serve_done; [by destruct (sv_mgr s)|by right].
  - destruct Hp as (rq & -> & -> & -> & Hin). destruct (send _ _) as [c'|] eqn:Es; [|by eapply goes_on_keep].
    exists (pre ++ [block_of rq]), (acc ++ [rq]), []. split; [by apply si_block|]. by rewrite !app_nil_r.
  - destruct Hp as (-> & i & b & l & ->). cbn [fst]. destruct (send (NewRejectMessage i b l) (sv_client s)) as [c'|] eqn:Es.
    + destruct (sent_out _ _ _ Es) as [Eo Ec]. exists (pre ++ [NewRejectMessage i b l]), acc, []. split; [|done].
      apply (si_send _ _ _ _ _ _ I); try apply I; serve_done. rewrite Ec. by destruct (sv_mgr s).
    + eapply goes_on_keep, (si_quiet _ _ _ _ _ _ I _ []); try apply I; serve_done.
Qed.

Lemma manager_goes_on o0 ch0 s pre acc pend : serve_inv o0 ch0 s pre acc pend -> goes_on o0 ch0 (manager_go s) acc pend [].
Proof.
  intros I. pose proof (si_excl _ _ _ _ _ _ I) as He. unfold exclusive in He. unfold manager_go.
  destruct (sv_mgr s) as [|k|k] eqn:Em; [by eapply goes_on_keep| |].
  - assert (Hw : sv_pc s = UnchokeWritten \/ sv_pc s <> UnchokeWritten) by (destruct (sv_pc s); auto).
    destruct Hw as [Hw|Hw]; [rewrite Hw; by eapply goes_on_keep|].
    assert (E : forall A (x y : A), match sv_pc s with UnchokeWritten => x | _ => y end = y) by (intros; by destruct (sv_pc s)).
    rewrite E. destruct (send _ _) as [c'|] eqn:Es.
    + apply sent_out in Es as [Eo Ec]. exists (pre ++ [message (if k then MsgChoke else MsgUnchoke) []]), acc, pend.
      split; [|by rewrite app_nil_r]. apply (si_send_pending _ _ _ _ _ _ _ _ I); try done; cbn; try (by destruct k).
      * unfold exclusive. cbn. by rewrite E.
      * unfold view. cbn. destruct (sv_pc s), k; done.
    + eapply goes_on_keep, (si_quiet _ _ _ _ _ _ I _ pend); try apply I; serve_done; by destruct (sv_pc s).
  - eapply goes_on_keep, (si_quiet _ _ _ _ _ _ I _ pend); try apply I; serve_done; [by destruct (sv_pc s)..|].
    intros ->. right. by destruct (sv_pc s).
Qed.

Lemma test_goes_on o0 ch0 k s pre acc pend : serve_inv o0 ch0 s pre acc pend -> goes_on o0 ch0 (manager_test k s) acc pend [].
Proof.
  intros I. unfold manager_test. destruct (sv_mgr s) eqn:Em; [|by eapply goes_on_keep..].
  destruct (Bool.eqb _ _); [by eapply goes_on_keep|].
  eapply goes_on_keep, (si_quiet _ _ _ _ _ _ I _ pend); try apply I; serve_done; by destruct (sv_pc s).
Qed.

Lemma step_goes_on o0 ch0 ev s pre acc pend : serve_inv o0 ch0 s pre acc pend ->
  goes_on o0 ch0 (serve_step n pl tl fastExt ev s).1 acc pend (admits ev s).
Proof.
  intros I. destruct ev as [[m|]| | | | | |i]; cbn [serve_step fst].
  - destruct (sv_pc s) eqn:Epc; [|by eapply goes_on_keep..].
    pose proof (si_pending _ _ _ _ _ _ I) as Hp. unfold pending_ok in Hp. rewrite Epc in Hp. subst pend.
    by eapply message_goes_on.
  - by eapply goes_on_keep.
  - destruct (sv_pc s); by eapply goes_on_keep.
  - by eapply go_goes_on.
  - by eapply test_goes_on.
  - by eapply test_goes_on.
  - by eapply manager_goes_on.
  - destruct (send (NewHaveMessage i) (sv_client s)) as [c'|] eqn:Es.
    + destruct (sent_out _ _ _ Es) as [Eo Ec]. exists (pre ++ [NewHaveMessage i]), acc, pend. split; [|by rewrite app_nil_r].
      apply (si_send_pending _ _ _ _ _ _ _ _ I); serve_done; [by apply I|].
      rewrite Ec. destruct (sv_pc s), (sv_mgr s); cbn; try done; by destruct choke.
    + eapply goes_on_keep, (si_quiet _ _ _ _ _ _ I _ pend); try apply I; serve_done.
Qed.

Lemma loop_goes_on o0 ch0 evs : forall s pre acc pend, serve_inv o0 ch0 s pre acc pend ->
  goes_on o0 ch0 (serveLoop n pl tl fastExt evs s).1 acc pend (admitted evs s).
Proof.
  induction evs as [|ev evs IH]; intros s pre acc pend I; cbn [serveLoop admitted]; [by eapply goes_on_keep|].
  destruct (step_goes_on _ _ ev _ _ _ _ I) as (pre1 & acc1 & pend1 & I1 & Hs1).
  destruct (serve_step n pl tl fastExt ev s) as [s1 [why|]]; cbn [fst] in *.
  - exists pre1, acc1, pend1. split; [done|]. by rewrite app_nil_r.
  - destruct (IH _ _ _ _ I1) as (pre2 & acc2 & pend2 & I2 & Hs2). exists pre2, acc2, pend2. split; [done|].
    etransitivity; [exact Hs2|]. rewrite !app_assoc. apply sublist_app; [|done]. by rewrite <- app_assoc.
Qed.

(** *** Requests of an honest peer *)

Definition ask (rq : request) : Message := let '(i, b, l) := rq in NewRequestMessage i b l.

(** A message and what the goroutine does about it, undisturbed. *)
Definition exchange (m : Message) : list serve_event := [EvMsg (Some m); EvGo; EvGo].

Lemma loop_app evs : forall evs' s s1, serveLoop n pl tl fastExt evs s = (s1, None) ->
  serveLoop n pl tl fastExt (evs ++ evs') s = serveLoop n pl tl fastExt evs' s1.
Proof.
  induction evs as [|ev evs IH]; intros evs' s s1 H; cbn [serveLoop app] in *; [by injection H as <-|].
  destruct (serve_step n pl tl fastExt ev s) as [s2 [why|]]; [done|]. by apply IH.
Qed.

Lemma serve_valid rq c r up : inv r -> choking c = false -> (0 < wleft c)%nat ->
  tl <= len data -> in_torrent rq -> 0 <= rq.1.2 < 2 ^ 32 ->
  exists r', inv r' /\ serveLoop n pl tl fastExt (exchange (ask rq)) (mkServing c r up Reading ManagerIdle) =
    (mkServing (sent [block_of rq] c) r' (up + rq.2) Reading ManagerIdle, None).
Proof.
  destruct rq as [[i b] l]. intros Hi Hc Hw Hd (Hin & Hb & Hl & Hend) Hb32. cbn [fst snd] in *.
  assert (Hip : 0 <= i * pl <= tl) by nia. unfold maxBlock in *. unfold exchange. cbn [serveLoop serve_step sv_pc].
  change (serve_message n pl tl fastExt (ask (i, b, l)) (mkServing c r up Reading ManagerIdle))
    with (serve_request n pl tl fastExt (be_put 4 i ++ be_put 4 b ++ be_put 4 l) (mkServing c r up Reading ManagerIdle)).
  unfold serve_request. cbn [sv_client sv_file uploaded sv_pc sv_mgr]. rewrite Hc.
  rewrite parse_request_put by (unfold u32; lia). rewrite (wrapu_id 32 n) by lia.
  rewrite (proj2 (Z.leb_gt _ _)), (proj2 (Z.ltb_ge maxBlock _)) by (unfold maxBlock; lia).
  rewrite (i64_id (i * pl)), (i64_id (i * pl + b)), (i64_id (i * pl + b + l))
    by (unfold in_i64, MinInt64, MaxInt64 in *; lia).
  rewrite (proj2 (Z.ltb_ge _ 0)), (proj2 (Z.ltb_ge tl _)) by lia. cbn [orb].
  pose proof (reads_stream r l (i * pl + b) Hi ltac:(lia) ltac:(lia)) as Hr.
  destruct (readAt r l (i * pl + b)) as [r' [block err]]. destruct Hr as (Hr & Hblk & He).
  assert (Hlen : len block = l) by (rewrite Hblk, length_take, length_drop; lia).
  rewrite (He Hlen), Hlen, Z.eqb_refl. cbn [negb at_pc serve_go sv_pc sv_client sv_file uploaded sv_mgr]. rewrite send_sent by done.
  exists r'. split; [done|]. cbn [serve_go sv_pc]. by rewrite Hblk.
Qed.

Lemma serve_all rqs : forall c r up, inv r -> choking c = false ->
  (length rqs <= wleft c)%nat -> tl <= len data -> Forall in_torrent rqs ->
  Forall (fun rq : request => 0 <= rq.1.2 < 2 ^ 32) rqs ->
  exists s', serveLoop n pl tl fastExt (concat (exchange <$> (ask <$> rqs))) (mkServing c r up Reading ManagerIdle) = (s', None) /\
    out (sv_client s') = out c ++ (block_of <$> rqs) /\ uploaded s' = up + bytes_of rqs.
Proof.
  induction rqs as [|rq rqs IH]; intros c r up Hi Hc Hw Hd Hin Hb.
  { exists (mkServing c r up Reading ManagerIdle). cbn. rewrite app_nil_r. split_and!; [done..|lia]. }
  apply Forall_cons in Hin as [Hin0 Hin], Hb as [Hb0 Hb]. cbn [length] in Hw.
  destruct (serve_valid rq c r up) as (r' & Hr & E); [done|done|lia|done..|].
  destruct (IH (sent [block_of rq] c) r' (up + rq.2)) as (s' & Hs & Ho & Hu); [done|done|cbn; lia|done..|].
  exists s'. rewrite !fmap_cons, concat_cons, (loop_app _ _ _ _ E). split_and!; [done| |].
  - rewrite Ho. cbn [sent out]. by rewrite <- (assoc_L (++)).
  - rewrite Hu. change (bytes_of (rq :: rqs)) with (rq.2 + bytes_of rqs). lia.
Qed.


(** The requests for a piece of [L] bytes, block by block. *)
Definition piece_requests (index L : Z) (from k : nat) : list request :=
  (fun j => (index, block_off L j, block_off L (S j) - block_off L j)) <$> seq from k.

Lemma piece_requests_ok index L : 0 <= index < n -> 0 <= L <= pl -> pl < 2 ^ 32 -> index * pl + L <= tl ->
  Forall in_torrent (piece_requests index L 0 (num_blocks L)) /\
  Forall (fun rq : request => 0 <= rq.1.2 < 2 ^ 32) (piece_requests index L 0 (num_blocks L)).
Proof.
  intros Hi HL Hp He. split; apply Forall_fmap, Forall_forall; intros j [_ Hj]%elem_of_seq;
    destruct (block_off_lt L j) as (_ & Hb & Hle & Hs); cbn; unfold maxBlock, BlockSize in *; lia.
Qed.

Lemma piece_requests_bytes index L k : 0 <= L -> bytes_of (piece_requests index L 0 k) = block_off L k.
Proof.
  intros HL. assert (H : forall from, bytes_of (piece_requests index L from k) = block_off L (from + k) - block_off L from).
  { induction k as [|k IH]; intros from; [cbn; rewrite Nat.add_0_r; lia|].
    change (bytes_of (piece_requests index L from (S k))) with
      (block_off L (S from) - block_off L from + bytes_of (piece_requests index L (S from) k)).
    rewrite IH. replace (S from + k)%nat with (from + S k)%nat by lia. lia. }
  rewrite H, (block_off_0 L HL). cbn [Nat.add]. lia.
Qed.

Lemma piece_delivered (pw : PieceWork) k m :
  let L := Length pw in let D := slice data (Index pw * pl) (Index pw * pl + L) in
  0 <= Index pw -> 0 <= L -> Index pw * pl + L <= len data -> (k + m = num_blocks L)%nat ->
  delivers pw D [] k (Some <$> (block_of <$> piece_requests (Index pw) L k m)).
Proof.
  intros L D Hi HL Hd. revert k. induction m as [|m IH]; intros k Hk.
  { rewrite Nat.add_0_r in Hk. subst k. apply delivers_done. }
  destruct (block_off_lt L k) as (_ & Hb & Hle & _); [done|lia|].
  cbn [piece_requests seq fmap list_fmap block_of].
  replace (take _ _) with (slice D (block_off L k) (block_off L (S k))).
  - apply delivers_block; [fold L; lia|]. apply IH. lia.
  - unfold D. rewrite slice_slice by nia. unfold slice. f_equal. lia.
Qed.

Lemma interested_unchokes cs r : choking cs = true -> (0 < wleft cs)%nat ->
  serveLoop n pl tl fastExt (exchange (message MsgInterested [])) (serve_start cs r) =
  (mkServing (set_choking false (sent [message MsgUnchoke []] cs)) r 0 Reading ManagerIdle, None).
Proof.
  intros Hc Hw. unfold exchange. cbn [serveLoop serve_step serve_start sv_pc].
  change (serve_message n pl tl fastExt (message MsgInterested []) (serve_start cs r))
    with (if choking cs then at_pc UnchokeTested (serve_start cs r) else serve_start cs r, @None reason).
  rewrite Hc. unfold serve_go at 1. cbn [at_pc sv_pc sv_mgr sv_client serve_start]. by rewrite send_sent.
Qed.

(** The client with these messages to read. *)
Definition hears (ms : list Message) (c : Client) : Client :=
  mkClient (bitfield c) (haveAll c) (choked c) (choking c) (sentInterested c) (maxPipeline c) (pipelineMin c)
    (pipelineMax c) (pipelineWindow c) (numPieces c) (pexRemoteID c) (peerSink c) (Some <$> ms) (out c) (wleft c).

(** C12: an uploading and a downloading client fit together: there are messages [asked], among them an interest and requests, which
    the uploading client, undisturbed by the peer manager, answers with [answers], an unchoke and the
    blocks; and the downloading client that reads [answers] sends exactly [asked] and returns exactly the piece. *)
Theorem Seed_leech (sha1 : bytes -> bytes) onRequest sink_ok rates pool (pw : PieceWork) c cs r :
  inv r -> tl <= len data -> 0 <= Index pw < n -> 0 <= Length pw <= pl -> pl < 2 ^ 32 ->
  Index pw * pl + Length pw <= tl ->
  let D := slice data (Index pw * pl) (Index pw * pl + Length pw) in
  sha1 D = Hash pw -> Length pw <= len pool ->
  choked c = true -> sentInterested c = false -> (num_blocks (Length pw) < wleft c)%nat ->
  choking cs = true -> (num_blocks (Length pw) < wleft cs)%nat ->
  exists asked answers s c',
    serveLoop n pl tl fastExt (concat (exchange <$> asked)) (serve_start cs r) = (s, None) /\
    out (sv_client s) = out cs ++ answers /\ uploaded s = Length pw /\
    DownloadPiece sha1 onRequest sink_ok rates pool pw (hears answers c) = Ok (D, c') /\
    out c' = out c ++ asked.
Proof.
  intros Hi Hd Hidx HL Hpl32 Hend D Hsha Hpool Hch Hsi Hw Hcs Hws.
  set (L := Length pw) in *. set (rqs := piece_requests (Index pw) L 0 (num_blocks L)).
  destruct (piece_requests_ok (Index pw) L) as [Hin Hb]; [done..|]. fold rqs in Hin, Hb.
  destruct (serve_all rqs (set_choking false (sent [message MsgUnchoke []] cs)) r 0) as (s & E & Ho & Hu); [done|done| |done..|].
  { cbn. unfold rqs, piece_requests. rewrite length_fmap, length_seq. lia. }
  assert (HD : len D = L) by (unfold D; rewrite length_slice by nia; lia).
  destruct (piece_complete sha1 onRequest sink_ok rates pool D pw (hears (message MsgUnchoke [] :: (block_of <$> rqs)) c) []
    (Some <$> (block_of <$> rqs)) []) as (c' & Ec & _ & Hoc).
  all: try done; try (unfold u32; lia); try lia.
  { apply (piece_delivered pw 0 (num_blocks L)); [lia|lia|lia|done]. }
  exists (message MsgInterested [] :: (ask <$> rqs)), (message MsgUnchoke [] :: (block_of <$> rqs)), s, c'.
  split; [rewrite fmap_cons, concat_cons; by rewrite (loop_app _ _ _ _ (interested_unchokes cs r Hcs ltac:(lia)))|].
  split; [rewrite Ho; cbn; by rewrite <- (assoc_L (++))|].
  split; [rewrite Hu; unfold rqs; rewrite piece_requests_bytes by lia; apply block_off_end; lia|].
  split; [done|]. rewrite Hoc. cbn [hears sentInterested out]. rewrite Hsi. cbn [app]. do 2 f_equal.
  unfold rqs, piece_requests. by rewrite <- list_fmap_compose.
Qed.
End Sound.

(** ** Choking *)

Definition order_ok (speed : ptr -> Z) (sortSlice : list ptr -> list ptr) : Prop :=
  forall l, sortSlice l ≡ₚ l /\ StronglySorted (fun p q => speed q <= speed p) (sortSlice l).

Definition verdict (slots : Z) (opt : option ptr) (j : Z) (p : ptr) : bool :=
  (j <? slots) || bool_decide (opt = Some p).

Lemma choke_loop_other slots opt ranked : forall i H p,
  p ∉ ranked -> choke_loop slots opt i ranked H !! p = H !! p.
Proof.
  induction ranked as [|q ranked IH]; intros i H p Hp; [done|]. apply not_elem_of_cons in Hp as [Hne Hp].
  cbn [choke_loop]. rewrite IH by done. by rewrite lookup_alter_ne.
Qed.

Lemma choke_loop_at slots opt ranked : forall i H j p, NoDup ranked -> ranked !! j = Some p ->
  choke_loop slots opt i ranked H !! p =
  try_send (if verdict slots opt (i + Z.of_nat j) p then SendUnchoke else SendChoke) <$> H !! p.
Proof.
  induction ranked as [|q ranked IH]; intros i H j p Hnd Hj; [done|]. apply NoDup_cons in Hnd as [Hq Hnd].
  cbn [choke_loop]. destruct j as [|j]; cbn in Hj.
  - simplify_eq. rewrite choke_loop_other, lookup_alter_eq, Z.add_0_r by done. done.
  - rewrite (IH _ _ j) by done. rewrite lookup_alter_ne.
    + by replace (i + 1 + Z.of_nat j) with (i + Z.of_nat (S j)) by lia.
    + intros ->. by apply Hq, (list_elem_of_lookup_2 _ j).
Qed.

(** With room to write, the client ends up as decided and hears of a change only. *)
Lemma try_choke v c : (0 < wleft c)%nat ->
  let c' := try_send (if v : bool then SendUnchoke else SendChoke) c in
  choking c' = negb v /\
  out c' = out c ++ (if bool_decide (choking c = negb v) then [] else [message (if v then MsgUnchoke else MsgChoke) []]).
Proof.
  intros Hw. unfold try_send, SendUnchoke, SendChoke. destruct v, (choking c) eqn:E; cbn [negb].
  all: rewrite ?send_sent by done; cbn; by rewrite ?E, ?app_nil_r.
Qed.

Section Rechoke.
Context (speed : ptr -> Z) (sortSlice : list ptr -> list ptr) (Hsort : order_ok speed sortSlice).
Context (pm : PeerManager) (H : heap) (Hnd : NoDup (pm_peers pm)).
Context (Hc : forall p, p ∈ pm_peers pm -> exists c, H !! p = Some c /\ (0 < wleft c)%nat).
Context (Hslots : 0 <= unchokeSlots pm).

Abbreviation ranked := (sortSlice (pm_peers pm)).
Abbreviation H' := (rechoke sortSlice pm H).

Definition is_open (p : ptr) : bool := negb (is_choking H' p).

Lemma ranked_elem p : p ∈ pm_peers pm <-> exists j, ranked !! j = Some p.
Proof. rewrite <- (proj1 (Hsort (pm_peers pm))). apply list_elem_of_lookup. Qed.

Lemma rechoke_at j p c : ranked !! j = Some p -> H !! p = Some c ->
  H' !! p = Some (try_send (if verdict (unchokeSlots pm) (optimisticPeer pm) (Z.of_nat j) p then SendUnchoke else SendChoke) c).
Proof.
  intros Hj Hp. unfold rechoke. destruct (Z.eqb_spec (len (pm_peers pm)) 0) as [E|E].
  - destruct (pm_peers pm) as [|q l] eqn:El; [|cbn in E; lia].
    destruct (Hsort []) as [Hp0 _]. apply Permutation_nil_r in Hp0. by rewrite Hp0 in Hj.
  - rewrite (choke_loop_at _ _ _ _ _ j) by (rewrite ?(proj1 (Hsort _)); done). by rewrite Hp.
Qed.

Lemma is_open_at j p : ranked !! j = Some p ->
  is_open p = verdict (unchokeSlots pm) (optimisticPeer pm) (Z.of_nat j) p.
Proof.
  intros Hj. destruct (Hc p) as (c & Hp & Hw); [apply ranked_elem; eauto|].
  unfold is_open, is_choking. rewrite (rechoke_at j p c) by done.
  rewrite (proj1 (try_choke _ c Hw)). by rewrite negb_involutive.
Qed.

(** At most one peer beyond the slots is unchoked. *)
Lemma open_tail l k : NoDup l -> (forall j p, l !! j = Some p -> is_open p = verdict (unchokeSlots pm) (optimisticPeer pm) (k + Z.of_nat j) p) ->
  unchokeSlots pm <= k -> (length (filter (fun p => is_open p = true) l) <= 1)%nat.
Proof.
  intros Hl Hv Hk. destruct (optimisticPeer pm) as [o|] eqn:Eo.
  - assert (Hf : forall p, p ∈ filter (fun p => is_open p = true) l -> p = o).
    { intros p [Ho [j Hj]%list_elem_of_lookup]%list_elem_of_filter. rewrite (Hv j p Hj) in Ho. unfold verdict in Ho.
      rewrite (proj2 (Z.ltb_ge _ _)) in Ho by lia. cbn in Ho. apply bool_decide_eq_true in Ho. congruence. }
    assert (Hn : NoDup (filter (fun p => is_open p = true) l)) by (by apply NoDup_filter).
    destruct (filter _ l) as [|a [|b l']]; cbn; [lia|lia|].
    assert (a = o) by (apply Hf; left). assert (b = o) by (apply Hf; right; left).
    subst. apply NoDup_cons in Hn as [Hn _]. exfalso. apply Hn. left.
  - rewrite filter_none; [cbn; lia|]. intros p [j Hj]%list_elem_of_lookup. rewrite (Hv j p Hj). unfold verdict.
    rewrite (proj2 (Z.ltb_ge _ _)) by lia. by rewrite bool_decide_eq_false_2.
Qed.

Lemma open_count : let n := length (filter (fun p => is_open p = true) (pm_peers pm)) in
  Z.min (unchokeSlots pm) (len (pm_peers pm)) <= Z.of_nat n <= unchokeSlots pm + 1.
Proof.
  cbn zeta. destruct (Hsort (pm_peers pm)) as [Hp _].
  assert (E : length (filter (fun p => is_open p = true) (pm_peers pm)) =
    length (filter (fun p => is_open p = true) ranked)) by (by rewrite Hp).
  rewrite E. replace (length (pm_peers pm)) with (length ranked) by (by rewrite Hp). clear E.
  assert (Hr : NoDup ranked) by (by rewrite Hp).
  set (k := Z.to_nat (unchokeSlots pm)). rewrite <- (take_drop k ranked) in Hr.
  replace (filter (fun p => is_open p = true) ranked)
    with (filter (fun p => is_open p = true) (take k ranked ++ drop k ranked)) by (by rewrite take_drop).
  rewrite filter_app, length_app, (filter_all _ (take k ranked)).
  - rewrite length_take. apply NoDup_app in Hr as (_ & _ & Hr).
    pose proof (open_tail (drop k ranked) (Z.of_nat k) Hr) as Ht.
    assert (Hle : (length (filter (fun p => is_open p = true) (drop k ranked)) <= 1)%nat).
    { apply Ht; [|unfold k; lia]. intros j p Hj. rewrite lookup_drop in Hj. rewrite (is_open_at (k + j) p Hj).
      f_equal. lia. }
    unfold k in *. lia.
  - intros p [j [Hj Hlt]%lookup_take_Some]%list_elem_of_lookup. rewrite (is_open_at j p Hj). unfold verdict.
    by rewrite (proj2 (Z.ltb_lt _ _)) by (unfold k in *; lia).
Qed.

(** After a rechoke, with connections that take the message, as many peers are unchoked
    as there are slots, and at most the optimistic one more; no choked peer is faster
    than an unchoked one other than the optimistic; the optimistic peer stays
    unchoked; each peer hears only of a change, and no other client is touched. *)
Lemma Rechoke_spec :
  let n := length (filter (fun p => is_open p = true) (pm_peers pm)) in
  Z.min (unchokeSlots pm) (len (pm_peers pm)) <= Z.of_nat n <= unchokeSlots pm + 1 /\
  (forall p q, p ∈ pm_peers pm -> q ∈ pm_peers pm -> is_open p = true -> is_open q = false ->
    optimisticPeer pm = Some p \/ speed q <= speed p) /\
  (forall p, p ∈ pm_peers pm -> optimisticPeer pm = Some p -> is_open p = true) /\
  (forall p c, p ∈ pm_peers pm -> H !! p = Some c -> exists c', H' !! p = Some c' /\
    out c' = out c ++ (if bool_decide (choking c = choking c') then []
                       else [message (if choking c' then MsgChoke else MsgUnchoke) []])) /\
  (forall p, p ∉ pm_peers pm -> H' !! p = H !! p).
Proof.
  destruct (Hsort (pm_peers pm)) as [Hp Hs]. split_and!.
  - apply open_count.
  - apply open_count.
  - intros p q [j Hj]%ranked_elem [k Hk]%ranked_elem. rewrite (is_open_at j p Hj), (is_open_at k q Hk).
    unfold verdict. intros [Hpl%Z.ltb_lt|Ho%bool_decide_eq_true]%orb_true_iff [Hql%Z.ltb_ge _]%orb_false_iff; [right|by left].
    rewrite <- (take_drop (S j) ranked) in Hs.
    eapply (StronglySorted_app_1_elem_of _ _ _ _ _ Hs).
    + apply (list_elem_of_lookup_2 _ j). rewrite lookup_take_lt by lia. done.
    + apply (list_elem_of_lookup_2 _ (k - S j)). rewrite lookup_drop. by replace (S j + (k - S j))%nat with k by lia.
  - intros p [j Hj]%ranked_elem Ho. rewrite (is_open_at j p Hj). unfold verdict.
    rewrite bool_decide_eq_true_2 by done. by rewrite orb_true_r.
  - intros p c Hin Hpc. destruct (proj1 (ranked_elem p) Hin) as [j Hj]. destruct (Hc p Hin) as (c0 & E & Hw).
    rewrite Hpc in E. simplify_eq. eexists. split; [by apply rechoke_at|].
    set (v := verdict _ _ _ _). destruct (try_choke v c0 Hw) as [Ech Eo]. rewrite Ech, Eo. by destruct v.
  - intros p Hin. unfold rechoke. destruct (_ =? 0); [done|]. apply choke_loop_other. by rewrite Hp.
Qed.
End Rechoke.

(** The optimistic slot goes to the first choked peer in cyclic order. *)
Lemma rotate_loop_first startIdx pm H : forall n i,
  let l := len (pm_peers pm) in
  0 < l ->
  (exists k p, (k < n)%nat /\ pm_peers pm !! Z.to_nat ((startIdx + (i + Z.of_nat k)) mod l) = Some p /\
     is_choking H p = true /\
     (forall k' p', (k' < k)%nat -> pm_peers pm !! Z.to_nat ((startIdx + (i + Z.of_nat k')) mod l) = Some p' ->
        is_choking H p' = false) /\
     rotate_loop n startIdx i pm H =
       (mkPM (pm_peers pm) (unchokeSlots pm) (Some p), alter (try_send SendUnchoke) p H,
        ((startIdx + (i + Z.of_nat k)) mod l + 1) mod l)) \/
  ((forall k p, (k < n)%nat -> pm_peers pm !! Z.to_nat ((startIdx + (i + Z.of_nat k)) mod l) = Some p ->
      is_choking H p = false) /\
   rotate_loop n startIdx i pm H = (pm, H, startIdx)).
Proof.
  intros n. induction n as [|n IH]; intros i l Hl; [right; split; [lia|done]|]. cbn [rotate_loop]. fold l.
  pose proof (Z.mod_pos_bound (startIdx + i) l Hl) as Hm.
  destruct (pm_peers pm !! Z.to_nat ((startIdx + i) mod l)) as [p|] eqn:Ep.
  2: { apply lookup_ge_None in Ep. unfold l in *. lia. }
  destruct (is_choking H p) eqn:Ec.
  - left. exists 0%nat, p. change (Z.of_nat 0) with 0. rewrite !Z.add_0_r. split_and!; [lia|done|done|lia|done].
  - specialize (IH (i + 1) Hl). fold l in IH.
    assert (Eq : forall k, i + 1 + Z.of_nat k = i + Z.of_nat (S k)) by lia.
    destruct IH as [(k & q & Hk & Hq & Hch & Hbefore & ->)|[Hno ->]].
    + left. exists (S k), q. rewrite Eq in *. split_and!; [lia|done|done| |done].
      intros [|k'] p' Hk'; [change (Z.of_nat 0) with 0; rewrite Z.add_0_r, Ep; by intros [= <-]|].
      intros E. apply (Hbefore k' p'); [lia|by rewrite Eq].
    + right. split; [|done]. intros [|k] p' Hk; [change (Z.of_nat 0) with 0; rewrite Z.add_0_r, Ep; by intros [= <-]|].
      rewrite <- Eq. apply Hno. lia.
Qed.

(** ** Stopping *)

(** The stages in which the peer manager knows the client. *)
Definition managed (st : stage) : bool :=
  match st with Registered | Serving | Unlisted => true | _ => false end.

Definition listed (st : stage) : bool := match st with Serving => true | _ => false end.

Record upload_inv (s : upload_sys) : Prop := {
  ui_wg : serveWg (sys_u s) = Z.of_nat (size (sys_handlers s));
  ui_clients : NoDup (u_clients (sys_u s)) /\
    forall p, p ∈ u_clients (sys_u s) <-> exists st, sys_handlers s !! p = Some st /\ listed st = true;
  ui_peers : NoDup (pm_peers (u_pm (sys_u s))) /\
    forall p, p ∈ pm_peers (u_pm (sys_u s)) <-> exists st, sys_handlers s !! p = Some st /\ managed st = true;
  ui_stopped : u_stopped (sys_u s) = match sys_stop s with NotCalled => false | _ => true end;
  ui_returned : sys_stop s = Returned -> sys_handlers s = ∅
}.

Lemma NoDup_delete_first (p : Z) (l : list Z) : NoDup l ->
  let l' := match list_find (fun c => c = p) l with Some (i, _) => delete i l | None => l end in
  NoDup l' /\ forall q, q ∈ l' <-> q ∈ l /\ q <> p.
Proof.
  intros Hnd. destruct (list_find _ l) as [[i c]|] eqn:E; cbn zeta.
  - apply list_find_Some in E as (Hi & -> & _). pose proof (delete_Permutation l i p Hi) as Hp.
    rewrite Hp in Hnd. apply NoDup_cons in Hnd as [Hni Hnd]. split; [done|].
    intros q. rewrite Hp at 2. rewrite elem_of_cons. split; [intros Hq; split; [by right|by intros ->]|].
    by intros [[->|?] ?].
  - split; [done|]. intros q. split; [|tauto]. intros Hq. split; [done|]. intros ->.
    apply list_find_None in E. by eapply (proj1 (Forall_forall _ _) E p).
Qed.

Lemma Unregister_peers p pm : NoDup (pm_peers pm) ->
  NoDup (pm_peers (Unregister p pm).1) /\
  forall q, q ∈ pm_peers (Unregister p pm).1 <-> q ∈ pm_peers pm /\ q <> p.
Proof.
  intros Hnd. pose proof (NoDup_delete_first p (pm_peers pm) Hnd) as H. unfold Unregister.
  by destruct (list_find _ (pm_peers pm)) as [[i c]|].
Qed.

(** How lists indexed by stage follow a handler that moves to another stage. *)
Lemma stage_list (P : stage -> bool) (hs : gmap ptr stage) (l l' : list ptr) p o :
  (forall q, q ∈ l <-> exists st, hs !! q = Some st /\ P st = true) ->
  (forall q, q ∈ l' <-> (q <> p /\ q ∈ l) \/ (q = p /\ exists st, o = Some st /\ P st = true)) ->
  forall q, q ∈ l' <-> exists st, partial_alter (fun _ => o) p hs !! q = Some st /\ P st = true.
Proof.
  intros Hl Hl' q. rewrite Hl', Hl. destruct (decide (q = p)) as [->|Hne].
  - rewrite lookup_partial_alter_eq. naive_solver.
  - rewrite lookup_partial_alter_ne by done. naive_solver.
Qed.

Definition present (o : option stage) : Z := match o with Some _ => 1 | None => 0 end.

(** One handler moves to stage [o] (or ends) and the lists follow. *)
Record moved (s s' : upload_sys) (p : ptr) (o : option stage) : Prop := {
  mv_handlers : sys_handlers s' = partial_alter (fun _ => o) p (sys_handlers s);
  mv_stop : sys_stop s' = sys_stop s /\ u_stopped (sys_u s') = u_stopped (sys_u s);
  mv_wg : serveWg (sys_u s') = serveWg (sys_u s) + present o - present (sys_handlers s !! p);
  mv_clients : NoDup (u_clients (sys_u s')) /\ forall q, q ∈ u_clients (sys_u s') <->
    (q <> p /\ q ∈ u_clients (sys_u s)) \/ (q = p /\ exists st, o = Some st /\ listed st = true);
  mv_peers : NoDup (pm_peers (u_pm (sys_u s'))) /\ forall q, q ∈ pm_peers (u_pm (sys_u s')) <->
    (q <> p /\ q ∈ pm_peers (u_pm (sys_u s))) \/ (q = p /\ exists st, o = Some st /\ managed st = true)
}.

Lemma inv_move s s' p o : upload_inv s -> moved s s' p o ->
  present (sys_handlers s !! p) + present o <> 0 ->
  (sys_handlers s !! p = None -> sys_stop s = NotCalled) -> upload_inv s'.
Proof.
  intros [Hw [_ Hc] [_ Hp] Hs Hr] [Eh [Es Eu] Ew [Ncs Hcs] [Np Hps]] Hne Hnew. split.
  - rewrite Ew, Eh, Hw. destruct o as [st|].
    + change (partial_alter (fun _ => Some st) p (sys_handlers s)) with (<[p := st]> (sys_handlers s)).
      rewrite map_size_insert. destruct (sys_handlers s !! p); unfold id; cbn [present]; lia.
    + change (partial_alter (fun _ => None) p (sys_handlers s)) with (delete p (sys_handlers s)).
      destruct (sys_handlers s !! p) as [st|] eqn:E; [|cbn in Hne; lia].
      rewrite map_size_delete_Some by (by eexists).
      assert (size (sys_handlers s) <> 0)%nat by (apply (map_size_ne_0_lookup_2 _ p); by eexists).
      cbn [present]. lia.
  - split; [done|]. rewrite Eh. by eapply stage_list.
  - split; [done|]. rewrite Eh. by eapply stage_list.
  - by rewrite Es, Eu.
  - rewrite Es, Eh. intros Hret. destruct (sys_handlers s !! p) eqn:E.
    + rewrite (Hr Hret) in E. by rewrite lookup_empty in E.
    + rewrite (Hnew eq_refl) in Hret. done.
Qed.

(** A list that stays the same, or gains or loses the moving handler. *)
Section Lists.
Context (P : stage -> bool) (hs : gmap ptr stage) (l : list Z) (p : Z) (o : option stage).
Context (Hnd : NoDup l) (Hl : forall q, q ∈ l <-> exists st, hs !! q = Some st /\ P st = true).

Definition tracks (l' : list Z) : Prop :=
  NoDup l' /\ forall q, q ∈ l' <-> (q <> p /\ q ∈ l) \/ (q = p /\ exists st, o = Some st /\ P st = true).

Lemma tracks_same : (exists st, hs !! p = Some st /\ P st = true) <-> (exists st, o = Some st /\ P st = true) -> tracks l.
Proof.
  intros Ho. split; [done|]. intros q. rewrite <- Ho, !Hl. destruct (decide (q = p)) as [->|]; naive_solver.
Qed.

Lemma tracks_add : ~ (exists st, hs !! p = Some st /\ P st = true) -> (exists st, o = Some st /\ P st = true) ->
  tracks (l ++ [p]).
Proof.
  intros Hno Ho. assert (Hp : p ∉ l) by (by rewrite Hl). split.
  - apply NoDup_app. split_and!; [done| |apply NoDup_singleton]. by intros x Hx ->%list_elem_of_singleton.
  - intros q. rewrite elem_of_app, list_elem_of_singleton. destruct (decide (q = p)) as [->|]; naive_solver.
Qed.

Lemma tracks_remove l' : ~ (exists st, o = Some st /\ P st = true) ->
  NoDup l' -> (forall q, q ∈ l' <-> q ∈ l /\ q <> p) -> tracks l'.
Proof. intros Ho Hn Hl'. split; [done|]. intros q. rewrite Hl'. naive_solver. Qed.
End Lists.

Lemma upload_step_inv l s s' : upload_inv s -> upload_step l s = Some s' -> upload_inv s'.
Proof.
  intros Hi Hs. pose proof Hi as [Hw [Nc Hc] [Np Hp] Hst Hr].
  destruct l as [p|p|p|p|p|p|p| | |]; cbn [upload_step] in Hs.
  - destruct (_ && _) eqn:E; [|done]. apply andb_true_iff in E as [E _]. apply bool_decide_eq_true in E.
    destruct (u_stopped (sys_u s)) eqn:Eu; simplify_eq; [split; cbn; try done; by rewrite Eu|].
    apply (inv_move s _ p (Some Entered) Hi); [|by rewrite E|].
    + split; [done|done|cbn; rewrite E; cbn; lia|..]; (eapply tracks_same; [done..|]); rewrite E; naive_solver.
    + intros _. by destruct (sys_stop s).
  - destruct (sys_handlers s !! p) as [[]|] eqn:E; simplify_eq.
    apply (inv_move s _ p None Hi); rewrite ?E; [|done|done].
    split; [done|done|cbn; rewrite E; cbn; lia|..]; (eapply tracks_same; [done..|]); rewrite E; naive_solver.
  - destruct (sys_handlers s !! p) as [[]|] eqn:E; simplify_eq.
    apply (inv_move s _ p (Some Registered) Hi); rewrite ?E; [|done|done].
    split; [done|done|cbn; rewrite E; cbn; lia|eapply tracks_same; [done..|rewrite E; naive_solver]|].
    eapply tracks_add; [done..|rewrite E; naive_solver|naive_solver].
  - destruct (sys_handlers s !! p) as [[]|] eqn:E; simplify_eq.
    apply (inv_move s _ p (Some Serving) Hi); rewrite ?E; [|done|done].
    split; [done|done|cbn; rewrite E; cbn; lia| |eapply tracks_same; [done..|rewrite E; naive_solver] ].
    eapply tracks_add; [done..|rewrite E; naive_solver|naive_solver].
  - destruct (sys_handlers s !! p) as [[]|] eqn:E; simplify_eq.
    apply (inv_move s _ p (Some Unlisted) Hi); rewrite ?E; [|done|done].
    split; [done|done|cbn; rewrite E; cbn; lia| |eapply tracks_same; [done..|rewrite E; naive_solver] ].
    destruct (NoDup_delete_first p (u_clients (sys_u s)) Nc) as [Hn He].
    eapply tracks_remove; first [exact Hn | exact He | done | naive_solver].
  - destruct (sys_handlers s !! p) as [[]|] eqn:E; simplify_eq.
    apply (inv_move s _ p (Some Unregistered) Hi); rewrite ?E; [|done|done].
    split; [done|done|cbn; rewrite E; cbn; lia|eapply tracks_same; [done..|rewrite E; naive_solver]|].
    destruct (Unregister_peers p (u_pm (sys_u s)) Np) as [Hn He].
    eapply tracks_remove; first [exact Hn | exact He | done | naive_solver].
  - destruct (sys_handlers s !! p) as [[]|] eqn:E; simplify_eq.
    apply (inv_move s _ p None Hi); rewrite ?E; [|done|done].
    split; [done|done|cbn; rewrite E; cbn; lia|..]; (eapply tracks_same; [done..|]); rewrite E; naive_solver.
  - destruct (u_stopped (sys_u s)) eqn:Eu; simplify_eq. by split.
  - destruct (sys_stop s) as [|[|p rest]|] eqn:Es; simplify_eq. split; cbn; try done.
  - destruct (sys_stop s) as [|[|p rest]|] eqn:Es; simplify_eq.
    destruct (Z.eqb_spec (serveWg (sys_u s)) 0) as [E0|]; simplify_eq. split; cbn; try done.
    intros _. apply map_size_empty_inv. lia.
Qed.

Lemma upload_reach_inv bf s : upload_reach bf s -> upload_inv s.
Proof.
  induction 1 as [|s l s' _ IH Hs]; [|by eapply upload_step_inv].
  split; cbn; try done; (split; [by apply NoDup_nil|]); intros p; rewrite lookup_empty;
    (split; [by intros ?%not_elem_of_nil|naive_solver]).
Qed.

(** Whatever connections come and go while it runs, when [Stop] has returned no goroutine is
    serving, no client is listed, the peer manager knows none, and no later
    connection is served. *)
Lemma Stop_leaves_nothing bf s :
  upload_reach bf s -> sys_stop s = Returned ->
  sys_handlers s = ∅ /\ u_clients (sys_u s) = [] /\ pm_peers (u_pm (sys_u s)) = [] /\
  forall l s', upload_step l s = Some s' -> sys_handlers s' = ∅.
Proof.
  intros Hr Hret. pose proof (upload_reach_inv bf s Hr) as Hi. pose proof Hi as [_ [_ Hc] [_ Hp] Hst He].
  assert (Hnil : forall (l : list Z) P, (forall p, p ∈ l <-> exists st, sys_handlers s !! p = Some st /\ P st = true) -> l = []).
  { intros l P Hl. destruct l as [|p l]; [done|]. destruct (proj1 (Hl p)) as (st & E & _); [left|].
    by rewrite (He Hret), lookup_empty in E. }
  split_and!; [by apply He|by eapply Hnil|by eapply Hnil|].
  intros l s' Hs. apply (ui_returned s'); [by eapply upload_step_inv|].
  rewrite Hret in Hst. destruct l; cbn [upload_step] in Hs; rewrite ?(He Hret), ?lookup_empty, ?Hst, ?Hret in Hs;
    repeat case_match; by simplify_eq.
Qed.

(** ** Consequences of the order of steps *)

Fixpoint upload_run (ls : list upload_label) (s : upload_sys) : option upload_sys :=
  match ls with [] => Some s | l :: ls => s' ← upload_step l s; upload_run ls s' end.

Lemma upload_run_reach bf ls : forall s s', upload_reach bf s -> upload_run ls s = Some s' -> upload_reach bf s'.
Proof.
  induction ls as [|l ls IH]; intros s s' Hr; cbn [upload_run]; [by intros [= <-]|].
  destruct (upload_step l s) as [s1|] eqn:E; cbn [mbind option_bind]; [|done]. apply IH. by eapply upload_next.
Qed.

(** A connection that passed the check before [Stop] and is listed after it took its copy of
    the clients is not closed by it: [Stop] waits for a goroutine that reads from an
    open connection, for as long as the peer keeps quiet. *)
Lemma stop_misses_handshaking_peer :
  exists s, upload_reach None s /\ sys_stop s = Closing [] /\ sys_handlers s !! 1 = Some Serving /\
    (1 ∉ sys_closed s) /\ upload_step LStopWaited s = None.
Proof.
  destruct (upload_run [LEnter 1; LStop; LRegister 1; LList 1] (upload_start None)) as [s|] eqn:E;
    [|by vm_compute in E].
  exists s. split; [by eapply upload_run_reach; [constructor|]|].
  vm_compute in E. simplify_eq. split_and!; [done..| |done]. apply not_elem_of_empty.
Qed.

(** Which pieces are served does not depend on the bitfield: a peer that was told we have
    nothing still gets whatever the file holds at a piece that was not downloaded. *)
Lemma unverified_piece_served :
  let tf := mkTorrentFile [] [] (mkInfo (lit "t") 2 [lit "h0"; lit "h1"] 4 [] false None) [] [] 0 [] in
  let F : fs := {[ lit "t" := replicate 4 x00 ]} in
  let '(c, up, why) := serve_connection (fun _ => true) (lit "t") tf F false (Some [x00])
    (exchange (message MsgInterested []) ++ exchange (NewRequestMessage 1 0 2)) (incoming_client 9) in
  out c = [message MsgBitfield [x00]; message MsgUnchoke []; NewPieceMessage 1 0 [x00; x00] ] /\ up = 2.
Proof. by vm_compute. Qed.

(** When a download is over every piece is marked and announced, also the pieces that were
    skipped because their files are not wanted. *)
Lemma mark_all_has_all bf n H : 0 <= n <= 8 * len bf ->
  exists bf', u_bitfield (mark_all n (NewUploader (Some bf)) H).1 = Some bf' /\
    forall i, 0 <= i < n -> HasPiece bf' i = true.
Proof.
  intros Hn. unfold mark_all.
  enough (Hgen : forall k, 0 <= k <= n -> exists bf', u_bitfield
      (foldl (fun '(u, H) i => upload_SetPiece i u H) (NewUploader (Some bf), H) (seqZ 0 k)).1 = Some bf' /\
      length bf' = length bf /\ forall i, 0 <= i < k -> HasPiece bf' i = true).
  { destruct (Hgen n) as (bf' & E & _ & Hb); [lia|]. by exists bf'. }
  intros k Hk. replace k with (Z.of_nat (Z.to_nat k)) by lia.
  assert (Hk' : (Z.to_nat k <= Z.to_nat n)%nat) by lia. revert Hk'. generalize (Z.to_nat k). clear k Hk.
  induction n0 as [|j IH]; intros Hj; [exists bf; split_and!; [done|done|lia]|].
  destruct IH as (bf' & E & Hl & Hb); [lia|].
  replace (Z.of_nat (S j)) with (Z.of_nat j + 1) by lia. rewrite seqZ_app, foldl_app by lia.
  assert (E1 : seqZ (0 + Z.of_nat j) 1 = [Z.of_nat j]) by (unfold seqZ; cbn; f_equal; lia). rewrite E1.
  destruct (foldl _ _ (seqZ 0 (Z.of_nat j))) as [u H1]. cbn [fst] in E. cbn [foldl upload_SetPiece fst u_bitfield].
  rewrite E. cbn [fmap option_fmap option_map]. eexists. split; [done|].
  rewrite SetPiece_length. split; [done|]. intros i Hi. rewrite HasPiece_SetPiece, (proj2 (SetPiece_flag bf' _)) by lia.
  destruct (Z.eqb_spec i (Z.of_nat j)); [by rewrite orb_true_r|]. rewrite Hb by lia. done.
Qed.

(** ** Concrete instances *)

(** The peer is choked after its request was checked and before the block is written. *)
Definition demo_events : list serve_event :=
  exchange (message MsgInterested []) ++
  [EvMsg (Some (NewRequestMessage 1 0 1)); EvChoke; EvManager; EvManager; EvGo; EvMsg (Some (NewRequestMessage 0 0 2)); EvGo;
   EvUnchoke; EvManager; EvMsg (Some (NewRequestMessage 0 0 1)); EvManager; EvGo; EvMsg None; EvMsg (Some (NewRequestMessage 0 1 1)); EvGo].

(** The block follows the choke: the flag is not tested again. *)
Lemma block_after_choke :
  let '(s, why) := serveLoop 2 2 3 false demo_events (serve_start (incoming_client 9) (lit "abc")) in
  map (fun m => u8 (ID m)) (out (sv_client s)) = [MsgUnchoke; MsgChoke; MsgPiece; MsgUnchoke; MsgPiece].
Proof. by vm_compute. Qed.


Definition leecher : Client := new_client [] 5.

Lemma Seed_leech_witness :
  exists asked answers s c',
    serveLoop 2 2 3 true (concat (exchange <$> asked)) (serve_start (incoming_client 9) (lit "abc")) = (s, None) /\
    out (sv_client s) = [] ++ answers /\ uploaded s = 1 /\
    DownloadPiece (fun b => b) None true (fun _ => 0) (lit "xx") (mkPieceWork 1 (lit "c") 1) (hears answers leecher) = Ok (lit "c", c') /\
    out c' = [] ++ asked.
Proof.
  apply (Seed_leech (fun r => r = lit "abc") (lit "abc") 2 2 3 true ltac:(lia) ltac:(lia) ltac:(lia)
    ltac:(unfold MaxInt64; lia) (fun b => b) None true (fun _ => 0) (lit "xx") (mkPieceWork 1 (lit "c") 1)
    leecher (incoming_client 9) (lit "abc")); try reflexivity; cbn; try lia.
  all: vm_compute; lia.
Defined.

Definition demo_speed (p : ptr) : Z := if p =? 2 then 9 else if p =? 3 then 7 else 5.
Definition faster (p q : ptr) : Prop := demo_speed q <= demo_speed p.
#[export] Instance faster_dec : RelDecision faster.
Proof. intros p q. unfold faster. apply _. Defined.
Definition demo_sort : list ptr -> list ptr := merge_sort faster.

Lemma demo_order : order_ok demo_speed demo_sort.
Proof.
  assert (Total faster) by (intros p q; unfold faster; lia).
  assert (Transitive faster) by (intros p q r; unfold faster; lia).
  intros l. split; [apply merge_sort_Permutation|exact (StronglySorted_merge_sort faster l)].
Qed.

Definition demo_pm : PeerManager := mkPM [1; 2; 3] 1 (Some 1).
Definition demo_heap : heap := {[ 1 := incoming_client 9; 2 := incoming_client 9; 3 := incoming_client 9 ]}.

Lemma Rechoke_spec_witness :
  length (filter (fun p => is_open demo_sort demo_pm demo_heap p = true) [1; 2; 3]) = 2%nat /\
  (forall p q, p ∈ [1; 2; 3] -> q ∈ [1; 2; 3] -> is_open demo_sort demo_pm demo_heap p = true ->
     is_open demo_sort demo_pm demo_heap q = false -> Some 1 = Some p \/ demo_speed q <= demo_speed p).
Proof.
  split; [vm_compute; reflexivity|].
  refine (proj1 (proj2 (Rechoke_spec demo_speed demo_sort demo_order demo_pm demo_heap _ _ _))).
  - apply (bool_decide_unpack (NoDup [1; 2; 3])). vm_compute. exact I.
  - intros p Hp. cbn in Hp. rewrite !elem_of_cons in Hp. destruct Hp as [->|[->|[->|Hp]]]; [..|by apply not_elem_of_nil in Hp];
      exists (incoming_client 9); (split; [reflexivity|cbn; lia]).
  - cbn. lia.
Defined.

Definition demo_stop : list upload_label :=
  [LEnter 1; LRegister 1; LList 1; LStop; LStopClose; LServeEnds 1; LUnregister 1; LDone 1; LStopWaited].

Lemma Stop_leaves_nothing_witness :
  exists s, upload_run demo_stop (upload_start None) = Some s /\ sys_handlers s = ∅ /\ u_clients (sys_u s) = [].
Proof.
  destruct (upload_run demo_stop (upload_start None)) as [s|] eqn:E; [|by vm_compute in E].
  exists s. split; [reflexivity|].
  assert (Hr : sys_stop s = Returned) by (vm_compute in E; injection E as <-; reflexivity).
  destruct (Stop_leaves_nothing None s) as (Hh & Hc & _); [|exact Hr|split; [exact Hh|exact Hc] ].
  eapply upload_run_reach; [apply upload_init|exact E].
Defined.
