(* ===== verification/Bus.v ===== *)
(** * The event bus ([events/bus.go], [events/recorder.go])

    [Publish] takes a copy of the subscriptions under the lock and delivers to one
    after the other without it, so publications of several goroutines and the end of
    subscriptions interleave: each critical section and each [select] is one step.
    [b_log] records each delivery with the subscription as it was found there; no
    step reads it.  A subscription's channel is never closed; what a [Recorder] has taken from
    it is [s_got]. *)

From S2P Require Import Prelude.
Set Warnings "-clear-no-such-hyp".
Local Open Scope Z_scope.

Section Bus.
(** The payload of an event. *)
Context {payload : Type}.

Record Event := mkEvent { ev_Type : bytes; ev_TorrentID : bytes; ev_Time : Z; ev_Payload : payload }.

Record Subscription := mkSub {
  s_chan : list Event; s_cap : Z; s_done : bool; s_filter : option (Event -> bool); s_dropped : Z;
  s_got : list Event; s_drained : bool
}.

Definition default_buffer : Z := 256.

(** [SubscribeOptions]: buffer and filter. *)
Definition new_sub (buffer : Z) (filter : option (Event -> bool)) (done : bool) : Subscription :=
  mkSub [] (if buffer <=? 0 then default_buffer else buffer) done filter 0 [] false.

Definition close_sub (s : Subscription) : Subscription :=
  mkSub (s_chan s) (s_cap s) true (s_filter s) (s_dropped s) (s_got s) (s_drained s).

Inductive outcome := Delivered | Filtered | Ended | Dropped.

Definition passes (s : Subscription) (ev : Event) : bool :=
  match s_filter s with Some f => f ev | None => true end.

(** [prefer_done]: which ready case the [select] takes when both are. *)
Definition deliver (prefer_done : bool) (ev : Event) (s : Subscription) : Subscription * outcome :=
  if negb (passes s ev) then (s, Filtered)
  else
    let room := len (s_chan s) <? s_cap s in
    if room && negb (s_done s && prefer_done) then
      (mkSub (s_chan s ++ [ev]) (s_cap s) (s_done s) (s_filter s) (s_dropped s) (s_got s) (s_drained s), Delivered)
    else if s_done s then (s, Ended)
    else (mkSub (s_chan s) (s_cap s) (s_done s) (s_filter s) (s_dropped s + 1) (s_got s) (s_drained s), Dropped).

(** One call of [Publish] after its snapshot: the event, the hook, the subscriptions left. *)
Record publication := mkPub { p_event : Event; p_onDrop : bool; p_subs : list Z; p_left : list Z }.

(** One turn of [Publish]'s loop: publication, subscription and what was found and done there. *)
Record entry := mkEntry { e_pub : Z; e_sub : Z; e_event : Event; e_seen : Subscription; e_outcome : outcome }.

Record bus := mkBus {
  b_subs : list Z;                    (** the keys of [Bus.subs], in some order *)
  b_closed : bool;
  b_hooks : bool * bool;              (** [onPub] and [onDrop] installed *)
  b_closing : list Z;                 (** subscriptions [Close] still has to end *)
  b_heap : gmap Z Subscription;
  b_pubs : gmap Z publication;
  b_log : list entry;
  b_hooked : list Event * list (Z * Event)   (** calls of the hooks *)
}.

Definition bus_New : bus := mkBus [] false (false, false) [] ∅ ∅ [] ([], []).

Inductive bus_label :=
  | SetHooks (onPub onDrop : bool)
  | Subscribe (id buffer : Z) (filter : option (Event -> bool))
  | CancelRemove (id : Z)             (** the goroutine of [Subscribe] after the context *)
  | CancelClose (id : Z)
  | Publish (pid : Z) (ev : Event) (now : Z) (order : list Z)
  | Send (pid : Z) (prefer_done : bool)
  | Return (pid : Z)
  | CloseBus
  | CloseSub
  | Receive (id : Z)
  | DrainEnds (id : Z).

Definition with_heap (h : gmap Z Subscription) (b : bus) : bus :=
  mkBus (b_subs b) (b_closed b) (b_hooks b) (b_closing b) h (b_pubs b) (b_log b) (b_hooked b).
Definition with_pubs (p : gmap Z publication) (b : bus) : bus :=
  mkBus (b_subs b) (b_closed b) (b_hooks b) (b_closing b) (b_heap b) p (b_log b) (b_hooked b).

(** [order] is the iteration order of the map of subscriptions. *)
Definition bus_step (l : bus_label) (b : bus) : option bus :=
  match l with
  | SetHooks p d => Some (mkBus (b_subs b) (b_closed b) (p, d) (b_closing b) (b_heap b) (b_pubs b) (b_log b) (b_hooked b))
  | Subscribe id buffer f =>
      if bool_decide (is_Some (b_heap b !! id)) then None
      else
        let h := <[id := new_sub buffer f (b_closed b)]> (b_heap b) in
        if b_closed b then Some (with_heap h b)
        else Some (mkBus (b_subs b ++ [id]) (b_closed b) (b_hooks b) (b_closing b) h (b_pubs b) (b_log b) (b_hooked b))
  | CancelRemove id =>
      Some (mkBus (filter (fun i => i <> id) (b_subs b)) (b_closed b) (b_hooks b) (b_closing b) (b_heap b)
              (b_pubs b) (b_log b) (b_hooked b))
  | CancelClose id => if bool_decide (id ∈ b_subs b) then None else Some (with_heap (alter close_sub id (b_heap b)) b)
  | Publish pid ev now order =>
      if bool_decide (is_Some (b_pubs b !! pid)) then None
      else if b_closed b then Some b
      else if negb (bool_decide (order ≡ₚ b_subs b)) then None
      else
        let ev := if ev_Time ev =? 0 then mkEvent (ev_Type ev) (ev_TorrentID ev) now (ev_Payload ev) else ev in
        Some (mkBus (b_subs b) (b_closed b) (b_hooks b) (b_closing b) (b_heap b)
                (<[pid := mkPub ev (b_hooks b).2 order order]> (b_pubs b)) (b_log b)
                (if (b_hooks b).1 then ((b_hooked b).1 ++ [ev], (b_hooked b).2) else b_hooked b))
  | Send pid prefer_done =>
      match b_pubs b !! pid with
      | Some p =>
          match p_left p with
          | id :: left_ =>
              match b_heap b !! id with
              | Some s =>
                  let '(s', o) := deliver prefer_done (p_event p) s in
                  Some (mkBus (b_subs b) (b_closed b) (b_hooks b) (b_closing b) (<[id := s']> (b_heap b))
                          (<[pid := mkPub (p_event p) (p_onDrop p) (p_subs p) left_]> (b_pubs b))
                          (b_log b ++ [mkEntry pid id (p_event p) s o])
                          (match o with
                           | Dropped => if p_onDrop p then ((b_hooked b).1, (b_hooked b).2 ++ [(id, p_event p)])
                                        else b_hooked b
                           | _ => b_hooked b
                           end))
              | None => None
              end
          | [] => None
          end
      | None => None
      end
  | Return pid =>
      match b_pubs b !! pid with
      | Some p => match p_left p with [] => Some b | _ => None end
      | None => None
      end
  | CloseBus =>
      if b_closed b then Some b
      else Some (mkBus [] true (b_hooks b) (b_subs b) (b_heap b) (b_pubs b) (b_log b) (b_hooked b))
  | CloseSub =>
      match b_closing b with
      | id :: closing =>
          Some (mkBus (b_subs b) (b_closed b) (b_hooks b) closing (alter close_sub id (b_heap b)) (b_pubs b)
                  (b_log b) (b_hooked b))
      | [] => None
      end
  | Receive id =>
      match b_heap b !! id with
      | Some s =>
          match s_chan s with
          | ev :: chan =>
              if s_drained s then None
              else Some (with_heap (<[id := mkSub chan (s_cap s) (s_done s) (s_filter s) (s_dropped s)
                                             (s_got s ++ [ev]) (s_drained s)]> (b_heap b)) b)
          | [] => None
          end
      | None => None
      end
  | DrainEnds id =>
      match b_heap b !! id with
      | Some s =>
          if s_done s && (len (s_chan s) =? 0)
          then Some (with_heap (<[id := mkSub (s_chan s) (s_cap s) (s_done s) (s_filter s) (s_dropped s)
                                         (s_got s) true]> (b_heap b)) b)
          else None
      | None => None
      end
  end.

Inductive bus_reach : bus -> Prop :=
  | bus_init : bus_reach bus_New
  | bus_next b l b' : bus_reach b -> bus_step l b = Some b' -> bus_reach b'.

Fixpoint bus_run (ls : list bus_label) (b : bus) : option bus :=
  match ls with [] => Some b | l :: ls => b' ← bus_step l b; bus_run ls b' end.
End Bus.

Arguments Event : clear implicits.
Arguments Subscription : clear implicits.
Arguments entry : clear implicits.
Arguments bus : clear implicits.
Arguments bus_label : clear implicits.
