(* ===== verification/BusTheorems.v ===== *)
(** * Properties of the event bus

    Every event a subscription was a recipient of is accounted for exactly once:
    received or waiting in order, or counted as dropped, or filtered, or too late. *)

From S2P Require Import Prelude Bus.
Set Warnings "-clear-no-such-hyp".
Local Open Scope Z_scope.

#[export] Instance outcome_dec : EqDecision outcome.
Proof. solve_decision. Defined.

Section Accounting.
Context {payload : Type}.
Implicit Types (b : bus payload) (s : Subscription payload) (ev : Event payload).

Definition delivered (id : Z) (log : list (entry payload)) : list (Event payload) :=
  omap (fun e => if decide (e_sub e = id /\ e_outcome e = Delivered) then Some (e_event e) else None) log.
Definition dropped (id : Z) (log : list (entry payload)) : Z :=
  len (filter (fun e => e_sub e = id /\ e_outcome e = Dropped) log).
(** The subscriptions publication [pid] has dealt with. *)
Definition sites (pid : Z) (log : list (entry payload)) : list Z :=
  omap (fun e => if decide (e_pub e = pid) then Some (e_sub e) else None) log.

Record sub_ok (log : list (entry payload)) (id : Z) s : Prop := {
  so_events : s_got s ++ s_chan s = delivered id log;
  so_dropped : s_dropped s = dropped id log;
  so_room : len (s_chan s) <= s_cap s /\ 0 < s_cap s;
  so_passes : Forall (fun ev => passes s ev = true) (delivered id log)
}.

Record bus_ok b : Prop := {
  bo_subs : NoDup (b_subs b) /\ Forall (fun id => is_Some (b_heap b !! id)) (b_subs b);
  bo_heap id s : b_heap b !! id = Some s -> sub_ok (b_log b) id s;
  bo_new id : b_heap b !! id = None -> Forall (fun e => e_sub e <> id) (b_log b);
  bo_pubs pid p : b_pubs b !! pid = Some p -> NoDup (p_subs p) /\
    Forall (fun id => is_Some (b_heap b !! id)) (p_subs p) /\ sites pid (b_log b) ++ p_left p = p_subs p;
  bo_pid pid : b_pubs b !! pid = None -> sites pid (b_log b) = []
}.

Lemma delivered_other id log : Forall (fun e => e_sub e <> id) log -> delivered id log = [] /\ dropped id log = 0.
Proof.
  unfold delivered, dropped. induction 1 as [|e log Hi _ [IH1 IH2]]; [done|].
  cbn [omap list_omap]. rewrite filter_cons, !decide_False by (by intros [? _]). done.
Qed.

Lemma delivered_snoc id log e : delivered id (log ++ [e]) =
  delivered id log ++ if decide (e_sub e = id /\ e_outcome e = Delivered) then [e_event e] else [].
Proof. unfold delivered. rewrite omap_app. cbn. by destruct (decide _). Qed.

Lemma dropped_snoc id log e : dropped id (log ++ [e]) =
  dropped id log + if decide (e_sub e = id /\ e_outcome e = Dropped) then 1 else 0.
Proof.
  unfold dropped. rewrite filter_app, length_app, filter_cons, filter_nil. destruct (decide _); cbn [length]; lia.
Qed.

(** What one delivery does to the accounts of its subscription. *)
Lemma deliver_ok log pid id c ev s : sub_ok log id s ->
  let '(s', o) := deliver c ev s in sub_ok (log ++ [mkEntry pid id ev s o]) id s'.
Proof.
  intros [He Hd [Hr Hc] Hp]. unfold deliver. destruct (passes s ev) eqn:Ep; cbn [negb].
  2: { split; rewrite ?delivered_snoc, ?dropped_snoc; cbn [e_outcome e_sub]; rewrite ?decide_False by naive_solver;
       rewrite ?app_nil_r; try done. lia. }
  destruct (Z.ltb_spec (len (s_chan s)) (s_cap s)) as [Hroom|Hfull]; cbn [andb].
  - destruct (negb _) eqn:En.
    + split; cbn [s_got s_chan s_dropped s_cap]; rewrite ?delivered_snoc, ?dropped_snoc; cbn [e_outcome e_sub e_event].
      * by rewrite decide_True, (assoc_L (++)), He by done.
      * rewrite decide_False by naive_solver. lia.
      * rewrite length_app. cbn [length]. lia.
      * rewrite decide_True by done. apply Forall_app. split; [done|]. apply Forall_singleton. exact Ep.
    + destruct (s_done s); [|done]. split; rewrite ?delivered_snoc, ?dropped_snoc; cbn [e_outcome e_sub];
        rewrite ?decide_False by naive_solver; rewrite ?app_nil_r; try done. lia.
  - destruct (s_done s); split; cbn [s_got s_chan s_dropped s_cap passes s_filter];
      rewrite ?delivered_snoc, ?dropped_snoc; cbn [e_outcome e_sub];
      rewrite ?(decide_False (P := _ /\ _ = Delivered)) by naive_solver; rewrite ?app_nil_r; try done.
    + rewrite decide_False by naive_solver. lia.
    + rewrite decide_True by done. lia.
Qed.

Lemma sub_ok_other log id e s : e_sub e <> id -> sub_ok log id s -> sub_ok (log ++ [e]) id s.
Proof.
  intros Hne [He Hd Hr Hp]. split; rewrite ?delivered_snoc, ?dropped_snoc, ?decide_False by (by intros [? _]);
    rewrite ?app_nil_r; try done. lia.
Qed.

(** A change of subscriptions that keeps their accounts. *)
Definition same_account s s' : Prop :=
  s_got s' ++ s_chan s' = s_got s ++ s_chan s /\ s_dropped s' = s_dropped s /\ s_cap s' = s_cap s /\
  s_filter s' = s_filter s /\ len (s_chan s') <= len (s_chan s).

Lemma sub_ok_same log id s s' : same_account s s' -> sub_ok log id s -> sub_ok log id s'.
Proof.
  intros (E1 & E2 & E3 & E4 & Hl) [He Hd [Hr Hc] Hp]. split; rewrite ?E1, ?E2, ?E3; try done; [lia|].
  unfold passes in *. by rewrite E4.
Qed.

Lemma bus_ok_heap b h :
  (forall id, match b_heap b !! id, h !! id with
              | Some s, Some s' => same_account s s' | None, None => True | _, _ => False end) ->
  bus_ok b -> bus_ok (with_heap h b).
Proof.
  intros Hh [Hs Hheap Hnew Hp Hpid].
  assert (Hdom : forall id, is_Some (b_heap b !! id) -> is_Some (h !! id)).
  { intros id [s E]. specialize (Hh id). rewrite E in Hh. destruct (h !! id); [by eexists|done]. }
  split; cbn [with_heap b_subs b_heap b_log b_pubs].
  - split; [apply Hs|]. eapply Forall_impl; [apply Hs|]. apply Hdom.
  - intros id s' E. specialize (Hh id). rewrite E in Hh. destruct (b_heap b !! id) as [s|] eqn:E0; [|done].
    by eapply sub_ok_same; [|apply Hheap].
  - intros id E. apply Hnew. specialize (Hh id). rewrite E in Hh. by destruct (b_heap b !! id).
  - intros pid p E. destruct (Hp pid p E) as (? & Hf & ?). split_and!; [done| |done].
    eapply Forall_impl; [exact Hf|]. apply Hdom.
  - done.
Qed.

Lemma same_alter (h : gmap Z (Subscription payload)) id f : (forall s, same_account s (f s)) ->
  forall i, match h !! i, alter f id h !! i with
            | Some s, Some s' => same_account s s' | None, None => True | _, _ => False end.
Proof.
  intros Hf i. destruct (decide (i = id)) as [->|Hne].
  - rewrite lookup_alter_eq. destruct (h !! id); [apply Hf|done].
  - rewrite lookup_alter_ne by done. destruct (h !! i); [by split_and!|done].
Qed.

Lemma same_close s : same_account s (close_sub s).
Proof. by split_and!. Qed.

Lemma sites_app pid log e : sites pid (log ++ [e]) = sites pid log ++ (if decide (e_pub e = pid) then [e_sub e] else []).
Proof. unfold sites. rewrite omap_app. cbn. by destruct (decide (e_pub e = pid)). Qed.

(** The steps that leave the log alone keep everything but the parts they name. *)
Lemma bus_ok_frame b b' :
  b_heap b' = b_heap b -> b_log b' = b_log b -> b_pubs b' = b_pubs b ->
  NoDup (b_subs b') -> (forall id, id ∈ b_subs b' -> id ∈ b_subs b) -> bus_ok b -> bus_ok b'.
Proof.
  intros Eh El Ep Hnd Hsub [Hs Hheap Hnew Hp Hpid]. split; rewrite ?Eh, ?El, ?Ep; try done.
  split; [done|]. apply Forall_forall. intros id Hid.  destruct Hs as [_ Hf].
  by apply (proj1 (Forall_forall _ _) Hf id), Hsub.
Qed.

Lemma subscribe_ok b id buffer f : b_heap b !! id = None -> bus_ok b ->
  bus_ok (mkBus (if b_closed b then b_subs b else b_subs b ++ [id]) (b_closed b) (b_hooks b) (b_closing b)
    (<[id := new_sub buffer f (b_closed b)]> (b_heap b)) (b_pubs b) (b_log b) (b_hooked b)).
Proof.
  intros Hid [[Hnd Hf] Hheap Hnew Hp Hpid].
  assert (Hgrow : forall i, is_Some (b_heap b !! i) -> is_Some (<[id := new_sub buffer f (b_closed b)]> (b_heap b) !! i)).
  { intros i Hi. rewrite lookup_insert_ne; [done|]. intros ->. rewrite Hid in Hi. by destruct Hi. }
  split; cbn [b_subs b_heap b_log b_pubs].
  - destruct (b_closed b); [split; [done|by eapply Forall_impl]|]. split.
    + apply NoDup_app. split_and!; [done| |apply NoDup_singleton].
      intros x Hx ->%list_elem_of_singleton. apply (proj1 (Forall_forall _ _) Hf) in Hx. rewrite Hid in Hx. by destruct Hx.
    + apply Forall_app. split; [by eapply Forall_impl|]. apply Forall_singleton. rewrite lookup_insert_eq. by eexists.
  - intros i s [[<- <-]|[Hne Hi]]%lookup_insert_Some; [|by apply Hheap].
    destruct (delivered_other id (b_log b) (Hnew id Hid)) as [E1 E2].
    split; rewrite ?E1, ?E2; cbn; try done. unfold default_buffer. destruct (Z.leb_spec buffer 0); lia.
  - intros i [Hne Hi]%lookup_insert_None. by apply Hnew.
  - intros pid p E. destruct (Hp pid p E) as (? & Hf' & ?). split_and!; [done|by eapply Forall_impl|done].
  - done.
Qed.

Lemma send_ok b pid c p id rest s :
  b_pubs b !! pid = Some p -> p_left p = id :: rest -> b_heap b !! id = Some s -> bus_ok b ->
  let '(s', o) := deliver c (p_event p) s in forall hooked,
  bus_ok (mkBus (b_subs b) (b_closed b) (b_hooks b) (b_closing b) (<[id := s']> (b_heap b))
    (<[pid := mkPub (p_event p) (p_onDrop p) (p_subs p) rest]> (b_pubs b))
    (b_log b ++ [mkEntry pid id (p_event p) s o]) hooked).
Proof.
  intros Hpid Hleft Hid [[Hnd Hf] Hheap Hnew Hp Hnone].
  pose proof (deliver_ok (b_log b) pid id c (p_event p) s (Hheap id s Hid)) as Hok.
  destruct (deliver c (p_event p) s) as [s' o]. intros hooked.
  assert (Hgrow : forall i, is_Some (b_heap b !! i) -> is_Some (<[id := s']> (b_heap b) !! i)).
  { intros i Hi. destruct (decide (i = id)) as [->|]; [rewrite lookup_insert_eq; by eexists|by rewrite lookup_insert_ne]. }
  split; cbn [b_subs b_heap b_log b_pubs].
  - split; [done|by eapply Forall_impl].
  - intros i si [[<- <-]|[Hne Hi]]%lookup_insert_Some; [done|]. apply sub_ok_other; [done|by apply Hheap].
  - intros i [Hne Hi]%lookup_insert_None. apply Forall_app. split; [by apply Hnew|]. by apply Forall_singleton.
  - intros pid' p' [[<- <-]|[Hne Hi]]%lookup_insert_Some; rewrite sites_app; cbn [p_subs p_left e_pub e_sub].
    + destruct (Hp pid p Hpid) as (? & Hf' & E). split_and!; [done|by eapply Forall_impl|].
      rewrite decide_True by done. rewrite <- (assoc_L (++)). cbn. by rewrite <- Hleft.
    + destruct (Hp pid' p' Hi) as (? & Hf' & E). split_and!; [done|by eapply Forall_impl|].
      by rewrite decide_False, app_nil_r by done.
  - intros pid' [Hne Hi]%lookup_insert_None. rewrite sites_app, decide_False, app_nil_r by done. by apply Hnone.
Qed.

Lemma same_set (h : gmap Z (Subscription payload)) id s s' : h !! id = Some s -> same_account s s' ->
  forall i, match h !! i, <[id := s']> h !! i with
            | Some s, Some s' => same_account s s' | None, None => True | _, _ => False end.
Proof.
  intros Hid Hs i. destruct (decide (i = id)) as [->|Hne].
  - by rewrite lookup_insert_eq, Hid.
  - rewrite lookup_insert_ne by done. destruct (h !! i); [by split_and!|done].
Qed.

Lemma bus_step_ok l b b' : bus_ok b -> bus_step l b = Some b' -> bus_ok b'.
Proof.
  intros Hb Hs. pose proof Hb as [[Hnd Hf] Hheap Hnew Hp Hpid].
  destruct l as [p d|id buffer f|id|id|pid ev now order|pid c|pid| | |id|id]; cbn [bus_step] in Hs.
  - simplify_eq. by apply (bus_ok_frame b).
  - case_bool_decide as Hid; [done|]. apply eq_None_not_Some in Hid.
    pose proof (subscribe_ok b id buffer f Hid Hb) as Hok. destruct (b_closed b) eqn:Ec; simplify_eq; [unfold with_heap; by rewrite Ec|done].
  - simplify_eq. apply (bus_ok_frame b); cbn; try done; [by apply NoDup_filter|].
    by intros i [_ ?]%list_elem_of_filter.
  - case_bool_decide; simplify_eq. apply bus_ok_heap; [|done]. apply same_alter, same_close.
  - case_bool_decide as Hq; [done|]. apply eq_None_not_Some in Hq. destruct (b_closed b); simplify_eq; [done|].
    case_bool_decide as Ho; cbn [negb] in Hs; [|done]. simplify_eq. split; cbn [b_subs b_heap b_log b_pubs]; try done.
    + intros pid' p' [[<- <-]|[Hne Hi]]%lookup_insert_Some; [|by apply Hp]. cbn [p_subs p_left].
      rewrite (Hpid pid Hq). split_and!; [by rewrite Ho|by rewrite Ho|done].
    + intros pid' [Hne Hi]%lookup_insert_None. by apply Hpid.
  - destruct (b_pubs b !! pid) as [p|] eqn:Ep; [|done]. destruct (p_left p) as [|id rest] eqn:El; [done|].
    destruct (b_heap b !! id) as [s|] eqn:Ei; [|done].
    pose proof (send_ok b pid c p id rest s Ep El Ei Hb) as Hok. destruct (deliver c (p_event p) s) as [s' o].
    simplify_eq. apply Hok.
  - destruct (b_pubs b !! pid) as [p|]; [|done]. destruct (p_left p); by simplify_eq.
  - destruct (b_closed b); simplify_eq; [done|]. apply (bus_ok_frame b); cbn; try done; [by apply NoDup_nil|].
    by intros i ?%not_elem_of_nil.
  - destruct (b_closing b) as [|id closing]; simplify_eq.
    apply (bus_ok_frame (with_heap (alter close_sub id (b_heap b)) b)); cbn; try done.
    apply bus_ok_heap; [|done]. apply same_alter, same_close.
  - destruct (b_heap b !! id) as [s|] eqn:Ei; [|done]. destruct (s_chan s) as [|ev chan] eqn:Ec; [done|].
    destruct (s_drained s); simplify_eq. apply bus_ok_heap; [|done]. apply (same_set _ _ s); [done|].
    unfold same_account. cbn. rewrite Ec, <- (assoc_L (++)). split_and!; try done. cbn. lia.
  - destruct (b_heap b !! id) as [s|] eqn:Ei; [|done]. destruct (_ && _); simplify_eq.
    apply bus_ok_heap; [|done]. by apply (same_set _ _ s).
Qed.

(** *** What a delivery must be, given what it found *)

(** The event is wanted, there is room for it, the subscription has ended. *)
Definition wanted (e : entry payload) : bool := passes (e_seen e) (e_event e).
Definition room (e : entry payload) : bool := len (s_chan (e_seen e)) <? s_cap (e_seen e).
Definition ended (e : entry payload) : bool := s_done (e_seen e).

(** The comment of [Publish], as the outcomes it allows. *)
Definition allowed (e : entry payload) : list outcome :=
  match wanted e, room e, ended e with
  | false, _, _ => [Filtered]
  | true, true, false => [Delivered]
  | true, true, true => [Delivered; Ended]
  | true, false, false => [Dropped]
  | true, false, true => [Ended]
  end.

(** The drops reported to the hook of their publication. *)
Definition reported (pubs : gmap Z (publication (payload := payload))) (log : list (entry payload)) : list (Z * Event payload) :=
  omap (fun e => p ← pubs !! e_pub e;
                 if decide (e_outcome e = Dropped /\ p_onDrop p = true) then Some (e_sub e, e_event e) else None) log.

Definition of_kind s (o : option (Subscription payload)) : Prop :=
  exists s', o = Some s' /\ s_filter s' = s_filter s /\ s_cap s' = s_cap s.

Record log_ok b : Prop := {
  lo_allowed : Forall (fun e => e_outcome e ∈ allowed e) (b_log b);
  lo_seen : Forall (fun e => of_kind (e_seen e) (b_heap b !! e_sub e)) (b_log b);
  lo_event : Forall (fun e => exists p, b_pubs b !! e_pub e = Some p /\ e_event e = p_event p) (b_log b);
  lo_hook : (b_hooked b).2 = reported (b_pubs b) (b_log b)
}.

Lemma deliver_allowed c ev s pid id :
  let e := mkEntry pid id ev s (deliver c ev s).2 in e_outcome e ∈ allowed e.
Proof.
  unfold allowed, wanted, room, ended, deliver. cbn.
  destruct (passes s ev), (_ <? _), (s_done s), c; cbn; rewrite ?elem_of_cons; tauto.
Qed.

Lemma deliver_kind c ev s : of_kind s (Some (deliver c ev s).1).
Proof. unfold deliver. repeat case_match; by eexists. Qed.

Lemma of_kind_trans s s' o : of_kind s (Some s') -> of_kind s' o -> of_kind s o.
Proof. intros (? & [= <-] & E1 & E2) (s2 & -> & E3 & E4). exists s2. by rewrite E3, E4. Qed.

Lemma reported_ext pubs pubs' log :
  Forall (fun e => p_onDrop <$> pubs !! e_pub e = p_onDrop <$> pubs' !! e_pub e) log ->
  reported pubs log = reported pubs' log.
Proof.
  unfold reported. induction 1 as [|e log He _ IH]; [done|]. cbn [omap list_omap]. rewrite IH.
  destruct (pubs !! e_pub e), (pubs' !! e_pub e); cbn in *; by simplify_eq; rewrite ?He.
Qed.

(** Steps that only extend or refresh the heap keep the log's account. *)
Lemma log_ok_frame b b' :
  b_log b' = b_log b -> b_pubs b' = b_pubs b -> (b_hooked b').2 = (b_hooked b).2 ->
  (forall id s, b_heap b !! id = Some s -> of_kind s (b_heap b' !! id)) -> log_ok b -> log_ok b'.
Proof.
  intros El Ep Ek Hk [Ha Hs He Hh]. split; rewrite ?El, ?Ep, ?Ek; try done.
  eapply Forall_impl; [exact Hs|]. intros e (s & E & E1 & E2). destruct (Hk _ _ E) as (s' & -> & E3 & E4).
  exists s'. by rewrite E3, E4.
Qed.

Lemma kind_refl b id s : b_heap b !! id = Some s -> of_kind s (b_heap b !! id).
Proof. intros ->. by exists s. Qed.

Lemma kind_alter b i id s : b_heap b !! id = Some s -> of_kind s (alter close_sub i (b_heap b) !! id).
Proof.
  intros E. destruct (decide (i = id)) as [->|Hne].
  - rewrite lookup_alter_eq, E. by eexists.
  - rewrite lookup_alter_ne, E by done. by eexists.
Qed.

Lemma kind_insert b i si s' id s : b_heap b !! i = Some si -> of_kind si (Some s') -> b_heap b !! id = Some s ->
  of_kind s (<[i := s']> (b_heap b) !! id).
Proof.
  intros Ei Hk E. destruct (decide (i = id)) as [->|Hne]; [rewrite lookup_insert_eq; by simplify_eq|].
  rewrite lookup_insert_ne, E by done. by eexists.
Qed.

Lemma log_ok_publish b pid ev now order b' : bus_ok b -> log_ok b -> b_pubs b !! pid = None ->
  bus_step (Publish pid ev now order) b = Some b' -> log_ok b'.
Proof.
  intros Hb [Ha Hs He Hh] Hq. cbn [bus_step]. rewrite bool_decide_eq_false_2 by (by rewrite Hq; intros []).
  destruct (b_closed b); intros Hst; simplify_eq; [done|].
  destruct (negb _); simplify_eq.
  assert (Hne : Forall (fun e => e_pub e <> pid) (b_log b)).
  { eapply Forall_impl; [exact He|]. intros e (p & E & _) Hpid. congruence. }
  split; cbn [b_log b_heap b_pubs b_hooked]; try done.
  - eapply Forall_impl; [apply Forall_and; split; [exact He|exact Hne]|]. intros e [(p & E & E2) ?].
    exists p. split; [|done]. by rewrite lookup_insert_ne by done.
  - transitivity (b_hooked b).2; [by destruct (b_hooks b).1|]. rewrite Hh. apply reported_ext.
    eapply Forall_impl; [exact Hne|]. intros e ?. cbn. by rewrite lookup_insert_ne by done.
Qed.

Lemma log_ok_send b pid c b' : log_ok b -> bus_step (Send pid c) b = Some b' -> log_ok b'.
Proof.
  intros [Ha Hs He Hh]. cbn [bus_step]. destruct (b_pubs b !! pid) as [p|] eqn:Ep; [|done].
  destruct (p_left p) as [|id rest] eqn:El; [done|]. destruct (b_heap b !! id) as [s|] eqn:Ei; [|done].
  pose proof (deliver_allowed c (p_event p) s pid id) as Hal. pose proof (deliver_kind c (p_event p) s) as Hk.
  destruct (deliver c (p_event p) s) as [s' o]. intros [= <-]. cbn [fst snd] in *.
  assert (Hx : reported (<[pid := mkPub (p_event p) (p_onDrop p) (p_subs p) rest]> (b_pubs b)) (b_log b) =
               reported (b_pubs b) (b_log b)).
  { apply reported_ext, Forall_forall. intros e _. destruct (decide (e_pub e = pid)) as [->|].
    - by rewrite lookup_insert_eq, Ep.
    - by rewrite lookup_insert_ne by done. }
  split; cbn [b_log b_heap b_pubs b_hooked].
  - apply Forall_app. split; [done|]. by apply Forall_singleton.
  - apply Forall_app. split.
    + eapply Forall_impl; [exact Hs|]. intros e (s1 & E & E1 & E2).
      apply (of_kind_trans _ s1); [by exists s1|]. by eapply (kind_insert b id s).
    + apply Forall_singleton. cbn. by rewrite lookup_insert_eq.
  - apply Forall_app. split.
    + eapply Forall_impl; [exact He|]. intros e (p1 & E & E1). destruct (decide (e_pub e = pid)) as [Hq|Hq].
      * rewrite Hq in *. simplify_eq. eexists. by rewrite lookup_insert_eq.
      * exists p1. by rewrite lookup_insert_ne by done.
    + apply Forall_singleton. cbn. eexists. by rewrite lookup_insert_eq.
  - unfold reported in *. rewrite omap_app, Hx. cbn. rewrite lookup_insert_eq. cbn.
    destruct o; cbn; rewrite ?app_nil_r; try done.
    destruct (p_onDrop p); cbn; by rewrite Hh, ?app_nil_r.
Qed.

Lemma log_step_ok l b b' : bus_ok b -> log_ok b -> bus_step l b = Some b' -> log_ok b'.
Proof.
  intros Hb Hl Hs. destruct l as [p d|id buffer f|id|id|pid ev now order|pid c|pid| | |id|id].
  5: { eapply log_ok_publish; [done..| |exact Hs]. cbn [bus_step] in Hs. case_bool_decide as Hq; [done|].
       by apply eq_None_not_Some in Hq. }
  5: by eapply log_ok_send.
  all: cbn [bus_step] in Hs.
  - simplify_eq. apply (log_ok_frame b); try done. apply kind_refl.
  - case_bool_decide as Hid; [done|]. apply eq_None_not_Some in Hid.
    assert (Hn : forall i s, b_heap b !! i = Some s -> of_kind s (<[id := new_sub buffer f (b_closed b)]> (b_heap b) !! i)).
    { intros i s E. rewrite lookup_insert_ne by congruence. by apply kind_refl. }
    destruct (b_closed b); simplify_eq; by apply (log_ok_frame b).
  - simplify_eq. apply (log_ok_frame b); try done. apply kind_refl.
  - case_bool_decide; simplify_eq. apply (log_ok_frame b); try done. apply kind_alter.
  - destruct (b_pubs b !! pid) as [p|]; [|done]. destruct (p_left p); by simplify_eq.
  - destruct (b_closed b); simplify_eq; [done|]. apply (log_ok_frame b); try done. apply kind_refl.
  - destruct (b_closing b) as [|id closing]; simplify_eq. apply (log_ok_frame b); try done. apply kind_alter.
  - destruct (b_heap b !! id) as [s|] eqn:Ei; [|done]. destruct (s_chan s) as [|ev chan]; [done|].
    destruct (s_drained s); simplify_eq. apply (log_ok_frame b); try done. intros i si. apply (kind_insert b id s); [done|].
    by eexists.
  - destruct (b_heap b !! id) as [s|] eqn:Ei; [|done]. destruct (_ && _); simplify_eq.
    apply (log_ok_frame b); try done. intros i si. apply (kind_insert b id s); [done|]. by eexists.
Qed.

Lemma bus_reach_ok b : bus_reach b -> bus_ok b /\ log_ok b.
Proof.
  induction 1 as [|b l b' _ [IH1 IH2] Hs]; [|split; [by eapply bus_step_ok|by eapply log_step_ok]].
  split; split; cbn; try done; try apply Forall_nil_2. split; [by apply NoDup_nil|by apply Forall_nil].
Qed.

(** *** Who is a recipient *)

Lemma bus_run_reach ls : forall b b', bus_reach b -> bus_run ls b = Some b' -> bus_reach b'.
Proof.
  induction ls as [|l ls IH]; intros b b' Hr; cbn [bus_run]; [by intros [= <-]|].
  destruct (bus_step l b) as [b1|] eqn:E; cbn [mbind option_bind]; [|done]. apply IH. by eapply bus_next.
Qed.

(** A step other than its own cancellation and [Close] keeps a subscription registered. *)
Lemma step_keeps_sub l b b' id : bus_step l b = Some b' -> l <> CancelRemove id -> l <> CloseBus ->
  id ∈ b_subs b -> id ∈ b_subs b'.
Proof.
  intros Hs Hc Hb Hid. destruct l; cbn [bus_step] in Hs; repeat case_match; simplify_eq; cbn; try done.
  - apply elem_of_app. by left.
  - apply list_elem_of_filter. split; [congruence|done].
Qed.

Lemma step_closed l b b' : bus_step l b = Some b' -> l <> CloseBus -> b_closed b' = b_closed b.
Proof. intros Hs Hb. destruct l; cbn [bus_step] in Hs; repeat case_match; by simplify_eq. Qed.

Lemma run_keeps_sub ls : forall b b' id, bus_run ls b = Some b' -> b_closed b = false ->
  CancelRemove id ∉ ls -> CloseBus ∉ ls ->
  id ∈ b_subs b \/ (exists buffer f, Subscribe id buffer f ∈ ls) -> id ∈ b_subs b' /\ b_closed b' = false.
Proof.
  induction ls as [|l ls IH]; intros b b' id Hr Hcl Hc Hb Hid; cbn [bus_run] in Hr.
  { simplify_eq. split; [|done]. destruct Hid as [?|(? & ? & []%not_elem_of_nil)]. done. }
  destruct (bus_step l b) as [b1|] eqn:E; cbn [mbind option_bind] in Hr; [|done].
  apply not_elem_of_cons in Hc as [Hc1 Hc2]. apply not_elem_of_cons in Hb as [Hb1 Hb2].
  assert (Hcl1 : b_closed b1 = false) by (rewrite (step_closed l b b1); done).
  apply (IH b1 b' id); try done.
  destruct Hid as [Hid|(buffer & f & Hid)]; [left; by eapply step_keeps_sub|].
  apply elem_of_cons in Hid as [<-|Hid]; [left|right; by exists buffer, f].
  cbn [bus_step] in E. rewrite Hcl in E. case_bool_decide; [done|]. injection E as <-. cbn.
  apply elem_of_app. right. by apply list_elem_of_singleton.
Qed.

End Accounting.

(** ** Concrete instances *)

Definition demo_event (n : Z) : Event Z := mkEvent (lit "piece_complete") (lit "t") 1 n.
Definition demo_bus : list (bus_label Z) :=
  [Subscribe 1 1 None; Subscribe 2 0 (Some (fun ev => ev_Payload ev =? 8)); Publish 10 (demo_event 7) 5 [2; 1];
   Send 10 false; Publish 11 (demo_event 8) 6 [1; 2]; Send 11 false; Send 10 false; Send 11 false; Receive 1].


(** An event can reach the buffer after the recorder has drained it for the last time; it is
    then neither recorded nor counted as dropped. *)
Lemma late_delivery_unrecorded :
  exists b s, bus_reach b /\ b_heap b !! 1 = Some s /\ s_drained s = true /\ s_got s = [] /\
    s_dropped s = 0 /\ s_chan s = [demo_event 7].
Proof.
  destruct (bus_run [Subscribe 1 1 None; Publish 10 (demo_event 7) 5 [1]; CancelRemove 1; CancelClose 1; DrainEnds 1; Send 10 false]
    bus_New) as [b|] eqn:E; [|by vm_compute in E].
  assert (Hr : bus_reach b) by (eapply bus_run_reach; [apply bus_init|exact E]).
  vm_compute in E. simplify_eq. eexists _, _. by split_and!.
Qed.
