(* ===== verification/Mse.v ===== *)
(** * Message stream encryption ([mse/mse.go])

    The initiator's handshake: Diffie-Hellman over the 768-bit prime, keys from
    SHA-1, RC4 streams.  The network is what each [Read] returns, chunk by chunk,
    since [io.ReadAtLeast] takes whatever has arrived; random bytes are arguments,
    [wleft] is how many writes succeed. *)

From Stdlib Require Import Zpow_facts.
From S2P Require Import Prelude.
Set Warnings "-clear-no-such-hyp".
Local Open Scope Z_scope.

(** ** [crypto/rc4] *)

Record cipher := mkCipher { rc_s : list Z; rc_i : Z; rc_j : Z }.

Definition at_ (s : list Z) (i : Z) : Z := default 0 (s !! Z.to_nat i).
Definition swap (i j : Z) (s : list Z) : list Z :=
  <[Z.to_nat j := at_ s i]> (<[Z.to_nat i := at_ s j]> s).

Definition NewCipher (key : bytes) : cipher :=
  let '(s, _) := foldl (fun '(s, j) i =>
      let k := match key !! Z.to_nat (i mod len key) with Some b => u8 b | None => 0 end in
      let j := (j + at_ s i + k) mod 256 in (swap i j s, j)) (seqZ 0 256, 0) (seqZ 0 256) in
  mkCipher s 0 0.

(** The next byte of the key stream. *)
Definition next_key (c : cipher) : byte * cipher :=
  let i := (rc_i c + 1) mod 256 in
  let x := at_ (rc_s c) i in
  let j := (rc_j c + x) mod 256 in
  let y := at_ (rc_s c) j in
  let s := swap i j (rc_s c) in
  (byte_of_Z (at_ s ((x + y) mod 256)), mkCipher s i j).

Definition xor8 (a b : byte) : byte := byte_of_Z (Z.lxor (u8 a) (u8 b)).

Fixpoint XORKeyStream (src : bytes) (c : cipher) : bytes * cipher :=
  match src with
  | [] => ([], c)
  | v :: src =>
      let '(k, c) := next_key c in
      let '(dst, c) := XORKeyStream src c in (xor8 v k :: dst, c)
  end.

Definition discard : bytes := replicate 1024 x00.
(** A cipher past its first 1024 bytes. *)
Definition primed (key : bytes) : cipher := (XORKeyStream discard (NewCipher key)).2.

(** ** [math/big] and the helpers *)

Definition dhPrime : Z :=
  0xFFFFFFFFFFFFFFFFC90FDAA22168C234C4C6628B80DC1CD129024E088A67CC74020BBEA63B139B22514A08798E3404DDEF9519B3CD3A431B302B0A6DF25F14374FE1356D6D51C245E485B576625E7EC6F44C42E9A63A36210000000000090563.
Definition dhG : Z := 2.

Definition Exp (x y m : Z) : Z := Zpow_mod x y m.

(** [big.Int.Bytes]: big endian without leading zeros. *)
Definition big_Bytes (z : Z) : bytes := if z <=? 0 then [] else be_put (Z.to_nat (Z.log2 z / 8 + 1)) z.

Definition padTo (b : bytes) (size : Z) : bytes :=
  if size <=? len b then slice b 0 size else replicate (Z.to_nat (size - len b)) x00 ++ b.

Fixpoint xorBytes (a b : bytes) : bytes :=
  match a, b with x :: a, y :: b => xor8 x y :: xorBytes a b | _, _ => [] end.

Definition generateDHKeyPair (privBytes : bytes) : Z * Z :=
  let priv := be_get privBytes in (priv, Exp dhG priv dhPrime).

(** The length comes from two random bytes. *)
Definition randomPad (lenBuf random : bytes) : bytes := take (Z.to_nat (be_get lenBuf mod 512)) random.

(** ** Reading *)

(** [io.ReadAtLeast] into a buffer of [cap] bytes; [io.ReadFull] is the case [cap = min]. *)
Fixpoint ReadAtLeast (cap min : Z) (acc : bytes) (chunks : list bytes) : option (bytes * list bytes) :=
  if min <=? len acc then Some (acc, chunks)
  else match chunks with
       | [] => None
       | c :: chunks =>
           if len c <=? cap - len acc then ReadAtLeast cap min (acc ++ c) chunks
           else Some (acc ++ slice c 0 (cap - len acc), slice c (cap - len acc) (len c) :: chunks)
       end.
Definition ReadFull (n : Z) (chunks : list bytes) : option (bytes * list bytes) := ReadAtLeast n n [] chunks.

(** ** The handshake *)

Definition CryptoPlaintext : Z := 1.
Definition CryptoRC4 : Z := 2.

Inductive mse_error := WriteYa | ReadYb | WriteHandshake | ReadResponse | VCNotFound | ReadSelect | ReadPadD.

(** The encrypted connection: ciphers in both directions, and what is left to read. *)
Record Conn := mkConn { c_r : option cipher; c_w : option cipher; c_in : list bytes }.

(** The first place with eight zero bytes. *)
Fixpoint find_vc (i : Z) (buf : bytes) : option Z :=
  if len buf <? 8 then None
  else if forallb (fun b => Byte.eqb b x00) (take 8 buf) then Some i
  else match buf with _ :: buf => find_vc (i + 1) buf | [] => None end.

Section Handshake.
Context (sha1 : bytes -> bytes).

Definition hashBytes (prefix : bytes) (data : bytes) : bytes := sha1 (prefix ++ data).
Definition deriveKey (prefix s skey : bytes) : bytes := sha1 (prefix ++ s ++ skey).

Definition secret (y priv : Z) : bytes := padTo (big_Bytes (Exp y priv dhPrime)) 96.

(** The third message and the initiator's cipher after it. *)
Definition handshake_message (infoHash sBytes padC : bytes) (preferred : Z) : bytes * cipher :=
  let req1 := hashBytes (lit "req1") sBytes in
  let req2 := xorBytes (hashBytes (lit "req2") infoHash) (hashBytes (lit "req3") sBytes) in
  let enc := primed (deriveKey (lit "keyA") sBytes infoHash) in
  let vc := replicate 8 x00 in
  let provide := be_put 4 (Z.lor preferred CryptoPlaintext) in
  let plain := vc ++ provide ++ be_put 2 (len padC) ++ padC ++ be_put 2 0 ++ [] in
  let '(payload, enc) := XORKeyStream plain enc in
  (req1 ++ req2 ++ payload, enc).

(** The responder's answer from the first byte after its public key on. *)
Definition read_answer (dec : cipher) (chunks : list bytes) : result mse_error (Z * cipher * list bytes) :=
  match ReadAtLeast 616 8 [] chunks with
  | None => Err ReadResponse
  | Some (buf, chunks) =>
      let '(decBuf, dec) := XORKeyStream buf dec in
      match find_vc 0 decBuf with
      | None => Err VCNotFound
      | Some vcIdx =>
          let remaining := drop (Z.to_nat (vcIdx + 8)) decBuf in
          '(remaining, dec, chunks) ←
            (if len remaining <? 6 then
               match ReadFull (6 - len remaining) chunks with
               | None => Err ReadSelect
               | Some (extra, chunks) =>
                   let '(decExtra, dec) := XORKeyStream extra dec in Ok (remaining ++ decExtra, dec, chunks)
               end
             else Ok (remaining, dec, chunks));
          let cryptoSelect := be_get (slice remaining 0 4) in
          let padDLen := be_get (slice remaining 4 6) in
          if 0 <? padDLen then
            let got := Z.min padDLen (len remaining - 6) in
            if got <? padDLen then
              match ReadFull (padDLen - got) chunks with
              | None => Err ReadPadD
              | Some (rest, chunks) => let '(_, dec) := XORKeyStream rest dec in Ok (cryptoSelect, dec, chunks)
              end
            else Ok (cryptoSelect, dec, chunks)
          else Ok (cryptoSelect, dec, chunks)
      end
  end.

(** What was written, and the connection. *)
Definition HandshakeOutgoing (infoHash privBytes padC : bytes) (preferred : Z) (wleft : nat) (chunks : list bytes)
    : list bytes * result mse_error (Conn * Z) :=
  let '(privKey, pubKey) := generateDHKeyPair privBytes in
  let yaBytes := padTo (big_Bytes pubKey) 96 in
  match wleft with
  | O => ([], Err WriteYa)
  | S wleft =>
      match ReadFull 96 chunks with
      | None => ([yaBytes], Err ReadYb)
      | Some (ybBytes, chunks) =>
          let sBytes := secret (be_get ybBytes) privKey in
          let '(msg, encCipher) := handshake_message infoHash sBytes padC preferred in
          match wleft with
          | O => ([yaBytes], Err WriteHandshake)
          | S _ =>
              ([yaBytes; msg],
               '(cryptoSelect, decCipher, chunks) ← read_answer (primed (deriveKey (lit "keyB") sBytes infoHash)) chunks;
               Ok (if cryptoSelect =? CryptoRC4 then mkConn (Some decCipher) (Some encCipher) chunks
                   else mkConn None None chunks, cryptoSelect))
          end
      end
  end.
End Handshake.

(** [Conn.Read] of what one underlying read returned, and [Conn.Write]. *)
Definition conn_Read (got : bytes) (c : Conn) : bytes * Conn :=
  match c_r c with
  | Some r => let '(b, r) := XORKeyStream got r in (b, mkConn (Some r) (c_w c) (c_in c))
  | None => (got, c)
  end.
Definition conn_Write (b : bytes) (c : Conn) : bytes * Conn :=
  match c_w c with
  | Some w => let '(buf, w) := XORKeyStream b w in (buf, mkConn (c_r c) (Some w) (c_in c))
  | None => (b, c)
  end.
