(* ===== verification/MseTheorems.v ===== *)
(** * Properties of the encrypted handshake

    Against a responder written from the protocol description, the initiator's
    messages are accepted and its answer understood however the network splits it;
    afterwards each side decrypts what the other writes. *)

From Stdlib Require Import Zpow_facts.
From S2P Require Import Prelude Mse.
Set Warnings "-clear-no-such-hyp".
Local Open Scope Z_scope.

(** ** The key stream *)

Fixpoint advance (n : nat) (c : cipher) : cipher :=
  match n with O => c | S n => advance n (next_key c).2 end.

Lemma advance_add n m c : advance (n + m) c = advance m (advance n c).
Proof. revert c. induction n as [|n IH]; intros c; [done|]. apply IH. Qed.

Lemma stream_state data c : (XORKeyStream data c).2 = advance (length data) c.
Proof.
  revert c. induction data as [|v data IH]; intros c; [done|]. cbn [XORKeyStream length advance].
  destruct (next_key c) as [k c1]. specialize (IH c1). cbn [snd]. by destruct (XORKeyStream data c1).
Qed.

Lemma stream_length data c : length (XORKeyStream data c).1 = length data.
Proof.
  revert c. induction data as [|v data IH]; intros c; [done|]. cbn [XORKeyStream].
  destruct (next_key c) as [k c1]. specialize (IH c1). destruct (XORKeyStream data c1). cbn in *. by rewrite IH.
Qed.

Lemma stream_app a b c :
  (XORKeyStream (a ++ b) c).1 = (XORKeyStream a c).1 ++ (XORKeyStream b (advance (length a) c)).1.
Proof.
  revert c. induction a as [|v a IH]; intros c; [done|]. cbn [app XORKeyStream length advance].
  destruct (next_key c) as [k c1]. cbn [snd]. specialize (IH c1).
  destruct (XORKeyStream (a ++ b) c1), (XORKeyStream a c1). cbn in *. by rewrite IH.
Qed.

Definition all_bytes : list byte := byte_of_Z <$> seqZ 0 256.
Lemma xor8_involutive a k : xor8 (xor8 a k) k = a.
Proof.
  assert (H : forallb (fun a => forallb (fun k => Byte.eqb (xor8 (xor8 a k) k) a) all_bytes) all_bytes = true)
    by (vm_compute; reflexivity).
  assert (Hin : forall b, In b all_bytes).
  { intros b. apply in_map_iff. exists (u8 b). split; [apply byte_of_Z_u8|].
    apply list_elem_of_In, elem_of_seqZ. pose proof (u8_range b). lia. }
  rewrite forallb_forall in H. specialize (H a (Hin a)). rewrite forallb_forall in H.
  specialize (H k (Hin k)). by apply byte_dec_bl.
Qed.

(** Decrypting with the same stream gives the text back. *)
Lemma stream_involutive data c : (XORKeyStream (XORKeyStream data c).1 c).1 = data.
Proof.
  revert c. induction data as [|v data IH]; intros c; [done|]. cbn [XORKeyStream].
  destruct (next_key c) as [k c1] eqn:E. specialize (IH c1). destruct (XORKeyStream data c1) as [d c2] eqn:E2.
  cbn [fst XORKeyStream]. rewrite E. cbn [fst] in IH. destruct (XORKeyStream d c1) as [d' c3]. cbn in *.
  by rewrite xor8_involutive, IH.
Qed.

Lemma stream_prefix k data c : take k (XORKeyStream data c).1 = (XORKeyStream (take k data) c).1.
Proof.
  rewrite <- (take_drop k data) at 1. rewrite stream_app.
  destruct (decide (k <= length data)%nat).
  - rewrite take_app_le by (rewrite stream_length, length_take; lia).
    rewrite take_ge; [done|]. rewrite stream_length, length_take. lia.
  - rewrite (drop_ge data), (take_ge data) by lia. cbn. rewrite app_nil_r, take_ge; [done|]. rewrite stream_length. lia.
Qed.

(** ** Reading from chunks *)

Lemma ReadAtLeast_spec cap min : 0 <= min <= cap -> forall chunks acc,
  len acc <= cap -> min <= len acc + len (concat chunks) ->
  exists k chunks', ReadAtLeast cap min acc chunks = Some (acc ++ take k (concat chunks), chunks') /\
    concat chunks' = drop k (concat chunks) /\ (k <= length (concat chunks))%nat /\
    min <= len acc + Z.of_nat k <= cap.
Proof.
  intros Hm. induction chunks as [|c chunks IH]; intros acc Ha Hle.
  - exists 0%nat, []. cbn in *. rewrite (proj2 (Z.leb_le _ _)) by lia. rewrite app_nil_r. split_and!; [done..|lia|lia|lia].
  - cbn [ReadAtLeast concat]. destruct (Z.leb_spec min (len acc)).
    { exists 0%nat, (c :: chunks). rewrite take_0, app_nil_r. split_and!; [done|done|lia|lia|lia]. }
    cbn [concat] in Hle. rewrite length_app in Hle.
    destruct (Z.leb_spec (len c) (cap - len acc)).
    + destruct (IH (acc ++ c)) as (k & chunks' & E & Ec & Hk & Hb); [rewrite length_app; lia|rewrite length_app; lia|].
      exists (length c + k)%nat, chunks'. rewrite E, Ec, length_app in *. rewrite <- (assoc_L (++)).
      rewrite take_app_add, drop_app_add. split_and!; [done|done|lia|lia|lia].
    + exists (Z.to_nat (cap - len acc)), (slice c (cap - len acc) (len c) :: chunks).
      unfold slice. rewrite drop_0, !Z.sub_0_r, length_app. cbn [concat].
      rewrite take_app_le, drop_app_le by lia. split_and!; [done| |lia|lia|lia].
      f_equal. apply take_ge. rewrite length_drop. lia.
Qed.

Lemma ReadFull_spec n chunks : 0 <= n <= len (concat chunks) ->
  exists chunks', ReadFull n chunks = Some (take (Z.to_nat n) (concat chunks), chunks') /\
    concat chunks' = drop (Z.to_nat n) (concat chunks).
Proof.
  intros Hn. destruct (ReadAtLeast_spec n n ltac:(lia) chunks []) as (k & chunks' & E & Ec & Hk & Hb); [cbn; lia|cbn; lia|].
  cbn [length] in Hb. replace k with (Z.to_nat n) in * by lia. exists chunks'. by split.
Qed.

(** ** Numbers *)

Lemma be_get_zeros m l : be_get (replicate m x00 ++ l) = be_get l.
Proof. induction m as [|m IH]; [done|]. cbn [replicate app be_get]. rewrite IH. change (u8 x00) with 0. lia. Qed.

Lemma padTo_bytes z : 0 <= z < 256 ^ 96 -> padTo (big_Bytes z) 96 = be_put 96 z.
Proof.
  intros Hz. set (l := big_Bytes z). assert (Hl : len l <= 96 /\ be_get l = z).
  { unfold l, big_Bytes. destruct (Z.leb_spec z 0) as [H0|H0]; [cbn; lia|].
    pose proof (Z.log2_spec z H0) as [_ Hlog]. pose proof (Z.log2_nonneg z).
    assert (Z.log2 z < 768) by (apply Z.log2_lt_pow2; [done|]; change (2 ^ 768) with (256 ^ 96); lia).
    assert (Z.log2 z / 8 < 96) by (apply Z.div_lt_upper_bound; lia).
    assert (0 <= Z.log2 z / 8) by (apply Z.div_pos; lia).
    rewrite length_be_put. split; [lia|]. rewrite be_get_put, Z.mod_small; [done|]. split; [lia|].
    rewrite Z2Nat.id by lia. change 256 with (2 ^ 8). rewrite <- Z.pow_mul_r by lia.
    eapply Z.lt_le_trans; [exact Hlog|]. apply Z.pow_le_mono_r; [lia|].
    pose proof (Z.div_mod (Z.log2 z) 8 ltac:(lia)). pose proof (Z.mod_pos_bound (Z.log2 z) 8 ltac:(lia)). lia. }
  destruct Hl as [Hlen Hget]. clearbody l.
  assert (Hp : be_get (replicate (96 - length l) x00 ++ l) = z /\ length (replicate (96 - length l) x00 ++ l) = 96%nat).
  { rewrite be_get_zeros, length_app, length_replicate. split; [done|lia]. }
  assert (Hr : replicate (96 - length l) x00 ++ l = be_put 96 z).
  { rewrite <- (be_put_get (replicate _ _ ++ l)). destruct Hp as [-> ->]. done. }
  unfold padTo. destruct (Z.leb_spec 96 (len l)).
  - replace (96 - length l)%nat with 0%nat in Hr by lia. cbn [replicate app] in Hr. rewrite <- Hr. unfold slice.
    rewrite drop_0. apply take_ge. lia.
  - rewrite <- Hr. do 2 f_equal. lia.
Qed.

Lemma dhPrime_range : 0 < dhPrime < 256 ^ 96.
Proof. split; vm_compute; reflexivity. Qed.

Lemma Exp_spec x y : 0 <= y -> Exp x y dhPrime = x ^ y mod dhPrime.
Proof. intros Hy. pose proof dhPrime_range. apply Zpow_mod_correct; lia. Qed.

(** A public key as it is sent. *)
Definition public (priv : Z) : bytes := be_put 96 (dhG ^ priv mod dhPrime).
(** The secret both sides share. *)
Definition shared (a b : Z) : bytes := be_put 96 (dhG ^ (a * b) mod dhPrime).

Lemma mod_prime_range x : 0 <= x mod dhPrime < 256 ^ 96.
Proof. pose proof dhPrime_range. pose proof (Z.mod_pos_bound x dhPrime ltac:(lia)). lia. Qed.

Lemma be_get_public a : be_get (public a) = dhG ^ a mod dhPrime.
Proof. unfold public. rewrite be_get_put. apply Z.mod_small, mod_prime_range. Qed.

Lemma secret_shared a b : 0 <= a -> 0 <= b -> secret (be_get (public b)) a = shared a b.
Proof.
  intros Ha Hb. pose proof dhPrime_range. unfold secret, shared.
  rewrite be_get_public, Exp_spec, padTo_bytes by (done || apply mod_prime_range).
  f_equal. rewrite <- Zpower_mod by lia. rewrite <- Z.pow_mul_r by lia. do 2 f_equal. lia.
Qed.

Lemma generated_public privBytes :
  generateDHKeyPair privBytes = (be_get privBytes, dhG ^ be_get privBytes mod dhPrime) /\
  padTo (big_Bytes (dhG ^ be_get privBytes mod dhPrime)) 96 = public (be_get privBytes).
Proof.
  unfold generateDHKeyPair. pose proof (be_get_range privBytes). rewrite Exp_spec by lia.
  split; [done|]. apply padTo_bytes, mod_prime_range.
Qed.

(** ** The responder *)

Section Responder.
Context (sha1 : bytes -> bytes).

(** The responder's side as the protocol describes it: it recognises the torrent by its
    hash, decrypts the rest of the message and chooses among the methods offered. *)
Record accepted := mkAccepted { answer : bytes; cipher_in : cipher; cipher_out : cipher }.

Definition vc : bytes := replicate 8 x00.

(** The key streams are used from their 1025th byte on. *)
Definition stream_of (key : bytes) : cipher := advance 1024 (NewCipher key).

Definition respond (priv : Z) (skey padD : bytes) (select : Z) (ya msg : bytes) : option accepted :=
  let S := be_put 96 ((be_get ya) ^ priv mod dhPrime) in
  let rest := drop 40 msg in
  let plain := (XORKeyStream rest (stream_of (sha1 (lit "keyA" ++ S ++ skey)))).1 in
  let padC := be_get (slice plain 12 14) in
  if bool_decide (take 20 msg = sha1 (lit "req1" ++ S)) &&
     bool_decide (slice msg 20 40 = zip_with xor8 (sha1 (lit "req2" ++ skey)) (sha1 (lit "req3" ++ S))) &&
     bool_decide (take 8 plain = vc) && negb (Z.land (be_get (slice plain 8 12)) select =? 0) &&
     (len plain =? 16 + padC) && (be_get (slice plain (14 + padC) (16 + padC)) =? 0)
  then
    let out := vc ++ be_put 4 select ++ be_put 2 (len padD) ++ padD in
    let c := stream_of (sha1 (lit "keyB" ++ S ++ skey)) in
    Some (mkAccepted (XORKeyStream out c).1
            (advance (length rest) (stream_of (sha1 (lit "keyA" ++ S ++ skey)))) (advance (length out) c))
  else None.

Lemma primed_stream key : primed key = stream_of key.
Proof. unfold primed, stream_of. rewrite stream_state. unfold discard. by rewrite length_replicate. Qed.

Lemma xorBytes_zip a : forall b, xorBytes a b = zip_with xor8 a b.
Proof. induction a as [|x a IH]; intros [|y b]; cbn; congruence. Qed.

Context (sha1_len : forall b, length (sha1 b) = 20%nat).

(** The plain text of the third message. *)
Definition offer (padC : bytes) (preferred : Z) : bytes :=
  vc ++ be_put 4 (Z.lor preferred CryptoPlaintext) ++ be_put 2 (len padC) ++ padC ++ be_put 2 0.

Lemma handshake_message_eq infoHash S padC preferred :
  let enc := stream_of (sha1 (lit "keyA" ++ S ++ infoHash)) in
  handshake_message sha1 infoHash S padC preferred =
  (sha1 (lit "req1" ++ S) ++ zip_with xor8 (sha1 (lit "req2" ++ infoHash)) (sha1 (lit "req3" ++ S)) ++
     (XORKeyStream (offer padC preferred) enc).1, advance (length (offer padC preferred)) enc).
Proof.
  cbn zeta. unfold handshake_message, deriveKey, hashBytes. rewrite app_nil_r. fold vc. fold (offer padC preferred).
  rewrite primed_stream, xorBytes_zip, <- stream_state. by destruct (XORKeyStream (offer padC preferred) _).
Qed.

Lemma offer_fields padC preferred : len padC < 65536 -> 0 <= preferred < 2 ^ 32 ->
  let plain := offer padC preferred in
  take 8 plain = vc /\ be_get (slice plain 8 12) = Z.lor preferred CryptoPlaintext /\
  be_get (slice plain 12 14) = len padC /\ len plain = 16 + len padC /\
  be_get (slice plain (14 + len padC) (16 + len padC)) = 0.
Proof.
  intros Hc Hp. cbn zeta.
  assert (Hlor : 0 <= Z.lor preferred CryptoPlaintext < 2 ^ 32).
  { split; [apply Z.lor_nonneg; unfold CryptoPlaintext; lia|]. unfold CryptoPlaintext.
    destruct (decide (Z.lor preferred 1 = 0)) as [->|Hne]; [lia|].
    apply Z.log2_lt_pow2; [pose proof (proj2 (Z.lor_nonneg preferred 1)); lia|].
    rewrite Z.log2_lor by lia. apply Z.max_lub_lt; [|done].
    destruct (decide (preferred = 0)) as [->|]; [done|]. apply Z.log2_lt_pow2; lia. }
  assert (Hlen : length (offer padC preferred) = (16 + length padC)%nat).
  { unfold offer, vc. rewrite !length_app, !length_be_put, length_replicate. lia. }
  split_and!.
  - unfold offer. by apply take_app_length'.
  - unfold slice, offer. change (Z.to_nat 8) with 8%nat. rewrite drop_app_length' by done.
    rewrite take_app_length' by (by rewrite length_be_put). rewrite be_get_put. apply Z.mod_small. exact Hlor.
  - unfold slice, offer. rewrite (assoc_L (++)), drop_app_length' by (by rewrite length_app, length_be_put).
    rewrite take_app_length' by (by rewrite length_be_put). rewrite be_get_put. apply Z.mod_small. lia.
  - rewrite Hlen. lia.
  - unfold slice, offer.
    replace (vc ++ be_put 4 (Z.lor preferred CryptoPlaintext) ++ be_put 2 (len padC) ++ padC ++ be_put 2 0)
      with ((vc ++ be_put 4 (Z.lor preferred CryptoPlaintext) ++ be_put 2 (len padC) ++ padC) ++ be_put 2 0)
      by (by rewrite <- !(assoc_L (++))).
    rewrite drop_app_length' by (rewrite !length_app, !length_be_put; cbn; lia).
    rewrite take_ge by (rewrite length_be_put; lia). by rewrite be_get_put.
Qed.

(** The responder's plain text. *)
Definition reply (select : Z) (padD : bytes) : bytes := vc ++ be_put 4 select ++ be_put 2 (len padD) ++ padD.

Lemma respond_accepts a b infoHash padC padD preferred select :
  0 <= a -> 0 <= b -> len padC < 65536 -> 0 <= preferred < 2 ^ 32 ->
  Z.land (Z.lor preferred CryptoPlaintext) select <> 0 ->
  let '(msg, enc) := handshake_message sha1 infoHash (shared a b) padC preferred in
  let c := stream_of (sha1 (lit "keyB" ++ shared a b ++ infoHash)) in
  respond b infoHash padD select (public a) msg =
    Some (mkAccepted (XORKeyStream (reply select padD) c).1 enc (advance (length (reply select padD)) c)).
Proof.
  intros Ha Hb Hc Hp Hsel. rewrite handshake_message_eq. unfold respond.
  assert (HS : be_put 96 (be_get (public a) ^ b mod dhPrime) = shared a b).
  { pose proof dhPrime_range. rewrite be_get_public. unfold shared. f_equal.
    rewrite <- Zpower_mod by lia. by rewrite <- Z.pow_mul_r. }
  rewrite HS. destruct (offer_fields padC preferred Hc Hp) as (F1 & F2 & F3 & F4 & F5).
  set (req2 := zip_with _ _ _). assert (H2 : length req2 = 20%nat) by (unfold req2; by rewrite length_zip_with, !sha1_len).
  set (r1 := sha1 (lit "req1" ++ shared a b)). assert (H1 : length r1 = 20%nat) by apply sha1_len.
  set (enc := stream_of (sha1 (lit "keyA" ++ shared a b ++ infoHash))).
  assert (D : drop 40 (r1 ++ req2 ++ (XORKeyStream (offer padC preferred) enc).1) = (XORKeyStream (offer padC preferred) enc).1)
    by (rewrite (assoc_L (++)); apply drop_app_length'; rewrite length_app; lia).
  rewrite D, stream_involutive, F1, F2, F3, F4, F5, stream_length.
  rewrite (bool_decide_eq_true_2 (take 20 _ = _)) by (by apply take_app_length').
  rewrite (bool_decide_eq_true_2 (slice _ 20 40 = _)).
  2: { unfold slice. change (Z.to_nat 20) with 20%nat. rewrite drop_app_length' by done. by apply take_app_length'. }
  rewrite bool_decide_eq_true_2 by done. rewrite (proj2 (Z.eqb_neq _ 0) Hsel), !Z.eqb_refl. done.
Qed.
End Responder.

(** ** The initiator reads the answer *)

Section Answer.
Context (out : bytes) (c : cipher).
Abbreviation enc := (XORKeyStream out c).1.

(** Decrypting a part of the stream from its place on. *)
Lemma window k m : (k <= length out)%nat ->
  XORKeyStream (take m (drop k enc)) (advance k c) =
  (take m (drop k out), advance (k + length (take m (drop k out))) c).
Proof.
  intros Hk.
  assert (Hd : drop k enc = (XORKeyStream (drop k out) (advance k c)).1).
  { rewrite <- (take_drop k out) at 1. rewrite stream_app, drop_app_length'.
    - by rewrite length_take_le.
    - by rewrite stream_length, length_take_le. }
  rewrite Hd, stream_prefix. rewrite (surjective_pairing (XORKeyStream _ _)), stream_involutive, stream_state, stream_length.
  by rewrite advance_add.
Qed.

Lemma window0 k : XORKeyStream (take k enc) c = (take k out, advance (length (take k out)) c).
Proof. pose proof (window 0 k ltac:(lia)) as H. by rewrite !drop_0 in H. Qed.
End Answer.

Lemma find_vc_head buf : take 8 buf = vc -> find_vc 0 buf = Some 0.
Proof.
  intros H. assert (8 <= length buf)%nat.
  { assert (Hl : length (take 8 buf) = 8%nat) by (by rewrite H). rewrite length_take in Hl. lia. }
  destruct buf as [|b buf]; [cbn in *; lia|]. cbn [find_vc]. rewrite (proj2 (Z.ltb_ge _ 8)) by lia.
  by rewrite H.
Qed.

Section Read.
Context (select : Z) (padD : bytes) (c : cipher).
Context (Hsel : 0 <= select < 2 ^ 32) (HpadD : len padD <= 602).
Abbreviation out := (reply select padD).
Abbreviation enc := (XORKeyStream out c).1.

Lemma reply_length : length out = (14 + length padD)%nat.
Proof. unfold reply, vc. rewrite !length_app, !length_be_put, length_replicate. lia. Qed.

Lemma enc_length : length enc = (14 + length padD)%nat.
Proof. rewrite stream_length. apply reply_length. Qed.

(** The fields, in any part of the text that reaches past them. *)
Lemma reply_fields k : (14 <= k)%nat ->
  be_get (slice (drop 8 (take k out)) 0 4) = select /\ be_get (slice (drop 8 (take k out)) 4 6) = len padD.
Proof.
  intros Hk. unfold slice. rewrite !skipn_firstn_comm, !take_take. unfold reply. rewrite drop_app_length' by done.
  rewrite drop_0. split.
  - rewrite Nat.min_l by lia. rewrite take_app_length' by (by rewrite length_be_put).
    rewrite be_get_put. by apply Z.mod_small.
  - change (Z.to_nat 4) with 4%nat. rewrite drop_app_length' by (by rewrite length_be_put). rewrite Nat.min_l by lia.
    rewrite take_app_length' by (by rewrite length_be_put). rewrite be_get_put. apply Z.mod_small. lia.
Qed.

(** After the fields have been read: [k] bytes of the answer are consumed. *)
Definition consumed (k : nat) (st : bytes * cipher * list bytes) : Prop :=
  let '(remaining, dec, chunks) := st in
  remaining = drop 8 (take k out) /\ dec = advance k c /\ concat chunks = drop k enc.

Lemma read_fields k chunks : (8 <= k <= 14 + length padD)%nat -> concat chunks = drop k enc ->
  let remaining := drop 8 (take k out) in
  exists k' st, (k <= k')%nat /\ (14 <= k' <= 14 + length padD)%nat /\ consumed k' st /\
    (if len remaining <? 6 then
       match ReadFull (6 - len remaining) chunks with
       | None => Err ReadSelect
       | Some (extra, chunks) =>
           let '(decExtra, dec) := XORKeyStream extra (advance k c) in Ok (remaining ++ decExtra, dec, chunks)
       end
     else Ok (remaining, advance k c, chunks)) = Ok st.
Proof.
  intros Hk Hc remaining. assert (Hr : length remaining = (k - 8)%nat).
  { unfold remaining. rewrite length_drop, length_take, reply_length. lia. }
  destruct (Z.ltb_spec (len remaining) 6) as [Hlt|Hge].
  - destruct (ReadFull_spec (6 - len remaining) chunks) as (chunks' & E & Ec).
    { rewrite Hc, length_drop, enc_length. lia. }
    rewrite E, Hc, (window out c) by (rewrite reply_length; lia).
    eexists 14%nat, _. split_and!; [lia|lia|lia| |reflexivity].
    assert (Hn : Z.to_nat (6 - len remaining) = (14 - k)%nat) by lia.
    split_and!.
    + rewrite Hn. unfold remaining. replace 14%nat with (k + (14 - k))%nat at 2 by lia.
      rewrite <- (take_drop k out) at 3. rewrite take_app_add' by (rewrite length_take, reply_length; lia).
      rewrite drop_app_le; [done|]. rewrite length_take, reply_length. lia.
    + f_equal. rewrite length_take, length_drop, reply_length, Hn. lia.
    + rewrite Ec, Hc, drop_drop, Hn. f_equal. lia.
  - eexists k, _. split_and!; [lia|lia|lia| |reflexivity]. by split_and!.
Qed.

Lemma read_answer_spec chunks : concat chunks = enc ->
  exists chunks', read_answer c chunks = Ok (select, advance (length out) c, chunks') /\ concat chunks' = [].
Proof.
  intros Hc. unfold read_answer.
  destruct (ReadAtLeast_spec 616 8 ltac:(lia) chunks []) as (k & ch1 & E & Ec & Hk & Hb);
    [cbn; lia|rewrite Hc, enc_length; cbn; lia|].
  rewrite E. cbn [app length] in *. rewrite Hc in *. rewrite enc_length in Hk.
  rewrite window0. rewrite find_vc_head.
  2: { rewrite take_take, Nat.min_l by lia. unfold reply. by apply take_app_length'. }
  replace (length (take k out)) with k by (rewrite length_take, reply_length; lia).
  cbv zeta. change (Z.to_nat (0 + 8)) with 8%nat.
  destruct (read_fields k ch1) as (k' & [[remaining dec] ch2] & Hk1 & Hk2 & (-> & -> & Ec2) & ->); [lia|done|].
  cbn [mbind result_bind]. destruct (reply_fields k') as [-> ->]; [lia|].
  assert (Hl : len (drop 8 (take k' out)) = Z.of_nat k' - 8) by (rewrite length_drop, length_take, reply_length; lia).
  rewrite Hl, reply_length. destruct (Z.ltb_spec 0 (len padD)) as [Hpos|Hzero].
  - destruct (Z.ltb_spec (Z.min (len padD) (Z.of_nat k' - 8 - 6)) (len padD)) as [Hlt|Hge].
    + set (need := len padD - Z.min (len padD) (Z.of_nat k' - 8 - 6)).
      assert (Hneed : need = 14 + len padD - Z.of_nat k') by (unfold need; lia).
      destruct (ReadFull_spec need ch2) as (ch3 & E3 & Ec3); [rewrite Ec2, length_drop, enc_length; lia|].
      rewrite E3, Ec2, (window out c) by (rewrite reply_length; lia).
      exists ch3. split.
      * do 3 f_equal. f_equal. rewrite length_take, length_drop, reply_length. lia.
      * rewrite Ec3, Ec2, drop_drop. apply drop_ge. rewrite enc_length. lia.
    + exists ch2. replace k' with (14 + length padD)%nat by lia. split; [done|].
      rewrite Ec2. apply drop_ge. rewrite enc_length. lia.
  - exists ch2. replace k' with (14 + length padD)%nat by lia. split; [done|].
    rewrite Ec2. apply drop_ge. rewrite enc_length. lia.
Qed.
End Read.

(** ** The handshake *)

(** C35: with a responder that follows the protocol, sends none of the padding it may send between
    its public key and its answer, and no data before the handshake is over (both of which break the
    handshake or lose data, [padding_breaks_handshake] and [early_payload_lost]), the
    handshake succeeds for any padding in the other two places however the network splits what it sends: the initiator's two
    messages are accepted, both sides end with the chosen method, nothing is left
    unread, and with RC4 each side decrypts exactly what the other writes. *)
Theorem Mse_handshake (sha1 : bytes -> bytes) (infoHash privBytes padC padD : bytes) (b preferred select : Z) :
  (forall x, length (sha1 x) = 20%nat) -> 0 <= b -> len padC < 65536 -> len padD <= 602 ->
  0 <= preferred < 2 ^ 32 -> 0 <= select < 2 ^ 32 -> Z.land (Z.lor preferred CryptoPlaintext) select <> 0 ->
  exists ya msg acc, respond sha1 b infoHash padD select ya msg = Some acc /\
    forall chunks, concat chunks = public b ++ answer acc ->
      exists conn, HandshakeOutgoing sha1 infoHash privBytes padC preferred 2 chunks = ([ya; msg], Ok (conn, select)) /\
        concat (c_in conn) = [] /\
        if select =? CryptoRC4
        then (forall m, (XORKeyStream (conn_Write m conn).1 (cipher_in acc)).1 = m) /\
             (forall m, (conn_Read (XORKeyStream m (cipher_out acc)).1 conn).1 = m)
        else (forall m, (conn_Write m conn).1 = m /\ (conn_Read m conn).1 = m).
Proof.
  intros Hlen Hb HpadC HpadD Hp Hs Hsel. set (a := be_get privBytes).
  assert (Ha : 0 <= a) by apply be_get_range.
  pose proof (respond_accepts sha1 Hlen a b infoHash padC padD preferred select Ha Hb HpadC Hp Hsel) as Hr.
  destruct (handshake_message sha1 infoHash (shared a b) padC preferred) as [msg enc] eqn:Em.
  set (c := stream_of (sha1 (lit "keyB" ++ shared a b ++ infoHash))) in Hr.
  eexists (public a), msg, _. split; [exact Hr|]. cbn [answer cipher_in cipher_out].
  intros chunks Hc. unfold HandshakeOutgoing. destruct (generated_public privBytes) as [-> ->].
  assert (Hpub : length (public b) = 96%nat) by apply length_be_put.
  destruct (ReadFull_spec 96 chunks) as (ch1 & -> & Ec1); [rewrite Hc, length_app; lia|].
  rewrite Hc in *. change (Z.to_nat 96) with 96%nat in *. rewrite take_app_length' by done.
  rewrite drop_app_length' in Ec1 by done. cbv zeta. fold a. rewrite secret_shared, Em by done.
  destruct (read_answer_spec select padD c Hs HpadD ch1 Ec1) as (ch2 & Er & E2).
  unfold deriveKey. rewrite primed_stream. fold c. rewrite Er. cbn [mbind result_bind].
  eexists. split; [reflexivity|]. destruct (Z.eqb_spec select CryptoRC4); cbn [c_in]; (split; [done|]).
  - unfold conn_Write, conn_Read. cbn [c_r c_w]. split; intros m.
    + pose proof (stream_involutive m enc) as H. destruct (XORKeyStream m enc). exact H.
    + pose proof (stream_involutive m (advance (length (reply select padD)) c)) as H.
      by destruct (XORKeyStream (XORKeyStream m _).1 _).
  - intros m. split; reflexivity.
Qed.

(** *** Concrete instances *)

(** A stand-in for SHA-1 that depends on prefix and length. *)
Definition toy_hash (b : bytes) : bytes := take 20 (take 4 b ++ be_put 2 (len b) ++ replicate 20 x07).

Lemma toy_hash_length x : length (toy_hash x) = 20%nat.
Proof. unfold toy_hash. rewrite length_take, !length_app, length_be_put, length_replicate. lia. Qed.

Lemma Mse_handshake_witness :
  exists ya msg acc, respond toy_hash 5 (lit "torrent") [x09] CryptoRC4 ya msg = Some acc /\
    forall chunks, concat chunks = public 5 ++ answer acc ->
      exists conn, HandshakeOutgoing toy_hash (lit "torrent") [x03] [x01; x02] CryptoRC4 2 chunks =
          ([ya; msg], Ok (conn, CryptoRC4)) /\
        concat (c_in conn) = [] /\
        (forall m, (XORKeyStream (conn_Write m conn).1 (cipher_in acc)).1 = m) /\
        (forall m, (conn_Read (XORKeyStream m (cipher_out acc)).1 conn).1 = m).
Proof.
  apply (Mse_handshake toy_hash (lit "torrent") [x03] [x01; x02] [x09] 5 CryptoRC4 CryptoRC4 toy_hash_length).
  1: lia.
  5: { vm_compute. discriminate. }
  all: unfold CryptoRC4; cbn [length]; lia.
Defined.

Definition demo_reply (payload : bytes) : bytes :=
  (XORKeyStream (reply CryptoRC4 [] ++ payload) (primed (toy_hash (lit "keyB" ++ shared 3 5 ++ lit "torrent")))).1.
Definition demo_handshake (chunks : list bytes) : list bytes * result mse_error (Conn * Z) :=
  HandshakeOutgoing toy_hash (lit "torrent") [x03] [] CryptoRC4 2 chunks.

(** The protocol lets the responder send up to 512 random bytes after its public key; the
    initiator decrypts from the first of them on, so that its stream is out of step and
    it does not recognise the answer. *)
Lemma padding_breaks_handshake :
  (demo_handshake [public 5; [x55] ++ demo_reply [] ]).2 = Err VCNotFound.
Proof. vm_compute. reflexivity. Qed.

(** Data that arrives together with the answer is read with it and lost. *)
Lemma early_payload_lost :
  match (demo_handshake [public 5; demo_reply (lit "hello")]).2 with
  | Ok (conn, select) => select = CryptoRC4 /\ concat (c_in conn) = []
  | Err _ => False
  end.
Proof. vm_compute. split; reflexivity. Qed.
