(* ===== verification/Webseed.v ===== *)
(** * Web seeds ([download/webseed.go])

    Pieces fetched by HTTP range requests.  What a request for a URL, an offset and a
    length returns (status and body) is the function [server]; the result of
    [url.Parse] and the addresses of a DNS lookup are arguments. *)

From S2P Require Import Prelude Strconv Net Torrent PieceQueue Tracker.
Set Warnings "-clear-no-such-hyp".
Local Open Scope Z_scope.

(** ** Which hosts are contacted *)

(** Unlike [reserved] it does not include unspecified addresses. *)
Definition ws_reserved (ip : IP) : bool :=
  IsLoopback ip || IsPrivate ip || IsLinkLocalUnicast ip || IsLinkLocalMulticast ip.

Section Hosts.
Context (ParseIP : bytes -> option IP).

(** The scheme and host name of the parsed URL, if it parses. *)
Definition validWebSeedURL (url : option (bytes * bytes)) : bool :=
  match url with
  | None => false
  | Some (scheme, host) =>
      if bool_decide (scheme <> lit "http") && bool_decide (scheme <> lit "https") then false
      else if bool_decide (host = lit "localhost") then false
      else match ParseIP host with None => true | Some ip => negb (ws_reserved ip) end
  end.

Inductive host_error := HostLocal | HostPrivate | HostUnknown | HostNoAddress.

Fixpoint first_valid (addrs : list bytes) : result host_error bytes :=
  match addrs with
  | [] => Err HostNoAddress
  | addr :: addrs =>
      match ParseIP addr with
      | None => first_valid addrs
      | Some ip => if ws_reserved ip then Err HostPrivate else Ok (ip_String ip)
      end
  end.

Definition resolveAndValidateHost (host : bytes) (lookup : option (list bytes)) : result host_error bytes :=
  if bool_decide (host = lit "localhost") then Err HostLocal
  else match ParseIP host with
       | Some ip => if ws_reserved ip then Err HostPrivate else Ok (ip_String ip)
       | None => match lookup with None => Err HostUnknown | Some addrs => first_valid addrs end
       end.
End Hosts.

(** ** One piece *)

Inductive ws_error :=
  | RequestFailed | BadStatus (status : Z) | ShortRead (got : Z) | ExceedsBuffer | WsHashMismatch.

Section Piece.
Context (sha1 : bytes -> bytes).
(** Status and body of the answer; [None] when the request fails. *)
Context (server : bytes -> Z -> Z -> option (Z * bytes)).

(** [httpRange] after the host has been resolved. *)
Definition httpRange (url : bytes) (offset length : Z) : result ws_error bytes :=
  match server url offset length with
  | None => Err RequestFailed
  | Some (status, body) =>
      if negb (status =? 206) then Err (BadStatus status)
      else
        let data := slice body 0 length in
        if len data <? length then Err (ShortRead (len data)) else Ok data
  end.

(** [strings.TrimRight(s, "/")] *)
Definition trim_slashes (s : bytes) : bytes :=
  rev ((fix go (r : bytes) := match r with c :: r' => if Byte.eqb c "/"%byte then go r' else r | [] => [] end) (rev s)).

Definition file_url (baseURL : bytes) (f : File) : bytes :=
  trim_slashes baseURL ++ lit "/" ++ join_with (lit "/") (f_Path f).

(** The loop over the files. *)
Fixpoint ws_files (baseURL : bytes) (fl : list File) (fileOffset pos remaining written : Z) (buf : bytes)
    : result ws_error bytes :=
  match fl with
  | [] => Ok buf
  | f :: fl =>
      let fileEnd := i64 (fileOffset + f_Length f) in
      if fileEnd <=? pos then ws_files baseURL fl fileEnd pos remaining written buf
      else
        let localOff := i64 (pos - fileOffset) in
        let canRead := i64 (f_Length f - localOff) in
        let canRead := if remaining <? canRead then remaining else canRead in
        data ← httpRange (file_url baseURL f) localOff canRead;
        if len buf <? written + len data then Err ExceedsBuffer
        else
          let buf := splice buf (Z.to_nat written) data in
          let remaining := i64 (remaining - len data) in
          if remaining <=? 0 then Ok buf
          else ws_files baseURL fl fileEnd (i64 (pos + len data)) remaining (written + len data) buf
  end.

Definition downloadPieceHTTP (baseURL : bytes) (tf : TorrentFile) (pw : PieceWork) : result ws_error bytes :=
  let offset := i64 (Index pw * PieceLength (t_Info tf)) in
  buf ← (if negb (IsMultiFile tf) then httpRange baseURL offset (Length pw)
         else ws_files baseURL (Files (t_Info tf)) 0 offset (Length pw) 0
                (replicate (Z.to_nat (Length pw)) x00));
  if bool_decide (sha1 buf = Hash pw) then Ok buf else Err WsHashMismatch.
End Piece.
