(* ===== verification/WebseedTheorems.v ===== *)
(** * Properties of web seeds

    A piece from a web seed is verified, and from a server that has the files it is
    the range of the torrent's data the piece stands for. *)

From S2P Require Import Prelude Strconv Net Torrent PieceQueue Tracker Webseed.
Set Warnings "-clear-no-such-hyp".
Local Open Scope Z_scope.

Lemma httpRange_length server url off n data : httpRange server url off n = Ok data -> len data = Z.max 0 n.
Proof.
  unfold httpRange. destruct (server url off n) as [[status body]|]; [|done]. destruct (negb _); [done|].
  destruct (Z.ltb_spec (len (slice body 0 n)) n); [done|]. intros [= <-].
  unfold slice in *. rewrite drop_0, length_take, Z.sub_0_r in *. lia.
Qed.

Lemma ws_files_length server base fl : forall fo pos rem written buf out,
  0 <= written -> ws_files server base fl fo pos rem written buf = Ok out -> length out = length buf.
Proof.
  induction fl as [|f fl IH]; intros fo pos rem written buf out Hw; cbn [ws_files]; [by intros [= <-]|].
  destruct (_ <=? pos); [by apply IH|].
  destruct (httpRange _ _ _ _) as [data|] eqn:E; cbn [mbind result_bind]; [|done].
  destruct (Z.ltb_spec (len buf) (written + len data)); [done|].
  assert (Hs : length (splice buf (Z.to_nat written) data) = length buf) by (apply length_splice; lia).
  destruct (_ <=? 0); [by intros [= <-]|]. intros H'. apply IH in H'; [|lia]. lia.
Qed.

(** Whatever the server sends, a piece that is accepted has the right length and hash. *)
Lemma webseed_verified sha1 server base tf pw out :
  0 <= Length pw -> downloadPieceHTTP sha1 server base tf pw = Ok out ->
  sha1 out = Hash pw /\ len out = Length pw.
Proof.
  intros HL. unfold downloadPieceHTTP. destruct (negb _).
  - destruct (httpRange _ _ _ _) as [buf|] eqn:E; cbn [mbind result_bind]; [|done].
    case_bool_decide; [|done]. intros [= <-]. apply httpRange_length in E. split; [done|lia].
  - destruct (ws_files _ _ _ _ _ _ _ _) as [buf|] eqn:E; cbn [mbind result_bind]; [|done].
    case_bool_decide; [|done]. intros [= <-]. apply ws_files_length in E; [|lia].
    rewrite length_replicate in E. split; [done|lia].
Qed.

(** ** A server that has the files *)

Section Honest.
Context (server : bytes -> Z -> Z -> option (Z * bytes)) (base : bytes).

Definition serves (url content : bytes) : Prop :=
  forall off n, 0 <= off -> 0 <= n -> off + n <= len content ->
    server url off n = Some (206, slice content off (off + n)).

Lemma httpRange_serves url content off n : serves url content -> 0 <= off -> 0 <= n -> off + n <= len content ->
  httpRange server url off n = Ok (slice content off (off + n)).
Proof.
  intros Hs Ho Hn Hl. unfold httpRange. rewrite (Hs off n) by done. cbn [negb].
  assert (Hlen : len (slice content off (off + n)) = n) by (rewrite length_slice by lia; lia).
  rewrite Z.eqb_refl. cbn [negb]. replace (slice (slice content off (off + n)) 0 n) with (slice content off (off + n)).
  - rewrite Hlen, Z.ltb_irrefl. done.
  - unfold slice at 2. rewrite drop_0, take_ge; [done|]. lia.
Qed.

Definition has_file (f : File) (content : bytes) : Prop :=
  len content = f_Length f /\ serves (file_url base f) content.

Lemma slice_beyond (c : bytes) cs a b : len c <= a -> slice (c ++ cs) a b = slice cs (a - len c) (b - len c).
Proof.
  intros H. unfold slice. rewrite drop_app_ge by lia. f_equal; [lia|]. f_equal. lia.
Qed.

Lemma slice_across (c cs : bytes) a b : 0 <= a <= len c -> len c <= b ->
  slice (c ++ cs) a b = slice c a (len c) ++ slice cs 0 (b - len c).
Proof.
  intros Ha Hb. unfold slice. rewrite drop_app_le by lia. rewrite drop_0.
  rewrite take_app. rewrite length_drop. f_equal; [|f_equal; lia].
  rewrite !take_ge by (rewrite length_drop; lia). done.
Qed.

Lemma ws_files_honest fl cs : Forall2 has_file fl cs -> forall fo pos rem written buf,
  0 <= fo <= pos -> 0 < rem -> 0 <= written -> len buf = written + rem ->
  pos + rem <= fo + len (concat cs) -> fo + len (concat cs) <= MaxInt64 ->
  ws_files server base fl fo pos rem written buf =
    Ok (take (Z.to_nat written) buf ++ slice (concat cs) (pos - fo) (pos - fo + rem)).
Proof.
  induction 1 as [|f c fl cs [Hlen Hsv] Hf IH]; intros fo pos rem written buf Hfo Hrem Hw Hbuf Hend Hmax;
    [cbn in Hend; lia|]. cbn [ws_files concat] in *. rewrite length_app in *.
  rewrite <- Hlen. rewrite (i64_id (fo + len c)) by (unfold in_i64, MinInt64, MaxInt64 in *; lia).
  destruct (Z.leb_spec (fo + len c) pos) as [Hskip|Hin].
  { rewrite IH by lia. do 2 f_equal. rewrite slice_beyond by lia. f_equal; lia. }
  rewrite (i64_id (pos - fo)), (i64_id (len c - (pos - fo))) by (unfold in_i64, MinInt64, MaxInt64 in *; lia).
  destruct (Z.ltb_spec rem (len c - (pos - fo))) as [Hlast|Hmore].
  - rewrite (httpRange_serves _ c) by (done || lia). cbn [mbind result_bind].
    assert (Hd : len (slice c (pos - fo) (pos - fo + rem)) = rem) by (rewrite length_slice by lia; lia).
    rewrite Hd, (proj2 (Z.ltb_ge _ _)), Z.sub_diag by lia. cbn [i64]. change (i64 0 <=? 0) with true.
    cbn match. unfold splice. rewrite (drop_ge buf), app_nil_r by lia. do 2 f_equal.
    unfold slice. rewrite drop_app_le, take_app_le by (rewrite ?length_drop; lia). done.
  - rewrite (httpRange_serves _ c) by (done || lia). cbn [mbind result_bind].
    replace (pos - fo + (len c - (pos - fo))) with (len c) by lia.
    assert (Hd : len (slice c (pos - fo) (len c)) = len c - (pos - fo)) by (rewrite length_slice by lia; lia).
    rewrite Hd, (proj2 (Z.ltb_ge _ _)) by lia.
    rewrite (i64_id (rem - (len c - (pos - fo)))), (i64_id (pos + (len c - (pos - fo))))
      by (unfold in_i64, MinInt64, MaxInt64 in *; lia).
    set (d := slice c (pos - fo) (len c)) in *.
    assert (Htake : take (Z.to_nat (written + (len c - (pos - fo)))) (splice buf (Z.to_nat written) d) =
      take (Z.to_nat written) buf ++ d).
    { unfold splice. rewrite (assoc_L (++)), take_app_length'; [done|]. rewrite length_app, length_take. lia. }
    rewrite slice_across by lia. fold d.
    destruct (Z.leb_spec (rem - (len c - (pos - fo))) 0).
    + replace (pos - fo + rem - len c) with 0 by lia. change (slice (concat cs) 0 0) with (@nil byte).
      rewrite app_nil_r, <- Htake, take_ge; [done|]. rewrite length_splice by lia. lia.
    + rewrite IH by (rewrite ?length_splice by lia; lia). rewrite Htake, <- (assoc_L (++)). do 3 f_equal. f_equal; lia.
Qed.

(** From a server that has the files a piece is downloaded as exactly its range of the
    torrent's data, across file boundaries and files of no length, and accepted if and
    only if it has the piece's hash. *)
Lemma Webseed_exact (sha1 : bytes -> bytes) (tf : TorrentFile) (pw : PieceWork) (cs : list bytes) :
  let off := Index pw * PieceLength (t_Info tf) in
  let D := slice (concat cs) off (off + Length pw) in
  (if IsMultiFile tf then Forall2 has_file (Files (t_Info tf)) cs else exists content, cs = [content] /\ serves base content) ->
  0 <= off -> 0 < Length pw -> off + Length pw <= len (concat cs) -> len (concat cs) <= MaxInt64 ->
  downloadPieceHTTP sha1 server base tf pw = if bool_decide (sha1 D = Hash pw) then Ok D else Err WsHashMismatch.
Proof.
  intros off D Hsrv Hoff HL Hend Hmax. unfold downloadPieceHTTP. fold off.
  rewrite (i64_id off) by (unfold in_i64, MinInt64, MaxInt64 in *; lia).
  destruct (IsMultiFile tf); cbn [negb].
  - rewrite (ws_files_honest _ cs Hsrv) by (rewrite ?length_replicate; lia). cbn [mbind result_bind].
    rewrite !Z.sub_0_r. done.
  - destruct Hsrv as (content & -> & Hsv). assert (E : concat [content] = content) by apply app_nil_r.
    unfold D. rewrite E in Hend |- *. rewrite (httpRange_serves _ content) by (done || lia). done.
Qed.
End Honest.

(** The unspecified address, which reaches the local host, passes the check that keeps
    requests away from internal addresses. *)
Lemma webseed_allows_unspecified :
  validWebSeedURL (fun _ => Some (replicate 4 x00)) (Some (lit "http", lit "0.0.0.0")) = true /\
  resolveAndValidateHost (fun _ => Some (replicate 4 x00)) (lit "0.0.0.0") None = Ok (lit "0.0.0.0") /\
  reserved (replicate 4 x00) = true.
Proof. vm_compute. split_and!; reflexivity. Qed.

(** *** Concrete instances *)

Definition demo_ws : TorrentFile :=
  mkTorrentFile [] [] (mkInfo (lit "t") 3 [] 0 [mkFile 2 [lit "a"]; mkFile 0 [lit "e"]; mkFile 4 [lit "d"; lit "b"] ] false None)
    [] [] 0 [].
Definition demo_server (url : bytes) (off n : Z) : option (Z * bytes) :=
  let content := if bool_decide (url = lit "http://h/a") then lit "12"
                 else if bool_decide (url = lit "http://h/d/b") then lit "3456" else [] in
  Some (206, slice content off (off + n)).

Lemma demo_has_files : Forall2 (has_file demo_server (lit "http://h/")) (Files (t_Info demo_ws)) [lit "12"; []; lit "3456"].
Proof.
  repeat (apply Forall2_cons; split); [..|apply Forall2_nil_2]; (split; [reflexivity|]); intros off n Ho Hn Hl;
    unfold demo_server; vm_compute (file_url _ _); reflexivity.
Qed.

Lemma Webseed_exact_witness :
  downloadPieceHTTP (fun b => b) demo_server (lit "http://h/") demo_ws (mkPieceWork 0 (lit "123") 3) = Ok (lit "123").
Proof.
  apply (Webseed_exact demo_server (lit "http://h/") (fun b => b) demo_ws (mkPieceWork 0 (lit "123") 3)
    [lit "12"; []; lit "3456"] demo_has_files); vm_compute; (reflexivity || discriminate).
Defined.
