(* ===== verification/DownloadTheorems.v ===== *)
(** * What a download leaves on the disk

    The workers and the collector of [Workers] with data that comes from [DownloadPiece] on a peer's connection ([Client])
    or from a web seed ([Webseed]), and the writes of the collector as writes into a file of the torrent's size. *)

From S2P Require Import Prelude Bitfield Wire PieceQueue PieceQueueFacts Workers Torrent Storage StorageTheorems Client ClientTheorems Webseed WebseedTheorems.
Set Warnings "-clear-no-such-hyp".
Local Open Scope Z_scope.

Section Download.
Context (sha1 : bytes -> bytes) (server : bytes -> Z -> Z -> option (Z * bytes)) (tf : TorrentFile).
Context (have skip : option Bitfield) (pfl seq_ : bool).

Local Abbreviation pl := (PieceLength (t_Info tf)).
Local Abbreviation tl := (TotalSize tf).
Local Abbreviation hashes := (PieceHashes (t_Info tf)).

(** What a worker's fetch returns: a piece from a peer, whatever the peer sends, or from a web seed, whatever it answers. *)
Definition fetched (pw : PieceWork) (data : bytes) : Prop :=
  (exists onRequest sink_ok rates pool c c', Length pw <= len pool /\
     DownloadPiece sha1 onRequest sink_ok rates pool pw c = Ok (data, c')) \/
  (exists base, downloadPieceHTTP sha1 server base tf pw = Ok data).

(** The sizes fit: the pieces cover the torrent's bytes, the last one not beyond them. *)
Record sizes_ok : Prop := {
  so_pl : 0 < pl;
  so_max : len hashes * pl <= MaxInt64;
  so_tl : 0 <= tl;
  so_last : (len hashes - 1) * pl < tl <= len hashes * pl
}.

(** The file after the writes, the last ones at the end. *)
Definition file_after (ws : list (Z * bytes)) : bytes :=
  foldl (fun F w => file_write F (Z.to_nat w.1) w.2) (replicate (Z.to_nat tl) x00) ws.

(** A write of a piece that was wanted, at its place. *)
Definition right_write (w : Z * bytes) : Prop :=
  exists i hash, 0 <= i < len hashes /\ hashes !! Z.to_nat i = Some hash /\ has_opt have i = false /\ has_opt skip i = false /\
    w.1 = i * pl /\ sha1 w.2 = hash /\ len w.2 = Z.min pl (tl - i * pl).

Lemma fetched_sound pw data : 0 <= Length pw -> fetched pw data -> sha1 data = Hash pw /\ len data = Length pw.
Proof.
  intros HL [(onr & so & rates & pool & c & c' & Hp & H)|[base H]]; [|by eapply webseed_verified].
  unfold DownloadPiece in H. destruct (sendInterested c) as [c1|]; [|done].
  apply bind_ok_inv in H as (c2 & _ & H). apply download_loop_sound in H as (-> & ?). split; [done|]. rewrite length_slice by lia. lia.
Qed.

Lemma piece_length_min i : sizes_ok -> 0 <= i < len hashes -> piece_length pl tl i = Z.min pl (tl - i * pl) /\ 0 < tl - i * pl.
Proof.
  intros [H1 H2 Htl H3] Hi. assert (0 <= i * pl) by nia. assert (i * pl <= (len hashes - 1) * pl) by nia.
  unfold piece_length. rewrite (i64_id (i * pl)) by (unfold in_i64, MinInt64 in *; lia).
  rewrite i64_id by (unfold in_i64, MinInt64 in *; lia). destruct (Z.ltb_spec (tl - i * pl) pl); lia.
Qed.

Lemma writes_right W : sizes_ok -> reachable fetched (download_start have skip pl tl hashes pfl seq_) W ->
  pieceLen W = pl -> Forall right_write (writes W).
Proof.
  intros Hs Hr Hpl. apply winv_download in Hr. apply Forall_forall. intros [off data] Hw.
  destruct (w_writes _ _ _ Hr _ _ Hw) as (i & -> & pw & Hpw & Hg).
  assert (Hi : Index pw = i).
  { by apply (inv_index _ (w_queue _ _ _ (winv_start fetched have skip pl tl hashes pfl seq_))). }
  subst i. apply start_lookup, build_pieces_spec in Hpw as (Hh & Hk & Hi & Hl & Hlen). rewrite Z.sub_0_r in Hl.
  pose proof (lookup_lt_Some _ _ _ Hl) as Hlt. assert (Hb : 0 <= Index pw < len hashes) by lia.
  destruct (piece_length_min _ Hs Hb) as [Hm Hpos]. destruct Hs as [H1 H2 Htl H3].
  destruct (fetched_sound pw data) as [Hsha Hdl]; [lia|done|].
  exists (Index pw), (Hash pw). rewrite Hpl. cbn [fst snd]. split; [done|]. split; [done|]. split; [done|]. split; [done|].
  split; [apply i64_id; unfold in_i64, MinInt64; nia|]. split; [done|lia].
Qed.

Lemma pieceLen_start W : reachable fetched (download_start have skip pl tl hashes pfl seq_) W -> pieceLen W = pl.
Proof.
  induction 1 as [|W W' l _ IH _ Hstep]; [done|]. rewrite <- IH.
  destruct l; cbn in Hstep; unfold collector_step in Hstep; repeat case_match; by simplify_eq.
Qed.

(** Right writes put every written piece at its place, and a later one does not touch the others. *)
Lemma file_after_pieces ws : sizes_ok -> Forall right_write ws ->
  len (file_after ws) = tl /\
  forall i hash data, 0 <= i -> hashes !! Z.to_nat i = Some hash -> (i * pl, data) ∈ ws ->
    sha1 (slice (file_after ws) (i * pl) (i * pl + Z.min pl (tl - i * pl))) = hash.
Proof.
  intros Hs. destruct Hs as [H1 H2 Htl H3]. induction ws as [|[off data] ws IH] using rev_ind; intros Hw.
  { split; [unfold file_after; cbn [foldl]; rewrite length_replicate; nia|]. by intros ? ? ? ? ? ?%not_elem_of_nil. }
  apply Forall_app in Hw as [Hw Hx]. apply Forall_singleton in Hx as (j & hj & Hj & Hhj & _ & _ & Hoff & Hsha & Hlen).
  cbn [fst snd] in *. subst off. destruct (IH Hw) as [IH1 IH2]. unfold file_after in *. rewrite foldl_snoc. cbn [fst snd].
  set (F := foldl _ _ ws) in *. assert (Hjp : 0 <= j * pl) by nia.
  assert (Hin : (Z.to_nat (j * pl) + length data <= length F)%nat) by nia.
  rewrite file_write_in by done. split; [by rewrite length_splice|].
  intros i hash d Hi Hh He. pose proof (lookup_lt_Some _ _ _ Hh) as Hlt. unfold slice.
  destruct (decide (i = j)) as [->|Hne].
  - rewrite Hhj in Hh. injection Hh as <-. rewrite <- Hsha. f_equal.
    replace (Z.to_nat (j * pl + Z.min pl (tl - j * pl) - j * pl)) with (length data) by lia. by apply take_drop_splice.
  - apply elem_of_app in He as [He|[= He _]%list_elem_of_singleton]; [|exfalso; nia].
    rewrite splice_keeps_range by (done || nia). by apply (IH2 i hash d).
Qed.

(** C5: Whatever the interleaving of the workers, whatever the peers and web seeds send, the collector only ever writes a piece that
    was wanted, at the piece's offset, with data of the piece's length and hash; and the file these writes leave has at
    the place of every piece counted as received data with the piece's hash. *)
Theorem Writes_are_verified (W : world) :
  sizes_ok -> reachable fetched (download_start have skip pl tl hashes pfl seq_) W ->
  Forall right_write (writes W) /\
  forall i, i ∈ received W -> exists hash, hashes !! Z.to_nat i = Some hash /\
    sha1 (slice (file_after (writes W)) (i * pl) (i * pl + Z.min pl (tl - i * pl))) = hash.
Proof.
  intros Hs Hr. pose proof (pieceLen_start _ Hr) as Hpl. pose proof (writes_right _ Hs Hr Hpl) as Hw. split; [done|].
  intros i Hi. pose proof (winv_download _ _ _ _ _ _ _ _ _ Hr) as HI.
  destruct (w_received _ _ _ HI i Hi) as [d0 Hd0]. destruct (w_written _ _ _ HI i d0 Hd0) as (pw & Hpw & _).
  assert (Hidx : Index pw = i).
  { by apply (inv_index _ (w_queue _ _ _ (winv_start fetched have skip pl tl hashes pfl seq_))). }
  subst i. apply start_lookup, build_pieces_spec in Hpw as (_ & _ & Hi0 & Hl & _). rewrite Z.sub_0_r in Hl.
  exists (Hash pw). split; [done|]. destruct (w_at _ _ _ HI _ Hi) as [d Hd]. rewrite Hpl in Hd.
  pose proof (lookup_lt_Some _ _ _ Hl). rewrite i64_id in Hd by (destruct Hs; unfold in_i64, MinInt64; nia).
  by apply (proj2 (file_after_pieces _ Hs Hw) _ _ d).
Qed.
End Download.

(** ** A concrete download *)

Definition demo_pair : TorrentFile :=
  mkTorrentFile [] [] (mkInfo (lit "a") 1 [[x01]; [x02]] 2 [] false None) [] [] 0 [].

(** A peer that sends the piece. *)
Definition demo_peer (pw : PieceWork) (data : bytes) : Client :=
  new_client [Some (message MsgUnchoke []); Some (NewPieceMessage (Index pw) 0 data)] 5.
Definition demo_answer (pw : PieceWork) (data : bytes) : result dl_error (bytes * Client) :=
  DownloadPiece (fun b => b) None true (fun _ => 0) [x00; x00] pw (demo_peer pw data).
Definition demo_fetched (pw : PieceWork) (data : bytes) : bool :=
  bool_decide (Length pw <= 2) && match demo_answer pw data with Ok (d, _) => bool_decide (d = data) | Err _ => false end.

Lemma demo_fetched_sound pw data : demo_fetched pw data = true -> fetched (fun b => b) (fun _ _ _ => None) demo_pair pw data.
Proof.
  unfold demo_fetched. intros [HL%bool_decide_eq_true H]%andb_true_iff. destruct (demo_answer pw data) as [[d c']|] eqn:E; [|done].
  apply bool_decide_eq_true in H as ->. left. exists None, true, (fun _ => 0), [x00; x00], (demo_peer pw data), c'. split; [exact HL|exact E].
Qed.

Lemma demo_pair_reachable : reachable (fetched (fun b => b) (fun _ _ _ => None) demo_pair)
  (download_start None None 1 2 [[x01]; [x02]] false false) (world_of demo_ok).
Proof.
  eapply (wrun_reachable _ demo_fetched _ _ demo_ok); [apply demo_fetched_sound|apply reach_start| |by vm_compute|by vm_compute].
  cbv [demo_ok demo_fetch demo_deliver app]. repeat (apply Forall_cons; split); try done; try apply Forall_nil; simpl; try split; apply _.
Qed.

Lemma Writes_are_verified_witness :
  writes (world_of demo_ok) = [(0, [x01]); (1, [x02])] /\
  Forall (right_write (fun b => b) demo_pair None None) (writes (world_of demo_ok)) /\
  file_after demo_pair (writes (world_of demo_ok)) = [x01; x02].
Proof.
  split; [by vm_compute|]. split; [|by vm_compute].
  apply (Writes_are_verified (fun b => b) (fun _ _ _ => None) demo_pair None None false false);
    [constructor; vm_compute; try split; congruence|apply demo_pair_reachable].
Defined.
