(* ===== verification/Announcer.v ===== *)
(** * Announces and progress ([engine/announcer.go], [download/progress.go])

    The integer counters of [Progress], and the announcer that reports them: what one
    round of announces sends and returns, and the loop of timers around it.  The
    answers of the trackers, in the order their goroutines record them, and the
    result of the DHT lookup are arguments. *)

From S2P Require Import Prelude Net Torrent Tracker.
Set Warnings "-clear-no-such-hyp".
Local Open Scope Z_scope.

(** ** Progress *)

Record Progress := mkProgress {
  totalPieces : Z; totalBytes : Z; completed : Z; downloaded : Z; activePeers : Z;
  downCounter : Z; upCounter : Z; p_uploaded : Z
}.

Definition NewProgress (pieces bytes_ : Z) : Progress := mkProgress pieces bytes_ 0 0 0 0 0 0.

Definition SetInitial (completedPieces total pieceLength : Z) (p : Progress) : Progress :=
  let estimated := i64 (completedPieces * pieceLength) in
  mkProgress (totalPieces p) (totalBytes p) (wraps 32 completedPieces)
    (if total <? estimated then total else estimated) (activePeers p) (downCounter p) (upCounter p) (p_uploaded p).

(** [Progress.Add]: one more piece. *)
Definition progress_Add (n : Z) (p : Progress) : Progress :=
  mkProgress (totalPieces p) (totalBytes p) (wraps 32 (completed p + 1)) (i64 (downloaded p + n)) (activePeers p)
    (downCounter p) (upCounter p) (p_uploaded p).
Definition AddBytes (n : Z) (p : Progress) : Progress :=
  mkProgress (totalPieces p) (totalBytes p) (completed p) (downloaded p) (activePeers p)
    (i64 (downCounter p + n)) (upCounter p) (p_uploaded p).
Definition AddUploadBytes (n : Z) (p : Progress) : Progress :=
  mkProgress (totalPieces p) (totalBytes p) (completed p) (downloaded p) (activePeers p)
    (downCounter p) (i64 (upCounter p + n)) (i64 (p_uploaded p + n)).
Definition PeerConnect (p : Progress) : Progress :=
  mkProgress (totalPieces p) (totalBytes p) (completed p) (downloaded p) (wraps 32 (activePeers p + 1))
    (downCounter p) (upCounter p) (p_uploaded p).
Definition PeerDisconnect (p : Progress) : Progress :=
  mkProgress (totalPieces p) (totalBytes p) (completed p) (downloaded p) (wraps 32 (activePeers p - 1))
    (downCounter p) (upCounter p) (p_uploaded p).

(** The callbacks of [newAnnouncer] while there is a [Progress]. *)
Definition report_downloaded (p : Progress) : Z := downloaded p.
Definition report_left (p : Progress) : Z := i64 (totalBytes p - downloaded p).

(** ** One round of announces *)

Definition second : Z := 10 ^ 9.
Definition defaultAnnounceInterval : Z := 1800 * second.
Definition defaultDHTInterval : Z := 300 * second.

Record Announcer := mkAnnouncer {
  a_tf : TorrentFile; a_peerID : bytes; a_port : Z; a_numWant : Z; a_dhtInterval : Z; a_sink : bool
}.

Definition NewAnnouncer (tf : TorrentFile) (peerID : bytes) (port numWant dhtInterval : Z) (sink : bool) : Announcer :=
  mkAnnouncer tf peerID port numWant (if dhtInterval <=? 0 then defaultDHTInterval else dhtInterval) sink.

(** The request to tracker [tr]; [Uploaded] is not set. *)
Definition announce_req (a : Announcer) (tr : bytes) (event : AnnounceEvent) (ipv6 : bytes) (p : Progress)
    : AnnounceRequest :=
  mkAnnounceRequest tr (InfoHash (a_tf a)) (a_peerID a) (a_port a) 0 (report_downloaded p) (report_left p)
    event (a_numWant a) ipv6.

Definition is_stopped (ev : AnnounceEvent) : bool := match ev with EventStopped => true | _ => false end.

(** What the successful answers add up to. *)
Definition record_answer (st : list Peer * Z) (r : AnnounceResponse) : list Peer * Z :=
  let '(allPeers, minInterval) := st in
  (allPeers ++ Peers r,
   if 0 <? Interval r then let d := i64 (Interval r * second) in if d <? minInterval then d else minInterval
   else minInterval).

(** The answers before and after the DHT lookup of the round; [sink_taken] is whether the sink took
    the peers before the context ended.  Returns the interval and what was sent. *)
Definition announce (a : Announcer) (event : AnnounceEvent) (before after : list AnnounceResponse) (dht : list Peer)
    (sink_taken : bool) : Z * option (list Peer) :=
  let '(peers, interval) := foldl record_answer ([], defaultAnnounceInterval) before in
  let peers := if negb (is_stopped event) && negb (Private (t_Info (a_tf a))) then peers ++ dht else peers in
  let '(peers, interval) := foldl record_answer (peers, interval) after in
  (interval, if (0 <? len peers) && a_sink a && sink_taken then Some peers else None).

(** ** The loop *)

Inductive tick := TickAnnounce (interval : Z) | TickDHT | TickCancel.
Inductive act := Announced (ev : AnnounceEvent) | AnnounceTimer (d : Z) | DHTTimer (d : Z) | LookedUp.

Definition or_default (interval : Z) : Z := if interval <=? 0 then defaultAnnounceInterval else interval.

(** [runDHTLookup] as far as it is visible here. *)
Definition runDHTLookup (a : Announcer) : list act := if Private (t_Info (a_tf a)) then [] else [LookedUp].

Fixpoint run_loop (a : Announcer) (ticks : list tick) : list act :=
  match ticks with
  | [] => []
  | TickAnnounce i :: ticks => [Announced EventNone; AnnounceTimer (or_default i); DHTTimer (a_dhtInterval a)] ++ run_loop a ticks
  | TickDHT :: ticks => runDHTLookup a ++ [DHTTimer (a_dhtInterval a)] ++ run_loop a ticks
  | TickCancel :: _ => [Announced EventStopped]
  end.

(** [interval] is what the first round returned. *)
Definition Run (a : Announcer) (interval : Z) (ticks : list tick) : list act :=
  [Announced EventStarted; AnnounceTimer (or_default interval); DHTTimer (a_dhtInterval a)] ++ run_loop a ticks.

(** ** Properties *)

Definition events_of (acts : list act) : list AnnounceEvent :=
  omap (fun x => match x with Announced ev => Some ev | _ => None end) acts.

(** A tracker sees one start, then plain announces, then at most one stop, which is the last. *)
Lemma run_events a i ticks : exists k stopped,
  events_of (Run a i ticks) = EventStarted :: replicate k EventNone ++ (if stopped : bool then [EventStopped] else []).
Proof.
  unfold Run, events_of. cbn [app omap list_omap].
  assert (H : exists k stopped, events_of (run_loop a ticks) = replicate k EventNone ++ (if stopped : bool then [EventStopped] else [])).
  { induction ticks as [|[j| |] ticks (k & stopped & IH)]; cbn [run_loop].
    - by exists 0%nat, false.
    - exists (S k), stopped. unfold events_of in *. cbn [app omap list_omap]. by rewrite IH.
    - exists k, stopped. unfold events_of, runDHTLookup in *. destruct (Private _); cbn [app omap list_omap]; by rewrite IH.
    - by exists 0%nat, true. }
  destruct H as (k & stopped & H). exists k, stopped. unfold events_of in H. by rewrite H.
Qed.

Lemma run_timers a i ticks : 0 < a_dhtInterval a ->
  Forall (fun x => match x with AnnounceTimer d | DHTTimer d => 0 < d | _ => True end) (Run a i ticks).
Proof.
  intros Ha. assert (Hd : forall i, 0 < or_default i).
  { intros j. unfold or_default, defaultAnnounceInterval, second. destruct (Z.leb_spec j 0); lia. }
  unfold Run. apply Forall_app. split; [by repeat constructor|].
  induction ticks as [|[j| |] ticks IH]; cbn [run_loop]; [constructor| | |by repeat constructor].
  - apply Forall_app. split; [by repeat constructor|done].
  - apply Forall_app. split; [unfold runDHTLookup; destruct (Private _); by repeat constructor|].
    apply Forall_app. split; [by repeat constructor|done].
Qed.

(** Private torrents (BEP 27) are announced without the DHT. *)
Lemma private_no_dht a event before after dht taken : Private (t_Info (a_tf a)) = true ->
  announce a event before after dht taken = announce a event before after [] taken /\ runDHTLookup a = [].
Proof. intros H. unfold announce, runDHTLookup. rewrite H, andb_false_r. done. Qed.

(** Intervals that fit are honoured: the smallest one, and never more than the default. *)
Lemma record_intervals rs : forall peers m,
  Forall (fun r => Interval r * second <= MaxInt64) rs ->
  let out := foldl record_answer (peers, m) rs in
  out.1 = peers ++ concat (Peers <$> rs) /\ out.2 <= m /\
  Forall (fun r => 0 < Interval r -> out.2 <= Interval r * second) rs /\
  (out.2 = m \/ exists r, r ∈ rs /\ 0 < Interval r /\ out.2 = Interval r * second).
Proof.
  induction rs as [|r rs IH]; intros peers m Hf; cbn zeta.
  { cbn. rewrite app_nil_r. split_and!; [done|lia|constructor|by left]. }
  apply Forall_cons in Hf as [Hr Hf]. cbn [foldl record_answer].
  set (m' := if 0 <? Interval r then _ else m).
  assert (Hm' : m' <= m /\ (0 < Interval r -> m' <= Interval r * second) /\
    (m' = m \/ 0 < Interval r /\ m' = Interval r * second)).
  { unfold m'. destruct (Z.ltb_spec 0 (Interval r)); [|split_and!; [lia|lia|by left] ].
    rewrite i64_id by (unfold in_i64, MinInt64, second in *; lia).
    destruct (Z.ltb_spec (Interval r * second) m); split_and!; lia. }
  clearbody m'. destruct (IH (peers ++ Peers r) m' Hf) as (E & Hle & Hall & Hor). cbn zeta in *.
  split_and!.
  - rewrite E, fmap_cons. cbn [concat]. by rewrite <- (assoc_L (++)).
  - lia.
  - constructor; [|done]. intros Hpos. destruct Hm' as (_ & Hi & _). specialize (Hi Hpos). lia.
  - destruct Hor as [Hor|(r' & Hin & Hp & Ho)].
    + destruct Hm' as (_ & _ & [->|[Hp Hm]]); [by left|]. right. exists r. split_and!; [left|done|congruence].
    + right. exists r'. split_and!; [by right|done|done].
Qed.

(** A tracker's interval is multiplied without a check: a large one wraps to a fraction of a
    second, and the trackers are asked again at that rate. *)
Lemma huge_interval_wraps a : announce a EventNone [mkAnnounceResponse 18446744074 []] [] [] true = (290448384, None).
Proof. unfold announce. destruct (_ && _); by vm_compute. Qed.

(** Uploads are never reported. *)
Lemma uploaded_reported_zero a tr ev ip p n : Uploaded (announce_req a tr ev ip (AddUploadBytes n p)) = 0.
Proof. done. Qed.

(** With the short last piece among those verified at the start the estimate is too high, and after
    the other pieces more than everything is reported as downloaded: what is left is
    negative. *)
Lemma left_negative :
  let p := progress_Add 10 (SetInitial 1 11 10 (NewProgress 2 11)) in
  report_downloaded p = 20 /\ report_left p = -9 /\ completed p = 2.
Proof. by vm_compute. Qed.

(** When a download completes its announcer stops in the background while the seeding one starts:
    the tracker may hear of the stop last, and of a torrent that is being seeded. *)
Inductive interleave {A} : list A -> list A -> list A -> Prop :=
  | inter_nil : interleave [] [] []
  | inter_l x l1 l2 l : interleave l1 l2 l -> interleave (x :: l1) l2 (x :: l)
  | inter_r x l1 l2 l : interleave l1 l2 l -> interleave l1 (x :: l2) (x :: l).

Lemma stop_after_completed a i j : exists heard,
  interleave (events_of (Run a i [TickCancel])) (EventCompleted :: events_of (Run a j [])) heard /\
  last heard = Some EventStopped.
Proof.
  exists [EventStarted; EventCompleted; EventStarted; EventStopped]. split; [|done].
  unfold events_of. cbn. repeat constructor.
Qed.
