(* ===== verification/Text.v ===== *)
(** * The parts of Go's [strings], [unicode] and [fmt] used on text

    Strings are byte lists.  White space is Unicode's: the UTF-8 forms of the
    characters of [unicode.IsSpace] are listed, which is exact for both ends of a
    string because none of them is a suffix of another. *)

From S2P Require Import Prelude Strconv Net.
Set Warnings "-clear-no-such-hyp".
Local Open Scope Z_scope.

Definition starts_with (p s : bytes) : bool := bool_decide (take (length p) s = p).

(** [strings.Contains]. *)
Fixpoint Contains (s sub : bytes) : bool :=
  starts_with sub s || match s with [] => false | _ :: s => Contains s sub end.

(** ** White space *)

Definition space_runes : list bytes :=
  [[x09]; [x0a]; [x0b]; [x0c]; [x0d]; [x20]; [xc2; x85]; [xc2; xa0]; [xe1; x9a; x80]] ++
  ((fun b => [xe2; x80; b]) <$> [x80; x81; x82; x83; x84; x85; x86; x87; x88; x89; x8a; xa8; xa9; xaf]) ++
  [[xe2; x81; x9f]; [xe3; x80; x80]].

(** Drop the longest prefix made of the given runes; every round drops a byte. *)
Fixpoint trim_runes (runes : list bytes) (fuel : nat) (s : bytes) : bytes :=
  match fuel with
  | O => s
  | S fuel => match list_find (fun r => starts_with r s = true) runes with
              | Some (_, r) => trim_runes runes fuel (drop (length r) s)
              | None => s
              end
  end.

Definition TrimLeft (s : bytes) : bytes := trim_runes space_runes (length s) s.
Definition TrimRight (s : bytes) : bytes := rev (trim_runes (@rev byte <$> space_runes) (length s) (rev s)).
Definition TrimSpace (s : bytes) : bytes := TrimRight (TrimLeft s).

(** ** [fmt.Sscanf(s, "%d", &port)] into a [uint16]

    Spaces are skipped, but a newline among them is an error; digits are read as
    long as there are any, what follows is ignored. *)

Fixpoint take_digits (s : bytes) : bytes :=
  match s with [] => [] | b :: s => if is_digit b then b :: take_digits s else [] end.

Definition no_newline (runes : list bytes) : list bytes := filter (fun r => r <> [x0a]) runes.

Definition Sscanf_uint16 (s : bytes) : option Z :=
  let ds := take_digits (trim_runes (no_newline space_runes) (length s) s) in
  if bool_decide (ds = []) then None
  else if 65535 <? digits_value ds then None else Some (digits_value ds).

(** ** Facts *)

Lemma starts_with_nil s : starts_with [] s = true.
Proof. by apply bool_decide_eq_true. Qed.

Lemma starts_with_app p s : starts_with p (p ++ s) = true.
Proof. apply bool_decide_eq_true. by rewrite take_app_length. Qed.

Lemma starts_with_inv p s : starts_with p s = true -> exists r, s = p ++ r.
Proof. intros H%bool_decide_eq_true. exists (drop (length p) s). by rewrite <- H at 1; rewrite take_drop. Qed.

Lemma Contains_spec s sub : Contains s sub = true <-> exists a b, s = a ++ sub ++ b.
Proof.
  induction s as [|c s IH]; cbn [Contains].
  - rewrite orb_false_r. split.
    + intros [r Hr]%starts_with_inv. by exists [], r.
    + intros (a & b & H). symmetry in H. apply app_eq_nil in H as [-> H].
      apply app_eq_nil in H as [-> ->]. apply starts_with_nil.
  - rewrite orb_true_iff, IH. split.
    + intros [[r Hr]%starts_with_inv|(a & b & ->)]; [by exists [], r|by exists (c :: a), b].
    + intros ([|x a] & b & H); cbn in H.
      * left. rewrite H. apply starts_with_app.
      * right. injection H as -> ->. by exists a, b.
Qed.

Lemma trim_runes_fixed runes fuel s :
  Forall (fun r => starts_with r s = false) runes -> trim_runes runes fuel s = s.
Proof.
  destruct fuel; [done|]. intros H. cbn [trim_runes].
  destruct (list_find _ _) as [[i r]|] eqn:E; [|done].
  apply list_find_Some in E as (Hi & Hr & _). rewrite Forall_forall in H.
  apply list_elem_of_lookup_2, H in Hi. congruence.
Qed.
