(* ===== verification/Resolve.v ===== *)
(** * Finding peers and metadata ([engine/session.go], [engine/peerutil.go])

    [fetchMetadataFromPeer] over a connection, one round of [fetchMetadataAttempt]
    as an interleaving of its goroutines, [resolveMetadata] and [findPeers] with
    their retries.  What the network answers, the order in which answers arrive and
    the moments at which the context ends are arguments.  [net.SplitHostPort] and
    [net.ParseIP] are parameters. *)

From S2P Require Import Prelude Strconv Text Net Bencode Wire Torrent Extension Tracker Magnet Engine.
Set Warnings "-clear-no-such-hyp".
Local Open Scope Z_scope.

(** ** Addresses *)

Section Addresses.
Context (SplitHostPort : bytes -> option (bytes * bytes)) (ParseIP : bytes -> option IP).

Definition parse_addr (addr : bytes) : option Peer :=
  '(host, portStr) ← SplitHostPort addr; ip ← ParseIP host; port ← Sscanf_uint16 portStr; Some (mkPeer ip port).

Definition parsePeerAddrs (addrs : list bytes) : list Peer := omap parse_addr addrs.

(** [get] is [dhtGetPeersFn] or the shared DHT's [GetPeers], [None] when there is neither; it fails with [None]. *)
Definition dhtLookup (get : option (bytes -> option (list bytes))) (infoHash : bytes) : list Peer :=
  match get with
  | None => []
  | Some get => match get infoHash with Some addrs => parsePeerAddrs addrs | None => [] end
  end.
End Addresses.

(** ** One peer *)

Inductive fetch_error :=
  | FetchCancelled | DialFailed | HandshakeWrite | BadHandshake (e : handshake_error) | InfoHashMismatch
  | NoExtensions | ExtFailed (e : ext_error) | NoMetadata | MetadataDecode (e : decode_error)
  | MetadataNotDict | MetadataEncode (e : encode_error) | MetadataParse (e : parse_error).

Definition isDialError (msg : bytes) : bool :=
  Contains msg (lit "connection refused") || Contains msg (lit "i/o timeout") ||
  Contains msg (lit "no route to host") || Contains msg (lit "network is unreachable") ||
  Contains msg (lit "context deadline exceeded").

Section Fetch.
Context (sha1 sha256 : bytes -> bytes).

Definition ut_metadata_hs : ExtHandshake := mkExtHandshake {[ lit "ut_metadata" := 1 ]} 0 (lit "stor/0.1.0").

(** The info dictionary of the metadata, wrapped and parsed. *)
Definition parse_metadata (metadata : bytes) : result fetch_error TorrentFile :=
  decoded ← map_err MetadataDecode (Decode metadata);
  infoDict ← or_err (as_map (Some decoded)) MetadataNotDict;
  fullData ← map_err MetadataEncode (Encode (AMap {[ lit "info" := AMap infoDict ]}));
  map_err MetadataParse (Parse sha1 sha256 fullData).

(** [utp] and [tcp] are what the two dials give. *)
Definition fetchMetadataFromPeer (cancelled enableUTP : bool) (utp tcp : option conn) (infoHash peerID : bytes)
    : result fetch_error TorrentFile :=
  if cancelled then Err FetchCancelled
  else
    c ← or_err (if enableUTP then match utp with Some c => Some c | None => tcp end else tcp) DialFailed;
    c ← map_err (fun _ => HandshakeWrite) (conn_write (WriteHandshake (mkHandshake infoHash peerID true false)) c);
    '(resp, r) ← map_err BadHandshake (ReadHandshake (rx c));
    if negb (bool_decide (Wire.InfoHash resp = infoHash)) then Err InfoHashMismatch
    else if negb (Extensions resp) then Err NoExtensions
    else
      '(extConn, peerHS) ← map_err ExtFailed
         (NegotiateExtension (mkConn r (tx c) (room c)) (lit "ut_metadata") 1 ut_metadata_hs);
      if MetadataSize peerHS <=? 0 then Err NoMetadata
      else
        '(metadata, _) ← map_err ExtFailed (FetchMetadata sha1 extConn (MetadataSize peerHS) infoHash);
        parse_metadata metadata.
End Fetch.

(** ** Retries

    The loops of [findPeers] and of [resolveMetadata]: a round gives its value, whether the context
    had ended when the round returned nothing, and whether it ended during the wait. *)

Definition metadataRetryInitial : Z := 3 * 10 ^ 9.
Definition metadataRetryMax : Z := 300 * 10 ^ 9.
Definition peerSearchInitial : Z := 3 * 10 ^ 9.
Definition peerSearchMax : Z := 300 * 10 ^ 9.

Record round (A : Type) := mkRound { found : option A; ended : bool; ended_waiting : bool }.
Arguments mkRound {A} _ _ _.
Arguments found {A} _.
Arguments ended {A} _.
Arguments ended_waiting {A} _.

(** [Searching]: the rounds given are over and the loop goes on. *)
Inductive search (A : Type) := Found (a : A) | Cancelled | Searching (next : Z).
Arguments Found {A} _.
Arguments Cancelled {A}.
Arguments Searching {A} _.

Definition next_backoff (max backoff : Z) : Z :=
  if backoff <? max then let b := i64 (backoff * 2) in if max <? b then max else b else backoff.

(** The outcome and the published [AttemptCount] and [NextRetryIn]. *)
Fixpoint retry {A} (max : Z) (rounds : list (round A)) (attempt backoff : Z) : search A * list (Z * Z) :=
  match rounds with
  | [] => (Searching backoff, [])
  | r :: rounds =>
      match found r with
      | Some a => (Found a, [])
      | None =>
          if ended r then (Cancelled, [])
          else
            let ev := (attempt, Z.quot backoff (10 ^ 9)) in
            if ended_waiting r then (Cancelled, [ev])
            else let '(o, evs) := retry max rounds (attempt + 1) (next_backoff max backoff) in (o, ev :: evs)
      end
  end.

(** ** [findPeers] *)

Inductive source := FromTracker (url : bytes) | FromDHT.

Section Search.
Context (SplitHostPort : bytes -> option (bytes * bytes)) (ParseIP : bytes -> option IP).
Context (announce : AnnounceRequest -> option AnnounceResponse) (dht : option (bytes -> option (list bytes))).
Context (peerID ipv6 : bytes) (port numWant : Z).

(** The goroutines [findPeersAttempt] starts. *)
Definition search_sources (tf : TorrentFile) : list source :=
  (FromTracker <$> TrackerURLs tf) ++ (if Private (t_Info tf) then [] else [FromDHT]).

(** What one of them appends. *)
Definition source_peers (tf : TorrentFile) (s : source) : list Peer :=
  match s with
  | FromTracker tr =>
      match announce (mkAnnounceRequest tr (Torrent.InfoHash tf) peerID port 0 0 (TotalSize tf) EventStarted numWant ipv6) with
      | Some resp => Peers resp
      | None => []
      end
  | FromDHT => dhtLookup SplitHostPort ParseIP dht (Torrent.InfoHash tf)
  end.

(** [arrived]: the goroutines, by number, that appended before the round was over, in that order. *)
Definition findPeersAttempt (tf : TorrentFile) (arrived : list nat) : list Peer :=
  FilterPrivatePeers (concat (source_peers tf <$> omap (fun i => search_sources tf !! i) arrived)).

(** A round of the search: who arrived, and the two tests of the context. *)
Definition search_round (tf : TorrentFile) (r : list nat * bool * bool) : round (list Peer) :=
  let '(arrived, e, w) := r in
  let peers := findPeersAttempt tf arrived in
  mkRound (if 0 <? len peers then Some peers else None) e w.

(** [None] is the error of a session without metainfo. *)
Definition findPeers (tf : option TorrentFile) (rounds : list (list nat * bool * bool))
    : option (search (list Peer) * list (Z * Z)) :=
  tf ← tf; Some (retry peerSearchMax (search_round tf <$> rounds) 1 peerSearchInitial).
End Search.

(** ** [resolveMetadata] *)

Inductive resolve_error := StoredTorrent (e : parse_error) | NotMagnet (e : magnet_error) | EncodeTorrent (e : encode_error).

(** Whence the metainfo came, with what is written to the session: [TorrentData] and [Name] unless they
    stay as they are, and the peers to start with. *)
Record resolved := mkResolved { r_tf : TorrentFile; r_data : option bytes; r_name : option bytes; r_peers : list Peer }.

Inductive resolution :=
  | Resolved (r : resolved) | ResolveError (e : resolve_error) | ResolveCancelled | Resolving (next : Z).

Section Resolve.
Context (sha1 sha256 : bytes -> bytes).

(** The rounds' peers are collected also from rounds that find nothing. *)
Definition round_peers (rounds : list (option TorrentFile * list Peer * bool * bool)) : list Peer :=
  concat ((fun r => r.1.1.2) <$> rounds).

(** The rounds up to the one that finds the metadata. *)
Fixpoint until_found (rounds : list (option TorrentFile * list Peer * bool * bool))
    : list (option TorrentFile * list Peer * bool * bool) :=
  match rounds with
  | [] => []
  | r :: rounds => match r.1.1.1 with Some _ => [r] | None => r :: until_found rounds end
  end.

Definition metadata_round (r : option TorrentFile * list Peer * bool * bool) : round TorrentFile :=
  let '(tf, _, e, w) := r in mkRound tf e w.

(** [stored] is the record's [TorrentData], [file] the content of the file the source names, [u] the parsed
    source; the second component tells whether the state became [metadata]. *)
Definition resolveMetadata (stored : bytes) (file : option bytes) (u : option URL)
    (rounds : list (option TorrentFile * list Peer * bool * bool)) : resolution * bool * list (Z * Z) :=
  if 0 <? len stored then
    (match Parse sha1 sha256 stored with
     | Ok tf => Resolved (mkResolved tf None None [])
     | Err e => ResolveError (StoredTorrent e)
     end, false, [])
  else
    match (data ← file; match Parse sha1 sha256 data with Ok tf => Some (tf, data) | Err _ => None end) with
    | Some (tf, data) => (Resolved (mkResolved tf (Some data) (Some (Name (t_Info tf))) []), false, [])
    | None =>
        match magnet_Parse u with
        | Err e => (ResolveError (NotMagnet e), true, [])
        | Ok m =>
            let '(o, evs) := retry metadataRetryMax (metadata_round <$> rounds) 1 metadataRetryInitial in
            (match o with
             | Cancelled => ResolveCancelled
             | Searching b => Resolving b
             | Found tf =>
                 let tf := restore_announce (Trackers m) tf in
                 match Encode (AMap (stored_dict tf)) with
                 | Err e => ResolveError (EncodeTorrent e)
                 | Ok data => Resolved (mkResolved tf (Some data) (Some (Name (t_Info tf)))
                                          (round_peers (until_found rounds)))
                 end
             end, true, evs)
        end
    end.
End Resolve.
