(* ===== verification/ResolveTheorems.v ===== *)
(** * Properties of the search for peers and metadata *)

From S2P Require Import Prelude Strconv Text Net Bencode BencodeFacts Wire Torrent Extension ExtensionTheorems.
From S2P Require Import Tracker Magnet Engine Resolve.
Set Warnings "-clear-no-such-hyp".
Local Open Scope Z_scope.

(** ** Decoded values inside other values *)

Lemma fits_shallower v : forall d d', fits d v -> d' <= d -> fits d' v.
Proof.
  induction v as [s|b|n|n|l IH|m IH|] using any_nested_ind; intros d d' Hf Hd; inversion Hf; subst;
    constructor; try lia; try done; intros; eapply IH; eauto; lia.
Qed.

Lemma items_lookup (m : gmap bytes any) k x : m !! k = Some x -> 1 + items x <= items (AMap m).
Proof.
  intros Hk. pose proof (items_nonneg (AMap (delete k m))) as H0. cbn [items] in *.
  rewrite (map_fold_delete_L (fun _ x acc => 1 + items x + acc) 0 k x m); [lia| |done]. intros. lia.
Qed.

Lemma items_singleton k x : items (AMap {[k := x]}) = 1 + items x.
Proof. cbn [items]. rewrite map_fold_singleton. lia. Qed.

Lemma fits_singleton k x : fits 1 x -> len k <= MaxStringLength -> fits 0 (AMap {[k := x]}).
Proof.
  intros Hx Hk. constructor; [done|by rewrite map_size_singleton|..];
    intros k' x' [<- <-]%lookup_singleton_Some; done.
Qed.

(** ** Decoding at a smaller depth *)

Lemma decode_easier fuel :
  (forall data depth total v r t depth' total', decodeValue fuel data depth total = Ok (v, r, t) ->
    depth' <= depth -> total' <= total -> decodeValue fuel data depth' total' = Ok (v, r, t - total + total')) /\
  (forall data l depth total v r t depth' total', decodeList fuel data l depth total = Ok (v, r, t) ->
    depth' <= depth -> total' <= total -> decodeList fuel data l depth' total' = Ok (v, r, t - total + total')) /\
  (forall data d k depth total v r t depth' total', decodeDict fuel data d k depth total = Ok (v, r, t) ->
    depth' <= depth -> total' <= total -> decodeDict fuel data d k depth' total' = Ok (v, r, t - total + total')).
Proof.
  induction fuel as [|fuel (IHv & IHl & IHd)]; [done|].
  assert (same : forall a b : Z, a - b + b = a) by (intros; lia).
  split_and!.
  - intros [|c rest] depth total v r t depth' total' H Hd Ht; [done|]. cbn [decodeValue] in *.
    destruct (Z.ltb_spec MaxDecodeDepth depth); [done|]. rewrite (proj2 (Z.ltb_ge _ _)) by lia.
    repeat case_match; eauto; try done; apply bind_ok_inv in H as ([x r'] & -> & H); injection H as <- <- <-;
      cbn [mbind result_bind]; do 2 f_equal; lia.
  - intros [|c rest] l depth total v r t depth' total' H Hd Ht; [done|]. cbn [decodeList] in *.
    destruct (Byte.eqb c x65); [injection H as <- <- <-; do 2 f_equal; lia|].
    destruct (_ <=? _); [done|]. destruct (Z.ltb_spec MaxTotalItems (total + 1)); [done|].
    rewrite (proj2 (Z.ltb_ge _ _)) by lia. apply bind_ok_inv in H as ([[x r'] t'] & Hx & H).
    rewrite (IHv _ _ _ _ _ _ (depth' + 1) (total' + 1) Hx) by lia. cbn [mbind result_bind].
    pose proof (proj1 (decode_sound fuel) _ _ _ _ Hx) as (_ & Hle & _).
    rewrite (IHl _ _ _ _ _ _ _ depth' (t' - (total + 1) + (total' + 1)) H) by lia. do 2 f_equal. lia.
  - intros [|c rest] d k depth total v r t depth' total' H Hd Ht; [done|]. cbn [decodeDict] in *.
    destruct (Byte.eqb c x65); [injection H as <- <- <-; do 2 f_equal; lia|].
    destruct (_ <=? _); [done|]. destruct (Z.ltb_spec MaxTotalItems (total + 1)); [done|].
    rewrite (proj2 (Z.ltb_ge _ _)) by lia. destruct (negb _); [done|].
    apply bind_ok_inv in H as ([key r1] & -> & H). cbn [mbind result_bind].
    destruct (_ && _); [done|]. case_bool_decide; [done|]. apply bind_ok_inv in H as ([[x r'] t'] & Hx & H).
    rewrite (IHv _ _ _ _ _ _ (depth' + 1) (total' + 1) Hx) by lia. cbn [mbind result_bind].
    rewrite (IHd _ _ _ _ _ _ _ _ depth' (t' - (total + 1) + (total' + 1)) H) by lia. do 2 f_equal. lia.
Qed.

(** What comes out of a wrapped dictionary is that dictionary, and it is within the limits one level down. *)
Lemma Decode_wrapped (d : gmap bytes any) v :
  fits 0 (AMap d) -> items (AMap d) <= MaxTotalItems -> Decode (enc (AMap {[ lit "info" := AMap d ]})) = Ok v ->
  fits 1 (AMap d) /\ items (AMap d) < MaxTotalItems.
Proof.
  intros Hf Hi H. assert (E : enc (AMap {[ lit "info" := AMap d ]}) = lit "d4:info" ++ enc (AMap d) ++ [x65]).
  { rewrite enc_map. unfold sorted_pairs, sorted_keys. rewrite dom_singleton_L, elements_singleton.
    change (sort_strings [lit "info"]) with [lit "info"]. cbn [omap list_omap]. rewrite lookup_singleton_eq.
    cbn [fmap option_fmap option_map list_fmap concat]. unfold enc_pair. cbn [fst snd].
    rewrite app_nil_r, <- !(assoc_L (++)). reflexivity. }
  unfold Decode in H. apply bind_ok_inv in H as ([[x r] t] & H & _). rewrite E in H.
  change (lit "d4:info") with [x64; x34; x3a; x69; x6e; x66; x6f] in H.
  set (data := enc (AMap d) ++ [x65]) in *.
  assert (Hfuel : exists f, decode_fuel ([x64; x34; x3a; x69; x6e; x66; x6f] ++ data) = S (S f) /\ (2 * length data + 1 <= f)%nat).
  { exists (2 * length data + 13)%nat. unfold decode_fuel. rewrite length_app. cbn [length]. lia. }
  destruct Hfuel as (f & Ef & Hfuel). rewrite Ef in H. cbn [app decodeValue] in H.
  change (MaxDecodeDepth <? 0) with false in H. change (Byte.eqb x64 x69) with false in H.
  change (Byte.eqb x64 x6c) with false in H. change (Byte.eqb x64 x64) with true in H. cbn [decodeDict] in H.
  change (Byte.eqb x34 x65) with false in H. change (MaxCollectionSize <=? Z.of_nat (base.size (∅ : gmap bytes any))) with false in H.
  change (MaxTotalItems <? 0 + 1) with false in H. change (negb (is_digit x34)) with false in H.
  assert (Hs : decodeString ([x34; x3a; x69; x6e; x66; x6f] ++ data) = Ok (lit "info", data)).
  { apply (decodeString_enc (lit "info") data). by vm_compute. }
  cbn [app] in Hs. rewrite Hs in H. cbn [mbind result_bind] in H.
  change ((0 <? Z.of_nat (base.size (∅ : gmap bytes any))) && bytes_ltb (lit "info") []) with false in H.
  rewrite bool_decide_eq_false_2 in H by (subst data; rewrite enc_map; done).
  apply bind_ok_inv in H as ([[y r1] t1] & Hy & H).
  pose proof (proj1 (decode_easier f) _ _ _ _ _ _ 0 0 Hy) as Hy0.
  subst data. rewrite (enc_reads_back (AMap d) f 0 0 [x65] Hf Hi Hfuel) in Hy0.
  specialize (Hy0 ltac:(lia) ltac:(lia)). injection Hy0 as <- _ _.
  pose proof (proj1 (decode_sound f) _ _ _ _ Hy) as (Hf1 & Hle & Hmax & _). split; [done|].
  specialize (Hmax ltac:(done)). lia.
Qed.

(** ** The metadata of a magnet link *)

Section Metadata.
Context (sha1 sha256 : bytes -> bytes).

(** The parser on a wrapped info dictionary. *)
Lemma Parse_wrapped (d : gmap bytes any) :
  fits 1 (AMap d) -> items (AMap d) < MaxTotalItems ->
  Parse sha1 sha256 (enc (AMap {[ lit "info" := AMap d ]})) =
  let v2 := match as_int64 (d !! lit "meta version") with Some mv => mv =? 2 | None => false end in
  match parseInfo d with
  | Ok info => Ok (mkTorrentFile [] [] info (sha1 (enc (AMap d)))
                     (if v2 then sha256 (enc (AMap d)) else replicate 32 x00) (if v2 then 2 else 0) [])
  | Err e => Err (if v2 then V2Only else e)
  end.
Proof.
  intros Hf Hi. unfold Parse. rewrite <- (app_nil_r (enc _)), Decode_enc;
    [|apply fits_singleton; [done|by vm_compute]|rewrite items_singleton; lia].
  cbn [map_err mbind result_bind as_map or_err]. map_lookup. cbn [mbind result_bind as_map or_err].
  rewrite Encode_enc by (by eapply fits_supported). reflexivity.
Qed.

(** The info dictionary of an accepted metainfo file. *)
Lemma Parse_info data tf : Parse sha1 sha256 data = Ok tf ->
  exists d : gmap bytes any, fits 1 (AMap d) /\ items (AMap d) < MaxTotalItems /\ parseInfo d = Ok (t_Info tf) /\
    Torrent.InfoHash tf = sha1 (enc (AMap d)) /\
    let v2 := match as_int64 (d !! lit "meta version") with Some mv => mv =? 2 | None => false end in
    InfoHashV2 tf = (if v2 then sha256 (enc (AMap d)) else replicate 32 x00) /\ MetaVersion tf = if v2 then 2 else 0.
Proof.
  intros H. unfold Parse in H. inv_ok.
  destruct a as [| | | | |root|]; simplify_eq/=. destruct a2 as [| | | | |d|]; simplify_eq/=.
  destruct (Decode_fits _ _ E) as [Hf Hi].
  inversion Hf as [| | |? ? ? ? ? Hx]; subst. pose proof (items_lookup _ _ _ E2). specialize (Hx _ _ E2).
  rewrite (Encode_enc _ (fits_supported _ _ Hx)) in E4. injection E4 as <-.
  destruct (parseInfo a3) as [info|] eqn:Ei; [|done]. inv_ok. subst tf.
  exists a3. split_and!; [done|cbn [items] in *; lia|done..].
Qed.

(** The metadata of a torrent, wrapped and parsed, is the torrent without its trackers and web seeds. *)
Lemma parse_metadata_info data tf : Parse sha1 sha256 data = Ok tf ->
  exists metadata, sha1 metadata = Torrent.InfoHash tf /\
    parse_metadata sha1 sha256 metadata =
      Ok (mkTorrentFile [] [] (t_Info tf) (Torrent.InfoHash tf) (InfoHashV2 tf) (MetaVersion tf) []).
Proof.
  intros (d & Hf & Hi & Hp & Hh & Hv2 & Hmv)%Parse_info. exists (enc (AMap d)). split; [done|].
  unfold parse_metadata. rewrite <- (app_nil_r (enc _)), Decode_enc
    by (lia || (eapply fits_shallower; [exact Hf|lia])).
  cbn [map_err mbind result_bind as_map or_err].
  rewrite Encode_enc by (eapply fits_supported; apply (fits_singleton _ _ Hf); by vm_compute).
  cbn [map_err mbind result_bind]. rewrite Parse_wrapped by done. cbn zeta. rewrite Hp. cbn [map_err].
  by rewrite Hh, Hv2, Hmv.
Qed.

(** Whatever a peer sends, metainfo that is returned comes from data with the requested hash; its info hash
    is that of the canonical form of the data. *)
Lemma fetchMetadata_sound cancelled enableUTP utp tcp infoHash peerID tf :
  fetchMetadataFromPeer sha1 sha256 cancelled enableUTP utp tcp infoHash peerID = Ok tf ->
  cancelled = false /\ exists metadata (d : gmap bytes any),
    sha1 metadata = infoHash /\ Decode metadata = Ok (AMap d) /\ parseInfo d = Ok (t_Info tf) /\
    Torrent.InfoHash tf = sha1 (enc (AMap d)) /\ Announce tf = [] /\ AnnounceList tf = [].
Proof.
  unfold fetchMetadataFromPeer. destruct cancelled; [done|]. intros H. inv_ok.
  destruct a1 as [resp r]. destruct (negb _); [done|]. destruct (negb _); [done|]. inv_ok.
  destruct a1 as [ec hs]. destruct (_ <=? 0); [done|]. inv_ok. destruct a1 as [md ec'].
  apply FetchMetadata_sound in E3 as (_ & _ & Hsha). split; [done|]. exists md.
  unfold parse_metadata in H. inv_ok. clear - E3 E4 E5 H Hsha.
  destruct a1 as [| | | | |d|]; cbn [as_map] in E4; try discriminate E4. injection E4 as ->. exists a2.
  destruct (Decode_fits _ _ E3) as [Hf0 Hi].
  rewrite Encode_enc in E5 by (constructor; intros k x [_ <-]%lookup_singleton_Some; by eapply fits_supported).
  assert (Ea : a3 = enc (AMap {[ lit "info" := AMap a2 ]})) by congruence. subst a3.
  assert (Hd : fits 1 (AMap a2) /\ items (AMap a2) < MaxTotalItems).
  { unfold Parse in H. apply bind_ok_inv in H as (x & Hx & _). apply map_err_ok_iff in Hx.
    exact (Decode_wrapped a2 x Hf0 Hi Hx). }
  rewrite (Parse_wrapped a2) in H by apply Hd. cbn zeta in H. clear E5.
  destruct (parseInfo a2) as [info|] eqn:Ei; [|discriminate H]. apply (f_equal (fun r => match r with Ok x => x | Err _ => tf end)) in H.
  cbn beta match in H. subst tf. cbn [t_Info Torrent.InfoHash Announce AnnounceList].
  split_and!; [exact Hsha|exact E3|reflexivity..].
Qed.

(** From a peer that has the torrent and keeps to the protocol the metainfo is fetched, whatever else the
    peer says in between. *)
Lemma fetchMetadata_complete data tf metadata pid fast noise hsdata hs rid bs r t n peerID :
  Parse sha1 sha256 data = Ok tf -> sha1 metadata = Torrent.InfoHash tf ->
  parse_metadata sha1 sha256 metadata =
    Ok (mkTorrentFile [] [] (t_Info tf) (Torrent.InfoHash tf) (InfoHashV2 tf) (MetaVersion tf) []) ->
  0 < len metadata <= MaxMetadataSize ->
  length (Torrent.InfoHash tf) = 20%nat -> length pid = 20%nat ->
  Forall (skipped_frame ExtHandshakeID) noise -> small_frame (Some (NewExtendedMessage ExtHandshakeID hsdata)) ->
  DecodeExtHandshake hsdata = Ok hs -> M hs !! lit "ut_metadata" = Some rid -> rid <> 0 ->
  MetadataSize hs = len metadata ->
  metadata = concat (bs.*2) -> len bs = (len metadata + MetadataBlockSize - 1) / MetadataBlockSize ->
  honest 1 0 (len metadata) bs -> (length bs + 2 <= n)%nat ->
  fetchMetadataFromPeer sha1 sha256 false false None
    (Some (mkConn (WriteHandshake (mkHandshake (Torrent.InfoHash tf) pid true fast) ++
                   concat (write_frame <$> noise) ++ Write (NewExtendedMessage ExtHandshakeID hsdata) ++
                   answers 1 0 (len metadata) bs ++ r) t n))
    (Torrent.InfoHash tf) peerID =
  Ok (mkTorrentFile [] [] (t_Info tf) (Torrent.InfoHash tf) (InfoHashV2 tf) (MetaVersion tf) []).
Proof.
  intros Hp Hsha Hpm Hlen Hih Hpid Hnoise Hsmall Hdec Hm Hrid Hsz Hmd Hbs Hh Hn.
  destruct n as [|[|n]]; [lia|lia|]. unfold fetchMetadataFromPeer. cbn [or_err mbind result_bind].
  unfold conn_write at 1. cbn [rx tx room map_err mbind result_bind].
  rewrite ReadHandshake_Write by done. cbn [map_err mbind result_bind Wire.InfoHash Extensions].
  rewrite bool_decide_eq_true_2 by done. cbn [negb].
  unfold NegotiateExtension.
  assert (Henc : exists p, EncodeExtHandshake ut_metadata_hs = Ok p) by (eexists; by vm_compute).
  destruct Henc as [p Hpl]. rewrite Hpl. cbn [map_err mbind result_bind conn_write room rx tx].
  rewrite read_ext_skip; [|done|unfold ExtHandshakeID; lia|done|].
  2:{ unfold read_fuel. cbn [rx]. rewrite length_app. pose proof (frames_length noise). lia. }
  cbn [mbind result_bind]. rewrite Hdec. cbn [mbind result_bind]. rewrite Hm.
  rewrite (proj2 (Z.eqb_neq rid 0)) by done. cbn [map_err mbind result_bind].
  rewrite Hsz, (proj2 (Z.leb_gt _ _)) by lia.
  destruct (FetchMetadata_complete sha1 metadata bs 1 (wrapu 8 rid) r
    ((t ++ WriteHandshake (mkHandshake (Torrent.InfoHash tf) peerID true false)) ++
     Write (NewExtendedMessage ExtHandshakeID p)) n) as [c' Hc]; [lia|lia|done|done|done|lia|].
  rewrite Hsha in Hc. rewrite Hc. cbn [map_err mbind result_bind]. done.
Qed.
End Metadata.

(** ** Retries *)

(** The wait after the attempt with number [k + 1], in nanoseconds. *)
Definition backoff (k : nat) : Z := Z.min (3 * 10 ^ 9 * 2 ^ Z.of_nat k) (300 * 10 ^ 9).

Lemma next_backoff_S k : next_backoff (300 * 10 ^ 9) (backoff k) = backoff (S k).
Proof.
  unfold next_backoff, backoff. rewrite Nat2Z.inj_succ, Z.pow_succ_r by lia.
  pose proof (Z.pow_pos_nonneg 2 (Z.of_nat k)). destruct (Z.ltb_spec (Z.min (3 * 10 ^ 9 * 2 ^ Z.of_nat k) (300 * 10 ^ 9)) (300 * 10 ^ 9)).
  - rewrite i64_id by (unfold in_i64, MinInt64, MaxInt64; lia). destruct (Z.ltb_spec (300 * 10 ^ 9) (Z.min (3 * 10 ^ 9 * 2 ^ Z.of_nat k) (300 * 10 ^ 9) * 2)); lia.
  - lia.
Qed.

Lemma backoff_secs k : Z.quot (backoff k) (10 ^ 9) = Z.min (3 * 2 ^ Z.of_nat k) 300.
Proof.
  pose proof (Z.pow_pos_nonneg 2 (Z.of_nat k)). rewrite Z.quot_div_nonneg by (unfold backoff; lia). unfold backoff.
  replace (Z.min (3 * 10 ^ 9 * 2 ^ Z.of_nat k) (300 * 10 ^ 9)) with (Z.min (3 * 2 ^ Z.of_nat k) 300 * 10 ^ 9) by lia.
  apply Z.div_mul. lia.
Qed.

(** A round that leaves the loop going. *)
Definition goes_on {A} (r : round A) : Prop := found r = None /\ ended r = false /\ ended_waiting r = false.

Lemma retry_events {A} (rounds : list (round A)) : forall k i a w,
  (retry (300 * 10 ^ 9) rounds (Z.of_nat k + 1) (backoff k)).2 !! i = Some (a, w) ->
  a = Z.of_nat (k + i) + 1 /\ w = Z.min (3 * 2 ^ Z.of_nat (k + i)) 300.
Proof.
  induction rounds as [|r rounds IH]; intros k i a w; [done|]. cbn [retry].
  destruct (found r); [done|]. destruct (ended r); [done|]. rewrite backoff_secs.
  assert (Hhd : (Z.of_nat k + 1, Z.min (3 * 2 ^ Z.of_nat k) 300) = (a, w) -> i = 0%nat ->
    a = Z.of_nat (k + i) + 1 /\ w = Z.min (3 * 2 ^ Z.of_nat (k + i)) 300).
  { intros [= <- <-] ->. by rewrite Nat.add_0_r. }
  destruct (ended_waiting r); [destruct i; cbn; intros H; [apply Hhd; congruence|done]|].
  rewrite next_backoff_S. specialize (IH (S k)). replace (Z.of_nat (S k) + 1) with (Z.of_nat k + 1 + 1) in IH by lia.
  destruct (retry _ rounds _ _) as [o evs]. cbn [snd] in *. destruct i as [|i]; cbn; intros H; [apply Hhd; congruence|].
  apply IH in H. by rewrite <- Nat.add_succ_comm.
Qed.

(** The loop stops with a value exactly when a round finds one and all before it go on. *)
Lemma retry_found {A} max (rounds : list (round A)) a : forall attempt b,
  (retry max rounds attempt b).1 = Found a <->
  exists before r after, rounds = before ++ r :: after /\ Forall goes_on before /\ found r = Some a.
Proof.
  induction rounds as [|r rounds IH]; intros attempt b; cbn [retry].
  { split; [done|]. intros ([|] & ? & ? & ? & _); done. }
  destruct (found r) as [x|] eqn:Ef.
  { cbn. split.
    - intros [= ->]. by exists [], r, rounds.
    - intros ([|r' before] & r2 & after & [= <- ->] & Hb & Hr); [congruence|].
      apply Forall_cons in Hb as [(? & _) _]. congruence. }
  assert (Hno : ended r = true \/ ended_waiting r = true ->
    ~ exists before r' after, r :: rounds = before ++ r' :: after /\ Forall goes_on before /\ found r' = Some a).
  { intros Hr ([|r' before] & r2 & after & [= <- ->] & Hb & Hr2); [congruence|].
    apply Forall_cons in Hb as [(_ & ? & ?) _]. destruct Hr; congruence. }
  destruct (ended r) eqn:Ee; [split; [done|intros H; by destruct Hno; [left|]]|].
  destruct (ended_waiting r) eqn:Ew; [split; [done|intros H; by destruct Hno; [right|]]|].
  specialize (IH (attempt + 1) (next_backoff max b)). destruct (retry max rounds _ _) as [o evs]. cbn in *. rewrite IH. clear Hno IH.
  split.
  - intros (before & r' & after & -> & Hb & Hr). exists (r :: before), r', after. split_and!; [done| |done].
    by constructor.
  - intros ([|r' before] & r2 & after & [= <- ->] & Hb & Hr); [congruence|].
    apply Forall_cons in Hb as [_ Hb]. by exists before, r2, after.
Qed.

(** ** Finding peers *)

Section Finding.
Context (SplitHostPort : bytes -> option (bytes * bytes)) (ParseIP : bytes -> option IP).
Context (announce : AnnounceRequest -> option AnnounceResponse).
Context (peerID ipv6 : bytes) (port numWant : Z).

Lemma attempt_elem dht tf arrived p :
  p ∈ findPeersAttempt SplitHostPort ParseIP announce dht peerID ipv6 port numWant tf arrived <->
  reserved (IP_ p) = false /\ exists i s, i ∈ arrived /\ search_sources tf !! i = Some s /\
    p ∈ source_peers SplitHostPort ParseIP announce dht peerID ipv6 port numWant tf s.
Proof.
  unfold findPeersAttempt, FilterPrivatePeers. rewrite list_elem_of_filter.
  rewrite list_elem_of_In, in_concat. setoid_rewrite <- list_elem_of_In. split.
  - intros (Hr & l & Hl & Hp). split; [done|]. apply list_elem_of_fmap in Hl as (s & -> & Hs).
    apply list_elem_of_omap in Hs as (i & Hi & Hs). by exists i, s.
  - intros (Hr & i & s & Hi & Hs & Hp). split; [done|]. eexists. split; [|exact Hp].
    apply list_elem_of_fmap. exists s. split; [done|]. apply list_elem_of_omap. by exists i.
Qed.

(** The search for peers. Attempt number [k] is reported with its number and a wait of
    [3 * 2 ^ (k - 1)] seconds, at most 300. The search ends with peers exactly when a round finds some and no
    round before it does or is cancelled; the peers are then those, at least one, none of a reserved address, each
    reported by a source of the torrent that had answered; and for a private torrent the DHT plays no role. *)
Lemma FindPeers_search dht dht' tf rounds o evs :
  findPeers SplitHostPort ParseIP announce dht peerID ipv6 port numWant (Some tf) rounds = Some (o, evs) ->
  (forall i a w, evs !! i = Some (a, w) -> a = Z.of_nat i + 1 /\ w = Z.min (3 * 2 ^ Z.of_nat i) 300) /\
  (forall ps, o = Found ps <->
    exists before arrived e w after, rounds = before ++ (arrived, e, w) :: after /\
      Forall (fun r => goes_on (search_round SplitHostPort ParseIP announce dht peerID ipv6 port numWant tf r)) before /\
      ps = findPeersAttempt SplitHostPort ParseIP announce dht peerID ipv6 port numWant tf arrived /\ ps <> []) /\
  (forall arrived p, p ∈ findPeersAttempt SplitHostPort ParseIP announce dht peerID ipv6 port numWant tf arrived <->
    reserved (IP_ p) = false /\ exists i s, i ∈ arrived /\ search_sources tf !! i = Some s /\
      p ∈ source_peers SplitHostPort ParseIP announce dht peerID ipv6 port numWant tf s) /\
  (Private (t_Info tf) = true ->
    findPeers SplitHostPort ParseIP announce dht' peerID ipv6 port numWant (Some tf) rounds = Some (o, evs)).
Proof.
  intros H. split_and!.
  - intros i a w Hi. cbn in H. injection H as H. apply (f_equal snd) in H. cbn in H.
    rewrite <- H in Hi. apply (retry_events _ 0%nat) in Hi. done.
  - intros ps. cbn in H. injection H as H. apply (f_equal fst) in H. cbn [fst] in H. rewrite <- H, retry_found. split.
    + intros (b & r & a & Hr & Hb & Hf). apply fmap_app_inv in Hr as (before & l & -> & Hl & ->).
      symmetry in Hl. apply fmap_cons_inv in Hl as ([[arrived e] w] & after & -> & -> & ->).
      exists before, arrived, e, w, after. rewrite Forall_fmap in Hb. cbn [search_round found] in Hf.
      destruct (Z.ltb_spec 0 (len (findPeersAttempt SplitHostPort ParseIP announce dht peerID ipv6 port numWant tf arrived))); [|done].
      injection Hf as <-. split_and!; [done|done|done|]. intros E. rewrite E in *. cbn in *. lia.
    + intros (before & arrived & e & w & after & -> & Hb & -> & Hne).
      rewrite fmap_app, fmap_cons. eexists _, _, _. split_and!; [reflexivity|by rewrite Forall_fmap|].
      cbn [search_round found]. rewrite (proj2 (Z.ltb_lt _ _)); [done|].
      destruct (findPeersAttempt _ _ _ _ _ _ _ _ _ _); [done|cbn; lia].
  - intros. apply attempt_elem.
  - intros Hp. rewrite <- H. cbn. do 2 f_equal. apply list_fmap_ext. intros _ [[arrived e] w] _. cbn [search_round].
    assert (E : findPeersAttempt SplitHostPort ParseIP announce dht' peerID ipv6 port numWant tf arrived =
                findPeersAttempt SplitHostPort ParseIP announce dht peerID ipv6 port numWant tf arrived); [|by rewrite E].
    unfold findPeersAttempt. do 2 f_equal. apply list_fmap_ext. intros k s Hs.
    apply list_elem_of_lookup_2, list_elem_of_omap in Hs as (i & _ & Hs).
    unfold search_sources in Hs. rewrite Hp, app_nil_r in Hs.
    apply list_elem_of_lookup_2, list_elem_of_fmap in Hs as (tr & -> & _). done.
Qed.
End Finding.

(** ** A magnet link *)

(** What a peer that serves [metadata] sends: its handshake, its extension handshake, the blocks. *)
Record serving_peer := mkServingPeer {
  sp_id : bytes; sp_fast : bool; sp_noise : list (option Message); sp_hsdata : bytes; sp_hs : ExtHandshake;
  sp_rid : Z; sp_blocks : list (list (option Message) * bytes)
}.

Record serves (metadata : bytes) (p : serving_peer) : Prop := {
  sv_size : 0 < len metadata <= MaxMetadataSize;
  sv_id : length (sp_id p) = 20%nat;
  sv_noise : Forall (skipped_frame ExtHandshakeID) (sp_noise p);
  sv_small : small_frame (Some (NewExtendedMessage ExtHandshakeID (sp_hsdata p)));
  sv_hs : DecodeExtHandshake (sp_hsdata p) = Ok (sp_hs p);
  sv_rid : M (sp_hs p) !! lit "ut_metadata" = Some (sp_rid p);
  sv_nonzero : sp_rid p <> 0;
  sv_hs_size : MetadataSize (sp_hs p) = len metadata;
  sv_blocks : metadata = concat ((sp_blocks p).*2);
  sv_count : len (sp_blocks p) = (len metadata + MetadataBlockSize - 1) / MetadataBlockSize;
  sv_honest : honest 1 0 (len metadata) (sp_blocks p)
}.

Definition peer_stream (infoHash metadata : bytes) (p : serving_peer) (r : bytes) : bytes :=
  WriteHandshake (mkHandshake infoHash (sp_id p) true (sp_fast p)) ++
  concat (write_frame <$> sp_noise p) ++ Write (NewExtendedMessage ExtHandshakeID (sp_hsdata p)) ++
  answers 1 0 (len metadata) (sp_blocks p) ++ r.

(** C24: a torrent's metadata, fetched from a peer that has it, is the torrent. For every metainfo file the
    parser accepts there is metadata with the torrent's info hash such that a peer serving it, whatever else it
    says in between, leaves the client with exactly the torrent's info, hashes and version; trackers and web seeds, which are not part of
    the metadata, are empty. *)
Theorem Magnet_metadata (sha1 sha256 : bytes -> bytes) data tf :
  Parse sha1 sha256 data = Ok tf -> length (Torrent.InfoHash tf) = 20%nat ->
  exists metadata, sha1 metadata = Torrent.InfoHash tf /\
    forall p r t n peerID, serves metadata p -> (length (sp_blocks p) + 2 <= n)%nat ->
      fetchMetadataFromPeer sha1 sha256 false false None
        (Some (mkConn (peer_stream (Torrent.InfoHash tf) metadata p r) t n)) (Torrent.InfoHash tf) peerID =
      Ok (mkTorrentFile [] [] (t_Info tf) (Torrent.InfoHash tf) (InfoHashV2 tf) (MetaVersion tf) []).
Proof.
  intros Hp Hl. destruct (parse_metadata_info sha1 sha256 data tf Hp) as (metadata & Hsha & Hpm).
  exists metadata. split; [done|]. intros p r t n peerID [] Hn.
  by eapply fetchMetadata_complete.
Qed.

(** Whatever the peer sends, metainfo returned for a magnet link was read from data with the requested
    hash, carries no trackers, and has the requested info hash unless the data is not in canonical form. *)
Lemma Magnet_metadata_sound (sha1 sha256 : bytes -> bytes) cancelled enableUTP utp tcp infoHash peerID tf :
  fetchMetadataFromPeer sha1 sha256 cancelled enableUTP utp tcp infoHash peerID = Ok tf ->
  cancelled = false /\ Announce tf = [] /\ AnnounceList tf = [] /\
  exists metadata (d : gmap bytes any),
    sha1 metadata = infoHash /\ Decode metadata = Ok (AMap d) /\ parseInfo d = Ok (t_Info tf) /\
    Torrent.InfoHash tf = sha1 (enc (AMap d)) /\
    (metadata = enc (AMap d) -> Torrent.InfoHash tf = infoHash).
Proof.
  intros (Hc & md & d & Hsha & Hd & Hp & Hh & Ha & Hal)%fetchMetadata_sound. split_and!; [done..|].
  exists md, d. split_and!; [done..|]. intros E. by rewrite Hh, <- E.
Qed.

(** *** Concrete runs *)

Definition demo_sha (b : bytes) : bytes := take 20 (b ++ replicate 20 x00).

Definition demo_metadata : bytes :=
  lit "d6:lengthi3e4:name1:a12:piece lengthi16e6:pieces20:abcdefghijklmnopqrst7:privatei1ee".

Definition demo_peer : serving_peer :=
  mkServingPeer (replicate 20 x41) true [None; Some (NewHaveMessage 7)]
    (lit "d1:md11:ut_metadatai3ee13:metadata_sizei84ee")
    (mkExtHandshake {[ lit "ut_metadata" := 3 ]} 84 [])
    3 [([None], demo_metadata)].

Lemma demo_skipped id : id < 256 -> Forall (skipped_frame id) [None; Some (NewHaveMessage 7)].
Proof.
  intros. repeat (apply Forall_cons; split); [..|by apply Forall_nil]; [by split|].
  split; [by vm_compute|left; by vm_compute].
Qed.

Lemma demo_serves : serves demo_metadata demo_peer.
Proof.
  split; [by vm_compute|reflexivity|apply demo_skipped; unfold ExtHandshakeID; lia|by vm_compute|by vm_compute|reflexivity|
          done|reflexivity|reflexivity|reflexivity|].
  cbn [honest demo_peer sp_blocks]. split_and!; [|by vm_compute|by left|done].
  by repeat constructor.
Qed.

Definition demo_torrent_tf : TorrentFile :=
  mkTorrentFile (lit "http") [] (t_Info demo_tf) (demo_sha demo_metadata) (replicate 32 x00) 0 [].

Lemma demo_torrent_parse : Parse demo_sha id demo_torrent = Ok demo_torrent_tf.
Proof. by vm_compute. Qed.

Lemma Magnet_metadata_witness :
  Parse demo_sha id demo_torrent = Ok demo_torrent_tf /\ serves demo_metadata demo_peer /\
  exists metadata, demo_sha metadata = Torrent.InfoHash demo_torrent_tf /\
    forall p r t n peerID, serves metadata p -> (length (sp_blocks p) + 2 <= n)%nat ->
      fetchMetadataFromPeer demo_sha id false false None
        (Some (mkConn (peer_stream (Torrent.InfoHash demo_torrent_tf) metadata p r) t n)) (Torrent.InfoHash demo_torrent_tf) peerID =
      Ok (mkTorrentFile [] [] (t_Info demo_torrent_tf) (Torrent.InfoHash demo_torrent_tf) (InfoHashV2 demo_torrent_tf)
            (MetaVersion demo_torrent_tf) []).
Proof.
  split; [exact demo_torrent_parse|]. split; [exact demo_serves|].
  apply (Magnet_metadata demo_sha id demo_torrent demo_torrent_tf demo_torrent_parse). reflexivity.
Defined.

Lemma Magnet_metadata_sound_witness :
  exists tf, fetchMetadataFromPeer demo_sha id false false None
    (Some (mkConn (peer_stream (demo_sha demo_metadata) demo_metadata demo_peer []) [] 5)) (demo_sha demo_metadata)
    (replicate 20 x42) = Ok tf /\ Announce tf = [].
Proof.
  set (tf := mkTorrentFile [] [] (t_Info demo_tf) (demo_sha demo_metadata) (replicate 32 x00) 0 []).
  assert (H : fetchMetadataFromPeer demo_sha id false false None
    (Some (mkConn (peer_stream (demo_sha demo_metadata) demo_metadata demo_peer []) [] 5)) (demo_sha demo_metadata)
    (replicate 20 x42) = Ok tf) by (vm_compute; reflexivity).
  exists tf. split; [exact H|]. exact (proj1 (proj2 (Magnet_metadata_sound _ _ _ _ _ _ _ _ tf H))).
Defined.

(** Metadata that is not in canonical form hashes to the magnet's hash, but the metainfo made of it does not:
    the session would then ask trackers and peers for another torrent. *)
Lemma noncanonical_metadata :
  let metadata := lit "d6:lengthi+3e4:name1:a12:piece lengthi16e6:pieces20:abcdefghijklmnopqrste" in
  exists tf, parse_metadata id id metadata = Ok tf /\ Torrent.InfoHash tf <> metadata.
Proof. eexists. split; [by vm_compute|]. by vm_compute. Qed.

(** The peers found while resolving a magnet link are kept as they are: reserved addresses, which [findPeers]
    drops, are dialled. *)
Lemma magnet_keeps_private_peers :
  let u := mkURL (lit "magnet") (<[lit "xt" := [lit "urn:btih:4141414141414141414141414141414141414141"]]> ∅) in
  let p := mkPeer [x7f; x00; x00; x01] 80 in
  exists r, (resolveMetadata id id [] None (Some u) [(Some demo_tf, [p], false, false)]).1.1 = Resolved r /\
    r_peers r = [p] /\ FilterPrivatePeers (r_peers r) = [].
Proof. eexists. split_and!; by vm_compute. Qed.

Lemma FindPeers_search_witness :
  let resp := mkAnnounceResponse 1800 [mkPeer [x0a; x00; x00; x01] 1; mkPeer [x08; x08; x08; x08] 2] in
  let run dht := findPeers (fun _ => None) (fun _ => None) (fun _ => Some resp) dht [] [] 6881 50 (Some demo_tf)
    [([], false, false); ([0%nat], false, false)] in
  run None = Some (Found [mkPeer [x08; x08; x08; x08] 2], [(1, 3)]) /\
  run (Some (fun _ => Some [])) = Some (Found [mkPeer [x08; x08; x08; x08] 2], [(1, 3)]).
Proof.
  cbn zeta. split; [by vm_compute|].
  eapply (FindPeers_search (fun _ => None) (fun _ => None) _ [] [] 6881 50 None (Some (fun _ => Some [])) demo_tf
            [([], false, false); ([0%nat], false, false)]); [by vm_compute|reflexivity].
Defined.
