(* ===== verification/Attempt.v ===== *)
(** * One round of metadata discovery ([engine/session.go], [fetchMetadataAttempt])

    Tracker and DHT goroutines append the peers they learn and send them as a batch on
    [peerCh] (capacity 10); the main goroutine does the same with the link's [x.pe] peers before it starts the
    consumer, which turns every peer of a batch into a task; tasks take one of 100 slots of [metaSem], fetch,
    and offer their result on [resultCh] (capacity 1).  Every channel operation and critical section is a step;
    what a source answers and what a task fetches are arguments. *)

From S2P Require Import Prelude Text Net Torrent Tracker Resolve.
Set Warnings "-clear-no-such-hyp".
Local Open Scope Z_scope.

Definition peerCh_cap : Z := 10.
Definition metaSem_cap : Z := 100.

Inductive src_pc := SrcAsking | SrcSending (batch : list Peer) | SrcDone.
(** How a task ended: cancelled before it had a slot, with an error, or with metainfo. *)
Inductive task_end := Skipped | Failed | Succeeded.
Inductive task_pc := TaskWaiting | TaskFetching | TaskOffering (tf : TorrentFile) | TaskDone (e : task_end).
Inductive main_pc := MainXpe | MainSending | MainStarting | MainWaiting | MainReturned (tf : option TorrentFile) (peers : list Peer).
Inductive consumer_pc := ConsumerOff | ConsumerLoop | ConsumerDraining | ConsumerDone.

(** [statDialFail], [statNoExt], [statNoMeta], [statFetchFail], [statAttempted]. *)
Record stats := mkStats { dialFail : Z; noExt : Z; noMeta : Z; fetchFail : Z; attempted : Z }.

Record attempt := mkAttempt {
  sources : list src_pc; all_peers : list Peer; peerCh : list (list Peer); peerCh_closed : bool;
  main : main_pc; consumer : consumer_pc; tasks : list (Peer * task_pc); metaCancelled : bool;
  resultCh : option TorrentFile; resultCh_closed : bool; stat : stats
}.

Definition classify (msg : bytes) (s : stats) : stats :=
  if isDialError msg then mkStats (dialFail s + 1) (noExt s) (noMeta s) (fetchFail s) (attempted s)
  else if bool_decide (msg = lit "peer does not support extensions") then
    mkStats (dialFail s) (noExt s + 1) (noMeta s) (fetchFail s) (attempted s)
  else if bool_decide (msg = lit "peer reported no metadata") then
    mkStats (dialFail s) (noExt s) (noMeta s + 1) (fetchFail s) (attempted s)
  else mkStats (dialFail s) (noExt s) (noMeta s) (fetchFail s + 1) (attempted s).

Definition count_attempt (s : stats) : stats :=
  mkStats (dialFail s) (noExt s) (noMeta s) (fetchFail s) (attempted s + 1).

Definition src_done (p : src_pc) : bool := match p with SrcDone => true | _ => false end.
Definition task_done (t : Peer * task_pc) : bool := match t.2 with TaskDone _ => true | _ => false end.
(** A task that holds a slot of [metaSem]. *)
Definition holds_slot (t : Peer * task_pc) : bool :=
  match t.2 with TaskFetching | TaskOffering _ => true | _ => false end.
Definition slots_held (s : attempt) : Z := len (filter (fun t => holds_slot t = true) (tasks s)).

Section Attempt.
(** The [x.pe] peers, and what the task with a given number gets from its peer (an error text or the metainfo). *)
Context (xpe : list Peer) (fetch : nat -> Peer -> result bytes TorrentFile).

Definition attempt_start (n : nat) : attempt :=
  mkAttempt (replicate n SrcAsking) [] [] false MainXpe ConsumerOff [] false None false (mkStats 0 0 0 0 0).

Inductive attempt_label :=
  | Answer (i : nat) (ps : list Peer) | SendBatch (i : nat) | AppendXpe | SendXpe | StartConsumer | ClosePeerCh
  | TakeBatch | StopTaking | CloseResult | Expire | TaskStep (i : nat) | ReceiveResult.

Definition set_source (i : nat) (p : src_pc) (s : attempt) : attempt :=
  mkAttempt (<[i := p]> (sources s)) (all_peers s) (peerCh s) (peerCh_closed s) (main s) (consumer s) (tasks s)
    (metaCancelled s) (resultCh s) (resultCh_closed s) (stat s).
Definition add_peers (ps : list Peer) (s : attempt) : attempt :=
  mkAttempt (sources s) (all_peers s ++ ps) (peerCh s) (peerCh_closed s) (main s) (consumer s) (tasks s)
    (metaCancelled s) (resultCh s) (resultCh_closed s) (stat s).
Definition set_peerCh (ch : list (list Peer)) (closed : bool) (s : attempt) : attempt :=
  mkAttempt (sources s) (all_peers s) ch closed (main s) (consumer s) (tasks s)
    (metaCancelled s) (resultCh s) (resultCh_closed s) (stat s).
Definition set_main (m : main_pc) (s : attempt) : attempt :=
  mkAttempt (sources s) (all_peers s) (peerCh s) (peerCh_closed s) m (consumer s) (tasks s)
    (metaCancelled s) (resultCh s) (resultCh_closed s) (stat s).
Definition set_consumer (c : consumer_pc) (s : attempt) : attempt :=
  mkAttempt (sources s) (all_peers s) (peerCh s) (peerCh_closed s) (main s) c (tasks s)
    (metaCancelled s) (resultCh s) (resultCh_closed s) (stat s).
Definition set_tasks (ts : list (Peer * task_pc)) (s : attempt) : attempt :=
  mkAttempt (sources s) (all_peers s) (peerCh s) (peerCh_closed s) (main s) (consumer s) ts
    (metaCancelled s) (resultCh s) (resultCh_closed s) (stat s).
Definition set_cancelled (s : attempt) : attempt :=
  mkAttempt (sources s) (all_peers s) (peerCh s) (peerCh_closed s) (main s) (consumer s) (tasks s)
    true (resultCh s) (resultCh_closed s) (stat s).
Definition set_result (r : option TorrentFile) (closed : bool) (s : attempt) : attempt :=
  mkAttempt (sources s) (all_peers s) (peerCh s) (peerCh_closed s) (main s) (consumer s) (tasks s)
    (metaCancelled s) r closed (stat s).
Definition set_stat (st : stats) (s : attempt) : attempt :=
  mkAttempt (sources s) (all_peers s) (peerCh s) (peerCh_closed s) (main s) (consumer s) (tasks s)
    (metaCancelled s) (resultCh s) (resultCh_closed s) st.

Definition set_task (i : nat) (p : Peer) (t : task_pc) (s : attempt) : attempt :=
  set_tasks (<[i := (p, t)]> (tasks s)) s.

(** A send on [peerCh] blocks while the channel is full; [None] also stands for the panic of a send on a closed channel. *)
Definition send_batch (b : list Peer) (s : attempt) : option attempt :=
  if peerCh_closed s then None
  else if len (peerCh s) <? peerCh_cap then Some (set_peerCh (peerCh s ++ [b]) false s) else None.

(** The goroutine of one tracker or of the DHT. *)
Definition source_answer (i : nat) (ps : list Peer) (s : attempt) : option attempt :=
  match sources s !! i with
  | Some SrcAsking => if len ps =? 0 then Some (set_source i SrcDone s) else Some (set_source i (SrcSending ps) (add_peers ps s))
  | _ => None
  end.

Definition source_send (i : nat) (s : attempt) : option attempt :=
  match sources s !! i with
  | Some (SrcSending b) => s ← send_batch b s; Some (set_source i SrcDone s)
  | _ => None
  end.

(** The goroutine of one peer: it waits for a slot or for the end of the context, fetches, and offers its result. *)
Definition task_step (i : nat) (s : attempt) : option attempt :=
  match tasks s !! i with
  | Some (p, TaskWaiting) =>
      if metaCancelled s then Some (set_task i p (TaskDone Skipped) s)
      else if slots_held s <? metaSem_cap then Some (set_task i p TaskFetching (set_stat (count_attempt (stat s)) s))
      else None
  | Some (p, TaskFetching) =>
      match fetch i p with
      | Err msg => Some (set_task i p (TaskDone Failed) (set_stat (classify msg (stat s)) s))
      | Ok tf => Some (set_task i p (TaskOffering tf) s)
      end
  | Some (p, TaskOffering tf) =>
      if resultCh_closed s then None
      else match resultCh s with
           | None => Some (set_task i p (TaskDone Succeeded) (set_cancelled (set_result (Some tf) false s)))
           | Some _ => Some (set_task i p (TaskDone Succeeded) s)
           end
  | _ => None
  end.

Definition attempt_step (l : attempt_label) (s : attempt) : option attempt :=
  match l with
  | Answer i ps => source_answer i ps s
  | SendBatch i => source_send i s
  | AppendXpe =>
      match main s with
      | MainXpe => if len xpe =? 0 then Some (set_main MainStarting s) else Some (set_main MainSending (add_peers xpe s))
      | _ => None
      end
  | SendXpe => match main s with MainSending => s ← send_batch xpe s; Some (set_main MainStarting s) | _ => None end
  | StartConsumer => match main s with MainStarting => Some (set_main MainWaiting (set_consumer ConsumerLoop s)) | _ => None end
  | ClosePeerCh =>
      match consumer s with
      | ConsumerOff => None
      | _ => if negb (peerCh_closed s) && forallb src_done (sources s) then Some (set_peerCh (peerCh s) true s) else None
      end
  | TakeBatch =>
      match consumer s, peerCh s with
      | ConsumerLoop, b :: ch => Some (set_tasks (tasks s ++ ((fun p => (p, TaskWaiting)) <$> b)) (set_peerCh ch (peerCh_closed s) s))
      | _, _ => None
      end
  | StopTaking =>
      match consumer s with
      | ConsumerLoop =>
          if metaCancelled s || (peerCh_closed s && (len (peerCh s) =? 0)) then Some (set_consumer ConsumerDraining s) else None
      | _ => None
      end
  | CloseResult =>
      match consumer s with
      | ConsumerDraining => if forallb task_done (tasks s) then Some (set_consumer ConsumerDone (set_result (resultCh s) true s)) else None
      | _ => None
      end
  | Expire => match consumer s with ConsumerOff => None | _ => Some (set_cancelled s) end
  | TaskStep i => task_step i s
  | ReceiveResult =>
      match main s with
      | MainWaiting =>
          match resultCh s with
          | Some tf => Some (set_cancelled (set_main (MainReturned (Some tf) (all_peers s)) (set_result None (resultCh_closed s) s)))
          | None => if resultCh_closed s then Some (set_cancelled (set_main (MainReturned None (all_peers s)) s)) else None
          end
      | _ => None
      end
  end.

Inductive attempt_reach (n : nat) : attempt -> Prop :=
  | attempt_init : attempt_reach n (attempt_start n)
  | attempt_next s l s' : attempt_reach n s -> attempt_step l s = Some s' -> attempt_reach n s'.

Fixpoint attempt_run (ls : list attempt_label) (s : attempt) : option attempt :=
  match ls with [] => Some s | l :: ls => s ← attempt_step l s; attempt_run ls s end.
End Attempt.
