(* ===== verification/AttemptTheorems.v ===== *)
(** * Properties of a round of metadata discovery *)

From S2P Require Import Prelude Text Net Torrent Tracker Resolve Attempt.
Set Warnings "-clear-no-such-hyp".
Local Open Scope Z_scope.

(** ** The invariant *)

Definition t_failed (t : Peer * task_pc) : Z := match t.2 with TaskDone Failed => 1 | _ => 0 end.
Definition t_tried (t : Peer * task_pc) : Z :=
  match t.2 with TaskFetching | TaskOffering _ | TaskDone Failed | TaskDone Succeeded => 1 | _ => 0 end.
Definition t_succeeded (t : Peer * task_pc) : Z := match t.2 with TaskDone Succeeded => 1 | _ => 0 end.
Definition s_done (p : src_pc) : Z := if src_done p then 1 else 0.

Definition failures (s : stats) : Z := dialFail s + noExt s + noMeta s + fetchFail s.

Definition pending (p : src_pc) : list Peer := match p with SrcSending b => b | _ => [] end.

Definition before_consumer (m : main_pc) : bool :=
  match m with MainXpe | MainSending | MainStarting => true | _ => false end.
Definition returned (m : main_pc) : bool := match m with MainReturned _ _ => true | _ => false end.

Section Invariant.
Context (xpe : list Peer) (fetch : nat -> Peer -> result bytes TorrentFile).

(** What a task's state says of its peer. *)
Definition task_ok (cancelled : bool) (i : nat) (t : Peer * task_pc) : Prop :=
  match t.2 with
  | TaskOffering tf => fetch i t.1 = Ok tf
  | TaskDone Failed => exists msg, fetch i t.1 = Err msg
  | TaskDone Succeeded => exists tf, fetch i t.1 = Ok tf
  | TaskDone Skipped => cancelled = true
  | _ => True
  end.

Record attempt_inv (n : nat) (s : attempt) : Prop := {
  ai_sources : length (sources s) = n;
  ai_off : consumer s = ConsumerOff <-> before_consumer (main s) = true;
  ai_closed : peerCh_closed s = true -> Forall (fun p => src_done p = true) (sources s) /\ consumer s <> ConsumerOff;
  ai_fresh : consumer s = ConsumerOff -> tasks s = [] /\ metaCancelled s = false /\ resultCh s = None /\
    len (peerCh s) <= wsum s_done (sources s) + match main s with MainStarting => 1 | _ => 0 end;
  ai_result_closed : resultCh_closed s = true <-> consumer s = ConsumerDone;
  ai_done : consumer s = ConsumerDone -> Forall (fun t => task_done t = true) (tasks s);
  ai_drain : consumer s = ConsumerDraining \/ consumer s = ConsumerDone ->
    metaCancelled s = true \/ (peerCh_closed s = true /\ peerCh s = []);
  ai_peers : all_peers s ≡ₚ concat (pending <$> sources s) ++ concat (peerCh s) ++ (tasks s).*1 ++
    match main s with MainSending => xpe | _ => [] end;
  ai_tasks : forall i t, tasks s !! i = Some t -> task_ok (metaCancelled s) i t;
  ai_result : forall tf, resultCh s = Some tf -> exists i p, tasks s !! i = Some (p, TaskDone Succeeded) /\ fetch i p = Ok tf;
  ai_succeeded : returned (main s) = false -> resultCh s = None -> wsum t_succeeded (tasks s) = 0;
  ai_succ_cancels : 0 < wsum t_succeeded (tasks s) -> metaCancelled s = true;
  ai_failed : failures (stat s) = wsum t_failed (tasks s);
  ai_attempted : attempted (stat s) = wsum t_tried (tasks s);
  ai_slots : slots_held s <= metaSem_cap;
  ai_xpe : main s = MainSending -> xpe <> []
}.

Lemma inv_start n : attempt_inv n (attempt_start n).
Proof.
  constructor; cbn; try done.
  - by rewrite length_replicate.
  - intros _. split_and!; [done..|]. pose proof (wsum_nonneg s_done (replicate n SrcAsking)) as H.
    rewrite Z.add_0_r. apply H. intros []; cbn; lia.
  - by intros [|].
  - rewrite !app_nil_r. induction n; [done|]. cbn. done.
Qed.

(** Tasks keep their peers. *)
Lemma fst_insert (ts : list (Peer * task_pc)) i p t t' : ts !! i = Some (p, t) -> (<[i := (p, t')]> ts).*1 = ts.*1.
Proof. intros H. rewrite list_fmap_insert. apply list_insert_id. by rewrite list_lookup_fmap, H. Qed.

Lemma holds_sum ts : len (filter (fun t : Peer * task_pc => holds_slot t = true) ts) = wsum (fun t => if holds_slot t then 1 else 0) ts.
Proof.
  induction ts as [|t ts IH]; [done|]. rewrite filter_cons. cbn [wsum].
  destruct (holds_slot t); rewrite <- IH; [rewrite decide_True by done; cbn [length]; lia|rewrite decide_False by done; lia].
Qed.

Lemma pending_insert l i p q : l !! i = Some p ->
  concat (pending <$> <[i := q]> l) ++ pending p ≡ₚ concat (pending <$> l) ++ pending q.
Proof.
  revert i. induction l as [|x l IH]; intros [|i] H; cbn in *; simplify_eq; [solve_Permutation|].
  rewrite <- !(assoc_L (++)). by rewrite IH.
Qed.

Lemma s_done_insert l i p q : l !! i = Some p -> wsum s_done (<[i := q]> l) = wsum s_done l - s_done p + s_done q.
Proof. apply wsum_insert. Qed.

Lemma not_all_done l i p : l !! i = Some p -> src_done p = false -> ~ Forall (fun p => src_done p = true) l.
Proof. intros Hi Hp H. rewrite Forall_lookup in H. apply H in Hi. congruence. Qed.

Lemma inv_answer n i ps s s' : attempt_inv n s -> source_answer i ps s = Some s' -> attempt_inv n s'.
Proof.
  intros I H. unfold source_answer in H. destruct (sources s !! i) as [[| |]|] eqn:Hi; try done.
  pose proof (not_all_done _ _ _ Hi eq_refl) as Hnd. pose proof (s_done_insert _ _ _ SrcDone Hi) as Hs1. cbn in Hs1.
  pose proof (pending_insert _ _ _ SrcDone Hi) as Hp1. cbn [pending] in Hp1. rewrite !app_nil_r in Hp1.
  pose proof (s_done_insert _ _ _ (SrcSending ps) Hi) as Hs2. cbn in Hs2.
  pose proof (pending_insert _ _ _ (SrcSending ps) Hi) as Hp2. cbn [pending] in Hp2. rewrite app_nil_r in Hp2.
  destruct I. destruct (len ps =? 0); injection H as <-; constructor; cbn; try done.
  all: try (by rewrite length_insert).
  all: try (intros Hc; apply ai_closed0 in Hc as [? _]; done).
  - intros Hc. destruct (ai_fresh0 Hc) as (? & ? & ? & ?). split_and!; [done..|lia].
  - by rewrite Hp1.
  - intros Hc. destruct (ai_fresh0 Hc) as (? & ? & ? & ?). split_and!; [done..|lia].
  - rewrite Hp2, ai_peers0. solve_Permutation.
Qed.

Lemma inv_send n b s s1 : attempt_inv n s -> send_batch b s = Some s1 ->
  s1 = set_peerCh (peerCh s ++ [b]) false s /\ peerCh_closed s = false /\ len (peerCh s) < 10.
Proof.
  intros I H. unfold send_batch in H. destruct (peerCh_closed s) eqn:Ec; [done|].
  destruct (Z.ltb_spec (len (peerCh s)) peerCh_cap) as [Hl|]; [|done]. injection H as <-.
  unfold peerCh_cap in Hl. by rewrite Ec || split_and!.
Qed.

Lemma concat_snoc {A} (l : list (list A)) b : concat (l ++ [b]) = concat l ++ b.
Proof. rewrite concat_app. cbn. by rewrite app_nil_r. Qed.

Lemma inv_source_send n i s s' : attempt_inv n s -> source_send i s = Some s' -> attempt_inv n s'.
Proof.
  intros I H. unfold source_send in H. destruct (sources s !! i) as [[|b|]|] eqn:Hi; try done.
  destruct (send_batch b s) as [s1|] eqn:Es; [|done]. cbn in H. injection H as <-.
  apply (inv_send n) in Es as (-> & Hcl & Hlen); [|done].
  pose proof (s_done_insert _ _ _ SrcDone Hi) as Hs. cbn in Hs.
  pose proof (pending_insert _ _ _ SrcDone Hi) as Hp. cbn [pending] in Hp. rewrite app_nil_r in Hp.
  destruct I. constructor; cbn; try done.
  - by rewrite length_insert.
  - intros Hc. destruct (ai_fresh0 Hc) as (? & ? & ? & ?). rewrite length_app. cbn [length]. split_and!; [done..|lia].
  - intros Hd. destruct (ai_drain0 Hd) as [?|[? ?]]; [by left|congruence].
  - rewrite concat_snoc, ai_peers0, <- Hp. solve_Permutation.
Qed.

Lemma inv_send_xpe n s s' : attempt_inv n s -> attempt_step xpe fetch SendXpe s = Some s' -> attempt_inv n s'.
Proof.
  intros I H. cbn [attempt_step] in H. destruct (main s) eqn:Em; try done.
  destruct (send_batch xpe s) as [s1|] eqn:Es; [|done]. cbn in H. injection H as <-.
  apply (inv_send n) in Es as (-> & Hcl & Hlen); [|done]. destruct I. rewrite Em in *. constructor; cbn; try done.
  - intros Hc. destruct (ai_fresh0 Hc) as (? & ? & ? & ?). rewrite length_app. cbn [length]. split_and!; [done..|lia].
  - intros Hd. destruct (ai_drain0 Hd) as [?|[? ?]]; [by left|congruence].
  - rewrite concat_snoc, ai_peers0. solve_Permutation.
Qed.
Lemma task_ok_mono c c' i t : task_ok c i t -> (c = true -> c' = true) -> task_ok c' i t.
Proof. unfold task_ok. destruct (t.2) as [| | |[]]; auto. Qed.

(** A step of a task: everything but the task, the result, the counters and the cancellation stays. *)
Lemma inv_set_task n i p t t' s s' :
  attempt_inv n s -> tasks s !! i = Some (p, t) -> task_done (p, t) = false -> tasks s' = <[i := (p, t')]> (tasks s) ->
  sources s' = sources s -> all_peers s' = all_peers s -> peerCh s' = peerCh s -> peerCh_closed s' = peerCh_closed s ->
  main s' = main s -> consumer s' = consumer s -> resultCh_closed s' = resultCh_closed s ->
  (metaCancelled s = true -> metaCancelled s' = true) ->
  task_ok (metaCancelled s') i (p, t') ->
  (resultCh s' = resultCh s \/ exists tf, resultCh s' = Some tf /\ fetch i p = Ok tf /\ t' = TaskDone Succeeded) ->
  (t_succeeded (p, t') = 1 -> metaCancelled s' = true /\ resultCh s' <> None) ->
  failures (stat s') = failures (stat s) + t_failed (p, t') ->
  attempted (stat s') = attempted (stat s) - t_tried (p, t) + t_tried (p, t') ->
  ((if holds_slot (p, t') then 1 else 0) <= (if holds_slot (p, t) then 1 else 0) \/ slots_held s < metaSem_cap) ->
  attempt_inv n s'.
Proof.
  intros I Hi Hd Ets Es Ea Ep Epc Em Ec Erc Hmc Htok Hres Hsucc Hf Ha Hslot.
  assert (Hnoff : consumer s <> ConsumerOff).
  { intros Hc. destruct (ai_fresh _ _ I Hc) as (E & _). by rewrite E in Hi. }
  assert (Hndone : consumer s <> ConsumerDone).
  { intros Hc. apply (ai_done _ _ I) in Hc. rewrite Forall_lookup in Hc. apply Hc in Hi. congruence. }
  assert (Hf0 : t_failed (p, t) = 0) by (destruct t; done).
  assert (Hs0 : t_succeeded (p, t) = 0) by (destruct t; done).
  destruct I. constructor; rewrite ?Ets, ?Es, ?Ea, ?Ep, ?Epc, ?Em, ?Ec, ?Erc; try done.
  - intros [Hx|Hx]; [|done]. destruct ai_drain0 as [?|?]; auto.
  - by rewrite (fst_insert _ _ _ _ _ Hi).
  - intros j u Hj. apply list_lookup_insert_Some in Hj as [(<- & <- & _)|[_ Hj]]; [done|].
    eapply task_ok_mono; [by apply ai_tasks0|done].
  - intros tf Htf. destruct Hres as [Hr|(tf' & Hr & Hft & ->)].
    + rewrite Hr in Htf. destruct (ai_result0 tf Htf) as (j & q & Hj & ?). exists j, q. split; [|done].
      rewrite list_lookup_insert_ne; [done|]. intros ->. rewrite Hi in Hj. injection Hj as <- ->. done.
    + exists i, p. rewrite list_lookup_insert_eq by (by eapply lookup_lt_Some). split; [done|congruence].
  - intros Hr Hn. rewrite (wsum_insert _ _ _ _ _ Hi), Hs0. 
    assert (resultCh s = None) by (destruct Hres as [E|(? & E & _)]; congruence). rewrite (ai_succeeded0 Hr) by done.
    destruct (decide (t_succeeded (p, t') = 1)) as [E|E]; [by apply Hsucc in E as [_ ?]|].
    destruct t' as [| | |[]]; done.
  - rewrite (wsum_insert _ _ _ _ _ Hi), Hs0. intros Hpos.
    destruct (decide (t_succeeded (p, t') = 1)) as [E|E]; [by apply Hsucc in E as [? _]|].
    apply Hmc, ai_succ_cancels0. destruct t' as [| | |[]]; cbn in *; lia.
  - rewrite (wsum_insert _ _ _ _ _ Hi), Hf0. lia.
  - rewrite (wsum_insert _ _ _ _ _ Hi). lia.
  - unfold slots_held in *. rewrite Ets, holds_sum, (wsum_insert _ _ _ _ _ Hi).
    rewrite holds_sum in ai_slots0, Hslot. destruct (holds_slot (p, t)), (holds_slot (p, t')); lia.
Qed.

Lemma failures_classify msg st : failures (classify msg st) = failures st + 1 /\ attempted (classify msg st) = attempted st.
Proof. unfold classify, failures. repeat case_match; cbn; split; lia || done. Qed.

Lemma inv_task n i s s' : attempt_inv n s -> task_step fetch i s = Some s' -> attempt_inv n s'.
Proof.
  intros I H. unfold task_step in H. destruct (tasks s !! i) as [[p [| |tf|e]]|] eqn:Hi; try done.
  - destruct (metaCancelled s) eqn:Ec.
    + injection H as <-. eapply (inv_set_task n i p _ (TaskDone Skipped)); eauto; try done; cbn; try lia; auto.
    + destruct (Z.ltb_spec (slots_held s) metaSem_cap); [|done]. injection H as <-.
      eapply (inv_set_task n i p _ TaskFetching); eauto; try done; cbn; try lia; auto; unfold failures; cbn; lia.
  - destruct (fetch i p) as [tf|msg] eqn:Ef; injection H as <-.
    + eapply (inv_set_task n i p _ (TaskOffering tf)); eauto; try done; cbn; try lia; auto.
    + destruct (failures_classify msg (stat s)) as [Hf Ha].
      eapply (inv_set_task n i p _ (TaskDone Failed)); eauto; try done; cbn; rewrite ?Hf, ?Ha; try lia; eauto.
  - destruct (resultCh_closed s) eqn:Erc; [done|]. pose proof (ai_tasks _ _ I _ _ Hi) as Hok. cbn in Hok.
    destruct (resultCh s) as [tf'|] eqn:Er; injection H as <-.
    + destruct (ai_result _ _ I _ Er) as (j & q & Hj & _).
      assert (Hc : metaCancelled s = true).
      { apply (ai_succ_cancels _ _ I). pose proof (wsum_lookup t_succeeded _ _ _ Hj) as Hw. cbn in Hw.
        enough (1 <= wsum t_succeeded (tasks s)) by lia. apply Hw. by intros [? [| | |[]]]. }
      eapply (inv_set_task n i p _ (TaskDone Succeeded)); eauto; try done; cbn; rewrite ?Er; try lia; eauto.
    + eapply (inv_set_task n i p _ (TaskDone Succeeded)); eauto; try done; cbn; try lia; eauto.
Qed.
Lemma inv_take n s s' : attempt_inv n s -> attempt_step xpe fetch TakeBatch s = Some s' -> attempt_inv n s'.
Proof.
  intros I H. cbn [attempt_step] in H. destruct (consumer s) eqn:Ec; try done. destruct (peerCh s) as [|b ch] eqn:Ech; [done|].
  injection H as <-. destruct I. rewrite Ec, Ech in *.
  assert (Hz : forall f : Peer * task_pc -> Z, (forall p, f (p, TaskWaiting) = 0) -> wsum f ((fun p => (p, TaskWaiting)) <$> b) = 0).
  { intros f Hf. clear -Hf. induction b; cbn; [done|]. rewrite Hf. lia. }
  constructor; cbn; rewrite ?Ec; try done.
  - by intros [|].
  - rewrite ai_peers0, fmap_app. cbn. rewrite <- list_fmap_compose. cbn. rewrite list_fmap_id. solve_Permutation.
  - intros i t Hi. apply lookup_app_Some in Hi as [Hi|[_ Hi]]; [by apply ai_tasks0|].
    apply list_lookup_fmap_Some in Hi as (p & -> & _). done.
  - intros tf Htf. destruct (ai_result0 tf Htf) as (i & p & Hi & ?). exists i, p. split; [by apply lookup_app_l_Some|done].
  - intros Hr Hn. rewrite wsum_app, Hz by done. by rewrite ai_succeeded0.
  - rewrite wsum_app, Hz by done. rewrite Z.add_0_r. done.
  - rewrite wsum_app, Hz by done. lia.
  - rewrite wsum_app, Hz by done. lia.
  - unfold slots_held in *. cbn. rewrite holds_sum in *. rewrite wsum_app, Hz by done. lia.
Qed.

Lemma inv_receive n s s' : attempt_inv n s -> attempt_step xpe fetch ReceiveResult s = Some s' -> attempt_inv n s'.
Proof.
  intros I H. cbn [attempt_step] in H. destruct (main s) eqn:Em; try done.
  assert (Hon : consumer s <> ConsumerOff) by (rewrite (ai_off _ _ I), Em; done).
  assert (Hmono : forall i t, tasks s !! i = Some t -> task_ok true i t).
  { intros. eapply task_ok_mono; [by apply (ai_tasks _ _ I)|done]. }
  destruct I. rewrite Em in *. destruct (resultCh s) as [tf|] eqn:Er; [|destruct (resultCh_closed s) eqn:Erc; [|done]];
    injection H as <-; constructor; cbn; rewrite ?Er, ?Erc; try done; intros [?|?]; by left.
Qed.

Lemma inv_step n l s s' : attempt_inv n s -> attempt_step xpe fetch l s = Some s' -> attempt_inv n s'.
Proof.
  intros I H. destruct l; [by eapply inv_answer|by eapply inv_source_send| |by eapply inv_send_xpe| | |by eapply inv_take| | | |by eapply inv_task|by eapply inv_receive];
    cbn [attempt_step] in H.
  - destruct (main s) eqn:Em; try done.
    assert (Hc : consumer s = ConsumerOff) by (by rewrite (ai_off _ _ I), Em).
    destruct I. rewrite Em in *. destruct (Z.eqb_spec (len xpe) 0); injection H as <-; constructor; cbn; try done.
    + intros _. destruct (ai_fresh0 Hc) as (? & ? & ? & ?). split_and!; [done..|lia].
    + rewrite ai_peers0. solve_Permutation.
    + by intros _ ->.
  - destruct (main s) eqn:Em; try done. injection H as <-.
    assert (Hc : consumer s = ConsumerOff) by (by rewrite (ai_off _ _ I), Em).
    destruct I. rewrite Em, Hc in *. constructor; cbn; try done.
    + intros Hcl. by destruct (ai_closed0 Hcl).
    + rewrite ai_result_closed0. done.
    + by intros [|].
  - assert (Hon : consumer s <> ConsumerOff) by (by destruct (consumer s)).
    assert (H' : negb (peerCh_closed s) && forallb src_done (sources s) = true /\ s' = set_peerCh (peerCh s) true s).
    { destruct (consumer s); [done|..]; destruct (_ && _); try done; by injection H as <-. }
    destruct H' as [Hb ->]. apply andb_true_iff in Hb as [Hncl Hall]. apply negb_true_iff in Hncl.
    destruct I. constructor; cbn; try done.
    + intros _. split; [|done]. apply Forall_forall. intros p Hp. by eapply forallb_forall in Hall; [|apply list_elem_of_In].
    + intros Hd. destruct (ai_drain0 Hd) as [?|[? ?]]; [by left|congruence].
  - destruct (consumer s) eqn:Ec; try done. destruct (_ || _) eqn:Eb; [|done]. injection H as <-.
    destruct I. rewrite Ec in *. constructor; cbn; try done.
    + by rewrite <- ai_off0.
    + intros Hcl. by destruct (ai_closed0 Hcl).
    + by rewrite ai_result_closed0.
    + intros _. apply orb_true_iff in Eb as [?|[? Hl]%andb_true_iff]; [by left|right]. split; [done|].
      destruct (peerCh s); [done|]. cbn in Hl. apply Z.eqb_eq in Hl. lia.
  - destruct (consumer s) eqn:Ec; try done. destruct (forallb _ _) eqn:Eb; [|done]. injection H as <-.
    destruct I. rewrite Ec in *. constructor; cbn; try done.
    + by rewrite <- ai_off0.
    + intros Hcl. by destruct (ai_closed0 Hcl).
    + intros _. apply Forall_forall. intros p Hp. by eapply forallb_forall in Eb; [|apply list_elem_of_In].
    + intros _. apply ai_drain0. by left.
  - assert (Hon : consumer s <> ConsumerOff) by (by destruct (consumer s)).
    assert (s' = set_cancelled s) as -> by (destruct (consumer s); congruence).
    destruct I. constructor; cbn; try done.
    + by left.
    + intros. eapply task_ok_mono; [by apply ai_tasks0|done].
Qed.

Lemma inv_reach n s : attempt_reach xpe fetch n s -> attempt_inv n s.
Proof. induction 1; [apply inv_start|by eapply inv_step]. Qed.
End Invariant.

(** ** Termination *)

Definition w_src (p : src_pc) : Z := match p with SrcSending b => 2 + 5 * len b | _ => 0 end.
Definition w_asking (p : src_pc) : Z := match p with SrcAsking => 1 | _ => 0 end.
Definition w_batch (b : list Peer) : Z := 1 + 5 * len b.
Definition w_task (t : Peer * task_pc) : Z := match t.2 with TaskWaiting => 3 | TaskFetching => 2 | TaskOffering _ => 1 | TaskDone _ => 0 end.
Definition w_main (xpe : list Peer) (m : main_pc) : Z :=
  match m with MainXpe => 10 + 5 * len xpe | MainSending => 8 + 5 * len xpe | MainStarting => 5 | MainWaiting => 1 | _ => 0 end.
Definition w_consumer (c : consumer_pc) : Z := match c with ConsumerOff => 3 | ConsumerLoop => 2 | ConsumerDraining => 1 | ConsumerDone => 0 end.

Definition asking (s : attempt) : Z := wsum w_asking (sources s).
Definition weight (xpe : list Peer) (s : attempt) : Z :=
  wsum w_src (sources s) + wsum w_batch (peerCh s) + wsum w_task (tasks s) + w_main xpe (main s) +
  w_consumer (consumer s) + (if peerCh_closed s then 0 else 1).

Section Termination.
Context (xpe : list Peer) (fetch : nat -> Peer -> result bytes TorrentFile).

Definition progress (s' s : attempt) : Prop := exists l, l <> Expire /\ attempt_step xpe fetch l s = Some s'.

Lemma asking_nonneg s : 0 <= asking s.
Proof. apply wsum_nonneg. by intros []. Qed.

Lemma weight_nonneg s : 0 <= weight xpe s.
Proof.
  unfold weight. pose proof (wsum_nonneg w_src (sources s)). pose proof (wsum_nonneg w_batch (peerCh s)).
  pose proof (wsum_nonneg w_task (tasks s)).
  assert (0 <= w_main xpe (main s)) by (destruct (main s); cbn; lia).
  assert (0 <= w_consumer (consumer s)) by (destruct (consumer s); cbn; lia).
  assert (0 <= wsum w_src (sources s)) by (apply H; intros []; cbn; lia).
  assert (0 <= wsum w_batch (peerCh s)) by (apply H0; intros; unfold w_batch; lia).
  assert (0 <= wsum w_task (tasks s)) by (apply H1; intros [? []]; cbn; lia).
  destruct (peerCh_closed s); lia.
Qed.

(** Every step but the end of the context asks one source less, or asks as many and does some work. *)
Lemma progress_decreases s' s : progress s' s -> asking s' < asking s \/ (asking s' = asking s /\ weight xpe s' < weight xpe s).
Proof.
  intros (l & Hl & H). unfold asking, weight. destruct l; cbn [attempt_step] in H; try done.
  - unfold source_answer in H. destruct (sources s !! i) as [[| |]|] eqn:Hi; try done.
    left. destruct (len ps =? 0); injection H as <-; cbn; rewrite (wsum_insert _ _ _ _ _ Hi); cbn; lia.
  - unfold source_send in H. destruct (sources s !! i) as [[|b|]|] eqn:Hi; try done.
    unfold send_batch in H. destruct (peerCh_closed s); [done|]. destruct (_ <? _); [|done]. injection H as <-. right. cbn.
    rewrite !(wsum_insert _ _ _ _ _ Hi), wsum_app. cbn. unfold w_batch. lia.
  - destruct (main s); try done. right. destruct (len xpe =? 0); injection H as <-; cbn; lia.
  - destruct (main s); try done. unfold send_batch in H. destruct (peerCh_closed s); [done|].
    destruct (_ <? _); [|done]. injection H as <-. right. cbn. rewrite wsum_app. cbn. unfold w_batch. lia.
  - destruct (main s); try done. injection H as <-. right. cbn. destruct (consumer s); cbn; lia.
  - right. assert (H' : peerCh_closed s = false /\ s' = set_peerCh (peerCh s) true s).
    { destruct (consumer s); [done|..]; destruct (peerCh_closed s), (forallb _ _); try done; by injection H as <-. }
    destruct H' as [-> ->]. cbn. lia.
  - destruct (consumer s) eqn:Ec; try done. destruct (peerCh s) as [|b ch]; [done|]. injection H as <-. right.
    cbn [set_tasks set_peerCh sources peerCh peerCh_closed tasks main consumer wsum]. rewrite Ec, wsum_app. assert (wsum w_task ((fun p => (p, TaskWaiting)) <$> b) = 3 * len b) as ->.
    { clear. induction b as [|p b IH]; [done|]. rewrite fmap_cons. cbn [wsum length]. rewrite IH. cbn. lia. }
    unfold w_batch. lia.
  - destruct (consumer s); try done. destruct (_ || _); [|done]. injection H as <-. right. cbn. lia.
  - destruct (consumer s); try done. destruct (forallb _ _); [|done]. injection H as <-. right. cbn. lia.
  - unfold task_step in H. destruct (tasks s !! i) as [[p [| |tf|e]]|] eqn:Hi; try done; right.
    + destruct (metaCancelled s); [|destruct (_ <? _); [|done]]; injection H as <-; cbn; rewrite (wsum_insert _ _ _ _ _ Hi); cbn; lia.
    + destruct (fetch i p); injection H as <-; cbn; rewrite (wsum_insert _ _ _ _ _ Hi); cbn; lia.
    + destruct (resultCh_closed s); [done|]. destruct (resultCh s); injection H as <-; cbn; rewrite (wsum_insert _ _ _ _ _ Hi); cbn; lia.
  - destruct (main s); try done. right. destruct (resultCh s); [|destruct (resultCh_closed s); [|done]]; injection H as <-; cbn; lia.
Qed.

Lemma progress_wf : well_founded progress.
Proof.
  intros s. remember (Z.to_nat (asking s)) as a eqn:Ha. revert s Ha.
  induction a as [a IHa] using lt_wf_ind. intros s Ha.
  remember (Z.to_nat (weight xpe s)) as w eqn:Hw. revert s Ha Hw.
  induction w as [w IHw] using lt_wf_ind. intros s -> ->. constructor. intros s' Hp.
  pose proof (asking_nonneg s'). pose proof (asking_nonneg s). pose proof (weight_nonneg s'). pose proof (weight_nonneg s).
  destruct (progress_decreases s' s Hp) as [Hlt|[Heq Hlt]].
  - eapply IHa; [|reflexivity]. lia.
  - eapply IHw; [|lia|reflexivity]. lia.
Qed.
End Termination.

(** ** Properties *)

Section Properties.
Context (xpe : list Peer) (fetch : nat -> Peer -> result bytes TorrentFile).

Lemma not_forallb {A} (f : A -> bool) l : forallb f l = false -> exists i x, l !! i = Some x /\ f x = false.
Proof.
  induction l as [|x l IH]; cbn; [done|]. intros [Hx|Hl]%andb_false_iff; [by exists 0%nat, x|].
  destruct (IH Hl) as (i & y & ? & ?). by exists (S i), y.
Qed.

(** A task that holds a slot can always go on. *)
Lemma holder_steps n s i p t : attempt_inv xpe fetch n s -> tasks s !! i = Some (p, t) -> holds_slot (p, t) = true ->
  exists s', task_step fetch i s = Some s'.
Proof.
  intros I Hi Hh. unfold task_step. rewrite Hi. destruct t as [| |tf|e]; try done.
  - destruct (fetch i p); eauto.
  - assert (Hc : resultCh_closed s = false).
    { destruct (resultCh_closed s) eqn:E; [|done]. apply (ai_result_closed _ _ _ _ I), (ai_done _ _ _ _ I) in E.
      rewrite Forall_lookup in E. apply E in Hi. done. }
    rewrite Hc. destruct (resultCh s); eauto.
Qed.

Lemma draining_progress n s : attempt_inv xpe fetch n s -> consumer s = ConsumerDraining -> exists s', progress xpe fetch s' s.
Proof.
  intros I Hc. destruct (forallb task_done (tasks s)) eqn:Ea.
  { eexists. exists CloseResult. split; [done|]. cbn. by rewrite Hc, Ea. }
  apply not_forallb in Ea as (i & [p t] & Hi & Hd).
  assert (Hgo : forall j q u, tasks s !! j = Some (q, u) -> holds_slot (q, u) = true -> exists s', progress xpe fetch s' s).
  { intros j q u Hj Hu. destruct (holder_steps n s j q u I Hj Hu) as [s' ?]. exists s', (TaskStep j). done. }
  destruct (holds_slot (p, t)) eqn:Eh; [by eapply Hgo|]. destruct t as [| | |]; try done.
  destruct (metaCancelled s) eqn:Em.
  { eexists. exists (TaskStep i). split; [done|]. cbn. unfold task_step. by rewrite Hi, Em. }
  destruct (Z.ltb_spec (slots_held s) metaSem_cap) as [Hl|Hl].
  { eexists. exists (TaskStep i). split; [done|]. cbn. unfold task_step. rewrite Hi, Em, (proj2 (Z.ltb_lt _ _)) by done. done. }
  unfold slots_held, metaSem_cap in Hl.
  destruct (filter (fun t => holds_slot t = true) (tasks s)) as [|[q u] l] eqn:Ef; [cbn in Hl; lia|].
  assert (Hin : (q, u) ∈ filter (fun t => holds_slot t = true) (tasks s)) by (rewrite Ef; left).
  apply list_elem_of_filter in Hin as [Hu Hin]. apply list_elem_of_lookup in Hin as [j Hj]. by eapply Hgo.
Qed.

Lemma loop_progress n s : attempt_inv xpe fetch n s -> consumer s = ConsumerLoop -> exists s', progress xpe fetch s' s.
Proof.
  intros I Hc. destruct (peerCh s) as [|b ch] eqn:Ech.
  2:{ eexists. exists TakeBatch. split; [done|]. cbn. by rewrite Hc, Ech. }
  destruct (peerCh_closed s) eqn:Ecl.
  { eexists. exists StopTaking. split; [done|]. cbn. rewrite Hc, Ecl, Ech. by rewrite orb_true_r. }
  destruct (forallb src_done (sources s)) eqn:Ea.
  { eexists. exists ClosePeerCh. split; [done|]. cbn. by rewrite Hc, Ecl, Ea. }
  apply not_forallb in Ea as (i & p & Hi & Hd). destruct p as [|b|]; [| |done].
  - eexists. exists (Answer i []). split; [done|]. cbn. unfold source_answer. by rewrite Hi.
  - eexists. exists (SendBatch i). split; [done|]. cbn. unfold source_send, send_batch. by rewrite Hi, Ecl, Ech.
Qed.

Lemma s_done_le l : wsum s_done l <= len l.
Proof. induction l as [|p l IH]; cbn [wsum length]; [done|]. unfold s_done at 1. destruct (src_done p); lia. Qed.

(** A round of metadata discovery always comes to an end. With fewer than ten trackers and DHT together,
    or without [x.pe] peers in the link, some goroutine can go on as long as the round has not returned,
    even if the context never ends; and no run takes infinitely many steps. *)
Lemma Attempt_returns n s : (xpe <> [] -> Z.of_nat n < peerCh_cap) -> attempt_reach xpe fetch n s ->
  (returned (main s) = false -> exists s', progress xpe fetch s' s) /\ Acc (progress xpe fetch) s.
Proof.
  intros Hn Hr. split; [|apply progress_wf]. apply inv_reach in Hr as I. intros Hm.
  destruct (main s) as [| | | |] eqn:Em; [| | | |done].
  - destruct (len xpe =? 0) eqn:Ex; eexists; exists AppendXpe; (split; [done|]); cbn; by rewrite Em, Ex.
  - assert (Hc : consumer s = ConsumerOff) by (by rewrite (ai_off _ _ _ _ I), Em).
    destruct (ai_fresh _ _ _ _ I Hc) as (_ & _ & _ & Hlen). rewrite Em in Hlen.
    pose proof (s_done_le (sources s)) as Hle. rewrite (ai_sources _ _ _ _ I) in Hle.
    assert (Hcl : peerCh_closed s = false).
    { destruct (peerCh_closed s) eqn:E; [|done]. by destruct (ai_closed _ _ _ _ I E). }
    assert (Hcap : len (peerCh s) < peerCh_cap).
    { specialize (Hn (ai_xpe _ _ _ _ I Em)). lia. }
    eexists. exists SendXpe. split; [done|]. cbn [attempt_step]. rewrite Em. unfold send_batch. rewrite Hcl, (proj2 (Z.ltb_lt _ _)) by done. done.
  - eexists. exists StartConsumer. split; [done|]. cbn. by rewrite Em.
  - assert (Hrecv : resultCh s <> None \/ resultCh_closed s = true -> exists s', progress xpe fetch s' s).
    { intros H. destruct (resultCh s) eqn:Er; eexists; exists ReceiveResult; (split; [done|]); cbn; rewrite Em, Er; [done|].
      destruct H as [H| ->]; done. }
    destruct (consumer s) eqn:Ec.
    + apply (ai_off _ _ _ _ I) in Ec. by rewrite Em in Ec.
    + by eapply loop_progress.
    + by eapply draining_progress.
    + apply Hrecv. right. by apply (ai_result_closed _ _ _ _ I).
Qed.

Lemma all_done_sum ts : Forall (fun t => task_done t = true) ts -> wsum t_succeeded ts = 0 -> wsum t_tried ts = wsum t_failed ts.
Proof.
  induction 1 as [|[p t] ts Ht _ IH]; cbn [wsum]; [done|]. intros Hs.
  assert (0 <= wsum t_succeeded ts) by (apply wsum_nonneg; by intros [? [| | |[]]]).
  destruct t as [| | |[]]; try done; cbn in *; rewrite IH by lia; lia.
Qed.

Lemma pending_done l : Forall (fun p => src_done p = true) l -> concat (pending <$> l) = [].
Proof. induction 1 as [|[| |] l Hp _ IH]; done. Qed.

(** What a round of metadata discovery returns. Metainfo comes from one of the peers found, and is what
    the fetch from that peer gave. When the round returns nothing, the counters it reports add up to the number of
    fetches; and unless the context had ended, every source had answered and the fetch from every peer found had failed.
    No goroutine sends on a closed channel, and no more than 100 fetches run at a time. *)
Lemma Attempt_outcome n s : attempt_reach xpe fetch n s ->
  slots_held s <= metaSem_cap /\
  (forall i b, sources s !! i = Some (SrcSending b) -> peerCh_closed s = false) /\
  (forall i p tf, tasks s !! i = Some (p, TaskOffering tf) -> resultCh_closed s = false) /\
  forall s', attempt_step xpe fetch ReceiveResult s = Some s' ->
    (exists tf i p, main s' = MainReturned (Some tf) (all_peers s) /\ p ∈ all_peers s /\ fetch i p = Ok tf) \/
    (main s' = MainReturned None (all_peers s) /\
     attempted (stat s) = dialFail (stat s) + noExt (stat s) + noMeta (stat s) + fetchFail (stat s) /\
     (metaCancelled s = false ->
       Forall (fun p => src_done p = true) (sources s) /\ all_peers s ≡ₚ (tasks s).*1 /\
       forall i p t, tasks s !! i = Some (p, t) -> exists msg, fetch i p = Err msg)).
Proof.
  intros I%inv_reach. split; [apply I|]. split_and!.
  - intros i b Hi. destruct (peerCh_closed s) eqn:E; [|done]. destruct (ai_closed _ _ _ _ I E) as [Hd _].
    by apply (not_all_done _ _ _ Hi) in Hd.
  - intros i p tf Hi. destruct (resultCh_closed s) eqn:E; [|done].
    apply (ai_result_closed _ _ _ _ I), (ai_done _ _ _ _ I) in E. rewrite Forall_lookup in E. by apply E in Hi.
  - intros s' H. cbn [attempt_step] in H. destruct (main s) eqn:Em; try done.
    destruct (resultCh s) as [tf|] eqn:Er.
    + injection H as <-. left. destruct (ai_result _ _ _ _ I tf Er) as (i & p & Hi & Hf). exists tf, i, p. split_and!; [done| |done].
      rewrite (ai_peers _ _ _ _ I), !elem_of_app. do 2 right. left. apply list_elem_of_fmap. exists (p, TaskDone Succeeded).
      split; [done|by eapply list_elem_of_lookup_2].
    + destruct (resultCh_closed s) eqn:Erc; [|done]. injection H as <-. right. split; [done|].
      apply (ai_result_closed _ _ _ _ I) in Erc. pose proof (ai_done _ _ _ _ I Erc) as Hd.
      assert (Hs : wsum t_succeeded (tasks s) = 0) by (apply (ai_succeeded _ _ _ _ I); [by rewrite Em|done]).
      split; [rewrite (ai_attempted _ _ _ _ I), (all_done_sum _ Hd Hs), <- (ai_failed _ _ _ _ I); done|].
      intros Hc. destruct (ai_drain _ _ _ _ I (or_intror Erc)) as [?|[Hcl Hch]]; [congruence|].
      destruct (ai_closed _ _ _ _ I Hcl) as [Hsrc _]. split_and!; [done| |].
      * by rewrite (ai_peers _ _ _ _ I), Hch, Em, (pending_done _ Hsrc), app_nil_r.
      * intros i p t Hi. pose proof (ai_tasks _ _ _ _ I _ _ Hi) as Hok. rewrite Forall_lookup in Hd. specialize (Hd _ _ Hi).
        apply wsum_zero in Hs; [|by intros [? [| | |[]]]]. rewrite Forall_lookup in Hs. specialize (Hs _ _ Hi).
        destruct t as [| | |[]]; try done; cbn in *; congruence.
Qed.
End Properties.

(** *** Concrete runs *)

Definition demo_addr (b : byte) : Peer := mkPeer [b; x08; x08; x08] 80.
Definition demo_fetch (good : byte) (i : nat) (p : Peer) : result bytes TorrentFile :=
  if bool_decide (IP_ p = IP_ (demo_addr good)) then Ok demo_tf else Err (lit "dial tcp: connection refused").

(** Two trackers; the second one's peer has the metadata. *)
Definition demo_round : list attempt_label :=
  [Answer 0 [demo_addr x01]; AppendXpe; SendBatch 0; StartConsumer; TakeBatch; TaskStep 0; Answer 1 [demo_addr x02];
   TaskStep 0; SendBatch 1; ClosePeerCh; TakeBatch; TaskStep 1; TaskStep 1].

Lemma run_reach xpe fetch n ls : forall s s', attempt_reach xpe fetch n s -> attempt_run xpe fetch ls s = Some s' -> attempt_reach xpe fetch n s'.
Proof.
  induction ls as [|l ls IH]; intros s s' Hr H; cbn in H; [by injection H as <-|].
  destruct (attempt_step xpe fetch l s) as [s1|] eqn:E; [|done]. eapply IH; [|done]. by eapply attempt_next.
Qed.

Definition demo_end (good : byte) (ls : list attempt_label) : attempt :=
  default (attempt_start 2) (attempt_run [] (demo_fetch good) ls (attempt_start 2)).

Lemma demo_reach good ls : is_Some (attempt_run [] (demo_fetch good) ls (attempt_start 2)) ->
  attempt_reach [] (demo_fetch good) 2 (demo_end good ls).
Proof. intros [s H]. unfold demo_end. rewrite H. cbn. eapply run_reach; [apply attempt_init|done]. Qed.

Lemma Attempt_outcome_witness :
  exists tf i p, main (demo_end x02 (demo_round ++ [TaskStep 1; ReceiveResult])) = MainReturned (Some tf) [demo_addr x01; demo_addr x02] /\
    p ∈ [demo_addr x01; demo_addr x02] /\ demo_fetch x02 i p = Ok tf.
Proof.
  pose proof (Attempt_outcome [] (demo_fetch x02) 2 (demo_end x02 (demo_round ++ [TaskStep 1]))) as H.
  destruct H as (_ & _ & _ & H); [apply demo_reach; vm_compute; eauto|].
  destruct (H (demo_end x02 (demo_round ++ [TaskStep 1; ReceiveResult]))) as [H1|[H1 _]]; [by vm_compute|exact H1|].
  vm_compute in H1. discriminate H1.
Defined.

Lemma Attempt_returns_witness : exists s', progress [] (demo_fetch x02) s' (demo_end x02 demo_round).
Proof.
  apply (Attempt_returns [] (demo_fetch x02) 2); [done|apply demo_reach; vm_compute; eauto|by vm_compute].
Defined.

(** With ten sources that all answer first, the send of the link's own peers blocks forever: the consumer
    that would empty the channel is started only after it, and the deadline only exists from then on. *)
Lemma xpe_send_deadlocks : exists s, attempt_reach [demo_addr x03] (demo_fetch x02) 10 s /\
  main s = MainSending /\ forall l, attempt_step [demo_addr x03] (demo_fetch x02) l s = None.
Proof.
  set (ls := (concat ((fun i => [Answer i [demo_addr x01]; SendBatch i]) <$> seq 0 10)) ++ [AppendXpe]).
  destruct (attempt_run [demo_addr x03] (demo_fetch x02) ls (attempt_start 10)) as [s|] eqn:E; [|by vm_compute in E].
  exists s. split; [eapply run_reach; [apply attempt_init|exact E]|]. vm_compute in E. injection E as <-. split; [done|].
  assert (Hd : forall i, replicate 10 SrcDone !! i = Some SrcDone \/ replicate 10 SrcDone !! i = None).
  { intros i. destruct (replicate 10 SrcDone !! i) eqn:E; [left|by right]. by apply lookup_replicate in E as [-> _]. }
  intros []; try done; cbn [attempt_step]; unfold source_answer, source_send; cbn [sources];
    match goal with |- context [?l !! ?i] => change l with (replicate 10 SrcDone); destruct (Hd i) as [-> | ->]; done end.
Qed.
