(* ===== verification/Lifecycle.v ===== *)
(** * The life of a torrent session ([engine/session.go]: [run] and its phases)

    The session's goroutine as a program counter over the session's fields.  A step is a section
    under the session's lock together with the writes around it that nothing else reads; the results of the
    search, the disk and the download are labels.  [Pause] takes two steps, because it sets the state after
    it has cancelled the context and released the lock.  The uploader's bitfield is the same slice as
    [haveBF], so it is one field here.  [registered] is whether the listener routes the info hash to this session. *)

From S2P Require Import Prelude Bitfield Torrent Paths Engine Magnet Queue Tracker Resolve Announcer.
Set Warnings "-clear-no-such-hyp".
Local Open Scope Z_scope.

(** ** Records *)

Definition with_name_data (name data : option bytes) (r : TorrentRecord) : TorrentRecord :=
  mkRecord (ID r) (default (Name_ r) name) (Source r) (SavePath r) (TotalBytes r) (State_ r) (QueuePosition r) (AddedAt r)
    (CompletedAt r) (default (TorrentData r) data) (Bitfield_ r) (FilePriorities r) (Error_ r) (KnownPeers r).
Definition with_savepath (p : bytes) (r : TorrentRecord) : TorrentRecord :=
  mkRecord (ID r) (Name_ r) (Source r) p (TotalBytes r) (State_ r) (QueuePosition r) (AddedAt r)
    (CompletedAt r) (TorrentData r) (Bitfield_ r) (FilePriorities r) (Error_ r) (KnownPeers r).
Definition with_total (n : Z) (r : TorrentRecord) : TorrentRecord :=
  mkRecord (ID r) (Name_ r) (Source r) (SavePath r) n (State_ r) (QueuePosition r) (AddedAt r)
    (CompletedAt r) (TorrentData r) (Bitfield_ r) (FilePriorities r) (Error_ r) (KnownPeers r).
Definition with_bitfield (bf : bytes) (r : TorrentRecord) : TorrentRecord :=
  mkRecord (ID r) (Name_ r) (Source r) (SavePath r) (TotalBytes r) (State_ r) (QueuePosition r) (AddedAt r)
    (CompletedAt r) (TorrentData r) bf (FilePriorities r) (Error_ r) (KnownPeers r).
Definition with_completed (now : Z) (r : TorrentRecord) : TorrentRecord :=
  mkRecord (ID r) (Name_ r) (Source r) (SavePath r) (TotalBytes r) (State_ r) (QueuePosition r) (AddedAt r)
    now (TorrentData r) (Bitfield_ r) (FilePriorities r) (Error_ r) (KnownPeers r).

(** ** State *)

Inductive run_error :=
  | Canceled | BadName (e : name_error) | Unresolved (e : resolve_error) | MkdirFailed | DownloadFailed (msg : bytes) | MoveFailed.

Inductive phase :=
  | Resolve_ | Resolving_ | Named | Checked | Peers_ | RunCheck
  | DownloadStart | Verifying_ | Ready (have : option Bitfield) | Downloading (path : bytes)
  | Moving (path : bytes) | Renaming (path : bytes) | Finish (path : bytes)
  | SeedDirect (path : bytes) | SeedStart | Seeding | SeedExit (complete : bool)
  | Ended (err : option run_error) | Exited
  | Overlapped.   (** a second goroutine was started while the first still ran: not followed further *)

Inductive sess_event :=
  | StateEvent (e : Event) | MetadataFetched (name : bytes) (numPieces totalBytes : Z) | FastresumeRejected (have expected : Z)
  | PieceComplete (index have total : Z) | FileCompleted (index : Z) (path : bytes) (size : Z) | StorageMoved (from to : bytes).

Record sess := mkSess {
  rec : TorrentRecord; meta : option TorrentFile; cachedPeers : list Peer; knownPeers : Z;
  prog : option Progress; uploader : option bytes; haveBF : option Bitfield;
  peerCh_set : bool; peerMgr_set : bool; pq_set : bool; completedFiles : gset Z;
  registered : bool; ctx_done : bool; cancel_set : bool; pausing : bool; published : list sess_event; at_ : phase
}.

Section Updates.
Implicit Types s : sess.
Definition on_rec (f : TorrentRecord -> TorrentRecord) s : sess :=
  mkSess (f (rec s)) (meta s) (cachedPeers s) (knownPeers s) (prog s) (uploader s) (haveBF s) (peerCh_set s) (peerMgr_set s)
    (pq_set s) (completedFiles s) (registered s) (ctx_done s) (cancel_set s) (pausing s) (published s) (at_ s).
Definition goto (p : phase) s : sess :=
  mkSess (rec s) (meta s) (cachedPeers s) (knownPeers s) (prog s) (uploader s) (haveBF s) (peerCh_set s) (peerMgr_set s)
    (pq_set s) (completedFiles s) (registered s) (ctx_done s) (cancel_set s) (pausing s) (published s) p.
Definition publish (evs : list sess_event) s : sess :=
  mkSess (rec s) (meta s) (cachedPeers s) (knownPeers s) (prog s) (uploader s) (haveBF s) (peerCh_set s) (peerMgr_set s)
    (pq_set s) (completedFiles s) (registered s) (ctx_done s) (cancel_set s) (pausing s) (published s ++ evs) (at_ s).
Definition with_meta (tf : TorrentFile) (ps : list Peer) s : sess :=
  mkSess (rec s) (Some tf) ps (knownPeers s) (prog s) (uploader s) (haveBF s) (peerCh_set s) (peerMgr_set s)
    (pq_set s) (completedFiles s) (registered s) (ctx_done s) (cancel_set s) (pausing s) (published s) (at_ s).
Definition with_peers (ps : list Peer) (known : Z) s : sess :=
  mkSess (rec s) (meta s) ps known (prog s) (uploader s) (haveBF s) (peerCh_set s) (peerMgr_set s)
    (pq_set s) (completedFiles s) (registered s) (ctx_done s) (cancel_set s) (pausing s) (published s) (at_ s).
Definition with_prog (p : Progress) s : sess :=
  mkSess (rec s) (meta s) (cachedPeers s) (knownPeers s) (Some p) (uploader s) (haveBF s) (peerCh_set s) (peerMgr_set s)
    (pq_set s) (completedFiles s) (registered s) (ctx_done s) (cancel_set s) (pausing s) (published s) (at_ s).
Definition with_uploader (u : option bytes) s : sess :=
  mkSess (rec s) (meta s) (cachedPeers s) (knownPeers s) (prog s) u (haveBF s) (peerCh_set s) (peerMgr_set s)
    (pq_set s) (completedFiles s) (registered s) (ctx_done s) (cancel_set s) (pausing s) (published s) (at_ s).
Definition with_have (bf : Bitfield) s : sess :=
  mkSess (rec s) (meta s) (cachedPeers s) (knownPeers s) (prog s) (uploader s) (Some bf) (peerCh_set s) (peerMgr_set s)
    (pq_set s) (completedFiles s) (registered s) (ctx_done s) (cancel_set s) (pausing s) (published s) (at_ s).
(** [peerCh], [peerMgr] and [pq]: nil or not. *)
Definition with_refs (pc pm pq : bool) s : sess :=
  mkSess (rec s) (meta s) (cachedPeers s) (knownPeers s) (prog s) (uploader s) (haveBF s) pc pm
    pq (completedFiles s) (registered s) (ctx_done s) (cancel_set s) (pausing s) (published s) (at_ s).
Definition with_files (c : gset Z) s : sess :=
  mkSess (rec s) (meta s) (cachedPeers s) (knownPeers s) (prog s) (uploader s) (haveBF s) (peerCh_set s) (peerMgr_set s)
    (pq_set s) c (registered s) (ctx_done s) (cancel_set s) (pausing s) (published s) (at_ s).
Definition with_registered (b : bool) s : sess :=
  mkSess (rec s) (meta s) (cachedPeers s) (knownPeers s) (prog s) (uploader s) (haveBF s) (peerCh_set s) (peerMgr_set s)
    (pq_set s) (completedFiles s) b (ctx_done s) (cancel_set s) (pausing s) (published s) (at_ s).
Definition with_ctx (d c p : bool) s : sess :=
  mkSess (rec s) (meta s) (cachedPeers s) (knownPeers s) (prog s) (uploader s) (haveBF s) (peerCh_set s) (peerMgr_set s)
    (pq_set s) (completedFiles s) (registered s) d c p (published s) (at_ s).
End Updates.

Definition sess_state (s : sess) : State := State_ (rec s).
Definition numPieces_of (tf : TorrentFile) : Z := len (PieceHashes (t_Info tf)).

(** [setState] with its events. *)
Definition set_state (st : State) (s : sess) : sess :=
  let '(new, evs) := setState st (sess_state s) in publish (StateEvent <$> evs) (on_rec (with_state new) s).

Definition seeding_state (st : State) : bool := match st with StateSeeding | StateComplete => true | _ => false end.

(** ** The phases *)

Section Phases.
Context (sha1 sha256 : bytes -> bytes).
(** The listener of the engine, if there is one; the directories. *)
Context (has_listener : bool) (downloadDir tmpDir : bytes).

(** [resolveMetadata] up to the change of state: stored data, a readable torrent file, or else a magnet link. *)
Definition enter_metadata (file : option bytes) (s : sess) : option sess :=
  match at_ s, meta s with
  | Resolve_, None =>
      if 0 <? len (TorrentData (rec s)) then None
      else match file with
           | Some data => if is_ok (Parse sha1 sha256 data) then None else Some (goto Resolving_ (set_state StateMetadata s))
           | None => Some (goto Resolving_ (set_state StateMetadata s))
           end
  | _, _ => None
  end.

(** The end of it, and the first part of [phaseResolve]. *)
Definition resolve_done (magnet : bool) (r : resolution) (s : sess) : option sess :=
  match r with
  | Resolved r =>
      let tf := r_tf r in
      Some (goto Named (publish [MetadataFetched (Name (t_Info tf)) (numPieces_of tf) (TotalSize tf)]
             (on_rec (with_name_data (r_name r) (r_data r))
               (with_meta tf (if magnet then r_peers r else cachedPeers s) s))))
  | ResolveError e => Some (goto (Ended (Some (Unresolved e))) s)
  | ResolveCancelled => if ctx_done s then Some (goto (Ended (Some Canceled)) s) else None
  | Resolving _ => None
  end.

(** After the change of state the source's file is not read again. *)
Definition resolve_meta (file : option bytes) (u : option URL) (rounds : list (option TorrentFile * list Peer * bool * bool)) (s : sess)
    : option sess :=
  match at_ s, meta s with
  | Resolve_, Some _ => Some (goto Named s)
  | Resolve_, None =>
      let '(r, magnet, _) := resolveMetadata sha1 sha256 (TorrentData (rec s)) file u rounds in
      if magnet then None else resolve_done false r s
  | Resolving_, None =>
      let '(r, magnet, _) := resolveMetadata sha1 sha256 (TorrentData (rec s)) None u rounds in
      if magnet then resolve_done true r s else None
  | _, _ => None
  end.

Definition check_name (s : sess) : option sess :=
  match at_ s, meta s with
  | Named, Some tf =>
      match sanitizeTorrentName (Name (t_Info tf)) with
      | Err e => Some (goto (Ended (Some (BadName e))) s)
      | Ok _ => Some (goto Checked s)
      end
  | _, _ => None
  end.

Definition choose_phase (s : sess) : option sess :=
  match at_ s with
  | Checked => if seeding_state (sess_state s) then Some (goto RunCheck s) else Some (goto Peers_ (set_state StateDownloading s))
  | _ => None
  end.

(** The end of [phaseResolve]; [found] is what [findPeers] returned ([None]: the context ended). *)
Definition peers_found (found : option (list Peer)) (s : sess) : option sess :=
  match at_ s with
  | Peers_ =>
      if 0 <? len (cachedPeers s) then Some (goto RunCheck (with_peers (cachedPeers s) (wraps 32 (len (cachedPeers s))) s))
      else match found with
           | Some ps => Some (goto RunCheck (with_peers ps (wraps 32 (len ps)) s))
           | None => if ctx_done s then Some (goto (Ended (Some Canceled)) s) else None
           end
  | _ => None
  end.

(** [run] between the phases; [exists_] is the result of [os.Stat]. *)
Definition run_check (exists_ : bool) (s : sess) : option sess :=
  match at_ s, meta s with
  | RunCheck, Some tf =>
      if seeding_state (sess_state s) && exists_ then
        let p := if bool_decide (SavePath (rec s) = []) then Join [downloadDir; Name (t_Info tf)] else SavePath (rec s) in
        Some (goto (SeedDirect p) (set_state StateSeeding (on_rec (with_savepath p) s)))
      else Some (goto DownloadStart s)
  | _, _ => None
  end.

(** *** [phaseDownload] *)

Definition dlDir : bytes := if bool_decide (tmpDir = []) then downloadDir else tmpDir.

Definition prepare (mkdir_ok : bool) (s : sess) : option sess :=
  match at_ s, meta s with
  | DownloadStart, Some tf =>
      if negb mkdir_ok then Some (goto (Ended (Some MkdirFailed)) s)
      else
        let bf := Bitfield_ (rec s) in
        let expected := (numPieces_of tf + 7) / 8 in
        if len bf =? expected then Some (goto (Ready (Some bf)) s)
        else
          let s := if 0 <? len bf then publish [FastresumeRejected (len bf) expected] s else s in
          Some (goto Verifying_ (set_state StateVerifying s))
  | _, _ => None
  end.

(** What [VerifyPieces] found. *)
Definition verified (bf : Bitfield) (n : Z) (s : sess) : option sess :=
  match at_ s with
  | Verifying_ => if 0 <? n then Some (goto (Ready (Some bf)) (on_rec (with_bitfield bf) s)) else Some (goto (Ready None) s)
  | _ => None
  end.

(** [copy(uploadBF, haveBitfield)] into a new bitfield. *)
Definition upload_bitfield (n : Z) (have : option Bitfield) : Bitfield :=
  let size := Z.to_nat ((n + 7) / 8) in
  match have with Some h => take size h ++ replicate (size - length h) x00 | None => replicate size x00 end.

(** The files the resumed bitfield covers. *)
Definition seed_completed (tf : TorrentFile) (have : option Bitfield) : gset Z :=
  match have with
  | None => ∅
  | Some bf => list_to_set (index <$> filter (fun fr => has_range bf fr = true) (computeFileRanges (Some tf)))
  end.

Definition begin_download (s : sess) : option sess :=
  match at_ s, meta s with
  | Ready have, Some tf =>
      let n := numPieces_of tf in
      let tl := TotalSize tf in
      let path := Join [dlDir; Name (t_Info tf)] in
      let s := on_rec (with_total tl) (with_prog (NewProgress n tl) (set_state StateDownloading s)) in
      let s := with_have (upload_bitfield n have) (with_uploader (Some path) (with_refs true (peerMgr_set s) (pq_set s) s)) in
      let s := with_files (seed_completed tf have) (with_peers [] (knownPeers s) (if has_listener then with_registered true s else s)) in
      Some (goto (Downloading path) s)
  | _, _ => None
  end.

(** [OnPiece]. *)
Definition on_piece (i : Z) (s : sess) : option sess :=
  match at_ s, meta s, haveBF s with
  | Downloading _, Some tf, Some bf =>
      let bf := (SetPiece bf i).2 in
      let '(done_, newly) := collectNewlyCompletedFiles (computeFileRanges (Some tf)) bf (completedFiles s) in
      let s := with_files done_ (on_rec (with_bitfield bf) (with_have bf s)) in
      Some (publish (PieceComplete i (popCount bf) (numPieces_of tf) ::
                       ((fun fr => FileCompleted (index fr) (path fr) (size fr)) <$> newly)) s)
  | _, _, _ => None
  end.

(** [OnPeerMgr] and [OnPieceQueue]. *)
Definition on_created (s : sess) : option sess :=
  match at_ s with Downloading _ => Some (with_refs (peerCh_set s) true true s) | _ => None end.

(** The counting of peers that arrive while the session runs. *)
Definition count_peers (n : Z) (s : sess) : option sess :=
  match at_ s with
  | Downloading _ | Seeding => Some (with_peers (cachedPeers s) (wraps 32 (knownPeers s + n)) s)
  | _ => None
  end.

(** [DownloadWithParams] returns and [cleanup] runs. *)
Definition download_over (err : option run_error) (s : sess) : option sess :=
  match at_ s with
  | Downloading path =>
      let s' := with_refs false (peerMgr_set s) false s in
      match err with
      | None => Some (goto (Moving path) s')
      | Some Canceled => if ctx_done s then Some (goto (Ended (Some Canceled)) s') else None
      | Some (DownloadFailed m) => Some (goto (Ended (Some (DownloadFailed m))) s')
      | Some _ => None
      end
  | _ => None
  end.

(** Out of the temporary directory: the uploader is detached and stopped before the rename. *)
Definition detach (s : sess) : option sess :=
  match at_ s, meta s with
  | Moving path, Some tf =>
      if negb (bool_decide (tmpDir = [])) && negb (bool_decide (path = Join [downloadDir; Name (t_Info tf)]))
      then Some (goto (Renaming path) (with_uploader None s))
      else Some (goto (Finish path) s)
  | _, _ => None
  end.

Definition rename (ok : bool) (s : sess) : option sess :=
  match at_ s, meta s with
  | Renaming path, Some tf =>
      let final := Join [downloadDir; Name (t_Info tf)] in
      if ok then Some (goto (Finish final) (with_uploader (Some final) (publish [StorageMoved path final] s)))
      else Some (goto (Ended (Some MoveFailed)) s)
  | _, _ => None
  end.

Definition all_set (n : Z) (bf : Bitfield) : Bitfield := foldl (fun bf i => (SetPiece bf i).2) bf (seqZ 0 n).

Definition finish (now : Z) (s : sess) : option sess :=
  match at_ s, meta s, haveBF s with
  | Finish path, Some tf, Some bf =>
      let s := with_have (all_set (numPieces_of tf) bf) s in
      Some (goto SeedStart (set_state StateSeeding (on_rec (fun r => with_savepath path (with_completed now r)) s)))
  | _, _, _ => None
  end.

(** *** Seeding *)

Definition seed_direct (s : sess) : option sess :=
  match at_ s, meta s with
  | SeedDirect path, Some tf =>
      let n := numPieces_of tf in
      let tl := TotalSize tf in
      let p := SetInitial n tl (PieceLength (t_Info tf)) (NewProgress n tl) in
      let s := on_rec (with_total tl) (with_prog p s) in
      let s := with_have (all_set n (new_bitfield n)) (with_uploader (Some path) s) in
      Some (goto SeedStart (if has_listener then with_registered true s else s))
  | _, _ => None
  end.

Definition seed_start (s : sess) : option sess := match at_ s with SeedStart => Some (goto Seeding s) | _ => None end.

Definition seed_end (s : sess) : option sess :=
  match at_ s with
  | Seeding =>
      if ctx_done s then
        let s := with_uploader None (with_refs (peerCh_set s) false false (if has_listener then with_registered false s else s)) in
        Some (goto (SeedExit (bool_decide (sess_state s = StateSeeding))) s)
      else None
  | _ => None
  end.

Definition seed_exit (s : sess) : option sess :=
  match at_ s with
  | SeedExit complete => Some (goto (Ended None) (if complete then set_state StateComplete s else s))
  | _ => None
  end.

(** The end of the goroutine in [Start]; [text] is the error's text. *)
Definition goroutine_exit (text : bytes) (s : sess) : option sess :=
  match at_ s with
  | Ended err =>
      let s := goto Exited (with_ctx true false (pausing s) s) in
      match err with
      | None | Some Canceled => Some s
      | Some _ =>
          let s' := on_rec (with_error text) s in
          Some (if bool_decide (sess_state s = StateError) then s' else set_state StateError s')
      end
  | _ => None
  end.

(** *** [Pause], from another goroutine; the engine's shutdown *)

Definition pausable (st : State) : bool :=
  match st with StateDownloading | StateMetadata | StateSeeding | StateVerifying | StateAdding => true | _ => false end.

Definition pause_cancel (s : sess) : option sess :=
  Some (with_ctx (ctx_done s || cancel_set s) false (pausing s || pausable (sess_state s)) s).
Definition pause_state (s : sess) : option sess :=
  if pausing s then Some (set_state StatePaused (with_ctx (ctx_done s) (cancel_set s) false s)) else None.
(** [ResumeTorrent], and the [Start] that follows at once or from the queue.  Nothing makes it wait for the goroutine of
    the previous [Start]: when that has not ended, two goroutines run on the same session. *)
Definition resume (s : sess) : option sess :=
  match sess_state s with StatePaused | StateError => Some (set_state StateAdding (on_rec (with_error []) s)) | _ => None end.
Definition start_again (s : sess) : option sess :=
  match sess_state s, at_ s with
  | StateAdding, Exited => Some (goto Resolve_ (with_ctx false true (pausing s) s))
  | StateAdding, Overlapped => None
  | StateAdding, _ => Some (goto Overlapped s)
  | _, _ => None
  end.
Definition shutdown (s : sess) : option sess := Some (with_ctx true (cancel_set s) (pausing s) s).

(** ** Runs *)

Inductive sess_label :=
  | LEnterMetadata (file : option bytes)
  | LResolve (file : option bytes) (u : option URL) (rounds : list (option TorrentFile * list Peer * bool * bool))
  | LCheckName | LChoose | LPeers (found : option (list Peer)) | LRunCheck (exists_ : bool)
  | LPrepare (mkdir_ok : bool) | LVerified (bf : Bitfield) (n : Z) | LBegin | LPiece (i : Z) | LCreated | LCount (n : Z)
  | LDownloadOver (err : option run_error) | LDetach | LRename (ok : bool) | LFinish (now : Z)
  | LSeedDirect | LSeedStart | LSeedEnd | LSeedExit | LExit (text : bytes) | LPauseCancel | LPauseState | LResume | LStartAgain | LShutdown.

Definition sess_step (l : sess_label) (s : sess) : option sess :=
  match l with
  | LEnterMetadata file => enter_metadata file s
  | LResolve file u rounds => resolve_meta file u rounds s
  | LCheckName => check_name s
  | LChoose => choose_phase s
  | LPeers found => peers_found found s
  | LRunCheck e => run_check e s
  | LPrepare ok => prepare ok s
  | LVerified bf n => verified bf n s
  | LBegin => begin_download s
  | LPiece i => on_piece i s
  | LCreated => on_created s
  | LCount n => count_peers n s
  | LDownloadOver err => download_over err s
  | LDetach => detach s
  | LRename ok => rename ok s
  | LFinish now => finish now s
  | LSeedDirect => seed_direct s
  | LSeedStart => seed_start s
  | LSeedEnd => seed_end s
  | LSeedExit => seed_exit s
  | LExit text => goroutine_exit text s
  | LPauseCancel => pause_cancel s
  | LPauseState => pause_state s
  | LResume => resume s
  | LStartAgain => start_again s
  | LShutdown => shutdown s
  end.

(** [NewSession] and [Start]: the record as stored. *)
Definition session_start (r : TorrentRecord) : sess :=
  mkSess r None [] (KnownPeers r) None None None false false false ∅ false false true false [] Resolve_.

Inductive sess_reach (r : TorrentRecord) : sess -> Prop :=
  | sess_init : sess_reach r (session_start r)
  | sess_next s l s' : sess_reach r s -> sess_step l s = Some s' -> sess_reach r s'.

Fixpoint sess_run (ls : list sess_label) (s : sess) : option sess :=
  match ls with [] => Some s | l :: ls => s ← sess_step l s; sess_run ls s end.

(** [Session.HandleIncoming]: whether the connection is handed to an uploader. *)
Definition accepts_incoming (s : sess) : bool := registered s && bool_decide (is_Some (uploader s)).
End Phases.
