(* ===== verification/LifecycleTheorems.v ===== *)
(** * Properties of the session's life *)

From S2P Require Import Prelude Bitfield Torrent Paths Engine EngineTheorems Magnet Queue Tracker Resolve Announcer Lifecycle.
Set Warnings "-clear-no-such-hyp".
Local Open Scope Z_scope.

(** ** Bitfields *)

Lemma set_many_length l : forall bf, length (foldl (fun bf i => (SetPiece bf i).2) bf l) = length bf.
Proof. induction l as [|i l IH]; intros bf; cbn [foldl]; [done|]. by rewrite IH, SetPiece_length. Qed.

Lemma set_many_has l : forall bf j, HasPiece (foldl (fun bf i => (SetPiece bf i).2) bf l) j = true <->
  HasPiece bf j = true \/ (j ∈ l /\ 0 <= j < 8 * len bf).
Proof.
  induction l as [|i l IH]; intros bf j; cbn [foldl]; [set_solver|].
  rewrite IH, HasPiece_SetPiece, SetPiece_length, orb_true_iff, andb_true_iff, SetPiece_flag, Z.eqb_eq, elem_of_cons.
  naive_solver.
Qed.

Lemma all_set_full n bf j : n <= 8 * len bf -> 0 <= j < n -> HasPiece (all_set n bf) j = true.
Proof. intros Hn Hj. apply set_many_has. right. split; [apply elem_of_seqZ; lia|lia]. Qed.

Lemma upload_bitfield_length n have : 0 <= n -> len (upload_bitfield n have) = (n + 7) / 8.
Proof.
  intros Hn. pose proof (Z.div_pos (n + 7) 8 ltac:(lia) ltac:(lia)). unfold upload_bitfield.
  destruct have as [h|]; rewrite ?length_app, ?length_take, ?length_replicate; lia.
Qed.

Lemma upload_bitfield_room n have : 0 <= n -> n <= 8 * len (upload_bitfield n have).
Proof.
  intros Hn. rewrite upload_bitfield_length by done.
  pose proof (Z.div_mod (n + 7) 8 ltac:(lia)). pose proof (Z.mod_pos_bound (n + 7) 8 ltac:(lia)). lia.
Qed.

Lemma set_state_frame st s :
  meta (set_state st s) = meta s /\ uploader (set_state st s) = uploader s /\ haveBF (set_state st s) = haveBF s /\
  registered (set_state st s) = registered s /\ pq_set (set_state st s) = pq_set s /\ peerCh_set (set_state st s) = peerCh_set s /\
  peerMgr_set (set_state st s) = peerMgr_set s /\ ctx_done (set_state st s) = ctx_done s /\ at_ (set_state st s) = at_ s /\
  SavePath (rec (set_state st s)) = SavePath (rec s) /\ TorrentData (rec (set_state st s)) = TorrentData (rec s) /\
  Bitfield_ (rec (set_state st s)) = Bitfield_ (rec s) /\ cachedPeers (set_state st s) = cachedPeers s /\
  completedFiles (set_state st s) = completedFiles s /\ sess_state (set_state st s) = st.
Proof.
  unfold set_state. destruct (setState st (sess_state s)) as [new evs] eqn:E. split_and!; try done.
  cbn. unfold setState in E. case_bool_decide; by injection E as <- <-.
Qed.

Create HintDb lifecycle.
Create Rewrite HintDb lifecycle.

Section Frames.
Context (st : State) (s : sess).
Let F := set_state_frame st s.
Lemma ss_meta : meta (set_state st s) = meta s. Proof. apply F. Qed.
Lemma ss_uploader : uploader (set_state st s) = uploader s. Proof. apply F. Qed.
Lemma ss_have : haveBF (set_state st s) = haveBF s. Proof. apply F. Qed.
Lemma ss_registered : registered (set_state st s) = registered s. Proof. apply F. Qed.
Lemma ss_pq : pq_set (set_state st s) = pq_set s. Proof. apply F. Qed.
Lemma ss_peerCh : peerCh_set (set_state st s) = peerCh_set s. Proof. apply F. Qed.
Lemma ss_peerMgr : peerMgr_set (set_state st s) = peerMgr_set s. Proof. apply F. Qed.
Lemma ss_ctx : ctx_done (set_state st s) = ctx_done s. Proof. apply F. Qed.
Lemma ss_at : at_ (set_state st s) = at_ s. Proof. apply F. Qed.
Lemma ss_savepath : SavePath (rec (set_state st s)) = SavePath (rec s). Proof. apply F. Qed.
Lemma ss_data : TorrentData (rec (set_state st s)) = TorrentData (rec s). Proof. apply F. Qed.
Lemma ss_bitfield : Bitfield_ (rec (set_state st s)) = Bitfield_ (rec s). Proof. apply F. Qed.
Lemma ss_state : sess_state (set_state st s) = st. Proof. apply F. Qed.
End Frames.
#[export] Hint Rewrite ss_meta ss_uploader ss_have ss_registered ss_pq ss_peerCh ss_peerMgr ss_ctx ss_at ss_savepath ss_data
  ss_bitfield ss_state : lifecycle.

(** ** The invariant *)

Section Invariant.
Context (sha1 sha256 : bytes -> bytes) (has_listener : bool) (downloadDir tmpDir : bytes).

Definition downloads_at (tf : TorrentFile) : bytes := Join [dlDir downloadDir tmpDir; Name (t_Info tf)].
Definition final_at (tf : TorrentFile) : bytes := Join [downloadDir; Name (t_Info tf)].

(** The bitfield has one bit for every piece. *)
Definition sized (tf : TorrentFile) (bf : option Bitfield) : Prop :=
  exists b, bf = Some b /\ len b = (numPieces_of tf + 7) / 8.
Definition full (tf : TorrentFile) (bf : option Bitfield) : Prop :=
  exists b, bf = Some b /\ forall j, 0 <= j < numPieces_of tf -> HasPiece b j = true.

(** What holds in each phase. *)
Definition phase_ok (s : sess) : Prop :=
  match at_ s with
  | Resolve_ | Ended (Some _) | Exited | Overlapped => True
  | Resolving_ => meta s = None /\ TorrentData (rec s) = []
  | Named | Checked | Peers_ | RunCheck | DownloadStart | Verifying_ | Ready _ => is_Some (meta s)
  | Downloading p | Moving p => exists tf, meta s = Some tf /\ p = downloads_at tf /\ uploader s = Some p /\ sized tf (haveBF s) /\
      registered s = has_listener
  | Renaming p => exists tf, meta s = Some tf /\ p = downloads_at tf /\ uploader s = None /\ sized tf (haveBF s) /\ registered s = has_listener
  | Finish p => exists tf, meta s = Some tf /\ p = final_at tf /\ uploader s = Some p /\ sized tf (haveBF s) /\ registered s = has_listener
  | SeedDirect p => is_Some (meta s) /\ SavePath (rec s) = p
  | SeedStart | Seeding => exists tf, meta s = Some tf /\ uploader s = Some (SavePath (rec s)) /\ full tf (haveBF s) /\ registered s = has_listener
  | SeedExit _ | Ended None => uploader s = None /\ registered s = false
  end.

Record sess_inv (s : sess) : Prop := {
  sn_phase : phase_ok s;
  sn_pq : pq_set s = true -> exists p, at_ s = Downloading p;
  sn_peerCh : peerCh_set s = true -> exists p, at_ s = Downloading p;
  sn_registered : registered s = true -> has_listener = true
}.

Ltac life := cbn; autorewrite with lifecycle; cbn.

(** A step that keeps the references and only moves on. *)
Lemma inv_goto s s' : sess_inv s -> (forall p, at_ s <> Downloading p) -> phase_ok s' ->
  pq_set s' = pq_set s -> peerCh_set s' = peerCh_set s -> (registered s' = registered s \/ registered s' = has_listener \/ registered s' = false) ->
  sess_inv s'.
Proof.
  intros I Hat Hok Hpq Hpc Hreg. constructor; [done| | |].
  - rewrite Hpq. intros H. destruct (sn_pq _ I H) as [p Hp]. by destruct (Hat p).
  - rewrite Hpc. intros H. destruct (sn_peerCh _ I H) as [p Hp]. by destruct (Hat p).
  - destruct Hreg as [-> |[-> | ->]]; [apply I|done|done].
Qed.

Lemma inv_resolve_done magnet r s s' : sess_inv s -> (forall p, at_ s <> Downloading p) -> resolve_done magnet r s = Some s' -> sess_inv s'.
Proof.
  intros I Hat H. unfold resolve_done in H. destruct r as [r|e| |b].
  - injection H as <-. eapply inv_goto; eauto; cbn; eauto.
  - injection H as <-. eapply inv_goto; eauto; cbn; eauto.
  - destruct (ctx_done s); [|done]. injection H as <-. eapply inv_goto; eauto; cbn; eauto.
  - done.
Qed.

Lemma inv_resolving l s s' : sess_inv s ->
  match l with LEnterMetadata _ | LResolve _ _ _ | LCheckName | LChoose | LPeers _ | LRunCheck _ | LPrepare _ | LVerified _ _ => True | _ => False end ->
  sess_step sha1 sha256 has_listener downloadDir tmpDir l s = Some s' -> sess_inv s'.
Proof.
  intros I Hl H. pose proof (sn_phase _ I) as Hok. unfold phase_ok in Hok.
  destruct l; try done; cbn [sess_step] in H.
  - unfold enter_metadata in H. destruct (at_ s) eqn:Ea; try done. destruct (meta s) eqn:Em; [done|].
    destruct (Z.ltb_spec 0 (len (TorrentData (rec s)))); [done|].
    assert (Hs : s' = goto Resolving_ (set_state StateMetadata s)) by (repeat case_match; congruence). subst s'.
    eapply inv_goto; [exact I|congruence|..]; unfold phase_ok; life; eauto. split; [done|].
    destruct (TorrentData (rec s)); [done|cbn in *; lia].
  - unfold resolve_meta in H. destruct (at_ s) eqn:Ea; try done; destruct (meta s) eqn:Em; try done.
    + injection H as <-. eapply inv_goto; [exact I|congruence|..]; unfold phase_ok; life; rewrite ?Em; eauto.
    + destruct (resolveMetadata _ _ _ _ _ _) as [[r []] evs]; [done|]. eapply inv_resolve_done; [exact I|congruence|done].
    + destruct (resolveMetadata _ _ _ _ _ _) as [[r []] evs]; [|done]. eapply inv_resolve_done; [exact I|congruence|done].
  - unfold check_name in H. destruct (at_ s) eqn:Ea; try done. destruct (meta s) eqn:Em; [|done].
    destruct (sanitizeTorrentName _); injection H as <-; (eapply inv_goto; [exact I|congruence|..]; unfold phase_ok; life; rewrite ?Em; eauto).
  - unfold choose_phase in H. destruct (at_ s) eqn:Ea; try done.
    destruct (seeding_state _); injection H as <-; (eapply inv_goto; [exact I|congruence|..]; unfold phase_ok; life; eauto).
  - unfold peers_found in H. destruct (at_ s) eqn:Ea; try done.
    destruct (0 <? _); [|destruct found; [|destruct (ctx_done s); [|done]]]; injection H as <-;
      (eapply inv_goto; [exact I|congruence|..]; unfold phase_ok; life; eauto).
  - unfold run_check in H. destruct (at_ s) eqn:Ea; try done. destruct (meta s) eqn:Em; [|done].
    destruct (_ && _); injection H as <-; (eapply inv_goto; [exact I|congruence|..]; unfold phase_ok; life; rewrite ?Em; eauto).
  - unfold prepare in H. destruct (at_ s) eqn:Ea; try done. destruct (meta s) eqn:Em; [|done].
    destruct (negb _); [injection H as <-; (eapply inv_goto; [exact I|congruence|..]; unfold phase_ok; life; eauto)|].
    destruct (_ =? _); [injection H as <-; (eapply inv_goto; [exact I|congruence|..]; unfold phase_ok; life; rewrite ?Em; eauto)|].
    destruct (0 <? _); injection H as <-; (eapply inv_goto; [exact I|congruence|..]; unfold phase_ok; life; rewrite ?Em; eauto).
  - unfold verified in H. destruct (at_ s) eqn:Ea; try done.
    destruct (0 <? _); injection H as <-; (eapply inv_goto; [exact I|congruence|..]; unfold phase_ok; life; eauto).
Qed.
Lemma full_all_set tf bf : 0 <= numPieces_of tf -> len bf = (numPieces_of tf + 7) / 8 ->
  full tf (Some (all_set (numPieces_of tf) bf)).
Proof.
  intros Hn Hl. eexists. split; [done|]. intros j Hj. apply all_set_full; [|done]. rewrite Hl.
  pose proof (Z.div_mod (numPieces_of tf + 7) 8 ltac:(lia)). pose proof (Z.mod_pos_bound (numPieces_of tf + 7) 8 ltac:(lia)). lia.
Qed.

Lemma numPieces_nonneg tf : 0 <= numPieces_of tf.
Proof. unfold numPieces_of. lia. Qed.

(** The path of the download is the final path when there is nothing to move. *)
Lemma no_move tf : negb (bool_decide (tmpDir = [])) && negb (bool_decide (downloads_at tf = final_at tf)) = false ->
  downloads_at tf = final_at tf.
Proof.
  unfold downloads_at, final_at, dlDir. case_bool_decide; [done|]. intros Hm. cbn in Hm.
  apply negb_false_iff, bool_decide_eq_true in Hm. done.
Qed.

Lemma inv_downloading l s s' : sess_inv s ->
  match l with LBegin | LPiece _ | LCreated | LCount _ | LDownloadOver _ | LDetach | LRename _ | LFinish _ => True | _ => False end ->
  sess_step sha1 sha256 has_listener downloadDir tmpDir l s = Some s' -> sess_inv s'.
Proof.
  intros I Hl H. pose proof (sn_phase _ I) as Hok. unfold phase_ok in Hok.
  destruct l; try done; cbn [sess_step] in H.
  - unfold begin_download in H. destruct (at_ s) eqn:Ea; try done. destruct (meta s) as [tf|] eqn:Em; [|done]. injection H as <-.
    constructor; [unfold phase_ok| | |]; cbn; eauto; destruct has_listener eqn:Eh; life; eauto.
    + exists tf. rewrite Em. split_and!; [done..| |done]. eexists. split; [done|]. apply upload_bitfield_length, numPieces_nonneg.
    + exists tf. rewrite Em. split_and!; [done..| |]; [eexists; split; [done|]; apply upload_bitfield_length, numPieces_nonneg|].
      destruct (registered s) eqn:Er; [|done]. apply (sn_registered _ I) in Er. congruence.
    + intros Er. apply (sn_registered _ I) in Er. congruence.
  - unfold on_piece in H. destruct (at_ s) eqn:Ea; try done. destruct (meta s) as [tf|] eqn:Em; [|done].
    destruct (haveBF s) as [bf|] eqn:Eb; [|done]. destruct (collectNewlyCompletedFiles _ _ _) as [done_ newly]. injection H as <-.
    destruct Hok as (tf' & [= <-] & -> & Hu & (b & [= <-] & Hb) & Hr).
    constructor; [unfold phase_ok| | |]; cbn; rewrite ?Ea; eauto using sn_registered.
    exists tf. rewrite Em. split_and!; try done. eexists. split; [done|]. by rewrite SetPiece_length.
  - unfold on_created in H. destruct (at_ s) eqn:Ea; try done. injection H as <-.
    constructor; [unfold phase_ok| | |]; cbn; rewrite ?Ea; eauto using sn_registered.
  - unfold count_peers in H. assert (Hs : s' = with_peers (cachedPeers s) (wraps 32 (knownPeers s + n)) s) by (destruct (at_ s); congruence).
    subst s'. constructor; [exact (sn_phase _ I)|exact (sn_pq _ I)|exact (sn_peerCh _ I)|exact (sn_registered _ I)].
  - unfold download_over in H. destruct (at_ s) eqn:Ea; try done.
    assert (Hs : s' = goto (Moving path) (with_refs false (peerMgr_set s) false s) \/
                 exists e, s' = goto (Ended (Some e)) (with_refs false (peerMgr_set s) false s)).
    { destruct err as [[]|]; try done; [destruct (ctx_done s); [|done]|..]; injection H as <-; eauto. }
    destruct Hs as [-> |[e ->]]; constructor; cbn; try done; apply I.
  - unfold detach in H. destruct (at_ s) eqn:Ea; try done. destruct (meta s) as [tf|] eqn:Em; [|done].
    destruct Hok as (tf' & [= <-] & -> & Hu & Hb & Hr).
    fold (final_at tf) in H. destruct (_ && _) eqn:E; injection H as <-; (eapply inv_goto; [exact I|congruence|..]; unfold phase_ok; cbn; eauto).
    + by exists tf.
    + exists tf. split_and!; [done|by apply no_move|done..].
  - unfold rename in H. destruct (at_ s) eqn:Ea; try done. destruct (meta s) as [tf|] eqn:Em; [|done].
    destruct Hok as (tf' & [= <-] & -> & Hu & Hb & Hr).
    destruct ok; injection H as <-; (eapply inv_goto; [exact I|congruence|..]; unfold phase_ok; cbn; eauto). by exists tf.
  - unfold finish in H. destruct (at_ s) eqn:Ea; try done. destruct (meta s) as [tf|] eqn:Em; [|done].
    destruct (haveBF s) as [bf|] eqn:Eb; [|done]. injection H as <-.
    destruct Hok as (tf' & [= <-] & -> & Hu & (b & [= <-] & Hb) & Hr).
    eapply inv_goto; [exact I|congruence|..]; unfold phase_ok; life; eauto. exists tf. split_and!; [done|done| |done].
    apply full_all_set; [apply numPieces_nonneg|done].
Qed.

Lemma inv_seeding l s s' : sess_inv s ->
  match l with LSeedDirect | LSeedStart | LSeedEnd | LSeedExit | LExit _ => True | _ => False end ->
  sess_step sha1 sha256 has_listener downloadDir tmpDir l s = Some s' -> sess_inv s'.
Proof.
  intros I Hl H. pose proof (sn_phase _ I) as Hok. unfold phase_ok in Hok. pose proof (sn_registered _ I) as Hreg.
  destruct l; try done; cbn [sess_step] in H.
  - unfold seed_direct in H. destruct (at_ s) eqn:Ea; try done. destruct (meta s) as [tf|] eqn:Em; [|done]. injection H as <-.
    destruct Hok as [_ Hp].
    assert (Hf : full tf (Some (all_set (numPieces_of tf) (new_bitfield (numPieces_of tf))))).
    { apply full_all_set; [apply numPieces_nonneg|]. pose proof (upload_bitfield_length (numPieces_of tf) None (numPieces_nonneg tf)). done. }
    eapply inv_goto; [exact I|congruence|..]; unfold phase_ok; destruct has_listener eqn:Eh; cbn; eauto; exists tf; rewrite Hp; split_and!; try done.
    destruct (registered s); [by specialize (Hreg eq_refl)|done].
  - unfold seed_start in H. destruct (at_ s) eqn:Ea; try done. injection H as <-.
    eapply inv_goto; [exact I|congruence|..]; unfold phase_ok; cbn; eauto.
  - unfold seed_end in H. destruct (at_ s) eqn:Ea; try done. destruct (ctx_done s); [|done]. injection H as <-.
    constructor; [unfold phase_ok| | |]; destruct has_listener eqn:Eh; cbn; try done.
    + split; [done|]. destruct (registered s); [by specialize (Hreg eq_refl)|done].
    + intros Hc. destruct (sn_peerCh _ I Hc) as [? ?]. congruence.
    + intros Hc. destruct (sn_peerCh _ I Hc) as [? ?]. congruence.
  - unfold seed_exit in H. destruct (at_ s) eqn:Ea; try done. injection H as <-.
    destruct complete; (eapply inv_goto; [exact I|congruence|..]; unfold phase_ok; life; eauto).
  - unfold goroutine_exit in H. destruct (at_ s) eqn:Ea; try done.
    set (s0 := goto Exited _) in H.
    assert (Hs : s' = s0 \/ s' = on_rec (with_error text) s0 \/ s' = set_state StateError (on_rec (with_error text) s0)).
    { destruct err as [[]|]; try (case_bool_decide); injection H as <-; auto. }
    clear H. subst s0. destruct Hs as [-> |[-> | ->]]; (eapply inv_goto; [exact I|congruence|..]; unfold phase_ok; life; by eauto).
Qed.

(** A change of the context or of the state alone. *)
Lemma inv_ctx d c p s : sess_inv s -> sess_inv (with_ctx d c p s).
Proof. intros [? ? ? ?]. by constructor. Qed.

Lemma inv_set_state st s : sess_inv s -> sess_inv (set_state st s).
Proof.
  intros [Hp Hq Hc Hr]. constructor; life; eauto. unfold phase_ok in *. life. destruct (at_ s); life; done.
Qed.

Lemma inv_sess_step l s s' : sess_inv s -> sess_step sha1 sha256 has_listener downloadDir tmpDir l s = Some s' ->
  at_ s' <> Overlapped -> sess_inv s'.
Proof.
  intros I H Ho. destruct l; try (by eapply inv_resolving; [exact I| |exact H]);
    try (by eapply inv_downloading; [exact I| |exact H]); try (by eapply inv_seeding; [exact I| |exact H]);
    cbn [sess_step] in H.
  - unfold pause_cancel in H. injection H as <-. by apply inv_ctx.
  - unfold pause_state in H. destruct (pausing s); [|done]. injection H as <-. by apply inv_set_state, inv_ctx.
  - unfold resume in H.
    assert (s' = set_state StateAdding (on_rec (with_error []) s)) as -> by (destruct (sess_state s); congruence).
    apply inv_set_state. by destruct I.
  - unfold start_again in H.
    assert (at_ s = Exited /\ s' = goto Resolve_ (with_ctx false true (pausing s) s)) as [Ea ->].
    { destruct (sess_state s); try done. destruct (at_ s); simplify_eq; done. }
    eapply inv_goto; [exact I|congruence|..]; unfold phase_ok; cbn; eauto.
  - unfold shutdown in H. injection H as <-. by apply inv_ctx.
Qed.

(** Two goroutines on one session: what the model says of it ends here. *)
Lemma overlapped_stays l s s' : at_ s = Overlapped -> sess_step sha1 sha256 has_listener downloadDir tmpDir l s = Some s' -> at_ s' = Overlapped.
Proof.
  intros Ha H. destruct l; cbn [sess_step] in H;
    unfold enter_metadata, resolve_meta, check_name, choose_phase, peers_found, run_check, prepare, verified, begin_download, on_piece,
      on_created, count_peers, download_over, detach, rename, finish, seed_direct, seed_start, seed_end, seed_exit, goroutine_exit, pause_cancel,
      pause_state, resume, start_again, shutdown in H; rewrite ?Ha in H; try done.
  - injection H as <-. done.
  - destruct (pausing s); [|done]. injection H as <-. by rewrite ss_at.
  - assert (s' = set_state StateAdding (on_rec (with_error []) s)) as -> by (destruct (sess_state s); congruence). by rewrite ss_at.
  - by destruct (sess_state s).
  - injection H as <-. done.
Qed.

Lemma reach_inv r s : sess_reach sha1 sha256 has_listener downloadDir tmpDir r s -> at_ s <> Overlapped -> sess_inv s.
Proof.
  induction 1 as [|s l s' _ IH Hs]; intros Ho; [by constructor|].
  eapply inv_sess_step; [apply IH|exact Hs|done]. intros Ha. by apply Ho, (overlapped_stays l s).
Qed.

Lemma sess_reach_run r ls : forall s s', sess_reach sha1 sha256 has_listener downloadDir tmpDir r s ->
  sess_run sha1 sha256 has_listener downloadDir tmpDir ls s = Some s' -> sess_reach sha1 sha256 has_listener downloadDir tmpDir r s'.
Proof.
  induction ls as [|l ls IH]; intros s s' Hr H; cbn [sess_run] in H; [by injection H as <-|].
  destruct (sess_step _ _ _ _ _ l s) as [s1|] eqn:E; [|done]. eapply IH; [|exact H]. by eapply sess_next.
Qed.

(** C7: what holds in every phase of a session, whatever the network, the disk and the user do, as long as no second
    goroutine was started on it while the first still ran (which the engine does not exclude). While it
    downloads, the uploader serves the file being written from a bitfield with room for every piece; when the download is
    over and while it seeds, it serves the file at the recorded path, which after a download is in the download
    directory, and claims every piece; the listener routes to it exactly in these phases and not after a regular end.
    The piece queue and the peer channel exist only while it downloads. *)
Theorem Session_invariant r s : sess_reach sha1 sha256 has_listener downloadDir tmpDir r s -> at_ s <> Overlapped -> sess_inv s.
Proof.
  induction 1 as [|s l s' _ IH Hs]; intros Ho; [by constructor|].
  eapply inv_sess_step; [apply IH|exact Hs|done]. intros Ha. by apply Ho, (overlapped_stays l s).
Qed.
End Invariant.

(** ** Pausing keeps the pieces *)

Definition in_download (l : sess_label) : bool :=
  match l with LPiece _ | LCreated | LCount _ | LPauseCancel | LPauseState | LShutdown => true | _ => false end.
Definition pieces_of (ls : list sess_label) : list Z := omap (fun l => match l with LPiece i => Some i | _ => None end) ls.
Definition piece_events (evs : list sess_event) : list Z :=
  omap (fun e => match e with PieceComplete _ have _ => Some have | _ => None end) evs.

Section Resume.
Context (sha1 sha256 : bytes -> bytes) (has_listener : bool) (downloadDir tmpDir : bytes).
Local Abbreviation step := (sess_step sha1 sha256 has_listener downloadDir tmpDir).
Local Abbreviation run := (sess_run sha1 sha256 has_listener downloadDir tmpDir).

Definition set_pieces (bf : Bitfield) (js : list Z) : Bitfield := foldl (fun bf i => (SetPiece bf i).2) bf js.

(** The counts published by the pieces of a run. *)
Fixpoint counts (bf : Bitfield) (js : list Z) : list Z :=
  match js with [] => [] | i :: js => let bf := (SetPiece bf i).2 in popCount bf :: counts bf js end.

Lemma piece_events_app a b : piece_events (a ++ b) = piece_events a ++ piece_events b.
Proof. apply omap_app. Qed.

Lemma piece_events_state evs : piece_events (StateEvent <$> evs) = [].
Proof. induction evs; done. Qed.

Lemma piece_events_files (l : list fileRangeEntry) :
  piece_events ((fun fr => FileCompleted (index fr) (path fr) (size fr)) <$> l) = [].
Proof. induction l; done. Qed.

Lemma set_state_published st s : piece_events (published (set_state st s)) = piece_events (published s).
Proof.
  unfold set_state. destruct (setState _ _) as [new evs]. cbn. by rewrite piece_events_app, piece_events_state, app_nil_r.
Qed.

(** One step of a download under way. *)
Lemma download_step l s s' p tf bf : in_download l = true -> at_ s = Downloading p -> meta s = Some tf -> haveBF s = Some bf ->
  step l s = Some s' ->
  at_ s' = Downloading p /\ meta s' = Some tf /\
  match l with
  | LPiece i => haveBF s' = Some (SetPiece bf i).2 /\ Bitfield_ (rec s') = (SetPiece bf i).2 /\
      piece_events (published s') = piece_events (published s) ++ [popCount (SetPiece bf i).2]
  | _ => haveBF s' = Some bf /\ Bitfield_ (rec s') = Bitfield_ (rec s) /\ piece_events (published s') = piece_events (published s)
  end.
Proof.
  intros Hl Ha Hm Hb H. destruct l; try done; cbn [sess_step] in H.
  - unfold on_piece in H. rewrite Ha, Hm, Hb in H. destruct (collectNewlyCompletedFiles _ _ _) as [d newly]. injection H as <-.
    cbn. split_and!; try done. rewrite piece_events_app. cbn. by rewrite piece_events_files.
  - unfold on_created in H. rewrite Ha in H. injection H as <-. done.
  - unfold count_peers in H. rewrite Ha in H. injection H as <-. done.
  - unfold pause_cancel in H. injection H as <-. done.
  - unfold pause_state in H. destruct (pausing s); [|done]. injection H as <-. rewrite set_state_published.
    cbn. autorewrite with lifecycle. done.
  - unfold shutdown in H. injection H as <-. done.
Qed.

Lemma download_run ls : forall s s' p tf bf, forallb in_download ls = true -> at_ s = Downloading p -> meta s = Some tf -> haveBF s = Some bf ->
  run ls s = Some s' ->
  at_ s' = Downloading p /\ meta s' = Some tf /\ haveBF s' = Some (set_pieces bf (pieces_of ls)) /\
  Bitfield_ (rec s') = (if bool_decide (pieces_of ls = []) then Bitfield_ (rec s) else set_pieces bf (pieces_of ls)) /\
  piece_events (published s') = piece_events (published s) ++ counts bf (pieces_of ls).
Proof.
  induction ls as [|l ls IH]; intros s s' p tf bf Hl Ha Hm Hb H; cbn [sess_run] in H.
  { injection H as <-. cbn. rewrite app_nil_r. done. }
  cbn [forallb] in Hl. apply andb_true_iff in Hl as [Hl Hls].
  destruct (step l s) as [s1|] eqn:E; [|done]. cbn [mbind option_bind] in H.
  destruct (download_step _ _ _ _ _ _ Hl Ha Hm Hb E) as (Ha1 & Hm1 & Hr).
  destruct l; try done;
    try (destruct Hr as (Hb1 & Hbf1 & Hev1); destruct (IH _ _ _ _ _ Hls Ha1 Hm1 Hb1 H) as (? & ? & ? & Hbf & Hev);
         rewrite Hbf, Hev, Hbf1, Hev1; done).
  destruct Hr as (Hb1 & Hbf1 & Hev1). destruct (IH _ _ _ _ _ Hls Ha1 Hm1 Hb1 H) as (? & ? & ? & Hbf & Hev).
  cbn [pieces_of omap list_omap] in *. fold (pieces_of ls) in *. split_and!; [done..| |].
  - rewrite bool_decide_eq_false_2 by done. rewrite Hbf. case_bool_decide as E1; [rewrite E1; done|done].
  - rewrite Hev, Hev1. cbn [counts]. by rewrite <- (assoc_L (++)).
Qed.

(** Steps that neither complete a piece nor verify the file. *)
Definition keeps_bitfield (l : sess_label) : bool := match l with LPiece _ | LVerified _ _ => false | _ => true end.

Lemma keeps_step l s s' tf : keeps_bitfield l = true -> meta s = Some tf -> step l s = Some s' ->
  meta s' = Some tf /\ Bitfield_ (rec s') = Bitfield_ (rec s).
Proof.
  intros Hk Hm H. destruct l; try done; cbn [sess_step] in H.
  - unfold enter_metadata in H. rewrite Hm in H. by destruct (at_ s).
  - unfold resolve_meta in H. rewrite Hm in H. destruct (at_ s); simplify_eq. done.
  - unfold check_name in H. rewrite Hm in H. destruct (at_ s); try done. destruct (sanitizeTorrentName _); simplify_eq; done.
  - unfold choose_phase in H. destruct (at_ s); try done. destruct (seeding_state _); injection H as <-; cbn; autorewrite with lifecycle; done.
  - unfold peers_found in H. destruct (at_ s); try done. destruct (0 <? _); [|destruct found; [|destruct (ctx_done s); [|done]]]; injection H as <-; done.
  - unfold run_check in H. rewrite Hm in H. destruct (at_ s); try done. destruct (_ && _); injection H as <-; cbn; autorewrite with lifecycle; done.
  - unfold prepare in H. rewrite Hm in H. destruct (at_ s); try done. destruct (negb _); [injection H as <-; done|].
    destruct (_ =? _); [injection H as <-; done|]. destruct (0 <? _); injection H as <-; cbn; autorewrite with lifecycle; done.
  - unfold begin_download in H. rewrite Hm in H. destruct (at_ s); try done. injection H as <-.
    destruct has_listener; cbn; autorewrite with lifecycle; done.
  - unfold on_created in H. destruct (at_ s); try done. by injection H as <-.
  - unfold count_peers in H. destruct (at_ s); try done; by injection H as <-.
  - unfold download_over in H. destruct (at_ s); try done. destruct err as [[]|]; try done; try (destruct (ctx_done s); [|done]); by injection H as <-.
  - unfold detach in H. rewrite Hm in H. destruct (at_ s); try done. destruct (_ && _); by injection H as <-.
  - unfold rename in H. rewrite Hm in H. destruct (at_ s); try done. destruct ok; by injection H as <-.
  - unfold finish in H. rewrite Hm in H. destruct (at_ s); try done. destruct (haveBF s); [|done]. injection H as <-. cbn. autorewrite with lifecycle. done.
  - unfold seed_direct in H. rewrite Hm in H. destruct (at_ s); try done. injection H as <-. by destruct has_listener.
  - unfold seed_start in H. destruct (at_ s); try done. by injection H as <-.
  - unfold seed_end in H. destruct (at_ s); try done. destruct (ctx_done s); [|done]. injection H as <-. by destruct has_listener.
  - unfold seed_exit in H. destruct (at_ s); try done. injection H as <-. destruct complete; cbn; autorewrite with lifecycle; done.
  - unfold goroutine_exit in H. destruct (at_ s); try done.
    destruct err as [[]|]; try (case_bool_decide); injection H as <-; cbn; autorewrite with lifecycle; done.
  - unfold pause_cancel in H. by injection H as <-.
  - unfold pause_state in H. destruct (pausing s); [|done]. injection H as <-. autorewrite with lifecycle. done.
  - unfold resume in H. assert (s' = set_state StateAdding (on_rec (with_error []) s)) as -> by (destruct (sess_state s); congruence).
    autorewrite with lifecycle. done.
  - unfold start_again in H. destruct (sess_state s); try done. destruct (at_ s); simplify_eq; done.
  - unfold shutdown in H. by injection H as <-.
Qed.

Lemma keeps_run ls : forall s s' tf, forallb keeps_bitfield ls = true -> meta s = Some tf -> run ls s = Some s' ->
  meta s' = Some tf /\ Bitfield_ (rec s') = Bitfield_ (rec s).
Proof.
  induction ls as [|l ls IH]; intros s s' tf Hk Hm H; cbn [sess_run] in H; [by injection H as <-|].
  cbn [forallb] in Hk. apply andb_true_iff in Hk as [Hk Hks]. destruct (step l s) as [s1|] eqn:E; [|done].
  destruct (keeps_step _ _ _ _ Hk Hm E) as [Hm1 <-]. by eapply IH.
Qed.

(** The pieces a start begins with. *)
Definition had (have : option Bitfield) (j : Z) : Prop := match have with Some h => HasPiece h j = true | None => False end.

Lemma upload_bitfield_has n have j : 0 <= n -> (forall h, have = Some h -> len h = (n + 7) / 8) ->
  HasPiece (upload_bitfield n have) j = true <-> had have j.
Proof.
  intros Hn Hh. unfold upload_bitfield. destruct have as [h|]; cbn [had].
  - specialize (Hh h eq_refl). rewrite take_ge by lia. replace (Z.to_nat ((n + 7) / 8) - length h)%nat with 0%nat by lia.
    by rewrite app_nil_r.
  - change (replicate (Z.to_nat ((n + 7) / 8)) x00) with (new_bitfield n). by rewrite HasPiece_new.
Qed.

(** C6: pieces that were downloaded are not downloaded again. A session begins to download with the pieces [have], completes
    pieces in any order while it may be paused or shut down, and then, through its end, a resume and whatever else happens
    short of completing further pieces, comes to the next start of its download phase: that start takes the stored
    bitfield without verifying the file, and it has exactly the pieces of [have] and the completed ones, as the
    live bitfield had; every completed piece was published with the number of pieces there were then. *)
Theorem Resume_keeps_pieces s0 s1 s2 s3 have tf ls ls' : at_ s0 = Ready have -> meta s0 = Some tf ->
  (forall h, have = Some h -> len h = (numPieces_of tf + 7) / 8) -> step LBegin s0 = Some s1 ->
  forallb in_download ls = true -> run ls s1 = Some s2 -> pieces_of ls <> [] ->
  forallb keeps_bitfield ls' = true -> run ls' s2 = Some s3 -> at_ s3 = DownloadStart ->
  exists bf0 bf, haveBF s1 = Some bf0 /\ haveBF s2 = Some bf /\ step (LPrepare true) s3 = Some (goto (Ready (Some bf)) s3) /\
    (forall j, HasPiece bf0 j = true <-> had have j) /\
    (forall j, 0 <= j < numPieces_of tf -> HasPiece bf j = true <-> had have j \/ j ∈ pieces_of ls) /\
    piece_events (published s2) = piece_events (published s1) ++ counts bf0 (pieces_of ls).
Proof.
  intros Ha Hm Hh Hb Hls Hr Hne Hk Hr' Ha3. cbn [sess_step] in Hb. unfold begin_download in Hb. rewrite Ha, Hm in Hb. injection Hb as Hb.
  set (bf0 := upload_bitfield (numPieces_of tf) have) in *.
  assert (H1 : exists p, at_ s1 = Downloading p /\ meta s1 = Some tf /\ haveBF s1 = Some bf0).
  { subst s1. eexists. destruct has_listener; cbn; autorewrite with lifecycle; rewrite Hm; done. }
  clear Hb. destruct H1 as (p & Ha1 & Hm1 & Hb1). pose proof (numPieces_nonneg tf) as Hn.
  destruct (download_run ls s1 s2 p tf bf0 Hls Ha1 Hm1 Hb1 Hr) as (Ha2 & Hm2 & Hb2 & Hbf & Hev).
  rewrite bool_decide_eq_false_2 in Hbf by done. destruct (keeps_run _ _ _ _ Hk Hm2 Hr') as [Hm3 Hb3].
  exists bf0, (set_pieces bf0 (pieces_of ls)). split; [done|]. split; [done|]. split; [|split; [|split; [|done]]].
  - cbn [sess_step]. unfold prepare. rewrite Ha3, Hm3. cbn [negb]. rewrite Hb3, Hbf. unfold set_pieces.
    rewrite set_many_length. subst bf0. rewrite upload_bitfield_length by done. by rewrite Z.eqb_refl.
  - intros j. by apply upload_bitfield_has.
  - intros j Hj. unfold set_pieces. rewrite set_many_has. subst bf0. rewrite upload_bitfield_has by done.
    pose proof (upload_bitfield_room (numPieces_of tf) have Hn). split; [intros [?|[? _]]; auto|intros [?|?]; [auto|right; split; [done|lia]]].
Qed.
End Resume.

(** ** A cancelled session ends *)

(** What the calls the session waits in return: metadata found or not in any number of rounds, peers or the context's
    error, a download that is complete, cancelled or failed. *)
Inductive download_answer := Complete_ | Cancelled_ | Failed_ (msg : bytes).
Record answers_ := mkAnswers {
  an_file : option bytes; an_url : option URL; an_rounds : list (option TorrentFile * list Peer * bool * bool);
  an_found : option (list Peer); an_exists : bool; an_mkdir : bool; an_bf : Bitfield; an_verified : Z;
  an_download : download_answer; an_rename : bool; an_now : Z; an_text : bytes
}.

Definition rank (p : phase) : nat :=
  match p with
  | Resolve_ => 17 | Resolving_ => 16 | Named => 15 | Checked => 14 | Peers_ => 13 | RunCheck => 12 | DownloadStart => 11
  | Verifying_ => 10 | Ready _ => 9 | Downloading _ => 8 | Moving _ => 7 | Renaming _ => 6 | Finish _ | SeedDirect _ => 5
  | SeedStart => 4 | Seeding => 3 | SeedExit _ => 2 | Ended _ => 1 | Exited | Overlapped => 0
  end.

(** The steps of the session's own goroutine; the others are its callbacks and other goroutines. *)
Definition own (l : sess_label) : bool :=
  match l with
  | LPiece _ | LCreated | LCount _ | LPauseCancel | LPauseState | LResume | LStartAgain | LShutdown => false
  | _ => true
  end.
Definition starts (l : sess_label) : bool := match l with LStartAgain => true | _ => false end.
Definition own_steps (ls : list sess_label) : nat := length (filter (fun l => own l = true) ls).

Section Stop.
Context (sha1 sha256 : bytes -> bytes) (has_listener : bool) (downloadDir tmpDir : bytes).
Local Abbreviation step := (sess_step sha1 sha256 has_listener downloadDir tmpDir).
Local Abbreviation run := (sess_run sha1 sha256 has_listener downloadDir tmpDir).

(** What the goroutine does next when the call it waits in, if any, returns that answer.  The search for the metadata
    tests the context after its last round. *)
Definition next_label (a : answers_) (s : sess) : sess_label :=
  match at_ s with
  | Resolve_ =>
      match meta s with
      | Some _ => LResolve None None []
      | None => if 0 <? len (TorrentData (rec s)) then LResolve None None []
                else match an_file a with
                     | Some data => if is_ok (Parse sha1 sha256 data) then LResolve (Some data) None [] else LEnterMetadata (an_file a)
                     | None => LEnterMetadata None
                     end
      end
  | Resolving_ => LResolve None (an_url a) (an_rounds a ++ [(None, [], true, false)])
  | Named => LCheckName | Checked => LChoose | Peers_ => LPeers (an_found a) | RunCheck => LRunCheck (an_exists a)
  | DownloadStart => LPrepare (an_mkdir a) | Verifying_ => LVerified (an_bf a) (an_verified a) | Ready _ => LBegin
  | Downloading _ =>
      LDownloadOver (match an_download a with Complete_ => None | Cancelled_ => Some Canceled | Failed_ m => Some (DownloadFailed m) end)
  | Moving _ => LDetach | Renaming _ => LRename (an_rename a) | Finish _ => LFinish (an_now a)
  | SeedDirect _ => LSeedDirect | SeedStart => LSeedStart | Seeding => LSeedEnd | SeedExit _ => LSeedExit
  | Ended _ | Exited | Overlapped => LExit (an_text a)
  end.

Lemma retry_ends {A} max (rs : list (round A)) : forall attempt backoff b,
  (retry max (rs ++ [mkRound None true false]) attempt backoff).1 <> Searching b.
Proof.
  induction rs as [|r rs IH]; intros attempt backoff b; cbn; [done|].
  repeat case_match; cbn; try done. match goal with E : retry _ _ ?x ?y = _ |- _ => specialize (IH x y b); by rewrite E in IH end.
Qed.

Lemma next_own a s : own (next_label a s) = true.
Proof. unfold next_label. destruct (at_ s); repeat case_match; done. Qed.

(** Every step of the goroutine goes down in rank, and every other step keeps the phase. *)
Ltac phase_step := repeat case_match; simplify_eq; cbn; autorewrite with lifecycle; cbn; try lia.
Lemma own_step_rank l s s' : own l = true -> step l s = Some s' -> (rank (at_ s') < rank (at_ s))%nat.
Proof.
  intros Ho H. destruct l; try done; cbn [sess_step] in H.
  - unfold enter_metadata in H. phase_step.
  - unfold resolve_meta in H. destruct (at_ s) eqn:Ea; try done; destruct (meta s); try done; [by simplify_eq; cbn; lia|..];
      destruct (resolveMetadata _ _ _ _ _ _) as [[r []] evs]; try done; unfold resolve_done in H; phase_step.
  - unfold check_name in H. phase_step.
  - unfold choose_phase in H. phase_step.
  - unfold peers_found in H. phase_step.
  - unfold run_check in H. phase_step.
  - unfold prepare in H. phase_step.
  - unfold verified in H. phase_step.
  - unfold begin_download in H. phase_step.
  - unfold download_over in H. phase_step.
  - unfold detach in H. phase_step.
  - unfold rename in H. phase_step.
  - unfold finish in H. phase_step.
  - unfold seed_direct in H. phase_step.
  - unfold seed_start in H. phase_step.
  - unfold seed_end in H. phase_step.
  - unfold seed_exit in H. phase_step.
  - unfold goroutine_exit in H. destruct (at_ s) eqn:Ea; try done.
    destruct err as [[]|]; try (case_bool_decide); simplify_eq; cbn; autorewrite with lifecycle; cbn; lia.
Qed.

Lemma other_step_at l s s' : own l = false -> starts l = false -> step l s = Some s' -> at_ s' = at_ s.
Proof.
  intros Ho Hs H. destruct l; try done; cbn [sess_step] in H.
  - unfold on_piece in H. destruct (at_ s) eqn:Ea; try done. destruct (meta s); [|done]. destruct (haveBF s); [|done].
    destruct (collectNewlyCompletedFiles _ _ _). by simplify_eq.
  - unfold on_created in H. by destruct (at_ s) eqn:Ea; simplify_eq.
  - unfold count_peers in H. by destruct (at_ s) eqn:Ea; simplify_eq.
  - unfold pause_cancel in H. by simplify_eq.
  - unfold pause_state in H. destruct (pausing s); simplify_eq. by rewrite ss_at.
  - unfold resume in H. assert (s' = set_state StateAdding (on_rec (with_error []) s)) as -> by (destruct (sess_state s); congruence). by rewrite ss_at.
  - unfold shutdown in H. by simplify_eq.
Qed.

Lemma ctx_stays l s s' : starts l = false -> ctx_done s = true -> step l s = Some s' -> ctx_done s' = true.
Proof.
  intros Hs Hc H. destruct l; try done; cbn [sess_step] in H;
    unfold enter_metadata, resolve_meta, resolve_done, check_name, choose_phase, peers_found, run_check, prepare, verified, begin_download, on_piece,
      on_created, count_peers, download_over, detach, rename, finish, seed_direct, seed_start, seed_end, seed_exit, goroutine_exit, pause_cancel,
      pause_state, resume, shutdown in H; repeat case_match; simplify_eq; cbn; autorewrite with lifecycle; cbn; rewrite ?Hc; done.
Qed.

Lemma next_step a s : sess_inv has_listener downloadDir tmpDir s -> ctx_done s = true -> at_ s <> Exited -> at_ s <> Overlapped ->
  exists s', step (next_label a s) s = Some s'.
Proof.
  intros I Hc Hx Hv. pose proof (sn_phase _ _ _ _ I) as Hok. unfold phase_ok in Hok. unfold next_label.
  destruct (at_ s) eqn:Ea; try done; cbn [sess_step].
  - destruct (meta s) eqn:Em; [cbn [sess_step]; unfold resolve_meta; rewrite Ea, Em; by eexists|].
    destruct (0 <? len (TorrentData (rec s))) eqn:El.
    { cbn [sess_step]. unfold resolve_meta. rewrite Ea, Em. unfold resolveMetadata. rewrite El.
      destruct (Parse sha1 sha256 (TorrentData (rec s))); by eexists. }
    destruct (an_file a) as [data|].
    + destruct (is_ok (Parse sha1 sha256 data)) eqn:Ep; cbn [sess_step].
      * unfold resolve_meta. rewrite Ea, Em. unfold resolveMetadata. rewrite El. cbn.
        destruct (Parse sha1 sha256 data); [|done]. by eexists.
      * unfold enter_metadata. rewrite Ea, Em, El, Ep. by eexists.
    + cbn [sess_step]. unfold enter_metadata. rewrite Ea, Em, El. by eexists.
  - destruct Hok as [Em Ed]. unfold resolve_meta. rewrite Ea, Em. unfold resolveMetadata. rewrite Ed. cbn.
    change (0 <? Z.of_nat 0) with false. destruct (magnet_Parse (an_url a)); [|by eexists].
    rewrite fmap_app. cbn [fmap list_fmap metadata_round].
    destruct (retry _ _ _ _) as [o evs] eqn:Er. destruct o as [tf| |b].
    + case_match; by eexists.
    + cbn. rewrite Hc. by eexists.
    + exfalso. eapply (retry_ends metadataRetryMax). by rewrite Er.
  - destruct Hok as [tf Em]. unfold check_name. rewrite Ea, Em. destruct (sanitizeTorrentName _); by eexists.
  - unfold choose_phase. rewrite Ea. destruct (seeding_state _); by eexists.
  - unfold peers_found. rewrite Ea, Hc. destruct (0 <? _), (an_found a); by eexists.
  - destruct Hok as [tf Em]. unfold run_check. rewrite Ea, Em. destruct (_ && _); by eexists.
  - destruct Hok as [tf Em]. unfold prepare. rewrite Ea, Em. destruct (negb _); [by eexists|]. destruct (_ =? _); by eexists.
  - unfold verified. rewrite Ea. destruct (0 <? _); by eexists.
  - destruct Hok as [tf Em]. unfold begin_download. rewrite Ea, Em. by eexists.
  - unfold download_over. rewrite Ea, Hc. destruct (an_download a); by eexists.
  - destruct Hok as (tf & Em & _). unfold detach. rewrite Ea, Em. destruct (_ && _); by eexists.
  - destruct Hok as (tf & Em & _). unfold rename. rewrite Ea, Em. destruct (an_rename a); by eexists.
  - destruct Hok as (tf & Em & _ & _ & (b & Hb & _) & _). unfold finish. rewrite Ea, Em, Hb. by eexists.
  - destruct Hok as [[tf Em] _]. unfold seed_direct. rewrite Ea, Em. by eexists.
  - unfold seed_start. rewrite Ea. by eexists.
  - unfold seed_end. rewrite Ea, Hc. by eexists.
  - unfold seed_exit. rewrite Ea. by eexists.
  - unfold goroutine_exit. rewrite Ea. destruct err as [[]|]; by eexists.
Qed.

Lemma own_not_overlapped l s s' : own l = true -> step l s = Some s' -> at_ s' <> Overlapped.
Proof.
  intros Ho H E.
  destruct l; try done; cbn [sess_step] in H;
    unfold enter_metadata, resolve_meta, resolve_done, check_name, choose_phase, peers_found, run_check, prepare, verified, begin_download,
      download_over, detach, rename, finish, seed_direct, seed_start, seed_end, seed_exit, goroutine_exit in H;
    repeat case_match; simplify_eq; cbn in E; autorewrite with lifecycle in E; cbn in E; done.
Qed.

(** What a run without a further start does to the goroutine. *)
Lemma run_down ls : forall s s', run ls s = Some s' -> forallb (fun l => negb (starts l)) ls = true -> ctx_done s = true -> at_ s <> Overlapped ->
  (own_steps ls + rank (at_ s') <= rank (at_ s))%nat /\ ctx_done s' = true /\ at_ s' <> Overlapped.
Proof.
  induction ls as [|l ls IH]; intros s s' H Hl Hc Ho; cbn [sess_run] in H; [injection H as <-; cbn; auto with lia|].
  destruct (step l s) as [s1|] eqn:E; [|done]. cbn [forallb] in Hl. apply andb_true_iff in Hl as [Hl Hls]. apply negb_true_iff in Hl.
  unfold own_steps. rewrite filter_cons. fold (own_steps ls). pose proof (ctx_stays _ _ _ Hl Hc E) as Hc1.
  destruct (own l) eqn:El.
  - pose proof (own_step_rank _ _ _ El E) as Hlt.
    assert (Ho1 : at_ s1 <> Overlapped) by (by eapply own_not_overlapped).
    destruct (IH _ _ H Hls Hc1 Ho1) as (Hk & ? & ?). rewrite decide_True by done. cbn [length]. fold (own_steps ls). split; [lia|done].
  - pose proof (other_step_at _ _ _ El Hl E) as Ha. destruct (IH _ _ H Hls Hc1) as (Hk & ? & ?); [congruence|].
    rewrite decide_False by congruence. fold (own_steps ls). rewrite Ha in Hk. done.
Qed.

(** C8: a session whose context has ended comes to its end, as far as the calls it waits in return (the findings name
    calls that may not). In whatever order its goroutine, the callbacks, pauses, resumes and the shutdown go on, short of a new start, the
    goroutine takes at most 17 more steps; and until it is gone it is never stuck: whatever the call it waits in returns,
    be it a success, a failure or the context's error, the goroutine takes the step that follows. *)
Theorem Session_stops r s ls s' : sess_reach sha1 sha256 has_listener downloadDir tmpDir r s -> at_ s <> Overlapped -> ctx_done s = true ->
  run ls s = Some s' -> forallb (fun l => negb (starts l)) ls = true ->
  (own_steps ls <= 17)%nat /\ (at_ s' = Exited \/ forall a, own (next_label a s') = true /\ is_Some (step (next_label a s') s')).
Proof.
  intros Hr Ho Hc H Hl. destruct (run_down _ _ _ H Hl Hc Ho) as (Hk & Hc' & Ho').
  assert (Hle : (rank (at_ s) <= 17)%nat) by (destruct (at_ s); cbn; lia). split; [lia|].
  destruct (decide (rank (at_ s') = 0%nat)) as [H0|H0]; [left; destruct (at_ s'); cbn in H0; first [done|lia]|]. right. intros a. split; [apply next_own|].
  apply next_step; [|done|intros E; by rewrite E in H0|done].
  eapply reach_inv; [|done]. by eapply sess_reach_run.
Qed.
End Stop.

(** ** Concrete runs *)

Definition demo_record : TorrentRecord := mkRecord (lit "t") [] (lit "src") [] 0 StateAdding 0 0 0 demo_torrent [] [] [] 0.

Definition to_download : list sess_label :=
  [LResolve None None []; LCheckName; LChoose; LPeers (Some [mkPeer [x08; x08; x08; x08] 1]); LRunCheck false; LPrepare true; LVerified [] 0].

Definition demo_run (ls : list sess_label) : option sess :=
  sess_run id id true (lit "/dl") (lit "/tmp") ls (session_start demo_record).
Definition demo_at (ls : list sess_label) : sess := default (session_start demo_record) (demo_run ls).

Lemma demo_at_reach ls : bool_decide (is_Some (demo_run ls)) = true -> sess_reach id id true (lit "/dl") (lit "/tmp") demo_record (demo_at ls).
Proof.
  intros H%bool_decide_eq_true. destruct H as [s H]. unfold demo_at. rewrite H. cbn [default].
  eapply sess_reach_run; [apply sess_init|exact H].
Qed.

(** A download that is moved and seeded. *)
Definition to_seed : list sess_label :=
  to_download ++ [LBegin; LCreated; LPiece 0; LDownloadOver None; LDetach; LRename true; LFinish 7; LSeedStart].

Lemma Session_invariant_witness :
  sess_inv true (lit "/dl") (lit "/tmp") (demo_at to_seed) /\ at_ (demo_at to_seed) = Seeding /\
  uploader (demo_at to_seed) = Some (lit "/dl/a") /\ sess_state (demo_at to_seed) = StateSeeding.
Proof.
  split; [apply (Session_invariant id id _ _ _ demo_record); [apply demo_at_reach; by vm_compute|by vm_compute]|]. split_and!; by vm_compute.
Defined.

(** Paused with one piece, resumed, and started again up to the download phase. *)
Definition paused_at : list sess_label := to_download ++ [LBegin; LPiece 0; LPauseCancel; LPauseState].
Definition to_resumed : list sess_label :=
  [LDownloadOver (Some Canceled); LExit []; LResume; LStartAgain; LResolve None None []; LCheckName; LChoose;
   LPeers (Some [mkPeer [x08; x08; x08; x08] 1]); LRunCheck false].

Definition step_prepare (s : sess) : option sess := sess_step id id true (lit "/dl") (lit "/tmp") (LPrepare true) s.

Lemma Resume_keeps_pieces_witness :
  exists bf, step_prepare (demo_at (paused_at ++ to_resumed)) = Some (goto (Ready (Some bf)) (demo_at (paused_at ++ to_resumed))) /\
    HasPiece bf 0 = true.
Proof.
  destruct (Resume_keeps_pieces id id true (lit "/dl") (lit "/tmp") (demo_at to_download) (demo_at (to_download ++ [LBegin]))
    (demo_at paused_at) (demo_at (paused_at ++ to_resumed)) None demo_tf [LPiece 0; LPauseCancel; LPauseState] to_resumed)
    as (bf0 & bf & _ & _ & Hp & _ & Hh & _); [by vm_compute..|].
  exists bf. split; [exact Hp|]. cbn [pieces_of omap list_omap] in Hh.
  apply (proj2 (Hh 0 ltac:(vm_compute; split; [discriminate|reflexivity]))). right. apply list_elem_of_here.
Defined.

Lemma Session_stops_witness :
  (own_steps [LSeedEnd; LPauseState] <= 17)%nat /\
  (at_ (demo_at (to_seed ++ [LPauseCancel; LSeedEnd; LPauseState])) = Exited \/
   forall a, own (next_label id id a (demo_at (to_seed ++ [LPauseCancel; LSeedEnd; LPauseState]))) = true /\
     is_Some (sess_step id id true (lit "/dl") (lit "/tmp")
       (next_label id id a (demo_at (to_seed ++ [LPauseCancel; LSeedEnd; LPauseState]))) (demo_at (to_seed ++ [LPauseCancel; LSeedEnd; LPauseState])))).
Proof.
  apply (Session_stops id id true (lit "/dl") (lit "/tmp") demo_record (demo_at (to_seed ++ [LPauseCancel])) [LSeedEnd; LPauseState]
    (demo_at (to_seed ++ [LPauseCancel; LSeedEnd; LPauseState])));
    [apply demo_at_reach; by vm_compute|by vm_compute..].
Defined.

(** Resumed and started before the goroutine of the first start has ended: nothing in the engine keeps the two apart. *)
Lemma resume_overlaps : at_ (demo_at (paused_at ++ [LResume; LStartAgain])) = Overlapped.
Proof. by vm_compute. Qed.

(** After a pause during the download the goroutine is gone, but the listener still routes to the session and its
    uploader still takes connections: a paused torrent uploads. *)
Lemma paused_download_uploads :
  let s := demo_at (to_download ++ [LBegin; LPiece 0; LPauseCancel; LPauseState; LDownloadOver (Some Canceled); LExit []]) in
  at_ s = Exited /\ sess_state s = StatePaused /\ accepts_incoming s = true.
Proof. cbn zeta. split_and!; by vm_compute. Qed.

(** The same after a failed download, with the state at error. *)
Lemma failed_download_uploads :
  let s := demo_at (to_download ++ [LBegin; LPiece 0; LDownloadOver (Some (DownloadFailed (lit "disk full"))); LExit (lit "disk full")]) in
  at_ s = Exited /\ sess_state s = StateError /\ accepts_incoming s = true.
Proof. cbn zeta. split_and!; by vm_compute. Qed.

(** A pause while seeding can end as complete: the goroutine sees the state still seeding after the context was cancelled,
    and sets its own state last. *)
Lemma pause_seeding_completes :
  let s := demo_at (to_seed ++ [LPauseCancel; LSeedEnd; LPauseState; LSeedExit; LExit []]) in
  at_ s = Exited /\ sess_state s = StateComplete /\ cancel_set s = false.
Proof. cbn zeta. split_and!; by vm_compute. Qed.

(** A pause while the metadata of a magnet link is being fetched is lost when the fetch succeeds all the same: the session
    ends in state downloading, from which it can neither be paused into a stop nor resumed. *)
Lemma pause_metadata_lost :
  let r := mkRecord (lit "t") [] (lit "magnet") [] 0 StateAdding 0 0 0 [] [] [] [] 0 in
  let u := mkURL (lit "magnet") (<[lit "xt" := [lit "urn:btih:4141414141414141414141414141414141414141"]]> ∅) in
  let ls := [LEnterMetadata None; LPauseCancel; LPauseState;
             LResolve None (Some u) [(Some demo_tf, [mkPeer [x08; x08; x08; x08] 1], false, false)];
             LCheckName; LChoose; LPeers None; LRunCheck false; LPrepare true; LVerified [] 0; LBegin; LDownloadOver (Some Canceled); LExit []] in
  exists s, sess_run id id true (lit "/dl") [] ls (session_start r) = Some s /\ at_ s = Exited /\ sess_state s = StateDownloading /\ resume s = None.
Proof. eexists. split_and!; by vm_compute. Qed.
