(* ===== verification/Listener.v ===== *)
(** * The peer listener ([engine/listener.go])

    Incoming connections, each in its own goroutine: a slot of the semaphore, the handshake, the lookup of the
    handler for the info hash, the handler.  Handlers are a type parameter; the bytes a connection delivers are
    arguments of the steps. *)

From S2P Require Import Prelude Wire.
Set Warnings "-clear-no-such-hyp".
Local Open Scope Z_scope.

Definition maxIncomingConns : Z := 200.

Section Listener.
Context {H : Type}.

(** Where the goroutine of a connection is; a refused or finished one has closed its connection. *)
Inductive conn_pc := Accepted | Reading | Handling (h : H) (hs : Handshake) | Closed (why : bytes).

Record PeerListener := mkListener { handlers : gmap bytes H; ln_closed : bool; conns : list conn_pc }.

Definition NewPeerListener : PeerListener := mkListener ∅ false [].

Definition listener_Register (infoHash : bytes) (h : H) (pl : PeerListener) : PeerListener :=
  mkListener (<[infoHash := h]> (handlers pl)) (ln_closed pl) (conns pl).
Definition listener_Unregister (infoHash : bytes) (pl : PeerListener) : PeerListener :=
  mkListener (delete infoHash (handlers pl)) (ln_closed pl) (conns pl).
(** Closing twice panics. *)
Definition listener_Close (pl : PeerListener) : option PeerListener :=
  if ln_closed pl then None else Some (mkListener (handlers pl) true (conns pl)).

(** [acceptLoop] takes a connection and starts its goroutine; after [Close] the sockets accept nothing. *)
Definition accept (pl : PeerListener) : option PeerListener :=
  if ln_closed pl then None else Some (mkListener (handlers pl) (ln_closed pl) (conns pl ++ [Accepted])).

(** A connection that holds a slot of [sem]. *)
Definition in_slot (c : conn_pc) : bool := match c with Reading | Handling _ _ => true | _ => false end.
Definition sem_held (pl : PeerListener) : Z := len (filter (fun c => in_slot c = true) (conns pl)).

Definition set_conn (i : nat) (c : conn_pc) (pl : PeerListener) : PeerListener :=
  mkListener (handlers pl) (ln_closed pl) (<[i := c]> (conns pl)).

(** [handleConn]: a slot or nothing; the handshake from the bytes [r]; the handler; the deferred close. *)
Definition handleConn_slot (i : nat) (pl : PeerListener) : option PeerListener :=
  match conns pl !! i with
  | Some Accepted => Some (set_conn i (if sem_held pl <? maxIncomingConns then Reading else Closed (lit "full")) pl)
  | _ => None
  end.

Definition handleConn_handshake (i : nat) (r : bytes) (pl : PeerListener) : option PeerListener :=
  match conns pl !! i with
  | Some Reading =>
      Some (set_conn i (match ReadHandshake r with
                        | Err _ => Closed (lit "handshake read failed")
                        | Ok (hs, _) => match handlers pl !! InfoHash hs with
                                        | Some h => Handling h hs
                                        | None => Closed (lit "no handler for info hash")
                                        end
                        end) pl)
  | _ => None
  end.

Definition handleConn_done (i : nat) (pl : PeerListener) : option PeerListener :=
  match conns pl !! i with Some (Handling _ _) => Some (set_conn i (Closed (lit "handled")) pl) | _ => None end.

Inductive listener_label :=
  | NAccept | NSlot (i : nat) | NHandshake (i : nat) (r : bytes) | NDone (i : nat)
  | NRegister (infoHash : bytes) (h : H) | NUnregister (infoHash : bytes) | NClose.

Definition listener_step (l : listener_label) (pl : PeerListener) : option PeerListener :=
  match l with
  | NAccept => accept pl
  | NSlot i => handleConn_slot i pl
  | NHandshake i r => handleConn_handshake i r pl
  | NDone i => handleConn_done i pl
  | NRegister ih h => Some (listener_Register ih h pl)
  | NUnregister ih => Some (listener_Unregister ih pl)
  | NClose => listener_Close pl
  end.

(** A run is the list of its labels with the states they lead to. *)
Inductive listener_run : list (listener_label * PeerListener) -> PeerListener -> Prop :=
  | run_nil : listener_run [] NewPeerListener
  | run_snoc tr s l s' : listener_run tr s -> listener_step l s = Some s' -> listener_run (tr ++ [(l, s)]) s'.

(** ** Properties *)

Lemma held_sum cs : len (filter (fun c => in_slot c = true) cs) = foldr (fun c n => (if in_slot c then 1 else 0) + n) 0 cs.
Proof.
  induction cs as [|c cs IH]; [done|]. rewrite filter_cons. cbn [foldr]. rewrite <- IH.
  destruct (in_slot c); [rewrite decide_True by done; cbn [length]; lia|by rewrite decide_False by done].
Qed.

Lemma held_insert cs i c c' : cs !! i = Some c ->
  len (filter (fun c => in_slot c = true) (<[i := c']> cs)) =
  len (filter (fun c => in_slot c = true) cs) - (if in_slot c then 1 else 0) + (if in_slot c' then 1 else 0).
Proof.
  rewrite !held_sum. revert i. induction cs as [|x cs IH]; intros [|i] Hi; cbn in *; simplify_eq; [lia|].
  rewrite IH by done. lia.
Qed.

Lemma held_step l s s' : sem_held s <= maxIncomingConns -> listener_step l s = Some s' -> sem_held s' <= maxIncomingConns.
Proof.
  unfold sem_held. intros Hh E. destruct l; cbn [listener_step] in E.
  - unfold accept in E. destruct (ln_closed s); [done|]. injection E as <-. cbn [conns].
    rewrite filter_app, length_app, filter_cons_False, filter_nil by done. cbn [length]. lia.
  - unfold handleConn_slot in E. destruct (conns s !! i) as [[| | |]|] eqn:Hi; try done. injection E as <-. cbn [set_conn conns].
    rewrite (held_insert _ _ _ _ Hi). cbn [in_slot].
    destruct (Z.ltb_spec (sem_held s) maxIncomingConns) as [Hlt|Hge]; cbn [in_slot]; [unfold sem_held in Hlt; lia|lia].
  - unfold handleConn_handshake in E. destruct (conns s !! i) as [[| | |]|] eqn:Hi; try done. injection E as <-. cbn [set_conn conns].
    rewrite (held_insert _ _ _ _ Hi). cbn [in_slot]. destruct (in_slot _); lia.
  - unfold handleConn_done in E. destruct (conns s !! i) as [[| | |]|] eqn:Hi; try done. injection E as <-. cbn [set_conn conns].
    rewrite (held_insert _ _ _ _ Hi). cbn [in_slot]. lia.
  - injection E as <-. done.
  - injection E as <-. done.
  - unfold listener_Close in E. destruct (ln_closed s); [done|]. by injection E as <-.
Qed.

(** How a connection came to its handler. *)
Definition handled_by (tr : list (listener_label * PeerListener)) (i : nat) (h : H) (hs : Handshake) : Prop :=
  exists r rest s, (NHandshake i r, s) ∈ tr /\ ReadHandshake r = Ok (hs, rest) /\ handlers s !! InfoHash hs = Some h.

Lemma handled_snoc tr x i h hs : handled_by tr i h hs -> handled_by (tr ++ [x]) i h hs.
Proof. intros (r & rest & s & Hin & ? & ?). exists r, rest, s. split_and!; [set_solver|done..]. Qed.

Lemma handled_run tr s : listener_run tr s -> forall i h hs, conns s !! i = Some (Handling h hs) -> handled_by tr i h hs.
Proof.
  induction 1 as [|tr s l s' Hr IH E]; intros i h hs Hi; [done|].
  assert (Hsame : conns s' = conns s -> handled_by (tr ++ [(l, s)]) i h hs).
  { intros Es. rewrite Es in Hi. by apply handled_snoc, IH. }
  destruct l; cbn [listener_step] in E.
  - unfold accept in E. destruct (ln_closed s); [done|]. injection E as <-. cbn in Hi.
    apply lookup_app_Some in Hi as [Hi|[_ Hi]]; [by apply handled_snoc, IH|].
    by apply list_lookup_singleton_Some in Hi as [_ ?].
  - unfold handleConn_slot in E. destruct (conns s !! i0) as [[| | |]|] eqn:Hj; try done. injection E as <-. cbn [set_conn conns] in Hi.
    apply list_lookup_insert_Some in Hi as [(-> & Hc & _)|[_ Hi]]; [by destruct (_ <? _)|by apply handled_snoc, IH].
  - unfold handleConn_handshake in E. destruct (conns s !! i0) as [[| | |]|] eqn:Hj; try done. injection E as <-. cbn [set_conn conns] in Hi.
    apply list_lookup_insert_Some in Hi as [(-> & Hc & _)|[_ Hi]]; [|by apply handled_snoc, IH].
    destruct (ReadHandshake r) as [[hs' rest]|] eqn:Er; [|done]. destruct (handlers s !! InfoHash hs') as [h'|] eqn:Eh; [|done].
    injection Hc as -> ->. exists r, rest, s. split_and!; [set_solver|done..].
  - unfold handleConn_done in E. destruct (conns s !! i0) as [[| | |]|] eqn:Hj; try done. injection E as <-. cbn [set_conn conns] in Hi.
    apply list_lookup_insert_Some in Hi as [(-> & Hc & _)|[_ Hi]]; [done|by apply handled_snoc, IH].
  - injection E as <-. by apply Hsame.
  - injection E as <-. by apply Hsame.
  - unfold listener_Close in E. destruct (ln_closed s); [done|]. injection E as <-. by apply Hsame.
Qed.

(** The listener hands a connection only to a handler that was registered for the info hash of the
    handshake the connection sent, never more than 200 connections are past the semaphore, and every connection that
    is past it can go on to its end: a handshake that cannot be read, an unknown info hash and the end of the
    handler all close it and give its slot back. *)
Lemma Listener_routes tr s : listener_run tr s ->
  sem_held s <= maxIncomingConns /\
  (forall i h hs, conns s !! i = Some (Handling h hs) ->
     exists r rest s0, (NHandshake i r, s0) ∈ tr /\ ReadHandshake r = Ok (hs, rest) /\ handlers s0 !! InfoHash hs = Some h) /\
  (forall i c, conns s !! i = Some c -> in_slot c = true -> exists l s', listener_step l s = Some s' /\
     (sem_held s' = sem_held s - 1 \/ exists h hs, c = Reading /\ conns s' !! i = Some (Handling h hs))).
Proof.
  intros Hr. split_and!.
  - induction Hr as [|tr s l s' Hr IH E]; [by vm_compute|by eapply held_step].
  - by apply handled_run.
  - intros i c Hi Hc. destruct c as [| |h hs|]; try done.
    + exists (NHandshake i []). cbn [listener_step]. unfold handleConn_handshake. rewrite Hi. eexists. split; [done|]. left.
      assert (E : exists e, ReadHandshake [] = Err e) by (eexists; by vm_compute). destruct E as [e ->].
      unfold sem_held. cbn [set_conn conns]. rewrite (held_insert _ _ _ _ Hi). cbn [in_slot]. lia.
    + exists (NDone i). cbn [listener_step]. unfold handleConn_done. rewrite Hi. eexists. split; [done|]. left.
      unfold sem_held. cbn [set_conn conns]. rewrite (held_insert _ _ _ _ Hi). cbn [in_slot]. lia.
Qed.
End Listener.
Arguments PeerListener : clear implicits.
Arguments conn_pc : clear implicits.
Arguments listener_label : clear implicits.

(** ** Witness and a boundary *)

Lemma Listener_routes_witness :
  let hs := mkHandshake (replicate 20 x41) (replicate 20 x42) true false in
  let l0 : PeerListener nat := NewPeerListener in
  let l1 := listener_Register (InfoHash hs) 7%nat l0 in
  let l2 := default l1 (accept l1) in
  let l3 := default l2 (handleConn_slot 0 l2) in
  let l4 := default l3 (handleConn_handshake 0 (WriteHandshake hs ++ [x00]) l3) in
  conns l4 !! 0%nat = Some (Handling 7%nat hs) /\ sem_held l4 <= maxIncomingConns.
Proof.
  intros hs l0 l1 l2 l3 l4. split; [vm_compute; reflexivity|].
  refine (proj1 (Listener_routes ((([] ++ [(NRegister (InfoHash hs) 7%nat, l0)]) ++ [(NAccept, l1)]) ++ [(NSlot 0, l2)]
                                  ++ [(NHandshake 0 (WriteHandshake hs ++ [x00]), l3)]) l4 _)).
  rewrite (assoc_L app).
  apply (run_snoc _ l3); [|vm_compute; reflexivity]. apply (run_snoc _ l2); [|vm_compute; reflexivity].
  apply (run_snoc _ l1); [|vm_compute; reflexivity]. apply (run_snoc _ l0); [apply run_nil|vm_compute; reflexivity].
Defined.

(** The handshake has no read deadline: 200 connections that send nothing hold all the slots, and the next one is
    refused. *)
Definition silent_peers (n : nat) (pl : PeerListener nat) : PeerListener nat :=
  Nat.iter n (fun pl => match accept pl with
                        | Some pl' => default pl' (handleConn_slot (length (conns pl)) pl')
                        | None => pl
                        end) pl.

Lemma silent_peers_fill_listener :
  sem_held (silent_peers 200 NewPeerListener) = 200 /\
  conns (silent_peers 201 NewPeerListener) !! 200%nat = Some (Closed (lit "full")).
Proof. split; by vm_compute. Qed.
