(* ===== verification/Config.v ===== *)
(** * The daemon's configuration ([daemon/config.go])

    The configuration file is written by [Save] and read by [parseTOML].  The tables of printable
    characters above U+00FF are a parameter; what the file system and the random generator answer are arguments. *)

From S2P Require Import Prelude Strconv Net Text Paths Quote Magnet.
Set Warnings "-clear-no-such-hyp".
Local Open Scope Z_scope.

(** ** Data *)

Record Config := mkConfig {
  c_Port : Z; c_PeerPort : Z; c_DownloadDir : bytes; c_TmpDir : bytes; c_APIKey : bytes; c_StatePath : bytes;
  c_MaxActive : Z; c_LogLevel : bytes; c_MaxPeers : Z; c_MaxPipeline : Z; c_DialTimeout : Z; c_MaxGlobalDials : Z;
  c_NumWant : Z; c_DHTAlpha : Z; c_EnableUTP : bool; c_PipelineMin : Z; c_PipelineMax : Z; c_PipelineWindowSecs : Z;
  c_SocketSendBuffer : Z; c_SocketRecvBuffer : Z; c_PrioritizeFirstLast : bool; c_Sequential : bool;
  c_EnableMetrics : bool; c_path : bytes
}.

Section Setters.
Implicit Types c : Config.
Definition set_c_Port (x : Z) (c : Config) : Config :=
  mkConfig x (c_PeerPort c) (c_DownloadDir c) (c_TmpDir c) (c_APIKey c) (c_StatePath c) (c_MaxActive c) (c_LogLevel c)
    (c_MaxPeers c) (c_MaxPipeline c) (c_DialTimeout c) (c_MaxGlobalDials c) (c_NumWant c) (c_DHTAlpha c) (c_EnableUTP c)
    (c_PipelineMin c) (c_PipelineMax c) (c_PipelineWindowSecs c) (c_SocketSendBuffer c) (c_SocketRecvBuffer c)
    (c_PrioritizeFirstLast c) (c_Sequential c) (c_EnableMetrics c) (c_path c).
Definition set_c_PeerPort (x : Z) (c : Config) : Config :=
  mkConfig (c_Port c) x (c_DownloadDir c) (c_TmpDir c) (c_APIKey c) (c_StatePath c) (c_MaxActive c) (c_LogLevel c)
    (c_MaxPeers c) (c_MaxPipeline c) (c_DialTimeout c) (c_MaxGlobalDials c) (c_NumWant c) (c_DHTAlpha c) (c_EnableUTP c)
    (c_PipelineMin c) (c_PipelineMax c) (c_PipelineWindowSecs c) (c_SocketSendBuffer c) (c_SocketRecvBuffer c)
    (c_PrioritizeFirstLast c) (c_Sequential c) (c_EnableMetrics c) (c_path c).
Definition set_c_DownloadDir (x : bytes) (c : Config) : Config :=
  mkConfig (c_Port c) (c_PeerPort c) x (c_TmpDir c) (c_APIKey c) (c_StatePath c) (c_MaxActive c) (c_LogLevel c)
    (c_MaxPeers c) (c_MaxPipeline c) (c_DialTimeout c) (c_MaxGlobalDials c) (c_NumWant c) (c_DHTAlpha c) (c_EnableUTP c)
    (c_PipelineMin c) (c_PipelineMax c) (c_PipelineWindowSecs c) (c_SocketSendBuffer c) (c_SocketRecvBuffer c)
    (c_PrioritizeFirstLast c) (c_Sequential c) (c_EnableMetrics c) (c_path c).
Definition set_c_TmpDir (x : bytes) (c : Config) : Config :=
  mkConfig (c_Port c) (c_PeerPort c) (c_DownloadDir c) x (c_APIKey c) (c_StatePath c) (c_MaxActive c) (c_LogLevel c)
    (c_MaxPeers c) (c_MaxPipeline c) (c_DialTimeout c) (c_MaxGlobalDials c) (c_NumWant c) (c_DHTAlpha c) (c_EnableUTP c)
    (c_PipelineMin c) (c_PipelineMax c) (c_PipelineWindowSecs c) (c_SocketSendBuffer c) (c_SocketRecvBuffer c)
    (c_PrioritizeFirstLast c) (c_Sequential c) (c_EnableMetrics c) (c_path c).
Definition set_c_APIKey (x : bytes) (c : Config) : Config :=
  mkConfig (c_Port c) (c_PeerPort c) (c_DownloadDir c) (c_TmpDir c) x (c_StatePath c) (c_MaxActive c) (c_LogLevel c)
    (c_MaxPeers c) (c_MaxPipeline c) (c_DialTimeout c) (c_MaxGlobalDials c) (c_NumWant c) (c_DHTAlpha c) (c_EnableUTP c)
    (c_PipelineMin c) (c_PipelineMax c) (c_PipelineWindowSecs c) (c_SocketSendBuffer c) (c_SocketRecvBuffer c)
    (c_PrioritizeFirstLast c) (c_Sequential c) (c_EnableMetrics c) (c_path c).
Definition set_c_StatePath (x : bytes) (c : Config) : Config :=
  mkConfig (c_Port c) (c_PeerPort c) (c_DownloadDir c) (c_TmpDir c) (c_APIKey c) x (c_MaxActive c) (c_LogLevel c)
    (c_MaxPeers c) (c_MaxPipeline c) (c_DialTimeout c) (c_MaxGlobalDials c) (c_NumWant c) (c_DHTAlpha c) (c_EnableUTP c)
    (c_PipelineMin c) (c_PipelineMax c) (c_PipelineWindowSecs c) (c_SocketSendBuffer c) (c_SocketRecvBuffer c)
    (c_PrioritizeFirstLast c) (c_Sequential c) (c_EnableMetrics c) (c_path c).
Definition set_c_MaxActive (x : Z) (c : Config) : Config :=
  mkConfig (c_Port c) (c_PeerPort c) (c_DownloadDir c) (c_TmpDir c) (c_APIKey c) (c_StatePath c) x (c_LogLevel c)
    (c_MaxPeers c) (c_MaxPipeline c) (c_DialTimeout c) (c_MaxGlobalDials c) (c_NumWant c) (c_DHTAlpha c) (c_EnableUTP c)
    (c_PipelineMin c) (c_PipelineMax c) (c_PipelineWindowSecs c) (c_SocketSendBuffer c) (c_SocketRecvBuffer c)
    (c_PrioritizeFirstLast c) (c_Sequential c) (c_EnableMetrics c) (c_path c).
Definition set_c_LogLevel (x : bytes) (c : Config) : Config :=
  mkConfig (c_Port c) (c_PeerPort c) (c_DownloadDir c) (c_TmpDir c) (c_APIKey c) (c_StatePath c) (c_MaxActive c) x
    (c_MaxPeers c) (c_MaxPipeline c) (c_DialTimeout c) (c_MaxGlobalDials c) (c_NumWant c) (c_DHTAlpha c) (c_EnableUTP c)
    (c_PipelineMin c) (c_PipelineMax c) (c_PipelineWindowSecs c) (c_SocketSendBuffer c) (c_SocketRecvBuffer c)
    (c_PrioritizeFirstLast c) (c_Sequential c) (c_EnableMetrics c) (c_path c).
Definition set_c_MaxPeers (x : Z) (c : Config) : Config :=
  mkConfig (c_Port c) (c_PeerPort c) (c_DownloadDir c) (c_TmpDir c) (c_APIKey c) (c_StatePath c) (c_MaxActive c)
    (c_LogLevel c) x (c_MaxPipeline c) (c_DialTimeout c) (c_MaxGlobalDials c) (c_NumWant c) (c_DHTAlpha c) (c_EnableUTP c)
    (c_PipelineMin c) (c_PipelineMax c) (c_PipelineWindowSecs c) (c_SocketSendBuffer c) (c_SocketRecvBuffer c)
    (c_PrioritizeFirstLast c) (c_Sequential c) (c_EnableMetrics c) (c_path c).
Definition set_c_MaxPipeline (x : Z) (c : Config) : Config :=
  mkConfig (c_Port c) (c_PeerPort c) (c_DownloadDir c) (c_TmpDir c) (c_APIKey c) (c_StatePath c) (c_MaxActive c)
    (c_LogLevel c) (c_MaxPeers c) x (c_DialTimeout c) (c_MaxGlobalDials c) (c_NumWant c) (c_DHTAlpha c) (c_EnableUTP c)
    (c_PipelineMin c) (c_PipelineMax c) (c_PipelineWindowSecs c) (c_SocketSendBuffer c) (c_SocketRecvBuffer c)
    (c_PrioritizeFirstLast c) (c_Sequential c) (c_EnableMetrics c) (c_path c).
Definition set_c_DialTimeout (x : Z) (c : Config) : Config :=
  mkConfig (c_Port c) (c_PeerPort c) (c_DownloadDir c) (c_TmpDir c) (c_APIKey c) (c_StatePath c) (c_MaxActive c)
    (c_LogLevel c) (c_MaxPeers c) (c_MaxPipeline c) x (c_MaxGlobalDials c) (c_NumWant c) (c_DHTAlpha c) (c_EnableUTP c)
    (c_PipelineMin c) (c_PipelineMax c) (c_PipelineWindowSecs c) (c_SocketSendBuffer c) (c_SocketRecvBuffer c)
    (c_PrioritizeFirstLast c) (c_Sequential c) (c_EnableMetrics c) (c_path c).
Definition set_c_MaxGlobalDials (x : Z) (c : Config) : Config :=
  mkConfig (c_Port c) (c_PeerPort c) (c_DownloadDir c) (c_TmpDir c) (c_APIKey c) (c_StatePath c) (c_MaxActive c)
    (c_LogLevel c) (c_MaxPeers c) (c_MaxPipeline c) (c_DialTimeout c) x (c_NumWant c) (c_DHTAlpha c) (c_EnableUTP c)
    (c_PipelineMin c) (c_PipelineMax c) (c_PipelineWindowSecs c) (c_SocketSendBuffer c) (c_SocketRecvBuffer c)
    (c_PrioritizeFirstLast c) (c_Sequential c) (c_EnableMetrics c) (c_path c).
Definition set_c_NumWant (x : Z) (c : Config) : Config :=
  mkConfig (c_Port c) (c_PeerPort c) (c_DownloadDir c) (c_TmpDir c) (c_APIKey c) (c_StatePath c) (c_MaxActive c)
    (c_LogLevel c) (c_MaxPeers c) (c_MaxPipeline c) (c_DialTimeout c) (c_MaxGlobalDials c) x (c_DHTAlpha c) (c_EnableUTP c)
    (c_PipelineMin c) (c_PipelineMax c) (c_PipelineWindowSecs c) (c_SocketSendBuffer c) (c_SocketRecvBuffer c)
    (c_PrioritizeFirstLast c) (c_Sequential c) (c_EnableMetrics c) (c_path c).
Definition set_c_DHTAlpha (x : Z) (c : Config) : Config :=
  mkConfig (c_Port c) (c_PeerPort c) (c_DownloadDir c) (c_TmpDir c) (c_APIKey c) (c_StatePath c) (c_MaxActive c)
    (c_LogLevel c) (c_MaxPeers c) (c_MaxPipeline c) (c_DialTimeout c) (c_MaxGlobalDials c) (c_NumWant c) x (c_EnableUTP c)
    (c_PipelineMin c) (c_PipelineMax c) (c_PipelineWindowSecs c) (c_SocketSendBuffer c) (c_SocketRecvBuffer c)
    (c_PrioritizeFirstLast c) (c_Sequential c) (c_EnableMetrics c) (c_path c).
Definition set_c_EnableUTP (x : bool) (c : Config) : Config :=
  mkConfig (c_Port c) (c_PeerPort c) (c_DownloadDir c) (c_TmpDir c) (c_APIKey c) (c_StatePath c) (c_MaxActive c)
    (c_LogLevel c) (c_MaxPeers c) (c_MaxPipeline c) (c_DialTimeout c) (c_MaxGlobalDials c) (c_NumWant c) (c_DHTAlpha c) x
    (c_PipelineMin c) (c_PipelineMax c) (c_PipelineWindowSecs c) (c_SocketSendBuffer c) (c_SocketRecvBuffer c)
    (c_PrioritizeFirstLast c) (c_Sequential c) (c_EnableMetrics c) (c_path c).
Definition set_c_PipelineMin (x : Z) (c : Config) : Config :=
  mkConfig (c_Port c) (c_PeerPort c) (c_DownloadDir c) (c_TmpDir c) (c_APIKey c) (c_StatePath c) (c_MaxActive c)
    (c_LogLevel c) (c_MaxPeers c) (c_MaxPipeline c) (c_DialTimeout c) (c_MaxGlobalDials c) (c_NumWant c) (c_DHTAlpha c)
    (c_EnableUTP c) x (c_PipelineMax c) (c_PipelineWindowSecs c) (c_SocketSendBuffer c) (c_SocketRecvBuffer c)
    (c_PrioritizeFirstLast c) (c_Sequential c) (c_EnableMetrics c) (c_path c).
Definition set_c_PipelineMax (x : Z) (c : Config) : Config :=
  mkConfig (c_Port c) (c_PeerPort c) (c_DownloadDir c) (c_TmpDir c) (c_APIKey c) (c_StatePath c) (c_MaxActive c)
    (c_LogLevel c) (c_MaxPeers c) (c_MaxPipeline c) (c_DialTimeout c) (c_MaxGlobalDials c) (c_NumWant c) (c_DHTAlpha c)
    (c_EnableUTP c) (c_PipelineMin c) x (c_PipelineWindowSecs c) (c_SocketSendBuffer c) (c_SocketRecvBuffer c)
    (c_PrioritizeFirstLast c) (c_Sequential c) (c_EnableMetrics c) (c_path c).
Definition set_c_PipelineWindowSecs (x : Z) (c : Config) : Config :=
  mkConfig (c_Port c) (c_PeerPort c) (c_DownloadDir c) (c_TmpDir c) (c_APIKey c) (c_StatePath c) (c_MaxActive c)
    (c_LogLevel c) (c_MaxPeers c) (c_MaxPipeline c) (c_DialTimeout c) (c_MaxGlobalDials c) (c_NumWant c) (c_DHTAlpha c)
    (c_EnableUTP c) (c_PipelineMin c) (c_PipelineMax c) x (c_SocketSendBuffer c) (c_SocketRecvBuffer c)
    (c_PrioritizeFirstLast c) (c_Sequential c) (c_EnableMetrics c) (c_path c).
Definition set_c_SocketSendBuffer (x : Z) (c : Config) : Config :=
  mkConfig (c_Port c) (c_PeerPort c) (c_DownloadDir c) (c_TmpDir c) (c_APIKey c) (c_StatePath c) (c_MaxActive c)
    (c_LogLevel c) (c_MaxPeers c) (c_MaxPipeline c) (c_DialTimeout c) (c_MaxGlobalDials c) (c_NumWant c) (c_DHTAlpha c)
    (c_EnableUTP c) (c_PipelineMin c) (c_PipelineMax c) (c_PipelineWindowSecs c) x (c_SocketRecvBuffer c)
    (c_PrioritizeFirstLast c) (c_Sequential c) (c_EnableMetrics c) (c_path c).
Definition set_c_SocketRecvBuffer (x : Z) (c : Config) : Config :=
  mkConfig (c_Port c) (c_PeerPort c) (c_DownloadDir c) (c_TmpDir c) (c_APIKey c) (c_StatePath c) (c_MaxActive c)
    (c_LogLevel c) (c_MaxPeers c) (c_MaxPipeline c) (c_DialTimeout c) (c_MaxGlobalDials c) (c_NumWant c) (c_DHTAlpha c)
    (c_EnableUTP c) (c_PipelineMin c) (c_PipelineMax c) (c_PipelineWindowSecs c) (c_SocketSendBuffer c) x
    (c_PrioritizeFirstLast c) (c_Sequential c) (c_EnableMetrics c) (c_path c).
Definition set_c_PrioritizeFirstLast (x : bool) (c : Config) : Config :=
  mkConfig (c_Port c) (c_PeerPort c) (c_DownloadDir c) (c_TmpDir c) (c_APIKey c) (c_StatePath c) (c_MaxActive c)
    (c_LogLevel c) (c_MaxPeers c) (c_MaxPipeline c) (c_DialTimeout c) (c_MaxGlobalDials c) (c_NumWant c) (c_DHTAlpha c)
    (c_EnableUTP c) (c_PipelineMin c) (c_PipelineMax c) (c_PipelineWindowSecs c) (c_SocketSendBuffer c)
    (c_SocketRecvBuffer c) x (c_Sequential c) (c_EnableMetrics c) (c_path c).
Definition set_c_Sequential (x : bool) (c : Config) : Config :=
  mkConfig (c_Port c) (c_PeerPort c) (c_DownloadDir c) (c_TmpDir c) (c_APIKey c) (c_StatePath c) (c_MaxActive c)
    (c_LogLevel c) (c_MaxPeers c) (c_MaxPipeline c) (c_DialTimeout c) (c_MaxGlobalDials c) (c_NumWant c) (c_DHTAlpha c)
    (c_EnableUTP c) (c_PipelineMin c) (c_PipelineMax c) (c_PipelineWindowSecs c) (c_SocketSendBuffer c)
    (c_SocketRecvBuffer c) (c_PrioritizeFirstLast c) x (c_EnableMetrics c) (c_path c).
Definition set_c_EnableMetrics (x : bool) (c : Config) : Config :=
  mkConfig (c_Port c) (c_PeerPort c) (c_DownloadDir c) (c_TmpDir c) (c_APIKey c) (c_StatePath c) (c_MaxActive c)
    (c_LogLevel c) (c_MaxPeers c) (c_MaxPipeline c) (c_DialTimeout c) (c_MaxGlobalDials c) (c_NumWant c) (c_DHTAlpha c)
    (c_EnableUTP c) (c_PipelineMin c) (c_PipelineMax c) (c_PipelineWindowSecs c) (c_SocketSendBuffer c)
    (c_SocketRecvBuffer c) (c_PrioritizeFirstLast c) (c_Sequential c) x (c_path c).
Definition set_c_path (x : bytes) (c : Config) : Config :=
  mkConfig (c_Port c) (c_PeerPort c) (c_DownloadDir c) (c_TmpDir c) (c_APIKey c) (c_StatePath c) (c_MaxActive c)
    (c_LogLevel c) (c_MaxPeers c) (c_MaxPipeline c) (c_DialTimeout c) (c_MaxGlobalDials c) (c_NumWant c) (c_DHTAlpha c)
    (c_EnableUTP c) (c_PipelineMin c) (c_PipelineMax c) (c_PipelineWindowSecs c) (c_SocketSendBuffer c)
    (c_SocketRecvBuffer c) (c_PrioritizeFirstLast c) (c_Sequential c) (c_EnableMetrics c) x.
End Setters.

(** ** Text *)

(** [filepath.Dir]: everything up to the last separator, cleaned. *)
Definition Dir (path : bytes) : bytes :=
  Clean (match list_find (fun b => b = sep) (rev path) with Some (i, _) => take (length path - i) path | None => [] end).

(** The lines of a [bufio.Scanner]: a line of 64 KB or more ends the scan. *)
Definition MaxScanTokenSize : Z := 65536.
Definition dropCR (l : bytes) : bytes := match last l with Some x0d => removelast l | _ => l end.
Fixpoint scan_lines (line s : bytes) : list bytes :=
  match s with
  | [] => if bool_decide (line = []) || (MaxScanTokenSize <=? len line) then [] else [dropCR line]
  | b :: s => if Byte.eqb b x0a then if MaxScanTokenSize <=? len line then [] else dropCR line :: scan_lines [] s
              else scan_lines (line ++ [b]) s
  end.

(** [strings.Cut(line, "=")]. *)
Fixpoint cut_eq (s : bytes) : option (bytes * bytes) :=
  match s with
  | [] => None
  | b :: s => if Byte.eqb b x3d then Some ([], s) else '(k, v) ← cut_eq s; Some (b :: k, v)
  end.

(** Where a comment begins. *)
Fixpoint comment_at (prev : option byte) (inStr : bool) (s : bytes) : option nat :=
  match s with
  | [] => None
  | c :: s =>
      if Byte.eqb c x22 then
        S <$> comment_at (Some c) (if inStr && bool_decide (prev = Some x5c) then inStr else negb inStr) s
      else if Byte.eqb c x23 && negb inStr then Some 0%nat
      else S <$> comment_at (Some c) inStr s
  end.

Definition stripInlineComment (val : bytes) : bytes :=
  match comment_at None false val with Some i => TrimSpace (take i val) | None => val end.

(** ** Reading *)

Definition Atoi (val : bytes) : option Z := parse_int64 val.
Definition set_int (set : Z -> Config -> Config) (val : bytes) (c : Config) : Config :=
  match Atoi val with Some n => set n c | None => c end.
Definition is_true (val : bytes) : bool := bool_decide (val = lit "true").

Definition apply_key (key val : bytes) (c : Config) : Config :=
  if bool_decide (key = lit "port") then set_int set_c_Port val c
  else if bool_decide (key = lit "peer_port") then set_int set_c_PeerPort val c
  else if bool_decide (key = lit "download_dir") then set_c_DownloadDir val c
  else if bool_decide (key = lit "tmp_dir") then set_c_TmpDir val c
  else if bool_decide (key = lit "api_key") then set_c_APIKey val c
  else if bool_decide (key = lit "max_active") then set_int set_c_MaxActive val c
  else if bool_decide (key = lit "log_level") then set_c_LogLevel val c
  else if bool_decide (key = lit "max_peers") then set_int set_c_MaxPeers val c
  else if bool_decide (key = lit "max_pipeline") then set_int set_c_MaxPipeline val c
  else if bool_decide (key = lit "dial_timeout") then set_int set_c_DialTimeout val c
  else if bool_decide (key = lit "max_global_dials") then set_int set_c_MaxGlobalDials val c
  else if bool_decide (key = lit "pipeline_min") then set_int set_c_PipelineMin val c
  else if bool_decide (key = lit "pipeline_max") then set_int set_c_PipelineMax val c
  else if bool_decide (key = lit "pipeline_window_secs") then set_int set_c_PipelineWindowSecs val c
  else if bool_decide (key = lit "socket_send_buffer_bytes") then set_int set_c_SocketSendBuffer val c
  else if bool_decide (key = lit "socket_recv_buffer_bytes") then set_int set_c_SocketRecvBuffer val c
  else if bool_decide (key = lit "numwant") then set_int set_c_NumWant val c
  else if bool_decide (key = lit "dht_alpha") then set_int set_c_DHTAlpha val c
  else if bool_decide (key = lit "enable_utp") then set_c_EnableUTP (is_true val) c
  else if bool_decide (key = lit "prioritize_first_last_pieces") then set_c_PrioritizeFirstLast (is_true val) c
  else if bool_decide (key = lit "sequential_download") then set_c_Sequential (is_true val) c
  else if bool_decide (key = lit "enable_metrics") then set_c_EnableMetrics (is_true val) c
  else c.

Definition unquote_value (val : bytes) : bytes :=
  if (2 <=? len val) && bool_decide (head val = Some x22) && bool_decide (last val = Some x22) then default [] (Unquote val)
  else val.

Definition parse_line (c : Config) (text : bytes) : Config :=
  let line := TrimSpace text in
  match line with
  | [] => c
  | b :: _ =>
      if Byte.eqb b x23 || Byte.eqb b x5b then c
      else match cut_eq line with
           | None => c
           | Some (key, val) => apply_key (TrimSpace key) (unquote_value (stripInlineComment (TrimSpace val))) c
           end
  end.

Definition parseTOML (data : bytes) (c : Config) : Config := foldl parse_line c (scan_lines [] data).

(** ** Writing *)

Section Save.
Context (print_above : Z -> bool).

Definition newline : bytes := [x0a].
Definition line_int (key : bytes) (n : Z) : bytes := key ++ lit " = " ++ itoa n ++ newline.
Definition line_str (key v : bytes) : bytes := key ++ lit " = " ++ Quote print_above v ++ newline.
Definition opt_int (key : bytes) (n : Z) : bytes := if 0 <? n then line_int key n else [].
Definition opt_true (key : bytes) (b : bool) : bytes := if b then key ++ lit " = true" ++ newline else [].

Definition config_text (c : Config) : bytes :=
  lit "# stor daemon configuration" ++ newline ++ newline ++
  line_int (lit "port") (c_Port c) ++
  opt_int (lit "peer_port") (c_PeerPort c) ++
  line_str (lit "download_dir") (c_DownloadDir c) ++
  (if bool_decide (c_TmpDir c = []) then [] else line_str (lit "tmp_dir") (c_TmpDir c)) ++
  line_str (lit "api_key") (c_APIKey c) ++
  line_int (lit "max_active") (c_MaxActive c) ++
  line_str (lit "log_level") (c_LogLevel c) ++
  newline ++ lit "# Performance tuning (0 = use defaults)" ++ newline ++
  opt_int (lit "max_peers") (c_MaxPeers c) ++
  opt_int (lit "max_pipeline") (c_MaxPipeline c) ++
  opt_int (lit "dial_timeout") (c_DialTimeout c) ++
  opt_int (lit "max_global_dials") (c_MaxGlobalDials c) ++
  opt_int (lit "pipeline_min") (c_PipelineMin c) ++
  opt_int (lit "pipeline_max") (c_PipelineMax c) ++
  opt_int (lit "pipeline_window_secs") (c_PipelineWindowSecs c) ++
  opt_int (lit "socket_send_buffer_bytes") (c_SocketSendBuffer c) ++
  opt_int (lit "socket_recv_buffer_bytes") (c_SocketRecvBuffer c) ++
  opt_int (lit "numwant") (c_NumWant c) ++
  opt_int (lit "dht_alpha") (c_DHTAlpha c) ++
  opt_true (lit "enable_utp") (c_EnableUTP c) ++
  opt_true (lit "prioritize_first_last_pieces") (c_PrioritizeFirstLast c) ++
  opt_true (lit "sequential_download") (c_Sequential c) ++
  (if c_EnableMetrics c then newline ++ lit "# Observability (exposes /metrics and /debug/pprof/; both require API key)" ++ newline ++
     lit "enable_metrics = true" ++ newline else []).

(** [Save]: whether it succeeded and what is in the file then; [ok] is the answer of the file system. *)
Definition config_Save (ok : bool) (c : Config) : bool * option bytes :=
  if bool_decide (c_path c = []) then (true, None) else if ok then (true, Some (config_text c)) else (false, None).

(** ** Loading *)

Inductive config_file := FileData (data : bytes) | FileNotExist | FileError.
Inductive config_error := SaveDefault | ReadConfig | SaveWithKey.

Definition DefaultConfig (home : bytes) : Config :=
  mkConfig 9090 0 (Join [home; lit "Downloads"]) [] [] [] 5 (lit "info") 0 0 0 0 0 0 false 0 0 0 0 0 false false false [].

Definition generateAPIKey (rnd : bytes) : bytes := lit "sk-" ++ hex_EncodeToString rnd.

Definition state_path (path : bytes) : bytes := Join [Dir path; lit "state.json"].

(** The configuration, the error, and what was written to the file. *)
Definition LoadConfig (home path : bytes) (file : config_file) (rnd : bytes) (ok : bool) : Config * option config_error * option bytes :=
  let c := set_c_StatePath (state_path path) (set_c_path path (DefaultConfig home)) in
  match file with
  | FileNotExist =>
      let c := set_c_APIKey (generateAPIKey rnd) c in
      let '(saved, out) := config_Save ok c in
      (c, if saved then None else Some SaveDefault, out)
  | FileError => (c, Some ReadConfig, None)
  | FileData data =>
      let c := parseTOML data c in
      let finish c := set_c_StatePath (state_path path) (if c_MaxActive c <? 1 then set_c_MaxActive 5 c else c) in
      if bool_decide (c_APIKey c = []) then
        let c := set_c_APIKey (generateAPIKey rnd) c in
        let '(saved, out) := config_Save ok c in
        if saved then (finish c, None, out) else (c, Some SaveWithKey, out)
      else (finish c, None, None)
  end.
End Save.

(** ** Log levels *)

Inductive Level := LevelDebug | LevelInfo | LevelWarn | LevelError.

(** [strings.ToLower], as far as the result can be one of the names: ASCII letters, and the two other characters
    whose lower case is one. *)
Definition lower (b : byte) : byte := if (65 <=? u8 b) && (u8 b <=? 90) then byte_of_Z (u8 b + 32) else b.
Fixpoint ToLower (s : bytes) : bytes :=
  match s with
  | xc4 :: xb0 :: s => x69 :: ToLower s
  | xe2 :: x84 :: xaa :: s => x6b :: ToLower s
  | b :: s => lower b :: ToLower s
  | [] => []
  end.

Definition ParseLogLevel (s : bytes) : Level :=
  let l := ToLower s in
  if bool_decide (l = lit "debug") then LevelDebug
  else if bool_decide (l = lit "warn") || bool_decide (l = lit "warning") then LevelWarn
  else if bool_decide (l = lit "error") then LevelError else LevelInfo.
