(* ===== verification/ConfigTheorems.v ===== *)
(** * Properties of the daemon's configuration *)

From S2P Require Import Prelude Strconv Net Text Paths Quote Magnet Config.
Set Warnings "-clear-no-such-hyp".
Local Open Scope Z_scope.

(** ** White space *)

(** A visible ASCII character: no white space begins or ends with it. *)
Definition solid (b : byte) : Prop := 0x21 <= u8 b < 0x7f.

Lemma starts_with_head r x b s : starts_with (x :: r) (b :: s) = true -> x = b.
Proof. intros H%bool_decide_eq_true. cbn in H. by injection H. Qed.

Definition faint (runes : list bytes) : Prop := Forall (fun r : bytes => exists x t, r = x :: t /\ ~ solid x) runes.

Ltac faint_solve :=
  unfold solid;
  repeat (constructor; [eexists _, _; split; [reflexivity|vm_compute; intros [H1 H2]; (by apply H1) || discriminate H2]|]); constructor.

Lemma faint_spaces : faint space_runes.
Proof. faint_solve. Qed.
Lemma faint_spaces_rev : faint (@rev byte <$> space_runes).
Proof. faint_solve. Qed.

Lemma trim_solid runes fuel b s : faint runes -> solid b -> trim_runes runes fuel (b :: s) = b :: s.
Proof.
  intros H Hb. apply trim_runes_fixed. eapply Forall_impl; [exact H|]. intros r (x & t & -> & Hx).
  destruct (starts_with (x :: t) (b :: s)) eqn:E; [|done]. apply starts_with_head in E. by subst.
Qed.

Lemma trim_space_solid runes fuel b s : (exists i, list_find (fun r => starts_with r (x20 :: b :: s) = true) runes = Some (i, [x20])) ->
  faint runes -> solid b -> trim_runes runes (S fuel) (x20 :: b :: s) = b :: s.
Proof. intros [i E] H Hb. cbn [trim_runes]. rewrite E. cbn [length drop]. by apply trim_solid. Qed.

Lemma find_space b s : exists i, list_find (fun r => starts_with r (x20 :: b :: s) = true) space_runes = Some (i, [x20]).
Proof. by exists 5%nat. Qed.
Lemma find_space_rev b s : exists i, list_find (fun r => starts_with r (x20 :: b :: s) = true) (@rev byte <$> space_runes) = Some (i, [x20]).
Proof. by exists 5%nat. Qed.

(** A text with visible ends. *)
Definition framed (s : bytes) : Prop := (exists b t, s = b :: t /\ solid b) /\ (exists b t, s = t ++ [b] /\ solid b).

Lemma TrimSpace_framed s : framed s -> TrimSpace s = s.
Proof.
  intros [(b & t & -> & Hb) (b' & t' & E & Hb')]. unfold TrimSpace, TrimLeft.
  rewrite (trim_solid _ _ _ _ faint_spaces Hb). rewrite E. unfold TrimRight. rewrite rev_app_distr. cbn [rev app].
  rewrite (trim_solid _ _ _ _ faint_spaces_rev Hb'). cbn [rev]. by rewrite rev_involutive.
Qed.

Lemma TrimSpace_after s : framed s -> TrimSpace (x20 :: s) = s.
Proof.
  intros F. pose proof F as [(b & t & -> & Hb) _]. unfold TrimSpace, TrimLeft. cbn [length].
  rewrite (trim_space_solid _ _ _ _ (find_space b t) faint_spaces Hb). etransitivity; [|by apply TrimSpace_framed].
  unfold TrimSpace, TrimLeft. by rewrite (trim_solid _ _ _ _ faint_spaces Hb).
Qed.

Lemma TrimSpace_before s : framed s -> TrimSpace (s ++ [x20]) = s.
Proof.
  intros [(b & t & E0 & Hb) (b' & t' & E & Hb')]. unfold TrimSpace, TrimLeft. rewrite E0 at 2. cbn [app].
  rewrite (trim_solid _ _ _ _ faint_spaces Hb). change (b :: t ++ [x20]) with ((b :: t) ++ [x20]). rewrite <- E0, E.
  unfold TrimRight. rewrite !rev_app_distr. cbn [rev app]. rewrite !length_app. cbn [length]. rewrite Nat.add_1_r.
  rewrite (trim_space_solid _ _ _ _ (find_space_rev b' (rev t')) faint_spaces_rev Hb'). cbn [rev]. by rewrite rev_involutive.
Qed.

(** ** Lines *)

Lemma scan_line l : forall line rest, x0a ∉ l -> len (line ++ l) < MaxScanTokenSize ->
  scan_lines line (l ++ newline ++ rest) = dropCR (line ++ l) :: scan_lines [] rest.
Proof.
  induction l as [|b l IH]; intros line rest Hn Hl; cbn [app newline scan_lines].
  - rewrite app_nil_r in *. cbn [Byte.eqb]. by rewrite (proj2 (Z.leb_gt _ _)) by done.
  - rewrite (proj2 (byte_eqb_false b x0a)) by set_solver. change (l ++ x0a :: rest) with (l ++ newline ++ rest).
    rewrite IH; [by rewrite <- (assoc_L (++))|set_solver|by rewrite <- (assoc_L (++))].
Qed.

Lemma dropCR_framed s : framed s -> dropCR s = s.
Proof.
  intros [_ (b & t & -> & Hb)]. unfold dropCR. rewrite last_snoc.
  destruct (decide (b = x0d)) as [->|Hne]; [by destruct Hb; vm_compute in H|]. by destruct b.
Qed.

Definition key_byte (b : byte) : bool := ((97 <=? u8 b) && (u8 b <=? 122)) || Byte.eqb b x5f.
Definition plain_key (k : bytes) : bool := negb (bool_decide (k = [])) && forallb key_byte k.

Lemma key_byte_solid b : key_byte b = true -> solid b /\ b <> x3d /\ b <> x23 /\ b <> x5b.
Proof.
  unfold key_byte, solid. intros H. assert (Hb : 97 <= u8 b <= 122 \/ b = x5f).
  { apply orb_true_iff in H as [H|H]; [left; to_arith; lia|right; by apply byte_eqb_true]. }
  destruct Hb as [Hb| ->]; [|by vm_compute]. split_and!; [lia|lia|..]; intros ->; vm_compute in Hb; by destruct Hb.
Qed.

Lemma plain_key_spec k : plain_key k = true -> framed k /\ (x3d ∉ k) /\ (x0a ∉ k) /\ exists b t, k = b :: t /\ b <> x23 /\ b <> x5b.
Proof.
  unfold plain_key. intros [H1 H2]%andb_true_iff. apply negb_true_iff, bool_decide_eq_false in H1.
  rewrite forallb_forall in H2. split_and!.
  - split.
    + destruct k as [|b t]; [done|]. exists b, t. split; [done|]. apply key_byte_solid, H2. by left.
    + destruct k as [|b t _] using rev_ind; [done|]. exists b, t. split; [done|].
      apply key_byte_solid, H2, in_app_iff. right. by left.
  - intros Hin%list_elem_of_In%H2%key_byte_solid. naive_solver.
  - intros Hin%list_elem_of_In%H2. by vm_compute in Hin.
  - destruct k as [|b t]; [done|]. exists b, t. split; [done|]. apply key_byte_solid, H2. by left.
Qed.

Lemma cut_eq_app k v : x3d ∉ k -> cut_eq (k ++ x3d :: v) = Some (k, v).
Proof.
  induction k as [|b k IH]; intros Hk; cbn [app cut_eq]; [done|].
  rewrite (proj2 (byte_eqb_false b x3d)) by set_solver. rewrite IH by set_solver. done.
Qed.

Lemma framed_line k v : framed k -> framed v -> framed (k ++ lit " = " ++ v).
Proof.
  intros [(b & t & -> & Hb) _] [_ (b' & t' & -> & Hb')]. split.
  - exists b, (t ++ lit " = " ++ t' ++ [b']). done.
  - exists b', ((b :: t) ++ lit " = " ++ t'). split; [|done]. by rewrite <- !(assoc_L (++)).
Qed.

(** A line [key = value] of the file. *)
Lemma parse_line_value k v c : plain_key k = true -> framed v ->
  parse_line c (k ++ lit " = " ++ v) = apply_key k (unquote_value (stripInlineComment v)) c.
Proof.
  intros (Fk & Heq & _ & b & t & Ek & Hb1 & Hb2)%plain_key_spec Fv. unfold parse_line.
  rewrite TrimSpace_framed by by apply framed_line.
  assert (Hc : cut_eq (k ++ lit " = " ++ v) = Some (k ++ [x20], x20 :: v)).
  { change (lit " = ") with ([x20] ++ [x3d; x20]). rewrite <- (assoc_L (++)), (assoc_L (++)). apply cut_eq_app. set_solver. }
  rewrite Hc, TrimSpace_before, TrimSpace_after by done. rewrite Ek. cbn [app].
  rewrite (proj2 (byte_eqb_false b x23)), (proj2 (byte_eqb_false b x5b)) by done. done.
Qed.

(** ** Values *)

Lemma comment_at_none p s : x22 ∉ s -> x23 ∉ s -> comment_at p false s = None.
Proof.
  revert p. induction s as [|c s IH]; intros p H1 H2; cbn [comment_at]; [done|].
  rewrite (proj2 (byte_eqb_false c x22)), (proj2 (byte_eqb_false c x23)) by set_solver. cbn [andb].
  rewrite IH by set_solver. done.
Qed.

Lemma itoa_bytes n : in_i64 n -> framed (itoa n) /\ Forall (fun b => is_digit b = true \/ b = x2d) (itoa n).
Proof.
  intros Hn. assert (Hd : forall z, 0 <= z -> digits z <> [] /\ Forall (fun b => is_digit b = true) (digits z)).
  { intros z Hz. destruct (digits_spec z Hz) as (_ & H & Hne). split; [done|]. rewrite Forall_forall. intros x Hx%list_elem_of_In.
    by apply (proj1 (forallb_forall _ _) H). }
  assert (Hs : forall b, is_digit b = true -> solid b) by (unfold is_digit, solid; intros b H; to_arith; lia).
  assert (Hf : forall z, 0 <= z -> exists b t, digits z = t ++ [b] /\ solid b).
  { intros z [Hne Ha]%Hd. destruct (digits z) as [|b t _] using rev_ind; [done|]. exists b, t. split; [done|].
    apply Hs. rewrite Forall_app, Forall_singleton in Ha. apply Ha. }
  assert (Hall : forall z, 0 <= z -> Forall (fun b => is_digit b = true \/ b = x2d) (digits z)).
  { intros z [_ Ha]%Hd. eapply Forall_impl; [exact Ha|]. auto. }
  unfold itoa. destruct (Z.ltb_spec n 0).
  - destruct (Hf (- n) ltac:(lia)) as (b & t & E & Hb). split; [split|].
    + by exists x2d, (digits (- n)).
    + exists b, (x2d :: t). by rewrite E.
    + constructor; [by right|]. apply Hall. lia.
  - destruct (Hf n ltac:(lia)) as (b & t & E & Hb). split; [split|by apply Hall].
    + destruct (Hd n) as [Hne Ha]; [done|]. destruct (digits n) as [|b' t']; [done|]. exists b', t'. split; [done|].
      apply Hs. by inversion Ha.
    + by exists b, t.
Qed.

Lemma itoa_value n : in_i64 n -> unquote_value (stripInlineComment (itoa n)) = itoa n.
Proof.
  intros Hn. destruct (itoa_bytes n Hn) as [F H]. rewrite Forall_forall in H.
  assert (Hno : forall b, is_digit b = false -> b <> x2d -> b ∉ itoa n).
  { intros b Hb Hm Hin%H. destruct Hin; congruence. }
  unfold stripInlineComment. rewrite comment_at_none by by apply Hno. unfold unquote_value.
  rewrite (bool_decide_eq_false_2 (head (itoa n) = Some x22)); [by rewrite andb_false_r|].
  intros E. destruct (itoa n) as [|b t]; [done|]. injection E as ->. apply (Hno x22); [done..|left].
Qed.

Lemma comment_at_quoted cs : Forall chunk_ok cs -> forall p, comment_at p true (concat cs ++ [x22]) = None.
Proof.
  induction 1 as [|c cs [_ Hc] _ IH]; intros p; cbn [concat].
  - reflexivity.
  - rewrite <- (assoc_L (++)). destruct Hc as [Hc| ->].
    + revert p. induction c as [|b c IHc]; intros p; cbn [app comment_at]; [apply IH|].
      rewrite (proj2 (byte_eqb_false b x22)) by set_solver. rewrite andb_false_r. rewrite IHc by set_solver. done.
    + change (comment_at p true ([x5c; x22] ++ concat cs ++ [x22]))
        with (S <$> (S <$> comment_at (Some x22) true (concat cs ++ [x22]))). by rewrite IH.
Qed.

Lemma not_elem_concat (b : byte) cs : Forall (fun c : bytes => b ∉ c) cs -> b ∉ concat cs.
Proof. induction 1; cbn [concat]; set_solver. Qed.

Section Quoted.
Context (print_above : Z -> bool).

Lemma Quote_value v : framed (Quote print_above v) /\ (x0a ∉ Quote print_above v) /\
  unquote_value (stripInlineComment (Quote print_above v)) = v.
Proof.
  assert (Hs : solid x22) by by vm_compute. pose proof (Unquote_Quote print_above v) as HU.
  destruct (quote_body_chunks print_above (length v) v) as (cs & E & Hcs).
  assert (HQ : Quote print_above v = x22 :: concat cs ++ [x22]) by (unfold Quote; by rewrite E). rewrite HQ in *.
  split_and!.
  - split; [by exists x22, (concat cs ++ [x22])|by exists x22, (x22 :: concat cs)].
  - assert (x0a ∉ concat cs); [|set_solver]. apply not_elem_concat. eapply Forall_impl; [exact Hcs|]. by intros c [].
  - assert (HC : stripInlineComment (x22 :: concat cs ++ [x22]) = x22 :: concat cs ++ [x22]).
    { unfold stripInlineComment. change (comment_at None false (x22 :: concat cs ++ [x22]))
        with (S <$> comment_at (Some x22) true (concat cs ++ [x22])). by rewrite comment_at_quoted. }
    rewrite HC.
    assert (HL : last (x22 :: concat cs ++ [x22]) = Some x22) by (rewrite app_comm_cons; apply last_snoc).
    unfold unquote_value. rewrite HL, HU, !bool_decide_true by done.
    rewrite (proj2 (Z.leb_le _ _)); [done|]. cbn [length]. rewrite length_app. cbn [length]. lia.
Qed.

(** ** What the parts of the file do to a configuration *)

Definition reads (text : bytes) (f : Config -> Config) : Prop := forall rest c,
  foldl parse_line c (scan_lines [] (text ++ rest)) = foldl parse_line (f c) (scan_lines [] rest).

Lemma reads_app t1 t2 f1 f2 : reads t1 f1 -> reads t2 f2 -> reads (t1 ++ t2) (fun c => f2 (f1 c)).
Proof. intros H1 H2 rest c. rewrite <- (assoc_L (++)), H1. apply H2. Qed.

Lemma reads_nil : reads [] id.
Proof. by intros rest c. Qed.

Lemma reads_line l f : (x0a ∉ l) -> len l < MaxScanTokenSize -> dropCR l = l -> (forall c, parse_line c l = f c) -> reads (l ++ newline) f.
Proof. intros Hn Hl Hr Hf rest c. rewrite <- (assoc_L (++)), scan_line by done. cbn [app foldl]. by rewrite Hr, Hf. Qed.

Lemma reads_value k v f : plain_key k = true -> framed v -> (x0a ∉ v) -> len (k ++ lit " = " ++ v) < MaxScanTokenSize ->
  (forall c, apply_key k (unquote_value (stripInlineComment v)) c = f c) -> reads (k ++ lit " = " ++ v ++ newline) f.
Proof.
  intros Hk Fv Hn Hl Hf. rewrite !(assoc_L (++)). rewrite <- (assoc_L (++) k). apply plain_key_spec in Hk as Hk'.
  destruct Hk' as (Fk & _ & Hkn & _). apply reads_line; [|done|by apply dropCR_framed, framed_line|].
  - rewrite !not_elem_of_app. split_and!; [done|by vm_compute; set_solver|done].
  - intros c. by rewrite parse_line_value, Hf.
Qed.

Lemma length_digits_fuel fuel : forall z, (length (digits_fuel fuel z) <= fuel)%nat.
Proof.
  induction fuel as [|f IH]; intros z; cbn [digits_fuel]; [done|]. destruct (z <? 10); [cbn; lia|].
  rewrite length_app. cbn [length]. specialize (IH (z / 10)). lia.
Qed.

Lemma length_itoa n : in_i64 n -> len (itoa n) <= 66.
Proof.
  intros [H1 H2]. unfold MinInt64, MaxInt64 in *. assert (Hd : forall z, 0 <= z <= 2 ^ 63 -> len (digits z) <= 64).
  { intros z Hz. unfold digits. pose proof (length_digits_fuel (S (Z.to_nat (Z.log2 z))) z).
    assert (Z.log2 z <= 63) by (change 63 with (Z.log2 (2 ^ 63)); apply Z.log2_le_mono; lia). lia. }
  unfold itoa. destruct (Z.ltb_spec n 0); [cbn [length]; specialize (Hd (- n)); lia|specialize (Hd n); lia].
Qed.

Lemma reads_int k n set : plain_key k = true -> len k <= 100 -> in_i64 n ->
  (forall v c, apply_key k v c = set_int set v c) -> reads (line_int k n) (set n).
Proof.
  intros Hk Hl Hn Hset. destruct (itoa_bytes n Hn) as [F H]. apply reads_value; [done..| | |].
  - rewrite Forall_forall in H. intros Hin%H. by destruct Hin.
  - rewrite !length_app. pose proof (length_itoa n Hn). unfold MaxScanTokenSize. change (length (lit " = ")) with 3%nat. lia.
  - intros c. rewrite itoa_value, Hset by done. unfold set_int, Atoi. by rewrite parse_int64_itoa.
Qed.

Lemma reads_str k v set : plain_key k = true -> len (k ++ lit " = " ++ Quote print_above v) < MaxScanTokenSize ->
  (forall v c, apply_key k v c = set v c) -> reads (line_str print_above k v) (set v).
Proof.
  intros Hk Hl Hset. destruct (Quote_value v) as (F & Hn & Hv). apply reads_value; [done..|]. intros c. by rewrite Hv, Hset.
Qed.

(** A value that is written only when it differs from the default. *)
Definition keep {A} (b : bool) (x : A) (get : Config -> A) (set : A -> Config -> Config) (c : Config) : Config :=
  set (if b then x else get c) c.

Lemma reads_opt_int k n (get : Config -> Z) set : plain_key k = true -> len k <= 100 -> in_i64 n ->
  (forall v c, apply_key k v c = set_int set v c) -> (forall c, set (get c) c = c) ->
  reads (opt_int k n) (keep (0 <? n) n get set).
Proof.
  intros Hk Hl Hn Hset Hget. unfold opt_int. destruct (0 <? n); [by apply (reads_int k n set)|]. intros rest c. unfold keep. by rewrite Hget.
Qed.

Lemma reads_opt_true k b (get : Config -> bool) set : plain_key k = true -> len k <= 100 ->
  (forall v c, apply_key k v c = set (is_true v) c) -> (forall c, set (get c) c = c) ->
  reads (opt_true k b) (keep b true get set).
Proof.
  intros Hk Hl Hset Hget. unfold opt_true. destruct b; [|intros rest c; unfold keep; by rewrite Hget].
  change (lit " = true" ++ newline) with (lit " = " ++ lit "true" ++ newline). apply reads_value; [done|..].
  - split; [by exists x74, (lit "rue")|by exists x65, (lit "tru")].
  - vm_compute. set_solver.
  - rewrite !length_app. unfold MaxScanTokenSize. change (length (lit " = ")) with 3%nat. change (length (lit "true")) with 4%nat. lia.
  - intros c. rewrite Hset. reflexivity.
Qed.

Lemma reads_newline : reads newline id.
Proof. by intros rest c. Qed.

Lemma reads_comment l : (x0a ∉ l) -> len l < MaxScanTokenSize -> dropCR l = l -> (forall c, parse_line c l = c) -> reads (l ++ newline) id.
Proof. intros. by apply reads_line. Qed.
End Quoted.

(** ** The round trip *)

Section Roundtrip.
Context (print_above : Z -> bool).

Definition config_ints (c : Config) : list Z :=
  [c_Port c; c_PeerPort c; c_MaxActive c; c_MaxPeers c; c_MaxPipeline c; c_DialTimeout c; c_MaxGlobalDials c; c_NumWant c;
   c_DHTAlpha c; c_PipelineMin c; c_PipelineMax c; c_PipelineWindowSecs c; c_SocketSendBuffer c; c_SocketRecvBuffer c].

(** The lines of the file are shorter than 64 KB. *)
Definition config_fits (c : Config) : Prop :=
  len (lit "download_dir = " ++ Quote print_above (c_DownloadDir c)) < MaxScanTokenSize /\
  len (lit "tmp_dir = " ++ Quote print_above (c_TmpDir c)) < MaxScanTokenSize /\
  len (lit "api_key = " ++ Quote print_above (c_APIKey c)) < MaxScanTokenSize /\
  len (lit "log_level = " ++ Quote print_above (c_LogLevel c)) < MaxScanTokenSize.

Definition positive (n : Z) : Z := if 0 <? n then n else 0.

(** A configuration as it is after a restart: the values that count as unset are zero. *)
Definition reloaded (path : bytes) (c : Config) : Config :=
  mkConfig (c_Port c) (positive (c_PeerPort c)) (c_DownloadDir c) (c_TmpDir c) (c_APIKey c) (state_path path)
    (if c_MaxActive c <? 1 then 5 else c_MaxActive c) (c_LogLevel c) (positive (c_MaxPeers c)) (positive (c_MaxPipeline c))
    (positive (c_DialTimeout c)) (positive (c_MaxGlobalDials c)) (positive (c_NumWant c)) (positive (c_DHTAlpha c)) (c_EnableUTP c)
    (positive (c_PipelineMin c)) (positive (c_PipelineMax c)) (positive (c_PipelineWindowSecs c)) (positive (c_SocketSendBuffer c))
    (positive (c_SocketRecvBuffer c)) (c_PrioritizeFirstLast c) (c_Sequential c) (c_EnableMetrics c) path.

Lemma reads_tmp v : len (lit "tmp_dir = " ++ Quote print_above v) < MaxScanTokenSize ->
  reads (if bool_decide (v = []) then [] else line_str print_above (lit "tmp_dir") v)
    (keep (negb (bool_decide (v = []))) v c_TmpDir set_c_TmpDir).
Proof.
  intros Hl. destruct (bool_decide (v = [])).
  - intros rest c. by destruct c.
  - by apply (reads_str print_above (lit "tmp_dir") v set_c_TmpDir).
Qed.

Lemma reads_metrics (b : bool) :
  reads (if b then newline ++ lit "# Observability (exposes /metrics and /debug/pprof/; both require API key)" ++ newline ++
                   lit "enable_metrics = true" ++ newline else [])
    (keep b true c_EnableMetrics set_c_EnableMetrics).
Proof.
  destruct b; [|intros rest c; by destruct c].
  apply (reads_app newline _ id); [apply reads_newline|]. rewrite (assoc_L (++)). apply (reads_app _ _ id).
  - apply reads_comment; [vm_compute; set_solver|done..].
  - apply (reads_opt_true (lit "enable_metrics") true c_EnableMetrics set_c_EnableMetrics); [done..|by intros []].
Qed.

Ltac int_part k set := eapply reads_app; [apply (reads_int (lit k) _ set); [done|by vm_compute|by auto|by intros]|].
Ltac str_part k set := eapply reads_app; [apply (reads_str print_above (lit k) _ set); [done|assumption|by intros]|].
Ltac opt_part k get set := eapply reads_app; [apply (reads_opt_int (lit k) _ get set); [done|by vm_compute|by auto|by intros|by intros []]|].
Ltac true_part k get set := eapply reads_app; [apply (reads_opt_true (lit k) _ get set); [done|by vm_compute|by intros|by intros []]|].

(** What the file written for [c] makes of the defaults. *)
Lemma reads_config c : Forall in_i64 (config_ints c) -> config_fits c ->
  exists f, reads (config_text print_above c) f /\
    forall home path, f (set_c_StatePath (state_path path) (set_c_path path (DefaultConfig home))) =
      set_c_MaxActive (c_MaxActive c) (reloaded path c).
Proof.
  intros Hi (H1 & H2 & H3 & H4). unfold config_ints in Hi. rewrite !Forall_cons in Hi.
  destruct Hi as (? & ? & ? & ? & ? & ? & ? & ? & ? & ? & ? & ? & ? & ? & _).
  eexists. split.
  { unfold config_text.
  rewrite (assoc_L (++)). apply (reads_app _ _ id); [apply reads_comment; [vm_compute; set_solver|done..]|].
  apply (reads_app newline _ id); [apply reads_newline|].
  int_part "port" set_c_Port.
  opt_part "peer_port" c_PeerPort set_c_PeerPort.
  str_part "download_dir" set_c_DownloadDir.
  eapply reads_app; [by apply reads_tmp|].
  str_part "api_key" set_c_APIKey.
  int_part "max_active" set_c_MaxActive.
  str_part "log_level" set_c_LogLevel.
  apply (reads_app newline _ id); [apply reads_newline|].
  rewrite (assoc_L (++)). apply (reads_app _ _ id); [apply reads_comment; [vm_compute; set_solver|done..]|].
  opt_part "max_peers" c_MaxPeers set_c_MaxPeers.
  opt_part "max_pipeline" c_MaxPipeline set_c_MaxPipeline.
  opt_part "dial_timeout" c_DialTimeout set_c_DialTimeout.
  opt_part "max_global_dials" c_MaxGlobalDials set_c_MaxGlobalDials.
  opt_part "pipeline_min" c_PipelineMin set_c_PipelineMin.
  opt_part "pipeline_max" c_PipelineMax set_c_PipelineMax.
  opt_part "pipeline_window_secs" c_PipelineWindowSecs set_c_PipelineWindowSecs.
  opt_part "socket_send_buffer_bytes" c_SocketSendBuffer set_c_SocketSendBuffer.
  opt_part "socket_recv_buffer_bytes" c_SocketRecvBuffer set_c_SocketRecvBuffer.
  opt_part "numwant" c_NumWant set_c_NumWant.
  opt_part "dht_alpha" c_DHTAlpha set_c_DHTAlpha.
  true_part "enable_utp" c_EnableUTP set_c_EnableUTP.
  true_part "prioritize_first_last_pieces" c_PrioritizeFirstLast set_c_PrioritizeFirstLast.
  true_part "sequential_download" c_Sequential set_c_Sequential.
  apply reads_metrics. }
  intros home path. destruct c as [f1 f2 f3 tmp f5 f6 f7 f8 f9 f10 f11 f12 f13 f14 utp f16 f17 f18 f19 f20 prio seq met f24]. lazy beta iota zeta delta [
    keep id reloaded positive DefaultConfig set_c_Port set_c_PeerPort set_c_DownloadDir set_c_TmpDir set_c_APIKey
    set_c_StatePath set_c_MaxActive set_c_LogLevel set_c_MaxPeers set_c_MaxPipeline set_c_DialTimeout set_c_MaxGlobalDials
    set_c_NumWant set_c_DHTAlpha set_c_EnableUTP set_c_PipelineMin set_c_PipelineMax set_c_PipelineWindowSecs
    set_c_SocketSendBuffer set_c_SocketRecvBuffer set_c_PrioritizeFirstLast set_c_Sequential set_c_EnableMetrics set_c_path
    c_Port c_PeerPort c_DownloadDir c_TmpDir c_APIKey c_StatePath c_MaxActive c_LogLevel c_MaxPeers c_MaxPipeline
    c_DialTimeout c_MaxGlobalDials c_NumWant c_DHTAlpha c_EnableUTP c_PipelineMin c_PipelineMax c_PipelineWindowSecs
    c_SocketSendBuffer c_SocketRecvBuffer c_PrioritizeFirstLast c_Sequential c_EnableMetrics c_path].
  f_equal; try reflexivity; [|by destruct utp|by destruct prio|by destruct seq|by destruct met].
  by destruct (bool_decide_reflect (tmp = [])) as [->|].
Qed.
Lemma load_saved home path rnd ok c : Forall in_i64 (config_ints c) -> config_fits c -> c_APIKey c <> [] ->
  LoadConfig print_above home path (FileData (config_text print_above c)) rnd ok = (reloaded path c, None, None).
Proof.
  intros Hi Hf Hk. destruct (reads_config c Hi Hf) as (f & Hr & Ef). unfold LoadConfig.
  assert (HP : parseTOML (config_text print_above c) (set_c_StatePath (state_path path) (set_c_path path (DefaultConfig home))) =
    set_c_MaxActive (c_MaxActive c) (reloaded path c)).
  { unfold parseTOML. rewrite <- (app_nil_r (config_text print_above c)), Hr. apply Ef. }
  rewrite HP. cbn -[state_path]. rewrite bool_decide_eq_false_2 by done. unfold reloaded. by destruct (c_MaxActive c <? 1).
Qed.

(** C28: the configuration survives a restart. The file written for a configuration is read back to the same
    configuration, whatever bytes its strings hold, except that unset numbers are zero and fewer than one active torrent
    means five; and the configuration and API key made up on the first start are the ones every later start finds. *)
Theorem Config_roundtrip home path rnd ok c : Forall in_i64 (config_ints c) -> config_fits c -> c_APIKey c <> [] ->
  LoadConfig print_above home path (FileData (config_text print_above c)) rnd ok = (reloaded path c, None, None) /\
  (forall c' text home' rnd' ok', path <> [] -> LoadConfig print_above home path FileNotExist rnd true = (c', None, Some text) ->
     config_fits c' -> LoadConfig print_above home' path (FileData text) rnd' ok' = (c', None, None)).
Proof.
  intros Hi Hf Hk. split; [by apply load_saved|]. intros c' text home' rnd' ok' Hp H Hf'.
  unfold LoadConfig, config_Save in H. cbn -[state_path config_text generateAPIKey Join] in H.
  rewrite bool_decide_eq_false_2 in H by done. injection H as <- <-.
  rewrite load_saved; [done| |done|].
  - cbn. repeat constructor; by vm_compute.
  - cbn -[generateAPIKey]. done.
Qed.
End Roundtrip.

Definition demo_config : Config :=
  mkConfig 9091 6881 (lit "/data/a \ # b") (lit "/tmp/x") (lit "sk-1") [] 3 (lit "info") 0 0 0 0 200 0 true 0 0 0 0 0 false true false (lit "/etc/stor.toml").

Lemma Config_roundtrip_witness :
  LoadConfig (fun _ => true) (lit "/root") (lit "/etc/stor.toml") (FileData (config_text (fun _ => true) demo_config)) [] true =
    (reloaded (lit "/etc/stor.toml") demo_config, None, None).
Proof.
  refine (proj1 (Config_roundtrip (fun _ => true) (lit "/root") (lit "/etc/stor.toml") [] true demo_config _ _ _)).
  - repeat constructor; vm_compute; discriminate.
  - repeat split; vm_compute; reflexivity.
  - discriminate.
Defined.

(** ** Boundaries *)

(** A quoted value that ends with an escaped backslash: the comment behind it is not removed. *)
Lemma backslash_keeps_comment :
  c_DownloadDir (parseTOML (lit "download_dir = " ++ [x22] ++ lit "C:\\" ++ [x22] ++ lit " # data" ++ newline) (DefaultConfig [])) =
  [x22] ++ lit "C:\\" ++ [x22] ++ lit " # data".
Proof. by vm_compute. Qed.

(** After a line of 64 KB the rest of the file is ignored, without an error. *)
Lemma long_line_drops_rest l rest c : (x0a ∉ l) -> MaxScanTokenSize <= len l -> parseTOML (l ++ newline ++ rest) c = c.
Proof.
  intros Hn Hl. assert (H : forall l line, x0a ∉ l -> MaxScanTokenSize <= len (line ++ l) -> scan_lines line (l ++ newline ++ rest) = []).
  { clear. induction l as [|b l IH]; intros line Hn Hl; cbn [app newline scan_lines].
    - rewrite app_nil_r in Hl. cbn [Byte.eqb]. by rewrite (proj2 (Z.leb_le _ _)).
    - rewrite (proj2 (byte_eqb_false b x0a)) by set_solver. apply IH; [set_solver|by rewrite <- (assoc_L (++))]. }
  unfold parseTOML. by rewrite H.
Qed.
