(* ===== verification/Rpc.v ===== *)
(** * The daemon's JSON-RPC service ([daemon/rpc.go]) and the settings of the engine ([engine/engine.go])

    A request body is a JSON value (what the parser of [encoding/json] makes of the text); decoding into
    the structs of the handlers is modelled.  The engine is the one of [Queue]; its settings other than the
    number of active torrents are [EngineCfg].  What the network, the disk and the clock answer are parameters. *)

From S2P Require Import Prelude Strconv Net Paths Magnet Engine Queue Tracker Quote Config.
Set Warnings "-clear-no-such-hyp,-register-all".
Local Open Scope Z_scope.

(** ** JSON

    A number is its literal. *)

Inductive json := JNull | JBool (b : bool) | JNum (literal : bytes) | JStr (s : bytes) | JArr (l : list json) | JObj (fields : list (bytes * json)).

(** The types of struct fields: [KPtr] is a pointer, [KRaw] a [json.RawMessage] or an [any]. *)
Inductive kind := KStr | KInt (bits : Z) | KBool | KRaw | KPtr (k : kind).
Inductive fvalue := VStr (s : bytes) | VInt (n : Z) | VBool (b : bool) | VRaw (j : json).
Definition struct : Type := gmap bytes fvalue.

(** [foldName]: upper case, also of the two characters outside ASCII that fold to a letter of ASCII. *)
Definition upper (b : byte) : byte := if (97 <=? u8 b) && (u8 b <=? 122) then byte_of_Z (u8 b - 32) else b.
Fixpoint foldName (s : bytes) : bytes :=
  match s with
  | xc5 :: xbf :: s => x53 :: foldName s
  | xe2 :: x84 :: xaa :: s => x4b :: foldName s
  | b :: s => upper b :: foldName s
  | [] => []
  end.

(** One value into a field: [None] is a type error, [Some None] leaves or makes the field empty. *)
Fixpoint decode_value (k : kind) (j : json) : option (option fvalue) :=
  match k, j with
  | KRaw, _ => Some (Some (VRaw j))
  | _, JNull => Some None
  | KPtr k, _ => decode_value k j
  | KStr, JStr s => Some (Some (VStr s))
  | KBool, JBool b => Some (Some (VBool b))
  | KInt bits, JNum l =>
      n ← parse_int64 l; if (- 2 ^ (bits - 1) <=? n) && (n <? 2 ^ (bits - 1)) then Some (Some (VInt n)) else None
  | _, _ => None
  end.

Definition is_ptr (k : kind) : bool := match k with KPtr _ => true | _ => false end.

(** One member of the object; a type error is remembered and the rest is read all the same. *)
Definition decode_member (fields : list (bytes * kind)) (acc : struct * bool) (m : bytes * json) : struct * bool :=
  match list_find (fun f => foldName f.1 = foldName m.1) fields with
  | None => acc
  | Some (_, (name, k)) =>
      match decode_value k m.2 with
      | None => (acc.1, false)
      | Some (Some v) => (<[name := v]> acc.1, acc.2)
      | Some None => (if is_ptr k then delete name acc.1 else acc.1, acc.2)
      end
  end.

(** [json.Unmarshal] into a new struct; [None] on an error. *)
Definition Unmarshal (fields : list (bytes * kind)) (j : option json) : option struct :=
  match j with
  | None => None
  | Some JNull => Some ∅
  | Some (JObj ms) => let '(st, ok) := foldl (decode_member fields) (∅, true) ms in if ok then Some st else None
  | Some _ => None
  end.

Definition str_field (name : bytes) (st : struct) : bytes := match st !! name with Some (VStr s) => s | _ => [] end.
Definition int_field (name : bytes) (st : struct) : Z := match st !! name with Some (VInt n) => n | _ => 0 end.
Definition bool_field (name : bytes) (st : struct) : bool := match st !! name with Some (VBool b) => b | _ => false end.
Definition raw_field (name : bytes) (st : struct) : option json := match st !! name with Some (VRaw j) => Some j | _ => None end.
Definition str_ptr (name : bytes) (st : struct) : option bytes := match st !! name with Some (VStr s) => Some s | _ => None end.
Definition int_ptr (name : bytes) (st : struct) : option Z := match st !! name with Some (VInt n) => Some n | _ => None end.
Definition bool_ptr (name : bytes) (st : struct) : option bool := match st !! name with Some (VBool b) => Some b | _ => None end.

(** ** The engine's settings *)

Record EngineCfg := mkEngineCfg {
  e_DownloadDir : bytes; e_TmpDir : bytes; e_StatePath : bytes; e_ListenPort : Z; e_MaxActive : Z; e_MaxPeers : Z;
  e_MaxPipeline : Z; e_DialTimeout : Z; e_MaxGlobalDials : Z; e_PipelineMin : Z; e_PipelineMax : Z;
  e_PipelineWindowSecs : Z; e_SocketSendBuffer : Z; e_SocketRecvBuffer : Z; e_NumWant : Z; e_DHTAlpha : Z;
  e_EnableUTP : bool; e_PrioritizeFirstLast : bool; e_Sequential : bool
}.

Section EngineSetters.
Implicit Types g : EngineCfg.
Definition set_e_DownloadDir (x : bytes) (g : EngineCfg) : EngineCfg :=
  mkEngineCfg x (e_TmpDir g) (e_StatePath g) (e_ListenPort g) (e_MaxActive g) (e_MaxPeers g) (e_MaxPipeline g)
    (e_DialTimeout g) (e_MaxGlobalDials g) (e_PipelineMin g) (e_PipelineMax g) (e_PipelineWindowSecs g)
    (e_SocketSendBuffer g) (e_SocketRecvBuffer g) (e_NumWant g) (e_DHTAlpha g) (e_EnableUTP g) (e_PrioritizeFirstLast g)
    (e_Sequential g).
Definition set_e_TmpDir (x : bytes) (g : EngineCfg) : EngineCfg :=
  mkEngineCfg (e_DownloadDir g) x (e_StatePath g) (e_ListenPort g) (e_MaxActive g) (e_MaxPeers g) (e_MaxPipeline g)
    (e_DialTimeout g) (e_MaxGlobalDials g) (e_PipelineMin g) (e_PipelineMax g) (e_PipelineWindowSecs g)
    (e_SocketSendBuffer g) (e_SocketRecvBuffer g) (e_NumWant g) (e_DHTAlpha g) (e_EnableUTP g) (e_PrioritizeFirstLast g)
    (e_Sequential g).
Definition set_e_StatePath (x : bytes) (g : EngineCfg) : EngineCfg :=
  mkEngineCfg (e_DownloadDir g) (e_TmpDir g) x (e_ListenPort g) (e_MaxActive g) (e_MaxPeers g) (e_MaxPipeline g)
    (e_DialTimeout g) (e_MaxGlobalDials g) (e_PipelineMin g) (e_PipelineMax g) (e_PipelineWindowSecs g)
    (e_SocketSendBuffer g) (e_SocketRecvBuffer g) (e_NumWant g) (e_DHTAlpha g) (e_EnableUTP g) (e_PrioritizeFirstLast g)
    (e_Sequential g).
Definition set_e_ListenPort (x : Z) (g : EngineCfg) : EngineCfg :=
  mkEngineCfg (e_DownloadDir g) (e_TmpDir g) (e_StatePath g) x (e_MaxActive g) (e_MaxPeers g) (e_MaxPipeline g)
    (e_DialTimeout g) (e_MaxGlobalDials g) (e_PipelineMin g) (e_PipelineMax g) (e_PipelineWindowSecs g)
    (e_SocketSendBuffer g) (e_SocketRecvBuffer g) (e_NumWant g) (e_DHTAlpha g) (e_EnableUTP g) (e_PrioritizeFirstLast g)
    (e_Sequential g).
Definition set_e_MaxActive (x : Z) (g : EngineCfg) : EngineCfg :=
  mkEngineCfg (e_DownloadDir g) (e_TmpDir g) (e_StatePath g) (e_ListenPort g) x (e_MaxPeers g) (e_MaxPipeline g)
    (e_DialTimeout g) (e_MaxGlobalDials g) (e_PipelineMin g) (e_PipelineMax g) (e_PipelineWindowSecs g)
    (e_SocketSendBuffer g) (e_SocketRecvBuffer g) (e_NumWant g) (e_DHTAlpha g) (e_EnableUTP g) (e_PrioritizeFirstLast g)
    (e_Sequential g).
Definition set_e_MaxPeers (x : Z) (g : EngineCfg) : EngineCfg :=
  mkEngineCfg (e_DownloadDir g) (e_TmpDir g) (e_StatePath g) (e_ListenPort g) (e_MaxActive g) x (e_MaxPipeline g)
    (e_DialTimeout g) (e_MaxGlobalDials g) (e_PipelineMin g) (e_PipelineMax g) (e_PipelineWindowSecs g)
    (e_SocketSendBuffer g) (e_SocketRecvBuffer g) (e_NumWant g) (e_DHTAlpha g) (e_EnableUTP g) (e_PrioritizeFirstLast g)
    (e_Sequential g).
Definition set_e_MaxPipeline (x : Z) (g : EngineCfg) : EngineCfg :=
  mkEngineCfg (e_DownloadDir g) (e_TmpDir g) (e_StatePath g) (e_ListenPort g) (e_MaxActive g) (e_MaxPeers g) x
    (e_DialTimeout g) (e_MaxGlobalDials g) (e_PipelineMin g) (e_PipelineMax g) (e_PipelineWindowSecs g)
    (e_SocketSendBuffer g) (e_SocketRecvBuffer g) (e_NumWant g) (e_DHTAlpha g) (e_EnableUTP g) (e_PrioritizeFirstLast g)
    (e_Sequential g).
Definition set_e_DialTimeout (x : Z) (g : EngineCfg) : EngineCfg :=
  mkEngineCfg (e_DownloadDir g) (e_TmpDir g) (e_StatePath g) (e_ListenPort g) (e_MaxActive g) (e_MaxPeers g)
    (e_MaxPipeline g) x (e_MaxGlobalDials g) (e_PipelineMin g) (e_PipelineMax g) (e_PipelineWindowSecs g)
    (e_SocketSendBuffer g) (e_SocketRecvBuffer g) (e_NumWant g) (e_DHTAlpha g) (e_EnableUTP g) (e_PrioritizeFirstLast g)
    (e_Sequential g).
Definition set_e_MaxGlobalDials (x : Z) (g : EngineCfg) : EngineCfg :=
  mkEngineCfg (e_DownloadDir g) (e_TmpDir g) (e_StatePath g) (e_ListenPort g) (e_MaxActive g) (e_MaxPeers g)
    (e_MaxPipeline g) (e_DialTimeout g) x (e_PipelineMin g) (e_PipelineMax g) (e_PipelineWindowSecs g) (e_SocketSendBuffer g)
    (e_SocketRecvBuffer g) (e_NumWant g) (e_DHTAlpha g) (e_EnableUTP g) (e_PrioritizeFirstLast g) (e_Sequential g).
Definition set_e_PipelineMin (x : Z) (g : EngineCfg) : EngineCfg :=
  mkEngineCfg (e_DownloadDir g) (e_TmpDir g) (e_StatePath g) (e_ListenPort g) (e_MaxActive g) (e_MaxPeers g)
    (e_MaxPipeline g) (e_DialTimeout g) (e_MaxGlobalDials g) x (e_PipelineMax g) (e_PipelineWindowSecs g)
    (e_SocketSendBuffer g) (e_SocketRecvBuffer g) (e_NumWant g) (e_DHTAlpha g) (e_EnableUTP g) (e_PrioritizeFirstLast g)
    (e_Sequential g).
Definition set_e_PipelineMax (x : Z) (g : EngineCfg) : EngineCfg :=
  mkEngineCfg (e_DownloadDir g) (e_TmpDir g) (e_StatePath g) (e_ListenPort g) (e_MaxActive g) (e_MaxPeers g)
    (e_MaxPipeline g) (e_DialTimeout g) (e_MaxGlobalDials g) (e_PipelineMin g) x (e_PipelineWindowSecs g)
    (e_SocketSendBuffer g) (e_SocketRecvBuffer g) (e_NumWant g) (e_DHTAlpha g) (e_EnableUTP g) (e_PrioritizeFirstLast g)
    (e_Sequential g).
Definition set_e_PipelineWindowSecs (x : Z) (g : EngineCfg) : EngineCfg :=
  mkEngineCfg (e_DownloadDir g) (e_TmpDir g) (e_StatePath g) (e_ListenPort g) (e_MaxActive g) (e_MaxPeers g)
    (e_MaxPipeline g) (e_DialTimeout g) (e_MaxGlobalDials g) (e_PipelineMin g) (e_PipelineMax g) x (e_SocketSendBuffer g)
    (e_SocketRecvBuffer g) (e_NumWant g) (e_DHTAlpha g) (e_EnableUTP g) (e_PrioritizeFirstLast g) (e_Sequential g).
Definition set_e_SocketSendBuffer (x : Z) (g : EngineCfg) : EngineCfg :=
  mkEngineCfg (e_DownloadDir g) (e_TmpDir g) (e_StatePath g) (e_ListenPort g) (e_MaxActive g) (e_MaxPeers g)
    (e_MaxPipeline g) (e_DialTimeout g) (e_MaxGlobalDials g) (e_PipelineMin g) (e_PipelineMax g) (e_PipelineWindowSecs g) x
    (e_SocketRecvBuffer g) (e_NumWant g) (e_DHTAlpha g) (e_EnableUTP g) (e_PrioritizeFirstLast g) (e_Sequential g).
Definition set_e_SocketRecvBuffer (x : Z) (g : EngineCfg) : EngineCfg :=
  mkEngineCfg (e_DownloadDir g) (e_TmpDir g) (e_StatePath g) (e_ListenPort g) (e_MaxActive g) (e_MaxPeers g)
    (e_MaxPipeline g) (e_DialTimeout g) (e_MaxGlobalDials g) (e_PipelineMin g) (e_PipelineMax g) (e_PipelineWindowSecs g)
    (e_SocketSendBuffer g) x (e_NumWant g) (e_DHTAlpha g) (e_EnableUTP g) (e_PrioritizeFirstLast g) (e_Sequential g).
Definition set_e_NumWant (x : Z) (g : EngineCfg) : EngineCfg :=
  mkEngineCfg (e_DownloadDir g) (e_TmpDir g) (e_StatePath g) (e_ListenPort g) (e_MaxActive g) (e_MaxPeers g)
    (e_MaxPipeline g) (e_DialTimeout g) (e_MaxGlobalDials g) (e_PipelineMin g) (e_PipelineMax g) (e_PipelineWindowSecs g)
    (e_SocketSendBuffer g) (e_SocketRecvBuffer g) x (e_DHTAlpha g) (e_EnableUTP g) (e_PrioritizeFirstLast g) (e_Sequential g).
Definition set_e_DHTAlpha (x : Z) (g : EngineCfg) : EngineCfg :=
  mkEngineCfg (e_DownloadDir g) (e_TmpDir g) (e_StatePath g) (e_ListenPort g) (e_MaxActive g) (e_MaxPeers g)
    (e_MaxPipeline g) (e_DialTimeout g) (e_MaxGlobalDials g) (e_PipelineMin g) (e_PipelineMax g) (e_PipelineWindowSecs g)
    (e_SocketSendBuffer g) (e_SocketRecvBuffer g) (e_NumWant g) x (e_EnableUTP g) (e_PrioritizeFirstLast g) (e_Sequential g).
Definition set_e_EnableUTP (x : bool) (g : EngineCfg) : EngineCfg :=
  mkEngineCfg (e_DownloadDir g) (e_TmpDir g) (e_StatePath g) (e_ListenPort g) (e_MaxActive g) (e_MaxPeers g)
    (e_MaxPipeline g) (e_DialTimeout g) (e_MaxGlobalDials g) (e_PipelineMin g) (e_PipelineMax g) (e_PipelineWindowSecs g)
    (e_SocketSendBuffer g) (e_SocketRecvBuffer g) (e_NumWant g) (e_DHTAlpha g) x (e_PrioritizeFirstLast g) (e_Sequential g).
Definition set_e_PrioritizeFirstLast (x : bool) (g : EngineCfg) : EngineCfg :=
  mkEngineCfg (e_DownloadDir g) (e_TmpDir g) (e_StatePath g) (e_ListenPort g) (e_MaxActive g) (e_MaxPeers g)
    (e_MaxPipeline g) (e_DialTimeout g) (e_MaxGlobalDials g) (e_PipelineMin g) (e_PipelineMax g) (e_PipelineWindowSecs g)
    (e_SocketSendBuffer g) (e_SocketRecvBuffer g) (e_NumWant g) (e_DHTAlpha g) (e_EnableUTP g) x (e_Sequential g).
Definition set_e_Sequential (x : bool) (g : EngineCfg) : EngineCfg :=
  mkEngineCfg (e_DownloadDir g) (e_TmpDir g) (e_StatePath g) (e_ListenPort g) (e_MaxActive g) (e_MaxPeers g)
    (e_MaxPipeline g) (e_DialTimeout g) (e_MaxGlobalDials g) (e_PipelineMin g) (e_PipelineMax g) (e_PipelineWindowSecs g)
    (e_SocketSendBuffer g) (e_SocketRecvBuffer g) (e_NumWant g) (e_DHTAlpha g) (e_EnableUTP g) (e_PrioritizeFirstLast g) x.
End EngineSetters.

Definition DefaultMaxPeers : Z := 500.
Definition or_else (d n : Z) : Z := if n <=? 0 then d else n.

(** [engine.New]: the defaults. *)
Definition engine_defaults (g : EngineCfg) : EngineCfg :=
  mkEngineCfg (e_DownloadDir g) (e_TmpDir g) (e_StatePath g) (if e_ListenPort g =? 0 then 6881 else e_ListenPort g) (or_else 5 (e_MaxActive g))
    (or_else DefaultMaxPeers (e_MaxPeers g)) (or_else 16 (e_MaxPipeline g)) (or_else 8 (e_DialTimeout g)) (or_else 200 (e_MaxGlobalDials g))
    (e_PipelineMin g) (e_PipelineMax g) (e_PipelineWindowSecs g) (e_SocketSendBuffer g) (e_SocketRecvBuffer g)
    (or_else 200 (e_NumWant g)) (or_else 8 (e_DHTAlpha g)) (e_EnableUTP g) (e_PrioritizeFirstLast g) (e_Sequential g).

(** [runDaemon]: the engine's configuration from the daemon's. *)
Definition engine_cfg_of (c : Config) : EngineCfg :=
  let peerPort := if (0 <? c_PeerPort c) && (c_PeerPort c <? 65536) then c_PeerPort c else 6881 in
  mkEngineCfg (c_DownloadDir c) (c_TmpDir c) (c_StatePath c) peerPort (c_MaxActive c) (c_MaxPeers c) (c_MaxPipeline c) (c_DialTimeout c)
    (c_MaxGlobalDials c) (c_PipelineMin c) (c_PipelineMax c) (c_PipelineWindowSecs c) (c_SocketSendBuffer c) (c_SocketRecvBuffer c)
    (c_NumWant c) (c_DHTAlpha c) (c_EnableUTP c) (c_PrioritizeFirstLast c) (c_Sequential c).

(** [download.SetPeerSocketBuffers]. *)
Definition SetPeerSocketBuffers (send recv : Z) : Z * Z := (if send <? 0 then 0 else send, if recv <? 0 then 0 else recv).

(** ** The service *)

Record server := mkServer {
  sv_engine : engine; sv_settings : EngineCfg; sv_sockets : Z * Z;   (** the engine, its settings and the package's socket buffers *)
  sv_cfg : Config; sv_file : option bytes;                           (** the configuration and the file it was last written to *)
  sv_level : Level;       (** the argument of the last [slog.SetLogLoggerLevel]; the handler the daemon installs has a level of its own *)
  sv_removed : list bytes                                            (** paths given to [os.RemoveAll] *)
}.

(** The server [runDaemon] starts with a configuration, without options on the command line. *)
Definition start_server (c : Config) (file : option bytes) (e : engine) : server :=
  mkServer e (engine_defaults (engine_cfg_of c)) (SetPeerSocketBuffers (c_SocketSendBuffer c) (c_SocketRecvBuffer c)) c file LevelInfo [].

Definition with_engine (e : engine) (s : server) : server :=
  mkServer e (sv_settings s) (sv_sockets s) (sv_cfg s) (sv_file s) (sv_level s) (sv_removed s).
Definition on_settings (f : EngineCfg -> EngineCfg) (s : server) : server :=
  mkServer (sv_engine s) (f (sv_settings s)) (sv_sockets s) (sv_cfg s) (sv_file s) (sv_level s) (sv_removed s).
Definition with_sockets (p : Z * Z) (s : server) : server :=
  mkServer (sv_engine s) (sv_settings s) p (sv_cfg s) (sv_file s) (sv_level s) (sv_removed s).
Definition with_cfg (c : Config) (file : option bytes) (s : server) : server :=
  mkServer (sv_engine s) (sv_settings s) (sv_sockets s) c file (sv_level s) (sv_removed s).
Definition with_level (l : Level) (s : server) : server :=
  mkServer (sv_engine s) (sv_settings s) (sv_sockets s) (sv_cfg s) (sv_file s) l (sv_removed s).
Definition with_removed (ps : list bytes) (s : server) : server :=
  mkServer (sv_engine s) (sv_settings s) (sv_sockets s) (sv_cfg s) (sv_file s) (sv_level s) (sv_removed s ++ ps).

(** A message is a text, or the text of an engine's error. *)
Inductive message := Text (s : bytes) | EngineMessage (e : engine_error).
Record rpcErr := mkRpcErr { Code : Z; Message : message }.

Record rpc_stats := mkStats_ { st_total : Z; st_active : Z; st_seeding : Z; st_maxactive : Z; st_config : EngineCfg; st_loglevel : bytes }.

Inductive rpc_value :=
  | RId (id : bytes) | REmpty | RInfo (r : TorrentRecord) | RInfos (l : list TorrentRecord) | RPeers (id : bytes) | RFiles (id : bytes)
  | RMaxActive (n : Z) | RStats (st : rpc_stats) | RVersion.

Abbreviation rpc_answer := (server * result rpcErr rpc_value)%type.

Definition invalid_params (text : bytes) : rpcErr := mkRpcErr (-32602) (Text (lit "invalid params: " ++ text)).
Definition failed (e : engine_error) : rpcErr := mkRpcErr (-32000) (EngineMessage e).

Section Service.
Context (sha1 sha256 : bytes -> bytes) (print_above : Z -> bool).
Context (rng : gmap bytes Session -> list bytes).
(** The answers of the world: URLs parsed, files read, addresses, symbolic links, HTTP (status and pieces of the body), base64, the clock,
    whether a temporary file can be made and its name, whether the configuration can be written. *)
Context (parse_url : bytes -> option URL) (read_file : bytes -> option bytes).
Context (url_host : bytes -> option (bytes * bytes)) (ParseIP : bytes -> option IP).
Context (EvalSymlinks : bytes -> option bytes) (http_get : bytes -> option (Z * list bytes)) (base64 : bytes -> option bytes).
Context (now : Z) (tmp_file : option bytes) (save_ok : bool).

(** *** Torrents *)

(** The answer of [AddTorrent] with the identifier it returns. *)
Definition add_source (source : bytes) (u : option URL) (file : option bytes) (s : server) : rpc_answer :=
  let '(e, r) := AddTorrent rng sha1 sha256 source u file now (sv_engine s) in
  match r with
  | Ok _ => (with_engine e s, Ok (RId (match InfoHashHex sha1 sha256 u file with Ok id => id | Err _ => [] end)))
  | Err err => (with_engine e s, Err (failed err))
  end.

(** [AddTorrentFile]: through a file with a name that is no magnet link. *)
Definition AddTorrentFile (data : bytes) (s : server) : rpc_answer :=
  match tmp_file with
  | None => (s, Err (mkRpcErr (-32000) (Text (lit "cannot create file"))))
  | Some name => add_source name (Some (mkURL [] ∅)) (Some data) s
  end.

Definition torrentAdd (params : option json) (s : server) : rpc_answer :=
  match Unmarshal [(lit "source", KStr)] params with
  | Some p => match str_field (lit "source") p with
              | [] => (s, Err (invalid_params (lit "source required")))
              | source => add_source source (parse_url source) (read_file source) s
              end
  | None => (s, Err (invalid_params (lit "source required")))
  end.

Definition torrentAddFile (params : option json) (s : server) : rpc_answer :=
  match Unmarshal [(lit "data", KStr)] params with
  | Some p => match str_field (lit "data") p with
              | [] => (s, Err (invalid_params (lit "data required")))
              | d => match base64 d with
                     | None => (s, Err (mkRpcErr (-32602) (Text (lit "invalid base64 data"))))
                     | Some data => AddTorrentFile data s
                     end
              end
  | None => (s, Err (invalid_params (lit "data required")))
  end.

Definition validTorrentURL (rawURL : bytes) : bool :=
  match url_host rawURL with
  | None => false
  | Some (scheme, host) =>
      if bool_decide (scheme <> lit "http") && bool_decide (scheme <> lit "https") then false
      else if bool_decide (host = lit "localhost") then false
      else match ParseIP host with
           | None => true
           | Some ip => negb (IsLoopback ip) && negb (IsPrivate ip) && negb (IsLinkLocalUnicast ip)
           end
  end.

Definition max_torrent : Z := 10 * 1024 * 1024.

(** The loop that reads the body; an error of the connection ends it like the end of the body. *)
Fixpoint read_body (data : bytes) (chunks : list bytes) : option bytes :=
  match chunks with
  | [] => Some data
  | b :: chunks => let data := data ++ b in if max_torrent <? len data then None else read_body data chunks
  end.

Definition torrentAddURL (params : option json) (s : server) : rpc_answer :=
  match Unmarshal [(lit "url", KStr)] params with
  | Some p =>
      match str_field (lit "url") p with
      | [] => (s, Err (invalid_params (lit "url required")))
      | url =>
          if negb (validTorrentURL url) then
            (s, Err (mkRpcErr (-32602) (Text (lit "invalid URL: private/internal addresses not allowed"))))
          else match http_get url with
               | None => (s, Err (mkRpcErr (-32000) (Text (lit "download failed"))))
               | Some (status, chunks) =>
                   if negb (status =? 200) then (s, Err (mkRpcErr (-32000) (Text (lit "download failed: HTTP " ++ itoa status))))
                   else match read_body [] chunks with
                        | None => (s, Err (mkRpcErr (-32000) (Text (lit "torrent file too large (>10MB)"))))
                        | Some data => AddTorrentFile data s
                        end
               end
      end
  | None => (s, Err (invalid_params (lit "url required")))
  end.

(** The handlers that take an identifier. *)
Definition with_id (extra : list (bytes * kind)) (params : option json) (s : server) (k : bytes -> struct -> rpc_answer) : rpc_answer :=
  match Unmarshal ((lit "id", KStr) :: extra) params with
  | Some p => match str_field (lit "id") p with
              | [] => (s, Err (invalid_params (lit "id required")))
              | id => k id p
              end
  | None => (s, Err (invalid_params (lit "id required")))
  end.

Definition engine_call (f : engine -> engine * result engine_error unit) (s : server) : rpc_answer :=
  let '(e, r) := f (sv_engine s) in
  match r with Ok _ => (with_engine e s, Ok REmpty) | Err err => (with_engine e s, Err (failed err)) end.

(** The paths [RemoveTorrent] deletes with the torrent. *)
Definition removed_paths (tmpDir : bytes) (r : TorrentRecord) : list bytes :=
  (if bool_decide (SavePath r = []) then [] else [SavePath r]) ++
  (if bool_decide (tmpDir = []) || bool_decide (Name_ r = []) then []
   else let tmpPath := Join [tmpDir; Name_ r] in if bool_decide (tmpPath = SavePath r) then [] else [tmpPath]).

Definition torrentRemove (params : option json) (s : server) : rpc_answer :=
  with_id [(lit "delete_files", KBool)] params s (fun id p =>
    let '(s', r) := engine_call (RemoveTorrent rng id) s in
    match r, sessions (sv_engine s) !! id with
    | Ok v, Some t => (if bool_field (lit "delete_files") p then with_removed (removed_paths (e_TmpDir (sv_settings s)) (record t)) s' else s', r)
    | _, _ => (s', r)
    end).

Definition torrentPause (params : option json) (s : server) : rpc_answer :=
  with_id [] params s (fun id _ => engine_call (PauseTorrent rng id) s).
Definition torrentResume (params : option json) (s : server) : rpc_answer :=
  with_id [] params s (fun id _ => engine_call (ResumeTorrent rng id) s).

Definition find_session (id : bytes) (s : server) (k : Session -> rpc_value) : rpc_answer :=
  match sessions (sv_engine s) !! id with Some t => (s, Ok (k t)) | None => (s, Err (failed (NotFound id))) end.

Definition torrentGet (params : option json) (s : server) : rpc_answer :=
  with_id [] params s (fun id _ => find_session id s (fun t => RInfo (record t))).
Definition torrentList (s : server) : rpc_answer :=
  (s, Ok (RInfos (omap (fun id => record <$> sessions (sv_engine s) !! id) (rng (sessions (sv_engine s)))))).
Definition torrentPeers (params : option json) (s : server) : rpc_answer :=
  with_id [] params s (fun id _ => find_session id s (fun _ => RPeers id)).
Definition torrentFiles (params : option json) (s : server) : rpc_answer :=
  with_id [] params s (fun id _ => find_session id s (fun _ => RFiles id)).

Definition torrentSetFilePriority (params : option json) (s : server) : rpc_answer :=
  with_id [(lit "file_index", KInt 64); (lit "priority", KInt 8)] params s (fun id p =>
    engine_call (SetFilePriority rng sha1 sha256 id (int_field (lit "file_index") p) (int_field (lit "priority") p)) s).

Inductive direction := DirTop | DirUp | DirDown | DirBottom.
Definition torrentQueueMove (params : option json) (d : direction) (s : server) : rpc_answer :=
  with_id [] params s (fun id _ =>
    engine_call (match d with DirTop => QueueTop rng id | DirUp => QueueUp rng id | DirDown => QueueDown rng id | DirBottom => QueueBottom rng id end) s).

(** *** Settings *)

(** The engine's setters. *)
Definition server_SetMaxActive (n : Z) (s : server) : server :=
  with_engine (SetMaxActive rng n (sv_engine s)) (on_settings (set_e_MaxActive (if n <? 1 then 1 else n)) s).
Definition SetDownloadDir (dir : bytes) : server -> server := on_settings (set_e_DownloadDir dir).
Definition SetTmpDir (dir : bytes) : server -> server := on_settings (set_e_TmpDir dir).
Definition SetMaxPeers (n : Z) : server -> server := on_settings (set_e_MaxPeers n).
Definition SetMaxPipeline (n : Z) : server -> server := on_settings (set_e_MaxPipeline n).
Definition SetDialTimeout (n : Z) : server -> server := on_settings (set_e_DialTimeout n).
Definition SetNumWant (n : Z) : server -> server := on_settings (set_e_NumWant n).
Definition SetEnableUTP (b : bool) : server -> server := on_settings (set_e_EnableUTP b).
Definition SetPrioritizeFirstLast (b : bool) : server -> server := on_settings (set_e_PrioritizeFirstLast b).
Definition SetSequential (b : bool) : server -> server := on_settings (set_e_Sequential b).
Definition SetPipelineMin (n : Z) : server -> server := on_settings (set_e_PipelineMin n).
Definition SetPipelineMax (n : Z) : server -> server := on_settings (set_e_PipelineMax n).
Definition SetPipelineWindowSecs (n : Z) : server -> server := on_settings (set_e_PipelineWindowSecs n).
Definition SetSocketSendBuffer (n : Z) (s : server) : server :=
  let n := if n <? 0 then 0 else n in
  with_sockets (SetPeerSocketBuffers n (e_SocketRecvBuffer (sv_settings s))) (on_settings (set_e_SocketSendBuffer n) s).
Definition SetSocketRecvBuffer (n : Z) (s : server) : server :=
  let n := if n <? 0 then 0 else n in
  with_sockets (SetPeerSocketBuffers (e_SocketSendBuffer (sv_settings s)) n) (on_settings (set_e_SocketRecvBuffer n) s).

Definition save_cfg (c : Config) (s : server) : server :=
  with_cfg c (match (config_Save print_above save_ok c).2 with Some text => Some text | None => sv_file s end) s.

Definition daemonSetMaxActive (params : option json) (s : server) : rpc_answer :=
  match Unmarshal [(lit "max_active", KInt 64)] params with
  | Some p =>
      let n := int_field (lit "max_active") p in
      if n <? 1 then (s, Err (invalid_params (lit "max_active must be >= 1")))
      else let s := server_SetMaxActive n s in (save_cfg (set_c_MaxActive n (sv_cfg s)) s, Ok (RMaxActive n))
  | None => (s, Err (invalid_params (lit "max_active must be >= 1")))
  end.

Inductive dir_error := EmptyPath | NotAbsolute | Traversal | Symlink (resolved : bytes).

Definition validateDirPath (path : bytes) : result dir_error unit :=
  if bool_decide (path = []) then Err EmptyPath
  else if negb (rooted path) then Err NotAbsolute
  else
    let normalized := (fun b => if Byte.eqb b x5c then sep else b) <$> path in
    if existsb (fun part => bool_decide (part = dotdot)) (split_sep normalized) then Err Traversal
    else match EvalSymlinks path with
         | Some resolved => if bool_decide (resolved = Clean path) then Ok tt else Err (Symlink resolved)
         | None => Ok tt
         end.

Definition dir_text (e : dir_error) : bytes :=
  match e with
  | EmptyPath => lit "empty path"
  | NotAbsolute => lit "must be absolute path"
  | Traversal => lit "path contains traversal"
  | Symlink r => lit "path contains symlink (resolves to " ++ r ++ lit ")"
  end.

Definition config_fields : list (bytes * kind) :=
  [(lit "download_dir", KPtr KStr); (lit "tmp_dir", KPtr KStr); (lit "max_active", KPtr (KInt 64)); (lit "max_peers", KPtr (KInt 64));
   (lit "max_pipeline", KPtr (KInt 64)); (lit "dial_timeout", KPtr (KInt 64)); (lit "numwant", KPtr (KInt 64)); (lit "log_level", KPtr KStr);
   (lit "enable_utp", KPtr KBool); (lit "prioritize_first_last_pieces", KPtr KBool); (lit "sequential_download", KPtr KBool);
   (lit "pipeline_min", KPtr (KInt 64)); (lit "pipeline_max", KPtr (KInt 64)); (lit "pipeline_window_secs", KPtr (KInt 64));
   (lit "socket_send_buffer_bytes", KPtr (KInt 64)); (lit "socket_recv_buffer_bytes", KPtr (KInt 64))].

(** The decoded parameters. *)
Record config_params := mkParams {
  p_DownloadDir : option bytes; p_TmpDir : option bytes; p_MaxActive : option Z; p_MaxPeers : option Z; p_MaxPipeline : option Z;
  p_DialTimeout : option Z; p_NumWant : option Z; p_LogLevel : option bytes; p_EnableUTP : option bool;
  p_PrioritizeFirstLast : option bool; p_Sequential : option bool; p_PipelineMin : option Z; p_PipelineMax : option Z;
  p_PipelineWindowSecs : option Z; p_SocketSendBuffer : option Z; p_SocketRecvBuffer : option Z
}.

Definition params_of (p : struct) : config_params :=
  mkParams (str_ptr (lit "download_dir") p) (str_ptr (lit "tmp_dir") p) (int_ptr (lit "max_active") p) (int_ptr (lit "max_peers") p)
    (int_ptr (lit "max_pipeline") p) (int_ptr (lit "dial_timeout") p) (int_ptr (lit "numwant") p) (str_ptr (lit "log_level") p)
    (bool_ptr (lit "enable_utp") p) (bool_ptr (lit "prioritize_first_last_pieces") p) (bool_ptr (lit "sequential_download") p)
    (int_ptr (lit "pipeline_min") p) (int_ptr (lit "pipeline_max") p) (int_ptr (lit "pipeline_window_secs") p)
    (int_ptr (lit "socket_send_buffer_bytes") p) (int_ptr (lit "socket_recv_buffer_bytes") p).

(** [if p != nil && *p >= lo { set( *p ) }]. *)
Definition set_if {A S} (p : option A) (set : A -> S -> S) (s : S) : S := match p with Some x => set x s | None => s end.
Definition set_from {S} (lo : Z) (p : option Z) (set : Z -> S -> S) (s : S) : S :=
  match p with Some x => if lo <=? x then set x s else s | None => s end.

Definition apply_engine (p : config_params) (s : server) : server :=
  let s := set_if (p_DownloadDir p) SetDownloadDir s in
  let s := set_if (p_TmpDir p) SetTmpDir s in
  let s := set_from 1 (p_MaxActive p) server_SetMaxActive s in
  let s := set_from 1 (p_MaxPeers p) SetMaxPeers s in
  let s := set_from 1 (p_MaxPipeline p) SetMaxPipeline s in
  let s := set_from 1 (p_DialTimeout p) SetDialTimeout s in
  let s := set_from 1 (p_NumWant p) SetNumWant s in
  let s := set_if (p_EnableUTP p) SetEnableUTP s in
  let s := set_if (p_PrioritizeFirstLast p) SetPrioritizeFirstLast s in
  let s := set_if (p_Sequential p) SetSequential s in
  let s := set_from 0 (p_PipelineMin p) SetPipelineMin s in
  let s := set_from 0 (p_PipelineMax p) SetPipelineMax s in
  let s := set_from 0 (p_PipelineWindowSecs p) SetPipelineWindowSecs s in
  let s := set_from 0 (p_SocketSendBuffer p) SetSocketSendBuffer s in
  let s := set_from 0 (p_SocketRecvBuffer p) SetSocketRecvBuffer s in
  set_if (p_LogLevel p) (fun l => with_level (ParseLogLevel l)) s.

Definition apply_cfg (p : config_params) (c : Config) : Config :=
  let c := set_if (p_DownloadDir p) set_c_DownloadDir c in
  let c := set_if (p_TmpDir p) set_c_TmpDir c in
  let c := set_from 1 (p_MaxActive p) set_c_MaxActive c in
  let c := set_from 1 (p_MaxPeers p) set_c_MaxPeers c in
  let c := set_from 1 (p_MaxPipeline p) set_c_MaxPipeline c in
  let c := set_from 1 (p_DialTimeout p) set_c_DialTimeout c in
  let c := set_from 1 (p_NumWant p) set_c_NumWant c in
  let c := set_if (p_LogLevel p) set_c_LogLevel c in
  let c := set_if (p_EnableUTP p) set_c_EnableUTP c in
  let c := set_if (p_PrioritizeFirstLast p) set_c_PrioritizeFirstLast c in
  let c := set_if (p_Sequential p) set_c_Sequential c in
  let c := set_from 0 (p_PipelineMin p) set_c_PipelineMin c in
  let c := set_from 0 (p_PipelineMax p) set_c_PipelineMax c in
  let c := set_from 0 (p_PipelineWindowSecs p) set_c_PipelineWindowSecs c in
  let c := set_from 0 (p_SocketSendBuffer p) set_c_SocketSendBuffer c in
  set_from 0 (p_SocketRecvBuffer p) set_c_SocketRecvBuffer c.

Definition check_dir (name : bytes) (p : option bytes) : option rpcErr :=
  match p with
  | None => None
  | Some dir => match validateDirPath dir with
                | Ok _ => None
                | Err e => Some (mkRpcErr (-32602) (Text (lit "invalid " ++ name ++ lit ": " ++ dir_text e)))
                end
  end.

Definition daemonSetConfig (params : option json) (s : server) : rpc_answer :=
  match Unmarshal config_fields params with
  | None => (s, Err (mkRpcErr (-32602) (Text (lit "invalid params"))))
  | Some st =>
      let p := params_of st in
      match check_dir (lit "download_dir") (p_DownloadDir p), check_dir (lit "tmp_dir") (p_TmpDir p) with
      | Some e, _ => (s, Err e)
      | None, Some e => (s, Err e)
      | None, None => let s := apply_engine p s in (save_cfg (apply_cfg p (sv_cfg s)) s, Ok REmpty)
      end
  end.

(** [GetStats]: the counts and the configuration; speeds, peers and free space are left out. *)
Definition stats_of (s : server) : rpc_stats :=
  let states := omap (fun id => state <$> sessions (sv_engine s) !! id) (rng (sessions (sv_engine s))) in
  mkStats_ (Z.of_nat (base.size (sessions (sv_engine s))))
    (len (filter (fun st => st = StateDownloading \/ st = StateVerifying) states)) (len (filter (fun st => st = StateSeeding) states))
    (MaxActive (sv_engine s)) (sv_settings s) (c_LogLevel (sv_cfg s)).

(** *** Requests *)

Definition dispatch (method : bytes) (params : option json) (s : server) : rpc_answer :=
  if bool_decide (method = lit "torrent.add") then torrentAdd params s
  else if bool_decide (method = lit "torrent.addFile") then torrentAddFile params s
  else if bool_decide (method = lit "torrent.addURL") then torrentAddURL params s
  else if bool_decide (method = lit "torrent.remove") then torrentRemove params s
  else if bool_decide (method = lit "torrent.pause") then torrentPause params s
  else if bool_decide (method = lit "torrent.resume") then torrentResume params s
  else if bool_decide (method = lit "torrent.get") then torrentGet params s
  else if bool_decide (method = lit "torrent.list") then torrentList s
  else if bool_decide (method = lit "torrent.peers") then torrentPeers params s
  else if bool_decide (method = lit "torrent.files") then torrentFiles params s
  else if bool_decide (method = lit "torrent.setFilePriority") then torrentSetFilePriority params s
  else if bool_decide (method = lit "torrent.queueTop") then torrentQueueMove params DirTop s
  else if bool_decide (method = lit "torrent.queueUp") then torrentQueueMove params DirUp s
  else if bool_decide (method = lit "torrent.queueDown") then torrentQueueMove params DirDown s
  else if bool_decide (method = lit "torrent.queueBottom") then torrentQueueMove params DirBottom s
  else if bool_decide (method = lit "daemon.stats") then (s, Ok (RStats (stats_of s)))
  else if bool_decide (method = lit "daemon.setMaxActive") then daemonSetMaxActive params s
  else if bool_decide (method = lit "daemon.setConfig") then daemonSetConfig params s
  else if bool_decide (method = lit "daemon.version") then (s, Ok RVersion)
  else (s, Err (mkRpcErr (-32601) (Text (lit "method not found: " ++ method)))).

Definition request_fields : list (bytes * kind) :=
  [(lit "jsonrpc", KStr); (lit "method", KStr); (lit "params", KRaw); (lit "id", KRaw)].

(** [ServeHTTP] of the body of a POST: the answer's identifier and its error or result. *)
Definition serve_rpc (body : option json) (s : server) : server * option json * result rpcErr rpc_value :=
  match Unmarshal request_fields body with
  | None => (s, None, Err (mkRpcErr (-32700) (Text (lit "parse error"))))
  | Some req =>
      let id := raw_field (lit "id") req in
      if negb (bool_decide (str_field (lit "jsonrpc") req = lit "2.0")) then
        (s, id, Err (mkRpcErr (-32600) (Text (lit "invalid request: jsonrpc must be 2.0"))))
      else let '(s', r) := dispatch (str_field (lit "method") req) (raw_field (lit "params") req) s in (s', id, r)
  end.
End Service.
