(* ===== verification/RpcTheorems.v ===== *)
(** * Properties of the JSON-RPC service *)

From S2P Require Import Prelude Strconv Net Paths Magnet Engine Queue Tracker Quote Config ConfigTheorems Rpc.
Set Warnings "-clear-no-such-hyp".
Local Open Scope Z_scope.

(** ** The engine's operations *)

Section EngineFrame.
Context (rng : gmap bytes Session -> list bytes).

Lemma start_loop_MaxActive q : forall n e, MaxActive (start_loop q n e) = MaxActive e.
Proof.
  induction q as [|id q IH]; intros n e; cbn [start_loop]; [done|]. destruct (_ <=? _); [done|].
  destruct (sessions e !! id) as [s|]; [destruct (isRunning s)|]; by rewrite IH.
Qed.

Lemma startQueued_MaxActive e : MaxActive (startQueuedLocked rng e) = MaxActive e.
Proof. unfold startQueuedLocked. destruct (_ <=? _); [done|]. apply start_loop_MaxActive. Qed.

(** An operation keeps the limit, and an error changes nothing. *)
Definition orderly (f : engine -> engine * result engine_error unit) : Prop := forall e,
  MaxActive (f e).1 = MaxActive e /\ forall err, (f e).2 = Err err -> (f e).1 = e.

Lemma orderly_Add sha1 sha256 source u file now : orderly (AddTorrent rng sha1 sha256 source u file now).
Proof.
  intros e. unfold AddTorrent. destruct (InfoHashHex _ _ _ _) as [id|]; [|done]. destruct (sessions e !! id); [done|].
  destruct (_ <=? _); [done|]. destruct (match match file with Some _ => _ | None => _ end with Some _ => _ | None => _ end) as [[name data] total].
  split; [|done]. cbn [fst]. rewrite startQueued_MaxActive. done.
Qed.

Lemma orderly_Remove id : orderly (RemoveTorrent rng id).
Proof. intros e. unfold RemoveTorrent. destruct (sessions e !! id); [|done]. split; [|done]. cbn [fst]. by rewrite startQueued_MaxActive. Qed.

Lemma orderly_Pause id : orderly (PauseTorrent rng id).
Proof. intros e. unfold PauseTorrent. destruct (sessions e !! id); [|done]. split; [|done]. cbn [fst]. by rewrite startQueued_MaxActive. Qed.

Lemma orderly_Resume id : orderly (ResumeTorrent rng id).
Proof.
  intros e. unfold ResumeTorrent. destruct (sessions e !! id) as [s|]; [|done]. destruct (_ && _); [done|]. split; [|done].
  cbn [fst]. by destruct (_ <? _).
Qed.

Lemma orderly_Priority sha1 sha256 id i p : orderly (SetFilePriority rng sha1 sha256 id i p).
Proof.
  intros e. unfold SetFilePriority. destruct (_ && _); [done|]. destruct (_ <? _); [done|]. destruct (sessions e !! id) as [s|]; [|done].
  destruct (metainfo _ _ _) as [t|]; [|done]. by destruct (_ <=? _).
Qed.

Lemma orderly_Top id : orderly (QueueTop rng id).
Proof.
  intros e. unfold QueueTop, setQueuePosition. destruct (sessions e !! id) as [s|]; [|done]. destruct (_ =? _); [done|].
  split; [|done]. cbn [fst]. by rewrite startQueued_MaxActive.
Qed.

Lemma swap_MaxActive a b e : MaxActive (swapQueuePositions rng a b e) = MaxActive e.
Proof. unfold swapQueuePositions. rewrite startQueued_MaxActive. by destruct (at_position rng b e), (at_position rng a e). Qed.

Lemma orderly_Up id : orderly (QueueUp rng id).
Proof.
  intros e. unfold QueueUp. destruct (sessions e !! id) as [s|]; [|done]. destruct (_ <=? _); [done|]. split; [|done]. apply swap_MaxActive.
Qed.

Lemma orderly_Down id : orderly (QueueDown rng id).
Proof.
  intros e. unfold QueueDown. destruct (sessions e !! id) as [s|]; [|done]. destruct (_ <=? _); [done|]. split; [|done]. apply swap_MaxActive.
Qed.

Lemma orderly_Bottom id : orderly (QueueBottom rng id).
Proof. intros e. unfold QueueBottom. destruct (sessions e !! id) as [s|]; [|done]. by destruct (_ =? _). Qed.
End EngineFrame.

(** ** Handlers *)

(** A handler that leaves the configuration alone, and on an error everything. *)
Definition quiet (s : server) (a : server * result rpcErr rpc_value) : Prop :=
  (sv_settings a.1 = sv_settings s /\ sv_sockets a.1 = sv_sockets s /\ sv_cfg a.1 = sv_cfg s /\ sv_file a.1 = sv_file s /\
   sv_level a.1 = sv_level s /\ MaxActive (sv_engine a.1) = MaxActive (sv_engine s)) /\
  forall err, a.2 = Err err -> a.1 = s /\ (Code err = -32602 \/ Code err = -32000).

Lemma quiet_ok s v : quiet s (s, Ok v).
Proof. done. Qed.

Lemma quiet_err s err : Code err = -32602 \/ Code err = -32000 -> quiet s (s, Err err).
Proof. intros H. split; [done|]. intros err' [= <-]. done. Qed.
#[local] Hint Resolve quiet_ok quiet_err : core.
#[local] Hint Extern 1 (Code _ = _ \/ _) => (left; reflexivity) || (right; reflexivity) : core.

Lemma with_engine_same s e : e = sv_engine s -> with_engine e s = s.
Proof. intros ->. by destruct s. Qed.

Section Handlers.
Context (sha1 sha256 : bytes -> bytes) (print_above : Z -> bool) (rng : gmap bytes Session -> list bytes).
Context (parse_url : bytes -> option URL) (read_file : bytes -> option bytes).
Context (url_host : bytes -> option (bytes * bytes)) (ParseIP : bytes -> option IP).
Context (EvalSymlinks : bytes -> option bytes) (http_get : bytes -> option (Z * list bytes)) (base64 : bytes -> option bytes).
Context (now : Z) (tmp_file : option bytes) (save_ok : bool).

Lemma quiet_call f s : orderly f -> quiet s (engine_call f s).
Proof.
  intros Hf. unfold engine_call. specialize (Hf (sv_engine s)). destruct (f (sv_engine s)) as [e r]. destruct Hf as [H1 H2]. cbn in *.
  destruct r as [u|err]; (split; [split_and!; done|]); [done|]. intros err' [= <-]. split; [|auto]. apply with_engine_same. by eapply H2.
Qed.

Lemma quiet_id extra params s k : (forall id p, quiet s (k id p)) -> quiet s (with_id extra params s k).
Proof. intros Hk. unfold with_id. destruct (Unmarshal _ _) as [p|]; [|auto]. destruct (str_field _ p); auto. Qed.

Lemma quiet_add source u file s : quiet s (add_source sha1 sha256 rng now source u file s).
Proof.
  unfold add_source. pose proof (orderly_Add rng sha1 sha256 source u file now (sv_engine s)) as Hf.
  destruct (AddTorrent _ _ _ _ _ _ _ _) as [e r]. destruct Hf as [H1 H2]. cbn in *.
  destruct r as [v|err]; (split; [split_and!; done|]); [done|]. intros err' [= <-]. split; [|auto]. apply with_engine_same. by eapply H2.
Qed.

Lemma quiet_addFile data s : quiet s (AddTorrentFile sha1 sha256 rng now tmp_file data s).
Proof. unfold AddTorrentFile. destruct tmp_file; [apply quiet_add|auto]. Qed.

Lemma quiet_find id s k : quiet s (find_session id s k).
Proof. unfold find_session. destruct (sessions (sv_engine s) !! id); auto. Qed.

Lemma quiet_remove params s : quiet s (torrentRemove rng params s).
Proof.
  apply quiet_id. intros id p. pose proof (quiet_call _ s (orderly_Remove rng id)) as [H1 H2].
  destruct (engine_call _ s) as [s' r]. cbn in *. destruct r as [v|err]; [destruct (sessions (sv_engine s) !! id); [|by split]|by split].
  destruct (bool_field _ p); [|by split]. split; [|done]. cbn. apply H1.
Qed.
Lemma quiet_addURL params s : quiet s (torrentAddURL sha1 sha256 rng url_host ParseIP http_get now tmp_file params s).
Proof.
  unfold torrentAddURL. destruct (Unmarshal _ _) as [p|]; [|auto]. destruct (str_field _ p); [auto|]. destruct (negb _); [auto|].
  destruct (http_get _) as [[st cs]|]; [|auto]. destruct (negb _); [auto|]. destruct (read_body _ _); [apply quiet_addFile|auto].
Qed.

Local Abbreviation dispatch := (dispatch sha1 sha256 print_above rng parse_url read_file url_host ParseIP EvalSymlinks http_get base64 now tmp_file save_ok).

Definition changes_config (method : bytes) : bool :=
  bool_decide (method = lit "daemon.setMaxActive") || bool_decide (method = lit "daemon.setConfig").

Definition methods : list bytes :=
  lit <$> ["torrent.add"; "torrent.addFile"; "torrent.addURL"; "torrent.remove"; "torrent.pause"; "torrent.resume"; "torrent.get";
           "torrent.list"; "torrent.peers"; "torrent.files"; "torrent.setFilePriority"; "torrent.queueTop"; "torrent.queueUp";
           "torrent.queueDown"; "torrent.queueBottom"; "daemon.stats"; "daemon.setMaxActive"; "daemon.setConfig"; "daemon.version"]%string.

(** Every method but two leaves the configuration alone. *)
Lemma quiet_dispatch method params s : method ∈ methods -> changes_config method = false -> quiet s (dispatch method params s).
Proof.
  intros Hm H. apply orb_false_iff in H as [H1 H2]. unfold Rpc.dispatch. rewrite H1, H2.
  repeat match goal with |- quiet _ (if bool_decide ?P then _ else _) => destruct (bool_decide_reflect P) end;
    try apply quiet_ok; try apply quiet_remove;
    try (apply quiet_id; intros; auto using quiet_call, quiet_find, orderly_Pause, orderly_Resume, orderly_Priority).
  - unfold torrentAdd. destruct (Unmarshal _ _) as [p|]; [|auto]. destruct (str_field _ p); [auto|]. apply quiet_add.
  - unfold torrentAddFile. destruct (Unmarshal _ _) as [p|]; [|auto]. destruct (str_field _ p); [auto|].
    destruct (base64 _); [apply quiet_addFile|auto].
  - apply quiet_addURL.
  - apply quiet_call, orderly_Top.
  - apply quiet_call, orderly_Up.
  - apply quiet_call, orderly_Down.
  - apply quiet_call, orderly_Bottom.
  - apply bool_decide_eq_false in H1, H2. exfalso. unfold methods in Hm. cbn [fmap list_fmap] in Hm.
    repeat (apply elem_of_cons in Hm as [Hm|Hm]; [contradiction|]). by apply not_elem_of_nil in Hm.
Qed.

Lemma dispatch_unknown method params s : method ∉ methods ->
  dispatch method params s = (s, Err (mkRpcErr (-32601) (Text (lit "method not found: " ++ method)))).
Proof.
  intros Hm. unfold Rpc.dispatch.
  repeat (rewrite bool_decide_eq_false_2; [|intros ->; apply Hm, (bool_decide_unpack _); vm_compute; exact I]). done.
Qed.

Lemma setMaxActive_error params s s' err : daemonSetMaxActive print_above rng save_ok params s = (s', Err err) -> s' = s /\ Code err = -32602.
Proof.
  unfold daemonSetMaxActive. destruct (Unmarshal _ _) as [p|]; [|by intros [= <- <-]]. destruct (_ <? _); by intros [= <- <-].
Qed.

Lemma check_dir_code name p e : check_dir EvalSymlinks name p = Some e -> Code e = -32602.
Proof. unfold check_dir. destruct p as [d|]; [|done]. destruct (validateDirPath _ d); [done|]. by intros [= <-]. Qed.

Lemma setConfig_error params s s' err :
  daemonSetConfig print_above rng EvalSymlinks save_ok params s = (s', Err err) -> s' = s /\ Code err = -32602.
Proof.
  unfold daemonSetConfig. destruct (Unmarshal _ _) as [st|]; [|by intros [= <- <-]].
  destruct (check_dir _ _ (p_DownloadDir (params_of st))) as [e|] eqn:E1; [intros [= <- <-]; split; [done|by eapply check_dir_code]|].
  destruct (check_dir _ _ (p_TmpDir (params_of st))) as [e|] eqn:E2; [intros [= <- <-]; split; [done|by eapply check_dir_code]|done].
Qed.

Lemma dispatch_error method params s s' err : dispatch method params s = (s', Err err) ->
  s' = s /\ (method ∈ methods -> Code err = -32602 \/ Code err = -32000) /\ (method ∉ methods -> Code err = -32601).
Proof.
  intros H. destruct (decide (method ∈ methods)) as [Hm|Hm].
  - assert (Hc : s' = s /\ (Code err = -32602 \/ Code err = -32000)); [|naive_solver].
    destruct (changes_config method) eqn:Ec.
    + unfold changes_config in Ec. apply orb_true_iff in Ec as [->%bool_decide_eq_true| ->%bool_decide_eq_true].
      * apply setMaxActive_error in H. naive_solver.
      * apply setConfig_error in H. naive_solver.
    + destruct (quiet_dispatch method params s Hm Ec) as [_ Hq]. rewrite H in Hq. cbn in Hq. by apply Hq.
  - rewrite dispatch_unknown in H by done. injection H as <- <-. done.
Qed.
Local Abbreviation serve_rpc := (serve_rpc sha1 sha256 print_above rng parse_url read_file url_host ParseIP EvalSymlinks http_get base64 now tmp_file save_ok).

(** C26: a request that is answered with an error has changed nothing: neither the torrents nor the settings, the
    configuration or its file. The code of the error tells its cause: -32700 exactly for a body that is no request, -32600
    exactly for another version than 2.0, -32601 exactly for an unknown method, and otherwise -32602 or -32000. *)
Theorem Rpc_errors body s s' id err : serve_rpc body s = (s', id, Err err) ->
  s' = s /\
  match Unmarshal request_fields body with
  | None => Code err = -32700
  | Some req =>
      if bool_decide (str_field (lit "jsonrpc") req = lit "2.0") then
        if bool_decide (str_field (lit "method") req ∈ methods) then Code err = -32602 \/ Code err = -32000 else Code err = -32601
      else Code err = -32600
  end.
Proof.
  unfold Rpc.serve_rpc. destruct (Unmarshal request_fields body) as [req|]; [|by intros [= <- <- <-]].
  destruct (bool_decide_reflect (str_field (lit "jsonrpc") req = lit "2.0")); cbn [negb]; [|by intros [= <- <- <-]].
  destruct (dispatch _ _ s) as [s1 r] eqn:E. intros [= <- <- ->]. apply dispatch_error in E as (-> & H1 & H2). split; [done|].
  by destruct (bool_decide_reflect (str_field (lit "method") req ∈ methods)); [apply H1|apply H2].
Qed.
End Handlers.

(** ** Settings *)

Definition nonneg_fields (c : Config) : list Z :=
  [c_PipelineMin c; c_PipelineMax c; c_PipelineWindowSecs c; c_SocketSendBuffer c; c_SocketRecvBuffer c].

(** The engine works with the configuration. *)
Record in_force (path : bytes) (s : server) (c : Config) : Prop := {
  if_settings : sv_settings s = engine_defaults (engine_cfg_of c);
  if_active : MaxActive (sv_engine s) = e_MaxActive (sv_settings s);
  if_sockets : sv_sockets s = (c_SocketSendBuffer c, c_SocketRecvBuffer c);
  if_path : c_path c = path;
  if_state : c_StatePath c = state_path path;
  if_key : c_APIKey c <> [];
  if_ints : Forall in_i64 (config_ints c);
  if_nonneg : Forall (Z.le 0) (nonneg_fields c)
}.

Section Settings.
Context (rng : gmap bytes Session -> list bytes) (path : bytes).

Lemma force_if {A} (p : option A) setS setC s c : (forall x s c, in_force path s c -> in_force path (setS x s) (setC x c)) ->
  in_force path s c -> in_force path (set_if p setS s) (set_if p setC c).
Proof. intros H I. destruct p; [by apply H|done]. Qed.

Lemma force_from lo (p : option Z) setS setC s c : (forall x, p = Some x -> in_i64 x) ->
  (forall x s c, lo <= x -> in_i64 x -> in_force path s c -> in_force path (setS x s) (setC x c)) ->
  in_force path s c -> in_force path (set_from lo p setS s) (set_from lo p setC c).
Proof. intros Hp H I. destruct p as [x|]; [|done]. cbn. destruct (Z.leb_spec lo x); [|done]. by apply H; [|apply Hp|]. Qed.

Ltac force_field :=
  let x := fresh "x" in let s := fresh "s" in let c := fresh "c" in let I := fresh "I" in
  intros x s c; intros;
  match goal with H : in_force _ s c |- _ => rename H into I end;
  pose proof (if_ints _ _ _ I); pose proof (if_nonneg _ _ _ I); unfold config_ints, nonneg_fields in *; rewrite !Forall_cons in *;
  constructor;
    [cbn; rewrite (if_settings _ _ _ I); unfold engine_defaults, or_else; cbn; rewrite ?(proj2 (Z.leb_gt x 0)) by lia; done
    |cbn; try (rewrite (if_active _ _ _ I), (if_settings _ _ _ I); done)
    |cbn; try apply I|cbn; apply I|cbn; apply I|cbn; apply I
    |unfold config_ints; cbn; rewrite !Forall_cons; naive_solver
    |unfold nonneg_fields; cbn; rewrite !Forall_cons; naive_solver].

Lemma force_DownloadDir : forall x s c, in_force path s c -> in_force path (SetDownloadDir x s) (set_c_DownloadDir x c).
Proof. force_field. Qed.
Lemma force_TmpDir : forall x s c, in_force path s c -> in_force path (SetTmpDir x s) (set_c_TmpDir x c).
Proof. force_field. Qed.
Lemma force_MaxPeers : forall x s c, 1 <= x -> in_i64 x -> in_force path s c -> in_force path (SetMaxPeers x s) (set_c_MaxPeers x c).
Proof. force_field. Qed.
Lemma force_PipelineMin : forall x s c, 0 <= x -> in_i64 x -> in_force path s c -> in_force path (SetPipelineMin x s) (set_c_PipelineMin x c).
Proof. force_field. Qed.
Lemma force_MaxPipeline : forall x s c, 1 <= x -> in_i64 x -> in_force path s c -> in_force path (SetMaxPipeline x s) (set_c_MaxPipeline x c).
Proof. force_field. Qed.
Lemma force_DialTimeout : forall x s c, 1 <= x -> in_i64 x -> in_force path s c -> in_force path (SetDialTimeout x s) (set_c_DialTimeout x c).
Proof. force_field. Qed.
Lemma force_NumWant : forall x s c, 1 <= x -> in_i64 x -> in_force path s c -> in_force path (SetNumWant x s) (set_c_NumWant x c).
Proof. force_field. Qed.
Lemma force_PipelineMax : forall x s c, 0 <= x -> in_i64 x -> in_force path s c -> in_force path (SetPipelineMax x s) (set_c_PipelineMax x c).
Proof. force_field. Qed.
Lemma force_PipelineWindowSecs : forall x s c, 0 <= x -> in_i64 x -> in_force path s c -> in_force path (SetPipelineWindowSecs x s) (set_c_PipelineWindowSecs x c).
Proof. force_field. Qed.
Lemma force_EnableUTP : forall x s c, in_force path s c -> in_force path (SetEnableUTP x s) (set_c_EnableUTP x c).
Proof. force_field. Qed.
Lemma force_PrioritizeFirstLast : forall x s c, in_force path s c -> in_force path (SetPrioritizeFirstLast x s) (set_c_PrioritizeFirstLast x c).
Proof. force_field. Qed.
Lemma force_Sequential : forall x s c, in_force path s c -> in_force path (SetSequential x s) (set_c_Sequential x c).
Proof. force_field. Qed.
Lemma force_SocketSendBuffer : forall x s c, 0 <= x -> in_i64 x -> in_force path s c -> in_force path (SetSocketSendBuffer x s) (set_c_SocketSendBuffer x c).
Proof.
  intros x s c Hx Hr I. unfold SetSocketSendBuffer. rewrite (proj2 (Z.ltb_ge x 0)) by done. revert x s c Hx Hr I. force_field.
  rewrite (if_settings _ _ _ I). unfold SetPeerSocketBuffers. cbn.
  by rewrite (proj2 (Z.ltb_ge x 0)), (proj2 (Z.ltb_ge (_ c) 0)) by naive_solver.
Qed.
Lemma force_SocketRecvBuffer : forall x s c, 0 <= x -> in_i64 x -> in_force path s c -> in_force path (SetSocketRecvBuffer x s) (set_c_SocketRecvBuffer x c).
Proof.
  intros x s c Hx Hr I. unfold SetSocketRecvBuffer. rewrite (proj2 (Z.ltb_ge x 0)) by done. revert x s c Hx Hr I. force_field.
  rewrite (if_settings _ _ _ I). unfold SetPeerSocketBuffers. cbn.
  by rewrite (proj2 (Z.ltb_ge x 0)), (proj2 (Z.ltb_ge (_ c) 0)) by naive_solver.
Qed.
Lemma force_MaxActive : forall x s c, 1 <= x -> in_i64 x -> in_force path s c ->
  in_force path (server_SetMaxActive rng x s) (set_c_MaxActive x c).
Proof.
  intros x s c Hx Hr I. unfold server_SetMaxActive. rewrite (proj2 (Z.ltb_ge x 1)) by done. revert x s c Hx Hr I. force_field.
  unfold SetMaxActive. rewrite startQueued_MaxActive. cbn. by rewrite (proj2 (Z.ltb_ge x 1)).
Qed.
Lemma force_LogLevel x s c : in_force path s c -> in_force path s (set_c_LogLevel x c).
Proof. intros []. by constructor. Qed.
Lemma force_level l s c : in_force path s c -> in_force path (with_level l s) c.
Proof. intros []. by constructor. Qed.

Definition params_ints (p : config_params) : Prop :=
  Forall (fun o => forall x, o = Some x -> in_i64 x) [p_MaxActive p; p_MaxPeers p; p_MaxPipeline p; p_DialTimeout p; p_NumWant p;
    p_PipelineMin p; p_PipelineMax p; p_PipelineWindowSecs p; p_SocketSendBuffer p; p_SocketRecvBuffer p].

Lemma force_apply p s c : params_ints p -> in_force path s c -> in_force path (apply_engine rng p s) (apply_cfg p c).
Proof.
  intros Hp I. unfold params_ints in Hp. rewrite !Forall_cons in Hp. destruct Hp as (? & ? & ? & ? & ? & ? & ? & ? & ? & ? & _).
  unfold apply_engine, apply_cfg.
  assert (Hl : forall s c, in_force path s c -> in_force path (set_if (p_LogLevel p) (fun l => with_level (ParseLogLevel l)) s) c)
    by (intros; destruct (p_LogLevel p); [by apply force_level|done]).
  assert (Hl' : forall s c, in_force path s c -> in_force path s (set_if (p_LogLevel p) set_c_LogLevel c))
    by (intros; destruct (p_LogLevel p); [by apply force_LogLevel|done]).
  apply Hl. do 5 (apply force_from; [done|auto using force_SocketRecvBuffer, force_SocketSendBuffer, force_PipelineMin, force_PipelineMax, force_PipelineWindowSecs|]).
  do 3 (apply force_if; [auto using force_EnableUTP, force_PrioritizeFirstLast, force_Sequential|]). apply Hl'.
  do 5 (apply force_from; [done|auto using force_NumWant, force_DialTimeout, force_MaxPipeline, force_MaxPeers, force_MaxActive|]).
  do 2 (apply force_if; [auto using force_TmpDir, force_DownloadDir|]). done.
Qed.

(** Numbers of a decoded request have 64 bits. *)
Definition small_ints (st : struct) : Prop := forall k n, st !! k = Some (VInt n) -> in_i64 n.

Lemma decode_value_int k : forall j n, decode_value k j = Some (Some (VInt n)) -> in_i64 n.
Proof.
  induction k as [|bits| | |k IH]; intros j n H; destruct j; cbn in H; try done; try (by eapply IH).
  destruct (parse_int64 literal) as [m|] eqn:E; [|done]. cbn in H. destruct (_ && _); [|done].
  injection H as <-. by eapply parse_int64_range.
Qed.

Lemma decode_member_ints fields acc m : small_ints acc.1 -> small_ints (decode_member fields acc m).1.
Proof.
  intros H. unfold decode_member. destruct (list_find _ _) as [[i [name k]]|]; [|done].
  destruct (decode_value k m.2) as [[v|]|] eqn:E; [|destruct (is_ptr k); [|done]|done]; intros k' n' Hk; cbn in Hk.
  - apply lookup_insert_Some in Hk as [[_ ->]|[_ Hk]]; [by eapply decode_value_int|by eapply H].
  - apply lookup_delete_Some in Hk as [_ Hk]. by eapply H.
Qed.

Lemma Unmarshal_ints fields j st : Unmarshal fields j = Some st -> small_ints st.
Proof.
  unfold Unmarshal. destruct j as [[]|]; try done; [by intros [= <-]|].
  assert (H : forall ms acc, small_ints acc.1 -> small_ints (foldl (decode_member fields) acc ms).1).
  { induction ms as [|m ms IH]; intros acc Ha; cbn [foldl]; [done|]. apply IH, decode_member_ints, Ha. }
  specialize (H fields0 (∅, true) ltac:(by intros k n Hk)). destruct (foldl _ _ _) as [st' ok]. destruct ok; [|done]. by intros [= <-].
Qed.

Lemma params_of_ints st : small_ints st -> params_ints (params_of st).
Proof.
  intros H. assert (Hp : forall k x, int_ptr k st = Some x -> in_i64 x).
  { intros k x. unfold int_ptr. destruct (st !! k) as [[]|] eqn:E; try done. intros [= <-]. by eapply H. }
  unfold params_ints, params_of. cbn. rewrite !Forall_cons, Forall_nil. split_and!; [apply Hp..|done].
Qed.

(** A restart with the same configuration gives the same settings. *)
Lemma or_else_positive d n : or_else d (positive n) = or_else d n.
Proof. unfold or_else, positive. by destruct (Z.ltb_spec 0 n), (Z.leb_spec n 0); try lia. Qed.

Lemma restart_settings s c : in_force path s c -> engine_defaults (engine_cfg_of (reloaded path c)) = sv_settings s.
Proof.
  intros I. rewrite (if_settings _ _ _ I). pose proof (if_nonneg _ _ _ I) as Hn. unfold nonneg_fields in Hn. rewrite !Forall_cons in Hn.
  destruct Hn as (H1 & H2 & H3 & H4 & H5 & _). assert (Hp : forall n, 0 <= n -> positive n = n).
  { intros n Hn. unfold positive. destruct (Z.ltb_spec 0 n); lia. }
  unfold engine_defaults. cbn. rewrite !or_else_positive, (Hp _ H1), (Hp _ H2), (Hp _ H3), (Hp _ H4), (Hp _ H5), (if_state _ _ _ I).
  assert (Hq : forall n, (if (0 <? positive n) && (positive n <? 65536) then positive n else 6881) =
                         (if (0 <? n) && (n <? 65536) then n else 6881)).
  { intros n. unfold positive. destruct (0 <? n) eqn:E; [by rewrite E|done]. }
  rewrite Hq. f_equal. unfold or_else. destruct (Z.ltb_spec (c_MaxActive c) 1), (Z.leb_spec (c_MaxActive c) 0); try done; lia.
Qed.

(** What the engine's setters leave alone. *)
Definition apart (s s' : server) : Prop := sv_cfg s' = sv_cfg s /\ sv_file s' = sv_file s /\ sv_level s' = sv_level s.

Lemma apart_if {A} (p : option A) set s0 s : (forall x s, apart s (set x s)) -> apart s0 s -> apart s0 (set_if p set s).
Proof. intros H (H1 & H2 & H3). destruct p as [x|]; [|done]. destruct (H x s) as (E1 & E2 & E3). split_and!; cbn; congruence. Qed.
Lemma apart_from lo p set s0 s : (forall x s, apart s (set x s)) -> apart s0 s -> apart s0 (set_from lo p set s).
Proof.
  intros H (H1 & H2 & H3). destruct p as [x|]; [|done]. cbn. destruct (lo <=? x); [|done]. destruct (H x s) as (E1 & E2 & E3).
  split_and!; congruence.
Qed.

Lemma apply_engine_apart p s : sv_cfg (apply_engine rng p s) = sv_cfg s /\ sv_file (apply_engine rng p s) = sv_file s /\
  sv_level (apply_engine rng p s) = match p_LogLevel p with Some l => ParseLogLevel l | None => sv_level s end.
Proof.
  unfold apply_engine. match goal with |- context [set_if (p_LogLevel p) _ ?x] => assert (H : apart s x) end.
  { repeat first [apply apart_from; [done|]|apply apart_if; [done|]]. done. }
  destruct H as (H1 & H2 & H3). destruct (p_LogLevel p); cbn; by split_and!.
Qed.

Lemma set_from_LogLevel lo p set c : (forall x c, c_LogLevel (set x c) = c_LogLevel c) -> c_LogLevel (set_from lo p set c) = c_LogLevel c.
Proof. intros H. destruct p as [x|]; [|done]. cbn. by destruct (lo <=? x). Qed.
Lemma set_if_LogLevel {A} (p : option A) set c : (forall x c, c_LogLevel (set x c) = c_LogLevel c) -> c_LogLevel (set_if p set c) = c_LogLevel c.
Proof. intros H. by destruct p; cbn. Qed.

Lemma apply_cfg_LogLevel p c : c_LogLevel (apply_cfg p c) = match p_LogLevel p with Some l => l | None => c_LogLevel c end.
Proof.
  unfold apply_cfg. rewrite !set_from_LogLevel, !set_if_LogLevel by done.
  match goal with |- c_LogLevel (set_if _ _ ?x) = _ => assert (H : c_LogLevel x = c_LogLevel c) by (by rewrite !set_from_LogLevel, !set_if_LogLevel) end.
  by destruct (p_LogLevel p).
Qed.
End Settings.

Section Survive.
Context (sha1 sha256 : bytes -> bytes) (print_above : Z -> bool) (rng : gmap bytes Session -> list bytes).
Context (parse_url : bytes -> option URL) (read_file : bytes -> option bytes).
Context (url_host : bytes -> option (bytes * bytes)) (ParseIP : bytes -> option IP).
Context (EvalSymlinks : bytes -> option bytes) (http_get : bytes -> option (Z * list bytes)) (base64 : bytes -> option bytes).
Context (path : bytes) (Hpath : path <> []).
Local Abbreviation dispatch now tmp_file := (dispatch sha1 sha256 print_above rng parse_url read_file url_host ParseIP EvalSymlinks http_get base64 now tmp_file true).

(** What a daemon started again with the file makes of it: the settings of [c]. *)
Definition reloads (home text : bytes) (c : Config) : Prop := forall rnd ok, exists c',
  LoadConfig print_above home path (FileData text) rnd ok = (c', None, None) /\
  engine_defaults (engine_cfg_of c') = engine_defaults (engine_cfg_of c) /\
  SetPeerSocketBuffers (c_SocketSendBuffer c') (c_SocketRecvBuffer c') = SetPeerSocketBuffers (c_SocketSendBuffer c) (c_SocketRecvBuffer c) /\
  c_LogLevel c' = c_LogLevel c /\ c_APIKey c' = c_APIKey c.

(** A configuration with numbers of 64 bits, those without a default not negative. *)
Definition numbers_ok (c : Config) : Prop := Forall in_i64 (config_ints c) /\ Forall (Z.le 0) (nonneg_fields c).

(** A daemon started with a configuration file that has a key, or without a file, and then serving requests one after the
    other, with every write of the file succeeding; meanwhile the engine does its work. *)
Inductive served (home : bytes) : server -> Prop :=
  | served_loaded text rnd ok c e : LoadConfig print_above home path (FileData text) rnd ok = (c, None, None) -> numbers_ok c ->
      MaxActive e = e_MaxActive (engine_defaults (engine_cfg_of c)) -> served home (start_server c (Some text) e)
  | served_created text rnd c e : LoadConfig print_above home path FileNotExist rnd true = (c, None, Some text) ->
      MaxActive e = e_MaxActive (engine_defaults (engine_cfg_of c)) -> served home (start_server c (Some text) e)
  | served_engine s e : served home s -> MaxActive e = MaxActive (sv_engine s) -> served home (with_engine e s)
  | served_request s now tmp_file body s' id r : served home s ->
      serve_rpc sha1 sha256 print_above rng parse_url read_file url_host ParseIP EvalSymlinks http_get base64 now tmp_file true body s = (s', id, r) ->
      served home s'.

(** The engine works with the configuration, and the file holds it. *)
Definition persisted (home : bytes) (s : server) : Prop :=
  in_force path s (sv_cfg s) /\ exists text, sv_file s = Some text /\ (config_fits print_above (sv_cfg s) -> reloads home text (sv_cfg s)).

Lemma saved_reloads home s c : in_force path s c -> config_fits print_above c -> reloads home (config_text print_above c) c.
Proof.
  intros I Hfit rnd ok. exists (reloaded path c). rewrite (restart_settings _ _ _ I), (if_settings _ _ _ I).
  split; [apply load_saved; [apply I|done|apply I]|]. split_and!; [done| |done|done].
  pose proof (if_nonneg _ _ _ I) as Hn. unfold nonneg_fields in Hn. rewrite !Forall_cons in Hn.
  destruct Hn as (_ & _ & _ & H4 & H5 & _). unfold SetPeerSocketBuffers, reloaded, positive. cbn.
  destruct (Z.ltb_spec 0 (c_SocketSendBuffer c)), (Z.ltb_spec 0 (c_SocketRecvBuffer c));
    rewrite ?(proj2 (Z.ltb_ge _ _)) by lia; f_equal; lia.
Qed.

(** *** Starting *)

Lemma apply_key_path key v c : c_path (apply_key key v c) = c_path c.
Proof. unfold apply_key, set_int. repeat case_match; done. Qed.

Lemma parseTOML_path data c : c_path (parseTOML data c) = c_path c.
Proof.
  unfold parseTOML. generalize (scan_lines [] data). intros ls. revert c.
  induction ls as [|l ls IH]; intros c; cbn [foldl]; [done|]. rewrite IH. unfold parse_line.
  repeat case_match; try done; apply apply_key_path.
Qed.

Lemma started c text e : c_path c = path -> c_StatePath c = state_path path -> c_APIKey c <> [] -> numbers_ok c ->
  MaxActive e = e_MaxActive (engine_defaults (engine_cfg_of c)) -> in_force path (start_server c (Some text) e) c.
Proof.
  intros Hp Hst Hk [Hi Hn] Ha. constructor; try done. cbn. unfold nonneg_fields in Hn. rewrite !Forall_cons in Hn.
  destruct Hn as (_ & _ & _ & H4 & H5 & _). unfold SetPeerSocketBuffers. by rewrite !(proj2 (Z.ltb_ge _ _)) by lia.
Qed.

Lemma loaded_persisted home text rnd ok c e : LoadConfig print_above home path (FileData text) rnd ok = (c, None, None) -> numbers_ok c ->
  MaxActive e = e_MaxActive (engine_defaults (engine_cfg_of c)) -> persisted home (start_server c (Some text) e).
Proof.
  intros Hl Hn Ha. unfold LoadConfig in Hl. set (c0 := parseTOML text _) in *.
  assert (Hp0 : c_path c0 = path) by (subst c0; by rewrite parseTOML_path).
  destruct (bool_decide (c_APIKey c0 = [])) eqn:Ek.
  { unfold config_Save in Hl. cbn [c_path set_c_APIKey] in Hl. rewrite Hp0, bool_decide_eq_false_2 in Hl by done. destruct ok; done. }
  injection Hl as <-. split.
  - apply started; [| | |done|done]; cbn; destruct (c_MaxActive c0 <? 1); cbn; try done; by apply bool_decide_eq_false in Ek.
  - exists text. split; [done|]. intros _ rnd' ok'. eexists. unfold LoadConfig. fold c0. rewrite Ek. by split_and!.
Qed.

Lemma created_persisted home text rnd c e : LoadConfig print_above home path FileNotExist rnd true = (c, None, Some text) ->
  MaxActive e = e_MaxActive (engine_defaults (engine_cfg_of c)) -> persisted home (start_server c (Some text) e).
Proof.
  intros H Ha. unfold LoadConfig, config_Save in H. cbn -[state_path config_text generateAPIKey Join] in H.
  rewrite bool_decide_eq_false_2 in H by done. injection H as <- <-.
  assert (I : forall c, c = set_c_APIKey (generateAPIKey rnd) (set_c_StatePath (state_path path) (set_c_path path (DefaultConfig home))) ->
    MaxActive e = e_MaxActive (engine_defaults (engine_cfg_of c)) -> in_force path (start_server c (Some (config_text print_above c)) e) c).
  { intros c -> Hc. apply started; try done. split; repeat constructor; by vm_compute. }
  split; [by apply I|]. eexists. split; [done|]. intros Hf. eapply saved_reloads; [by apply I|done].
Qed.

(** *** Serving *)

Lemma save_cfg_persisted home c s : in_force path s c -> persisted home (save_cfg print_above true c s).
Proof.
  intros I. unfold save_cfg, config_Save. rewrite bool_decide_eq_false_2 by (by rewrite (if_path _ _ _ I)).
  split; [destruct I; by constructor|]. eexists. split; [done|]. intros Hf. by eapply saved_reloads.
Qed.

Lemma persisted_quiet home s a : persisted home s -> quiet s a -> persisted home a.1.
Proof.
  intros ([] & text & Hf & Hl) [(H1 & H2 & H3 & H4 & H5 & H6) _]. unfold persisted. rewrite H3, H4. split; [|by exists text].
  constructor; rewrite ?H1, ?H2, ?H6; done.
Qed.

Lemma persisted_dispatch home now tmp_file method params s : persisted home s -> persisted home (dispatch now tmp_file method params s).1.
Proof.
  intros P. destruct (decide (method ∈ methods)) as [Hm|Hm]; [|by rewrite dispatch_unknown].
  destruct (changes_config method) eqn:Ec; [|by eapply persisted_quiet, quiet_dispatch]. pose proof P as (I & _).
  unfold changes_config in Ec. apply orb_true_iff in Ec as [->%bool_decide_eq_true| ->%bool_decide_eq_true].
  - change (dispatch now tmp_file (lit "daemon.setMaxActive") params s) with (daemonSetMaxActive print_above rng true params s).
    unfold daemonSetMaxActive. destruct (Unmarshal _ _) as [st|] eqn:E; [|done]. destruct (Z.ltb_spec (int_field (lit "max_active") st) 1); [done|].
    cbn [fst]. apply save_cfg_persisted. apply force_MaxActive; [done| |done].
    apply Unmarshal_ints in E. unfold int_field. destruct (st !! lit "max_active") as [[]|] eqn:El; try done. by eapply E.
  - change (dispatch now tmp_file (lit "daemon.setConfig") params s) with (daemonSetConfig print_above rng EvalSymlinks true params s).
    unfold daemonSetConfig. destruct (Unmarshal _ _) as [st|] eqn:E; [|done].
    destruct (check_dir _ _ (p_DownloadDir _)); [done|]. destruct (check_dir _ _ (p_TmpDir _)); [done|]. cbn [fst].
    destruct (apply_engine_apart rng (params_of st) s) as (H1 & _). rewrite H1.
    apply save_cfg_persisted. by apply force_apply; [eapply params_of_ints, Unmarshal_ints|].
Qed.

Lemma served_persisted home s : served home s -> persisted home s.
Proof.
  induction 1 as [text rnd ok c e Hl Hn Ha|text rnd c e Hl Ha|s e _ IH Ha|s now tmp_file body s' id r _ IH Hs].
  - by eapply loaded_persisted.
  - by eapply created_persisted.
  - destruct IH as ([] & text & Hf & Hr). split; [|by exists text]. constructor; try done. cbn. congruence.
  - unfold serve_rpc in Hs. destruct (Unmarshal request_fields body) as [req|]; [|by injection Hs as <-].
    destruct (negb _); [by injection Hs as <-|].
    pose proof (persisted_dispatch home now tmp_file (str_field (lit "method") req) (raw_field (lit "params") req) s IH) as Hd.
    destruct (dispatch now tmp_file _ _ s) as [s1 r1]. by injection Hs as <- _ _.
Qed.

(** C25: settings changed by requests take effect at once and survive a restart. A daemon is started with a configuration file
    that has an API key, or without a file, and serves requests one after the other, every write of the file succeeding. Then
    after every request the running engine works with the settings of the configuration; and as long as
    its strings fit into lines of 64 KB, a daemon started again with the file gives its engine exactly the settings, limit and
    socket buffers of the one that was running, and has its log level and its key. (The level of a request is only stored: the
    handler that is installed keeps the level of the start.) *)
Theorem Settings_survive home s : served home s ->
  in_force path s (sv_cfg s) /\
  (config_fits print_above (sv_cfg s) -> forall rnd ok, exists text c', sv_file s = Some text /\
     LoadConfig print_above home path (FileData text) rnd ok = (c', None, None) /\
     engine_defaults (engine_cfg_of c') = sv_settings s /\ e_MaxActive (engine_defaults (engine_cfg_of c')) = MaxActive (sv_engine s) /\
     SetPeerSocketBuffers (c_SocketSendBuffer c') (c_SocketRecvBuffer c') = sv_sockets s /\
     c_LogLevel c' = c_LogLevel (sv_cfg s) /\ c_APIKey c' = c_APIKey (sv_cfg s)).
Proof.
  intros (I & text & Hf & Hr)%served_persisted. split; [done|]. intros Hfit rnd ok.
  destruct (Hr Hfit rnd ok) as (c' & Hl & He & Hs & Hlev & Hk). exists text, c'. rewrite He, (if_active _ _ _ I), (if_settings _ _ _ I).
  split_and!; try done. rewrite Hs, (if_sockets _ _ _ I). pose proof (if_nonneg _ _ _ I) as Hn. unfold nonneg_fields in Hn.
  rewrite !Forall_cons in Hn. destruct Hn as (_ & _ & _ & H4 & H5 & _). unfold SetPeerSocketBuffers. by rewrite !(proj2 (Z.ltb_ge _ _)) by lia.
Qed.
End Survive.

(** ** Witnesses and boundaries *)

Definition demo_path : bytes := lit "/etc/stor/stor.toml".
Definition demo_cfg : Config :=
  mkConfig 9090 0 (lit "/data") (lit "/var/tmp/stor") (lit "sk-1") (state_path demo_path) 5 (lit "info") 0 0 0 0 0 0 false 0 0 0 0 0 false false false demo_path.
Definition demo_server : server :=
  mkServer (mkEngine ∅ ∅ ∅ 5 0) (engine_defaults (engine_cfg_of demo_cfg)) (0, 0) demo_cfg
    (Some (config_text (fun _ => true) demo_cfg)) LevelInfo [].

Definition demo_url (s : bytes) : option URL :=
  Some (mkURL (lit "magnet") (<[lit "xt" := [lit "urn:btih:4141414141414141414141414141414141414141"]]> (<[lit "dn" := [lit "../../home/u"]]> ∅))).

Definition demo_rpc (body : json) (s : server) : server * option json * result rpcErr rpc_value :=
  serve_rpc id id (fun _ => true) (fun m => (map_to_list m).*1) demo_url (fun _ => None) (fun _ => None) (fun _ => None)
    (fun _ => None) (fun _ => None) (fun _ => None) 0 None true (Some body) s.

Definition call (method : bytes) (params : list (bytes * json)) : json :=
  JObj [(lit "jsonrpc", JStr (lit "2.0")); (lit "method", JStr method); (lit "params", JObj params); (lit "id", JNum (lit "1"))].

Definition set_peers : json := call (lit "daemon.setConfig") [(lit "Max_Peers", JNum (lit "50")); (lit "log_level", JStr (lit "DEBUG"))].

Lemma demo_loaded : LoadConfig (fun _ => true) (lit "/root") demo_path (FileData (config_text (fun _ => true) demo_cfg)) [] true = (demo_cfg, None, None).
Proof. by vm_compute. Qed.

Abbreviation demo_served := (served id id (fun _ => true) (fun m => (map_to_list m).*1) demo_url (fun _ => None) (fun _ => None) (fun _ => None)
    (fun _ => None) (fun _ => None) (fun _ => None) demo_path (lit "/root")).

Lemma demo_server_served : demo_served (demo_rpc set_peers demo_server).1.1.
Proof.
  eapply (served_request _ _ _ _ _ _ _ _ _ _ _ _ _ demo_server 0 None (Some set_peers)); [|by rewrite <- !surjective_pairing].
  apply (served_loaded _ _ _ _ _ _ _ _ _ _ _ _ _ (config_text (fun _ => true) demo_cfg) [] true demo_cfg (mkEngine ∅ ∅ ∅ 5 0)).
  - exact demo_loaded.
  - split; repeat constructor; vm_compute; discriminate.
  - reflexivity.
Qed.

Lemma Settings_survive_witness : let s' := (demo_rpc set_peers demo_server).1.1 in
  e_MaxPeers (sv_settings s') = 50 /\ c_LogLevel (sv_cfg s') = lit "DEBUG" /\
  exists text c', sv_file s' = Some text /\
    LoadConfig (fun _ => true) (lit "/root") demo_path (FileData text) [] true = (c', None, None) /\
    engine_defaults (engine_cfg_of c') = sv_settings s'.
Proof.
  cbv zeta. split; [vm_compute; reflexivity|]. split; [vm_compute; reflexivity|].
  destruct (proj2 (Settings_survive id id (fun _ => true) (fun m => (map_to_list m).*1) demo_url (fun _ => None) (fun _ => None)
    (fun _ => None) (fun _ => None) (fun _ => None) (fun _ => None) demo_path ltac:(discriminate) (lit "/root")
    (demo_rpc set_peers demo_server).1.1 demo_server_served)) with (rnd := @nil byte) (ok := true)
    as (text & c' & H1 & H2 & H3 & _).
  - repeat split; vm_compute; reflexivity.
  - exists text, c'. auto.
Defined.

(** Two [daemon.setConfig] at the same time: the engine's setters run outside the handler's lock, so the last value the
    engine got and the last one written to the configuration may come from different requests. *)
Lemma concurrent_setConfig_diverges :
  let pa := params_of {[ lit "max_peers" := VInt 40 ]} in
  let pb := params_of {[ lit "max_peers" := VInt 60 ]} in
  let rng := fun m : gmap bytes Session => (map_to_list m).*1 in
  let s := apply_engine rng pb (apply_engine rng pa demo_server) in
  let s := save_cfg (fun _ => true) true (apply_cfg pb (sv_cfg s)) s in
  let s := save_cfg (fun _ => true) true (apply_cfg pa (sv_cfg s)) s in
  e_MaxPeers (sv_settings s) = 60 /\ c_MaxPeers (sv_cfg s) = 40.
Proof. by vm_compute. Qed.

Lemma Rpc_errors_witness : let a := demo_rpc (call (lit "torrent.stop") []) demo_server in
  a.1.1 = demo_server /\ exists err, a.2 = Err err /\ Code err = -32601.
Proof.
  cbv zeta. destruct (Rpc_errors id id (fun _ => true) (fun m => (map_to_list m).*1) demo_url (fun _ => None) (fun _ => None)
    (fun _ => None) (fun _ => None) (fun _ => None) (fun _ => None) 0 None true (Some (call (lit "torrent.stop") []))
    demo_server demo_server (Some (JNum (lit "1"))) (mkRpcErr (-32601) (Text (lit "method not found: torrent.stop")))) as [_ H].
  - vm_compute. reflexivity.
  - split; [vm_compute; reflexivity|]. eexists. split; [vm_compute; reflexivity|]. exact H.
Defined.

(** The temporary directory cannot be given up again: the empty path is refused. *)
Lemma tmp_dir_not_cleared resolve : validateDirPath resolve [] = Err EmptyPath.
Proof. done. Qed.

(** The name of a torrent that was only added is the display name of its link, unchecked: removing the torrent with its
    files deletes a directory outside of the temporary directory. *)
Lemma remove_outside_tmp :
  let s1 := (demo_rpc (call (lit "torrent.add") [(lit "source", JStr (lit "magnet:"))]) demo_server).1.1 in
  let s2 := (demo_rpc (call (lit "torrent.remove") [(lit "id", JStr (lit "4141414141414141414141414141414141414141")); (lit "delete_files", JBool true)]) s1).1.1 in
  e_TmpDir (sv_settings s1) = lit "/var/tmp/stor" /\ sv_removed s2 = [lit "/var/home/u"].
Proof. split; vm_compute; reflexivity. Qed.

(** The unspecified address, which reaches the local host, is not refused. *)
Lemma url_allows_unspecified url_host ParseIP url host :
  url_host url = Some (lit "http", host) -> host <> lit "localhost" -> ParseIP host = Some (replicate 4 x00) -> validTorrentURL url_host ParseIP url = true.
Proof. intros H1 H2 H3. unfold validTorrentURL. rewrite H1, H3, (bool_decide_eq_false_2 (host = _)) by done. by vm_compute. Qed.
