(* ===== verification/Daemon.v ===== *)
(** * The daemon's HTTP service ([daemon/daemon.go], [daemon/sse.go])

    Routes, authentication, cross-origin headers and the handlers around the JSON-RPC service of [Rpc].  A request is
    what [net/http] makes of it: a cleaned path, header values, and the parsed forms of its body. *)

From S2P Require Import Prelude Strconv Net Text Paths Magnet Engine Queue Quote Config Rpc.
Set Warnings "-clear-no-such-hyp".
Local Open Scope Z_scope.

Inductive upload := FormError | FileMissing | FileUnread | FileContent (data : bytes).

Record request := mkRequest {
  q_method : bytes; q_path : bytes;
  q_auth : bytes; q_origin : bytes; q_private : bytes; q_ctype : bytes; q_match : bytes;   (** headers, empty when absent *)
  q_json : option json;       (** the body as JSON *)
  q_form : option bytes;      (** the form's [url], [None] when the form cannot be parsed *)
  q_upload : upload           (** the multipart form *)
}.

Inductive body := BText (s : bytes) | BRpc (id : option json) (r : result rpcErr rpc_value) | BId (id : bytes) | BInfos (l : list TorrentRecord)
  | BStream | BMetrics | BPprof | BUI | BNone.

Record response := mkResponse { w_status : Z; w_origin : option bytes; w_private : bool; w_body : body }.

(** ** Routes *)

Inductive handler := HRpc | HAdd | HList | HEvents | HMetrics | HPprof | HUI.

Definition GET : bytes := lit "GET".
Definition POST : bytes := lit "POST".
Definition OPTIONS : bytes := lit "OPTIONS".

(** [New]: the patterns. *)
Definition routes (metrics : bool) : list (bytes * bytes * handler) :=
  [(POST, lit "/api/rpc", HRpc); (POST, lit "/api/add", HAdd); (GET, lit "/api/torrents", HList); (GET, lit "/api/events", HEvents)] ++
  (if metrics then
     [(GET, lit "/metrics", HMetrics); (GET, lit "/debug/pprof/", HPprof); (GET, lit "/debug/pprof/cmdline", HPprof);
      (GET, lit "/debug/pprof/profile", HPprof); (GET, lit "/debug/pprof/symbol", HPprof); (POST, lit "/debug/pprof/symbol", HPprof);
      (GET, lit "/debug/pprof/trace", HPprof)]
   else []) ++
  [(GET, lit "/", HUI)].

(** [http.ServeMux]: a pattern for GET also takes HEAD; one that ends in a slash takes every path below it; the longest wins. *)
Definition method_matches (pat m : bytes) : bool := bool_decide (m = pat) || (bool_decide (pat = GET) && bool_decide (m = lit "HEAD")).
Definition path_matches (pat p : bytes) : bool :=
  if bool_decide (last pat = Some sep) then HasPrefix p pat else bool_decide (p = pat).

Definition better (best : option (bytes * handler)) (r : bytes * bytes * handler) : option (bytes * handler) :=
  match best with Some (p, _) => if len p <? len r.1.2 then Some (r.1.2, r.2) else best | None => Some (r.1.2, r.2) end.

Definition mux (metrics : bool) (q : request) : option handler :=
  snd <$> foldl better None (filter (fun r => method_matches r.1.1 (q_method q) = true /\ path_matches r.1.2 (q_path q) = true) (routes metrics)).

(** ** Handlers *)

Definition needs_key (h : handler) : bool := match h with HUI => false | _ => true end.

(** [authMiddleware]: the key of the request. *)
Definition bearer (auth : bytes) : option bytes :=
  if HasPrefix auth (lit "Bearer ") then Some (TrimSpace (drop 7 auth)) else None.
Definition authorized (key : bytes) (q : request) : bool :=
  match bearer (q_auth q) with Some token => bool_decide (token = key) | None => false end.

Definition isUIPath (p : bytes) : bool :=
  bool_decide (p = lit "/") || bool_decide (p = lit "/index.html") || HasPrefix p (lit "/_app/").

Definition maxTorrentSize : Z := 10 * 2 ^ 20.

Section Serve.
Context (sha1 sha256 : bytes -> bytes) (print_above : Z -> bool) (rng : gmap bytes Session -> list bytes).
Context (parse_url : bytes -> option URL) (read_file : bytes -> option bytes).
Context (url_host : bytes -> option (bytes * bytes)) (ParseIP : bytes -> option IP).
Context (EvalSymlinks : bytes -> option bytes) (http_get : bytes -> option (Z * list bytes)) (base64 : bytes -> option bytes).
Context (now : Z) (tmp_file : option bytes) (save_ok : bool).
(** The tag of the user interface's files, and the answer of the file server. *)
Context (uiETag : bytes) (file_server : bytes -> Z).

Abbreviation reply := (server * (Z * body))%type.

Definition added (a : server * result rpcErr rpc_value) : reply :=
  match a.2 with
  | Ok (RId id) => (a.1, (200, BId id))
  | Ok _ => (a.1, (200, BNone))
  | Err err => (a.1, (500, BText (match Message err with Text t => t | EngineMessage _ => [] end)))
  end.

Definition handleAdd (q : request) (s : server) : reply :=
  if HasPrefix (q_ctype q) (lit "multipart/form-data") then
    match q_upload q with
    | FormError => (s, (400, BText (lit "parse form")))
    | FileMissing => (s, (400, BText (lit "file required")))
    | FileUnread => (s, (500, BText (lit "read file")))
    | FileContent data =>
        if maxTorrentSize <? len data then (s, (413, BText (lit "torrent file too large (>10MB)")))
        else added (AddTorrentFile sha1 sha256 rng now tmp_file data s)
    end
  else match q_form q with
       | None => (s, (400, BText (lit "parse form")))
       | Some [] => (s, (400, BText (lit "url required")))
       | Some url => added (add_source sha1 sha256 rng now url (parse_url url) (read_file url) s)
       end.

(** [uiCacheControl] around the file server. *)
Definition serve_ui (q : request) : Z * body :=
  if isUIPath (q_path q) && negb (bool_decide (q_match q = [])) && bool_decide (q_match q = uiETag) then (304, BNone)
  else (file_server (q_path q), BUI).

Definition handle (h : handler) (q : request) (s : server) : reply :=
  match h with
  | HRpc =>
      let '(s', id, r) := serve_rpc sha1 sha256 print_above rng parse_url read_file url_host ParseIP EvalSymlinks http_get base64
                            now tmp_file save_ok (q_json q) s in
      (s', (200, BRpc id r))
  | HAdd => handleAdd q s
  | HList => match torrentList rng s with (s', Ok (RInfos l)) => (s', (200, BInfos l)) | (s', _) => (s', (200, BNone)) end
  | HEvents => (s, (200, BStream))
  | HMetrics => (s, (200, BMetrics))
  | HPprof => (s, (200, BPprof))
  | HUI => (s, serve_ui q)
  end.

(** The mux, with [authMiddleware] around every handler but the user interface. *)
Definition serve_mux (q : request) (s : server) : reply :=
  match mux (c_EnableMetrics (sv_cfg s)) q with
  | None => (s, (405, BText (lit "Method Not Allowed")))
  | Some h =>
      if needs_key h then
        match bearer (q_auth q) with
        | None => (s, (401, BText (lit "unauthorized: missing Bearer token")))
        | Some token => if bool_decide (token = c_APIKey (sv_cfg s)) then handle h q s
                        else (s, (401, BText (lit "unauthorized: invalid key")))
        end
      else handle h q s
  end.

(** [corsMiddleware] around it. *)
Definition serve (q : request) (s : server) : server * response :=
  let origin := if bool_decide (q_origin q = []) then None else Some (q_origin q) in
  let private := bool_decide (is_Some origin) in
  if bool_decide (q_method q = OPTIONS) then
    (s, mkResponse 204 origin (private || bool_decide (q_private q = lit "true")) BNone)
  else let '(s', (st, b)) := serve_mux q s in (s', mkResponse st origin private b).
End Serve.

(** ** Events *)

Fixpoint split_comma (s : bytes) : list bytes :=
  match s with
  | [] => [[]]
  | b :: s => if Byte.eqb b x2c then [] :: split_comma s
              else match split_comma s with h :: t => (b :: h) :: t | [] => [[b]] end
  end.

(** [buildTypeFilter]: the types let through, [None] for all. *)
Definition buildTypeFilter (raw : bytes) : option (list bytes) :=
  match TrimSpace raw with
  | [] => None
  | raw => match filter (fun t => t <> []) (TrimSpace <$> split_comma raw) with [] => None | ts => Some ts end
  end.

Definition type_passes (f : option (list bytes)) (ty : bytes) : bool := match f with None => true | Some ts => bool_decide (ty ∈ ts) end.

(** ** Properties *)

Lemma better_elem rs : forall best p h, foldl better best rs = Some (p, h) -> best = Some (p, h) \/ exists m, (m, p, h) ∈ rs.
Proof.
  induction rs as [|[[m p'] h'] rs IH]; intros best p h H; cbn [foldl] in H; [by left|].
  apply IH in H as [H|[m' H]]; [|right; exists m'; by right]. unfold better in H. destruct best as [[p0 h0]|].
  - destruct (_ <? _); [|by left]. injection H as <- <-. right. exists m. left.
  - injection H as <- <-. right. exists m. left.
Qed.

(** The chosen handler was registered for the method of the request. *)
Lemma mux_registered metrics q h : mux metrics q = Some h ->
  exists m p, (m, p, h) ∈ routes metrics /\ method_matches m (q_method q) = true /\ path_matches p (q_path q) = true.
Proof.
  unfold mux. intros H. apply fmap_Some in H as ([p h'] & H & ->). apply better_elem in H as [H|[m H]]; [done|].
  apply list_elem_of_filter in H as [[H1 H2] H3]. by exists m, p.
Qed.

Definition changes_state (h : handler) : bool := match h with HRpc | HAdd => true | _ => false end.

Lemma mux_post metrics q h : mux metrics q = Some h -> changes_state h = true -> q_method q = POST.
Proof.
  intros (m & p & Hin & Hm & _)%mux_registered Hc. assert (Hp : Forall (fun r => changes_state r.2 = true -> r.1.1 = POST) (routes metrics)).
  { destruct metrics; repeat constructor; done. }
  rewrite Forall_forall in Hp. specialize (Hp _ Hin Hc). cbn in Hp. subst m. unfold method_matches in Hm.
  apply orb_true_iff in Hm as [Hm|Hm]; [by apply bool_decide_eq_true in Hm|]. by vm_compute in Hm.
Qed.

(** What a client without the key may see. *)
Definition public (b : body) : bool := match b with BText _ | BUI | BNone => true | _ => false end.

Section Safety.
Context (sha1 sha256 : bytes -> bytes) (print_above : Z -> bool) (rng : gmap bytes Session -> list bytes).
Context (parse_url : bytes -> option URL) (read_file : bytes -> option bytes).
Context (url_host : bytes -> option (bytes * bytes)) (ParseIP : bytes -> option IP).
Context (EvalSymlinks : bytes -> option bytes) (http_get : bytes -> option (Z * list bytes)) (base64 : bytes -> option bytes).
Context (now : Z) (tmp_file : option bytes) (save_ok : bool) (uiETag : bytes) (file_server : bytes -> Z).
Local Abbreviation handle := (handle sha1 sha256 print_above rng parse_url read_file url_host ParseIP EvalSymlinks http_get base64 now tmp_file save_ok uiETag file_server).

Lemma handle_changes h q s : (handle h q s).1 <> s -> changes_state h = true.
Proof. by destruct h. Qed.

(** C27: the API key protects the daemon. A request changes the torrents or the settings only if it is a POST that carries the
    key; without the key every route but the user interface answers 401 and shows nothing; and a route that needs the key is
    never served by the user interface's handler. *)
Theorem Auth_required q s s' w :
  serve sha1 sha256 print_above rng parse_url read_file url_host ParseIP EvalSymlinks http_get base64 now tmp_file save_ok uiETag file_server q s = (s', w) ->
  (s' <> s -> q_method q = POST /\ authorized (c_APIKey (sv_cfg s)) q = true) /\
  (authorized (c_APIKey (sv_cfg s)) q = false -> public (w_body w) = true) /\
  (forall h, q_method q <> OPTIONS -> mux (c_EnableMetrics (sv_cfg s)) q = Some h -> needs_key h = true ->
     authorized (c_APIKey (sv_cfg s)) q = false -> w_status w = 401) /\
  (forall m p h, (m, p, h) ∈ routes (c_EnableMetrics (sv_cfg s)) -> h <> HUI -> q_method q = m -> q_path q = p ->
     exists h', mux (c_EnableMetrics (sv_cfg s)) q = Some h' /\ needs_key h' = true).
Proof.
  intros Hs. split_and!.
  - intros Hne. unfold serve in Hs. destruct (bool_decide (q_method q = OPTIONS)); [by injection Hs as <- _|].
    unfold serve_mux in Hs. destruct (mux _ q) as [h|] eqn:Eh; [|by injection Hs as <- _].
    assert (Hh : (handle h q s).1 = s' -> changes_state h = true) by (intros <-; by eapply handle_changes).
    unfold authorized. destruct (needs_key h) eqn:En.
    + destruct (bearer (q_auth q)) as [t|]; [|by injection Hs as <- _]. destruct (bool_decide _); [|by injection Hs as <- _].
      destruct (handle h q s) as [s1 [st b]]. injection Hs as <- _. split; [|done]. eapply mux_post; [done|by apply Hh].
    + destruct (handle h q s) as [s1 [st b]]. injection Hs as <- _. destruct h; try done. by specialize (Hh eq_refl).
  - intros Ha. unfold serve in Hs. destruct (bool_decide (q_method q = OPTIONS)); [by injection Hs as _ <-|].
    unfold serve_mux in Hs. unfold authorized in Ha. destruct (mux _ q) as [h|] eqn:Eh; [|by injection Hs as _ <-].
    destruct (needs_key h) eqn:En.
    + destruct (bearer (q_auth q)) as [t|]; [|by injection Hs as _ <-]. rewrite Ha in Hs. by injection Hs as _ <-.
    + destruct h; try done. cbn in Hs. unfold serve_ui in Hs. destruct (_ && _ && _); by injection Hs as _ <-.
  - intros h Hm Hh Hn Ha. unfold serve in Hs. rewrite bool_decide_eq_false_2 in Hs by done. unfold serve_mux in Hs. rewrite Hh, Hn in Hs.
    unfold authorized in Ha. destruct (bearer (q_auth q)) as [t|]; [|by injection Hs as _ <-]. rewrite Ha in Hs. by injection Hs as _ <-.
  - clear Hs. intros m p h Hin Hh Hm Hp. unfold mux. rewrite Hm, Hp. clear Hm Hp q.
    assert (H : Forall (fun r => r.2 <> HUI -> exists h', snd <$> foldl better None (filter (fun r' => method_matches r'.1.1 r.1.1 = true /\
      path_matches r'.1.2 r.1.2 = true) (routes (c_EnableMetrics (sv_cfg s)))) = Some h' /\ needs_key h' = true) (routes (c_EnableMetrics (sv_cfg s)))).
    { destruct (c_EnableMetrics (sv_cfg s)); repeat constructor; intros Hn; try done; eexists; by vm_compute. }
    rewrite Forall_forall in H. by apply (H _ Hin).
Qed.
End Safety.

(** ** Witness *)

Definition http_server : server :=
  let c := set_c_APIKey (lit "sk-1") (DefaultConfig (lit "/root")) in
  mkServer (mkEngine ∅ ∅ ∅ 5 0) (engine_defaults (engine_cfg_of c)) (0, 0) c None LevelInfo [].

Definition http_request (auth : bytes) : request :=
  mkRequest POST (lit "/api/rpc") auth [] [] [] []
    (Some (JObj [(lit "jsonrpc", JStr (lit "2.0")); (lit "method", JStr (lit "daemon.setMaxActive")); (lit "params", JObj [(lit "max_active", JNum (lit "2"))])]))
    None FormError.

Definition http_demo (q : request) : server * response :=
  serve id id (fun _ => true) (fun m => (map_to_list m).*1) (fun _ => None) (fun _ => None) (fun _ => None) (fun _ => None)
    (fun _ => None) (fun _ => None) (fun _ => None) 0 None true [] (fun _ => 200) q http_server.

Lemma Auth_required_witness :
  w_status (http_demo (http_request (lit "Bearer sk-2"))).2 = 401 /\
  MaxActive (sv_engine (http_demo (http_request (lit "Bearer sk-1"))).1) = 2 /\
  authorized (lit "sk-1") (http_request (lit "Bearer sk-1")) = true.
Proof.
  split; [|split; [vm_compute; reflexivity|]].
  - refine (proj1 (proj2 (proj2 (Auth_required id id (fun _ => true) (fun m => (map_to_list m).*1) (fun _ => None) (fun _ => None) (fun _ => None)
      (fun _ => None) (fun _ => None) (fun _ => None) (fun _ => None) 0 None true [] (fun _ => 200) (http_request (lit "Bearer sk-2"))
      http_server (http_demo (http_request (lit "Bearer sk-2"))).1 (http_demo (http_request (lit "Bearer sk-2"))).2 (surjective_pairing _)))) HRpc _ _ _ _).
    all: vm_compute; try reflexivity; discriminate.
  - vm_compute. reflexivity.
Defined.
