(* ===== verification/Swarm.v ===== *)
(** * The pool of peers of a download ([download/download.go], [runWorkers])

    [runWorkers] starts a goroutine per peer through [spawnWorker], which three callers use: the loop over the
    initial peers, the feeder that receives batches from [peerCh], and the retry sweep.  A goroutine waits for a
    dial slot, dials, waits for a peer slot, works and leaves; [seen] holds the addresses that have one, and
    [allSeenList] the peers a sweep may try again.  A last goroutine closes [resultCh].

    Every operation on shared state (the [sync.Map], the section under [allSeenMu], the semaphores, the wait
    group, the channels) is a step; a run is any interleaving.  What a worker does between registering and
    leaving is the subject of [Workers]; here it may send a result or leave. *)

From S2P Require Import Prelude Strconv Text Net Tracker.
Set Warnings "-clear-no-such-hyp".
Local Open Scope Z_scope.

(** [net.JoinHostPort(p.IP.String(), strconv.Itoa(int(p.Port)))]: a host with a colon is put in brackets. *)
Definition peer_String (p : Peer) : bytes :=
  let host := ip_String (IP_ p) in
  if bool_decide (x3a ∈ host) then lit "[" ++ host ++ lit "]:" ++ itoa (Port p)
  else host ++ lit ":" ++ itoa (Port p).

Fixpoint dedup_loop (seen : gset bytes) (peers : list Peer) : list Peer :=
  match peers with
  | [] => []
  | p :: peers =>
      let key := peer_String p in
      if bool_decide (key ∈ seen) then dedup_loop seen peers
      else p :: dedup_loop ({[ key ]} ∪ seen) peers
  end.

Definition deduplicatePeers (peers : list Peer) : list Peer := dedup_loop ∅ peers.

(** ** Why a peer was left *)

Definition classifyDownloadError (err : option bytes) : bytes :=
  match err with
  | None => lit "unknown"
  | Some msg =>
      if Contains msg (lit "i/o timeout") || Contains msg (lit "deadline exceeded") then lit "timeout"
      else if Contains msg (lit "peer choked") then lit "choked_out"
      else if Contains msg (lit "hash mismatch") || Contains msg (lit "rejected piece")
              || Contains msg (lit "out of bounds") || Contains msg (lit "too many unexpected messages")
      then lit "protocol_error: " ++ msg
      else if Contains msg (lit "EOF") || Contains msg (lit "connection reset") || Contains msg (lit "broken pipe")
      then lit "peer_closed"
      else lit "unknown"
  end.

(** The field [disconnectReason] after [SetDisconnectReason(reason)]. *)
Definition SetDisconnectReason (reason disconnectReason : bytes) : bytes :=
  if bool_decide (reason = []) then disconnectReason
  else if bool_decide (disconnectReason = []) then reason else disconnectReason.

(** ** The pool *)

Inductive caller := Main | Retry | Feeder.
(** Where a call of [spawnWorker] is: not in one, after [seen.LoadOrStore], after the section under [allSeenMu]. *)
Inductive spawn_stage := Idle | Stored (p : Peer) | Listed (p : Peer).
Inductive caller_pc :=
  | NotStarted
  | Waiting                                   (** on the timer, or on [peerCh] *)
  | Spawning (todo : list Peer) (st : spawn_stage)
  | Returned.

(** A goroutine of a peer in its order of phases; [WebRunning] is a web seed's loop. *)
Inductive worker_phase :=
  | WaitDial | Dialing | Connected | InSlot | Registered | Releasing | Forgetting | WebRunning | Ending | Gone.
Inductive closer_pc := CloserOff | WaitFeeder | WaitRetry | WaitWorkers | Closed.

Record swarm := mkSwarm {
  seen : gset bytes;
  allSeenList : list Peer; allSeenSet : gset bytes;
  callers : caller -> caller_pc;
  goroutines : list (bytes * worker_phase);
  activeWorkers : Z;
  feed : list (list Peer); feed_closed : bool;     (** [peerCh] *)
  closer : closer_pc;
  ctx : bool;                                      (** the context has ended *)
  left : Z;                                        (** [pq.Remaining()] *)
  otherDials : Z;                                  (** slots of a shared [DialSem] other torrents hold *)
  panicked : bool                                  (** a send on the closed [resultCh] *)
}.

Definition set_seen (x : gset bytes) (s : swarm) : swarm :=
  mkSwarm x (allSeenList s) (allSeenSet s) (callers s) (goroutines s) (activeWorkers s) (feed s) (feed_closed s)
    (closer s) (ctx s) (left s) (otherDials s) (panicked s).
Definition set_all (l : list Peer) (x : gset bytes) (s : swarm) : swarm :=
  mkSwarm (seen s) l x (callers s) (goroutines s) (activeWorkers s) (feed s) (feed_closed s)
    (closer s) (ctx s) (left s) (otherDials s) (panicked s).
Definition upd (c : caller) (pc : caller_pc) (f : caller -> caller_pc) : caller -> caller_pc := fun c' =>
  match c, c' with Main, Main | Retry, Retry | Feeder, Feeder => pc | _, _ => f c' end.
Definition set_caller (c : caller) (pc : caller_pc) (s : swarm) : swarm :=
  mkSwarm (seen s) (allSeenList s) (allSeenSet s) (upd c pc (callers s)) (goroutines s) (activeWorkers s) (feed s)
    (feed_closed s) (closer s) (ctx s) (left s) (otherDials s) (panicked s).
Definition set_goroutines (l : list (bytes * worker_phase)) (n : Z) (s : swarm) : swarm :=
  mkSwarm (seen s) (allSeenList s) (allSeenSet s) (callers s) l n (feed s) (feed_closed s)
    (closer s) (ctx s) (left s) (otherDials s) (panicked s).
Definition set_phase (i : nat) (addr : bytes) (ph : worker_phase) (s : swarm) : swarm :=
  set_goroutines (<[i := (addr, ph)]> (goroutines s)) (activeWorkers s) s.
Definition set_feed (l : list (list Peer)) (closed : bool) (s : swarm) : swarm :=
  mkSwarm (seen s) (allSeenList s) (allSeenSet s) (callers s) (goroutines s) (activeWorkers s) l closed
    (closer s) (ctx s) (left s) (otherDials s) (panicked s).
Definition set_closer (c : closer_pc) (s : swarm) : swarm :=
  mkSwarm (seen s) (allSeenList s) (allSeenSet s) (callers s) (goroutines s) (activeWorkers s) (feed s)
    (feed_closed s) c (ctx s) (left s) (otherDials s) (panicked s).
Definition set_env (ctx' : bool) (left' others : Z) (s : swarm) : swarm :=
  mkSwarm (seen s) (allSeenList s) (allSeenSet s) (callers s) (goroutines s) (activeWorkers s) (feed s)
    (feed_closed s) (closer s) ctx' left' others (panicked s).
Definition set_panicked (s : swarm) : swarm :=
  mkSwarm (seen s) (allSeenList s) (allSeenSet s) (callers s) (goroutines s) (activeWorkers s) (feed s)
    (feed_closed s) (closer s) (ctx s) (left s) (otherDials s) true.

Definition phase_in (phs : list worker_phase) (g : bytes * worker_phase) : Prop := g.2 ∈ phs.
#[global] Instance phase_eq_dec : EqDecision worker_phase.
Proof. solve_decision. Defined.
#[global] Instance closer_pc_eq_dec : EqDecision closer_pc.
Proof. solve_decision. Defined.
#[global] Instance phase_in_dec phs g : Decision (phase_in phs g).
Proof. unfold phase_in. apply _. Defined.

Definition count (phs : list worker_phase) (s : swarm) : Z := len (filter (phase_in phs) (goroutines s)).
Definition dials_held (s : swarm) : Z := count [Dialing] s + otherDials s.
(** The deferred receive from [sem] runs after [Unregister] and [Close]. *)
Definition peer_slots (s : swarm) : Z := count [InSlot; Registered; Releasing] s.
Definition PeerCount (s : swarm) : Z := count [Registered] s.

(** The loop of a sweep over the snapshot of [allSeenList]. *)
Fixpoint sweep (limit : Z) (snapshot : list Peer) : list Peer :=
  match snapshot with
  | [] => []
  | p :: snapshot => if limit <=? 0 then [] else p :: sweep (limit - 1) snapshot
  end.

Section Pool.
(** [cfg.MaxPeers], the capacity of [cfg.DialSem] if there is one, the initial peers, whether there is a [peerCh],
    the valid web seeds. *)
Context (MaxPeers : Z) (sharedDials : option Z) (initial : list Peer) (has_peerCh : bool) (webSeeds : list bytes).

Definition dial_cap : Z :=
  match sharedDials with
  | Some n => n
  | None => let maxDials := Z.quot MaxPeers 2 in if maxDials <? 10 then 10 else maxDials
  end.

Definition maxAllSeen : Z := let m := MaxPeers * 20 in if m <? 5000 then 5000 else m.

Definition swarm_start (pieces : Z) : swarm :=
  mkSwarm ∅ [] ∅ (fun c => match c with Main => Spawning initial Idle | Retry => Waiting | Feeder => NotStarted end)
    [] 0 [] false CloserOff false pieces 0 false.

(** The next step of a call of [spawnWorker], or the end of the caller's loop. *)
Definition spawn_step (c : caller) (s : swarm) : option swarm :=
  match callers s c with
  | Spawning todo (Stored p) =>
      let addr := peer_String p in
      let s' := if bool_decide (addr ∉ allSeenSet s) && (len (allSeenList s) <? maxAllSeen)
                then set_all (allSeenList s ++ [p]) ({[ addr ]} ∪ allSeenSet s) s else s in
      Some (set_caller c (Spawning todo (Listed p)) s')
  | Spawning todo (Listed p) =>
      Some (set_caller c (Spawning todo Idle)
              (set_goroutines (goroutines s ++ [(peer_String p, WaitDial)]) (activeWorkers s + 1) s))
  | Spawning todo Idle =>
      match todo with
      | p :: todo =>
          let addr := peer_String p in
          if bool_decide (addr ∈ seen s) then Some (set_caller c (Spawning todo Idle) s)
          else Some (set_caller c (Spawning todo (Stored p)) (set_seen ({[ addr ]} ∪ seen s) s))
      | [] =>
          match c with
          | Main =>
              let s := set_goroutines (goroutines s ++ ((fun u => (u, WebRunning)) <$> webSeeds))
                         (activeWorkers s + len webSeeds) s in
              let s := if has_peerCh then set_caller Feeder Waiting s else s in
              Some (set_closer WaitFeeder (set_caller Main Returned s))
          | Retry | Feeder => Some (set_caller c Waiting s)
          end
      end
  | _ => None
  end.

Inductive swarm_label :=
  | Spawn (c : caller)
  | Tick                        (** the retry timer fires *)
  | StopCaller (c : caller)     (** [ctx.Done()] of the retry loop or of the feeder *)
  | Take                        (** the feeder receives from [peerCh] *)
  | Advance (i : nat) (ok : bool)
  | Stop (i : nat)              (** a branch of [ctx.Done()] *)
  | Send (i : nat)
  | Close
  | Offer (b : list Peer) | CloseFeed | Cancel | PiecesLeft (n : Z) | OtherDials (n : Z).

(** A goroutine goes on; [ok] is the outcome of its dial, of [ValidateBitfield]. *)
Definition goroutine_step (i : nat) (ok : bool) (s : swarm) : option swarm :=
  '(addr, ph) ← goroutines s !! i;
  match ph with
  | WaitDial => if dials_held s <? dial_cap then Some (set_phase i addr Dialing s) else None
  | Dialing => Some (set_phase i addr (if ok then Connected else Forgetting) s)
  | Connected => if peer_slots s <? MaxPeers then Some (set_phase i addr InSlot s) else None
  | InSlot => Some (set_phase i addr (if ok then Registered else Releasing) s)
  | Registered => Some (set_phase i addr Releasing s)
  | Releasing => Some (set_phase i addr Forgetting s)
  | Forgetting => Some (set_phase i addr Ending (set_seen (seen s ∖ {[ addr ]}) s))
  | WebRunning => Some (set_phase i addr Ending s)
  | Ending => Some (set_goroutines (<[i := (addr, Gone)]> (goroutines s)) (activeWorkers s - 1) s)
  | Gone => None
  end.

Definition goroutine_stop (i : nat) (s : swarm) : option swarm :=
  '(addr, ph) ← goroutines s !! i;
  if negb (ctx s) then None
  else match ph with
       | WaitDial | Connected => Some (set_phase i addr Forgetting s)
       | Registered => Some (set_phase i addr Releasing s)
       | WebRunning => Some (set_phase i addr Ending s)
       | _ => None
       end.

(** A worker sends a result; once the context has ended, the head of its loop then ends it. *)
Definition send_result (i : nat) (s : swarm) : option swarm :=
  '(addr, ph) ← goroutines s !! i;
  match ph with
  | Registered | WebRunning =>
      let s := match closer s with Closed => set_panicked s | _ => s end in
      Some (if ctx s then set_phase i addr (match ph with Registered => Releasing | _ => Ending end) s else s)
  | _ => None
  end.

Definition close_step (s : swarm) : option swarm :=
  match closer s with
  | WaitFeeder => match callers s Feeder with NotStarted | Returned => Some (set_closer WaitRetry s) | _ => None end
  | WaitRetry => match callers s Retry with Returned => Some (set_closer WaitWorkers s) | _ => None end
  | WaitWorkers => if activeWorkers s =? 0 then Some (set_closer Closed s) else None
  | _ => None
  end.

Definition retry_tick (s : swarm) : option swarm :=
  match callers s Retry with
  | Waiting =>
      if left s =? 0 then Some (set_caller Retry Returned s)
      else if PeerCount s <? Z.quot MaxPeers 2 then Some (set_caller Retry (Spawning (sweep MaxPeers (allSeenList s)) Idle) s)
      else Some s
  | _ => None
  end.

Definition take_batch (s : swarm) : option swarm :=
  match callers s Feeder, feed s with
  | Waiting, b :: l => Some (set_caller Feeder (Spawning b Idle) (set_feed l (feed_closed s) s))
  | Waiting, [] => if feed_closed s then Some (set_caller Feeder Returned s) else None
  | _, _ => None
  end.

Definition pool_step (l : swarm_label) (s : swarm) : option swarm :=
  match l with
  | Spawn c => spawn_step c s
  | Tick => retry_tick s
  | StopCaller c =>
      match c, callers s c with
      | Retry, Waiting | Feeder, Waiting => if ctx s then Some (set_caller c Returned s) else None
      | _, _ => None
      end
  | Take => take_batch s
  | Advance i ok => goroutine_step i ok s
  | Stop i => goroutine_stop i s
  | Send i => send_result i s
  | Close => close_step s
  | Offer b => if feed_closed s then None else Some (set_feed (feed s ++ [b]) false s)
  | CloseFeed => if feed_closed s then None else Some (set_feed (feed s) true s)
  | Cancel => Some (set_env true (left s) (otherDials s) s)
  | PiecesLeft n => Some (set_env (ctx s) n (otherDials s) s)
  | OtherDials n =>
      match sharedDials with
      | Some cap => if (0 <=? n) && (count [Dialing] s + n <=? cap) then Some (set_env (ctx s) (left s) n s) else None
      | None => None
      end
  end.

Fixpoint pool_run (ls : list swarm_label) (s : swarm) : option swarm :=
  match ls with [] => Some s | l :: ls => s ← pool_step l s; pool_run ls s end.

Inductive swarm_reach (pieces : Z) : swarm -> Prop :=
  | swarm_init : swarm_reach pieces (swarm_start pieces)
  | swarm_next s l s' : swarm_reach pieces s -> pool_step l s = Some s' -> swarm_reach pieces s'.
End Pool.
