(* ===== verification/SwarmTheorems.v ===== *)
(** * Properties of the pool of peers *)

From S2P Require Import Prelude Strconv Text Net Tracker Swarm.
Set Warnings "-clear-no-such-hyp".
Local Open Scope Z_scope.

(** ** Duplicate peers *)

Lemma dedup_loop_spec seen ps :
  NoDup (peer_String <$> dedup_loop seen ps) /\
  (forall a, a ∈ peer_String <$> dedup_loop seen ps <-> a ∈ peer_String <$> ps /\ a ∉ seen) /\
  dedup_loop seen ps `sublist_of` ps.
Proof.
  revert seen. induction ps as [|p ps IH]; intros seen; cbn [dedup_loop fmap list_fmap].
  { split_and!; [constructor| |constructor]. intros a. rewrite elem_of_nil. tauto. }
  case_bool_decide as Hs.
  - destruct (IH seen) as (H1 & H2 & H3). split_and!; [done| |by constructor]. intros a. rewrite H2, elem_of_cons. set_solver.
  - destruct (IH ({[ peer_String p ]} ∪ seen)) as (H1 & H2 & H3). cbn [fmap list_fmap]. split_and!; [| |by constructor].
    + constructor; [|done]. rewrite H2. set_solver.
    + intros a. rewrite !elem_of_cons, H2. destruct (decide (a = peer_String p)); set_solver.
Qed.

(** ** The invariant *)

Definition g_held (g : bytes * worker_phase) : option bytes :=
  match g.2 with WebRunning | Ending | Gone => None | _ => Some g.1 end.
Definition c_held (pc : caller_pc) : list bytes :=
  match pc with Spawning _ (Stored p) | Spawning _ (Listed p) => [peer_String p] | _ => [] end.
(** The addresses a goroutine or a call of [spawnWorker] is responsible for. *)
Definition held (s : swarm) : list bytes :=
  omap g_held (goroutines s) ++ c_held (callers s Main) ++ c_held (callers s Retry) ++ c_held (callers s Feeder).

Definition ind (phs : list worker_phase) (g : bytes * worker_phase) : Z := if bool_decide (phase_in phs g) then 1 else 0.
Definition alive (g : bytes * worker_phase) : Z := match g.2 with Gone => 0 | _ => 1 end.

Ltac red_swarm :=
  cbn [seen allSeenList allSeenSet callers goroutines activeWorkers feed feed_closed closer ctx left otherDials panicked
       set_seen set_all set_caller set_goroutines set_phase set_feed set_closer set_env set_panicked upd c_held].

Lemma count_wsum phs s : count phs s = wsum (ind phs) (goroutines s).
Proof.
  unfold count. induction (goroutines s) as [|g l IH]; [done|]. cbn [wsum]. rewrite filter_cons. unfold ind at 1.
  destruct (decide (phase_in phs g)) as [H|H]; [rewrite bool_decide_true by done|rewrite bool_decide_false by done];
    cbn [length]; lia.
Qed.

Definition spawner_done (pc : caller_pc) : Prop := pc = NotStarted \/ pc = Returned.

Record held_inv (s : swarm) : Prop := {
  hi_nodup : NoDup (held s);
  hi_seen : forall a, a ∈ seen s <-> a ∈ held s
}.
Record all_inv (MaxPeers : Z) (s : swarm) : Prop := {
  al_nodup : NoDup (peer_String <$> allSeenList s);
  al_set : forall a, a ∈ allSeenSet s <-> a ∈ peer_String <$> allSeenList s;
  al_bound : len (allSeenList s) <= maxAllSeen MaxPeers
}.
Record count_inv (MaxPeers cap : Z) (s : swarm) : Prop := {
  ci_active : activeWorkers s = wsum alive (goroutines s);
  ci_others : 0 <= otherDials s;
  ci_dials : wsum (ind [Dialing]) (goroutines s) + otherDials s <= cap;
  ci_slots : wsum (ind [InSlot; Registered; Releasing]) (goroutines s) <= MaxPeers
}.
Definition spawning (pc : caller_pc) : Prop := match pc with Spawning _ _ => True | _ => False end.
(** What the last goroutine has waited for when it is at [cl]. *)
Definition waited (cl : closer_pc) (main retry feeder : caller_pc) (active : Z) : Prop :=
  match cl with
  | CloserOff => spawning main /\ feeder = NotStarted
  | WaitFeeder => main = Returned
  | WaitRetry => main = Returned /\ spawner_done feeder
  | WaitWorkers => main = Returned /\ spawner_done feeder /\ retry = Returned
  | Closed => main = Returned /\ spawner_done feeder /\ retry = Returned /\ active = 0
  end.
Record close_inv (s : swarm) : Prop := {
  cl_waited : waited (closer s) (callers s Main) (callers s Retry) (callers s Feeder) (activeWorkers s);
  cl_retry : callers s Retry <> NotStarted;
  cl_panic : panicked s = false
}.

Lemma omap_insert_same (l : list (bytes * worker_phase)) (i : nat) (a : bytes) (ph ph' : worker_phase) : l !! i = Some (a, ph) -> g_held (a, ph) = g_held (a, ph') ->
  omap g_held (<[i := (a, ph')]> l) = omap g_held l.
Proof.
  revert i. induction l as [|g l IH]; intros [|i] H E; cbn in *; simplify_eq; [by rewrite E|].
  destruct (g_held g); [f_equal|]; by apply (IH i H E).
Qed.

Lemma omap_insert_drop (l : list (bytes * worker_phase)) (i : nat) (a : bytes) (ph ph' : worker_phase) : l !! i = Some (a, ph) -> g_held (a, ph) = Some a ->
  g_held (a, ph') = None -> omap g_held l ≡ₚ a :: omap g_held (<[i := (a, ph')]> l).
Proof.
  revert i. induction l as [|g l IH]; intros [|i] H E E'; cbn in *; simplify_eq; [by rewrite E, E'|].
  specialize (IH i H E E'). destruct (g_held g) as [b|]; [|exact IH].
  transitivity (b :: a :: omap g_held (<[i := (a, ph')]> l)); [by constructor|by constructor].
Qed.

Lemma held_inv_perm s s' : held s ≡ₚ held s' -> seen s = seen s' -> held_inv s -> held_inv s'.
Proof.
  intros Hp Hs [H1 H2]. split; [by rewrite <- Hp|]. intros a. by rewrite <- Hs, H2, Hp.
Qed.

Lemma held_inv_add s s' a : held s' ≡ₚ a :: held s -> seen s' = {[ a ]} ∪ seen s -> a ∉ seen s -> held_inv s -> held_inv s'.
Proof.
  intros Hp Hs Ha [H1 H2]. split.
  - rewrite Hp. constructor; [|done]. by rewrite <- H2.
  - intros b. rewrite Hs, Hp, elem_of_cons, <- H2. set_solver.
Qed.

Lemma held_inv_drop s s' a : held s ≡ₚ a :: held s' -> seen s' = seen s ∖ {[ a ]} -> held_inv s -> held_inv s'.
Proof.
  intros Hp Hs [H1 H2]. rewrite Hp in H1. apply NoDup_cons in H1 as [H1 H1']. split; [done|].
  intros b. rewrite Hs, elem_of_difference, H2, Hp, elem_of_cons. set_solver.
Qed.

Lemma held_phase s i a ph ph' : goroutines s !! i = Some (a, ph) -> g_held (a, ph) = g_held (a, ph') ->
  held (set_phase i a ph' s) = held s.
Proof. intros H E. unfold held, set_phase. cbn. by rewrite (omap_insert_same _ _ _ _ _ H E). Qed.

Section Pool.
Context (MaxPeers : Z) (sharedDials : option Z) (initial : list Peer) (has_peerCh : bool) (webSeeds : list bytes).
Local Abbreviation cap := (dial_cap MaxPeers sharedDials).
Local Abbreviation step := (pool_step MaxPeers sharedDials has_peerCh webSeeds).
Local Abbreviation reach := (swarm_reach MaxPeers sharedDials initial has_peerCh webSeeds).

(** *** The addresses *)

Lemma omap_web (l : list bytes) : omap g_held ((fun u => (u, WebRunning)) <$> l) = [].
Proof. induction l; cbn; [done|]. done. Qed.

(** Unfold a step of [spawnWorker] into its branches. *)
Ltac spawn_cases c s H Ec todo st p :=
  unfold spawn_step in H; destruct (callers s c) as [| |todo st|] eqn:Ec; try done;
  destruct st as [|p|p]; [destruct todo as [|p todo]; [destruct c|case_bool_decide]| |]; simplify_eq.

Lemma spawn_held c s s' : spawn_step MaxPeers has_peerCh webSeeds c s = Some s' -> close_inv s -> held_inv s -> held_inv s'.
Proof.
  intros H C I. spawn_cases c s H Ec todo st p.
  - assert (Hf : callers s Feeder = NotStarted).
    { destruct C as [C _ _]. rewrite Ec in C. unfold waited in C. destruct (closer s); naive_solver. }
    eapply held_inv_perm, I; [|by destruct has_peerCh]. unfold held.
    destruct has_peerCh; red_swarm; rewrite omap_app, omap_web, app_nil_r, Ec, ?Hf; done.
  - eapply held_inv_perm, I; [|done]. unfold held. red_swarm. by rewrite Ec.
  - eapply held_inv_perm, I; [|done]. unfold held. red_swarm. by rewrite Ec.
  - eapply held_inv_perm, I; [|done]. unfold held. destruct c; red_swarm; by rewrite Ec.
  - eapply held_inv_add, I; [|done|done]. unfold held. destruct c; red_swarm; rewrite Ec; cbn [c_held app]; solve_Permutation.
  - eapply held_inv_perm, I; [|by destruct (_ && _)].
    unfold held. destruct (_ && _); destruct c; red_swarm; by rewrite Ec.
  - eapply held_inv_perm, I; [|done]. unfold held.
    destruct c; red_swarm; rewrite Ec, omap_app; cbn [c_held omap list_omap g_held fst snd app]; solve_Permutation.
Qed.

Lemma spawn_all c s s' : spawn_step MaxPeers has_peerCh webSeeds c s = Some s' -> all_inv MaxPeers s -> all_inv MaxPeers s'.
Proof.
  intros H [H1 H2 H3]. spawn_cases c s H Ec todo st p; try (by destruct has_peerCh).
  destruct (bool_decide (peer_String p ∉ allSeenSet s) && _) eqn:E; [|done]. bool_prop. split; red_swarm.
  - rewrite fmap_app. apply NoDup_app. split_and!; [done| |apply NoDup_singleton].
    intros a Ha. cbn. rewrite list_elem_of_singleton. intros ->. by apply H2 in Ha.
  - intros a. rewrite fmap_app, elem_of_app, elem_of_union, H2. cbn. rewrite list_elem_of_singleton. set_solver.
  - rewrite length_app. cbn. lia.
Qed.

Lemma ind_web phs (l : list bytes) : WebRunning ∉ phs -> wsum (ind phs) ((fun u => (u, WebRunning)) <$> l) = 0.
Proof.
  intros H. induction l as [|u l IH]; cbn; [done|]. unfold ind at 1. rewrite bool_decide_false by done. exact IH.
Qed.
Lemma alive_web (l : list bytes) : wsum alive ((fun u => (u, WebRunning)) <$> l) = len l.
Proof. induction l as [|u l IH]; cbn in *; lia. Qed.

Lemma spawn_count c s s' : spawn_step MaxPeers has_peerCh webSeeds c s = Some s' -> count_inv MaxPeers cap s -> count_inv MaxPeers cap s'.
Proof.
  intros H [H1 H2 H3 H4]. spawn_cases c s H Ec todo st p; try done.
  - destruct has_peerCh; split; red_swarm; rewrite ?wsum_app, ?alive_web, ?ind_web by set_solver; lia.
  - by destruct (_ && _).
  - split; red_swarm; rewrite ?wsum_app; cbn [wsum alive snd];
      change (ind _ (_, WaitDial)) with 0; lia.
Qed.

(** A caller in its loop changes only its own place. *)
Lemma close_caller c pc todo st s s' : callers s c = Spawning todo st -> spawning pc \/ (c <> Main /\ pc = Waiting) ->
  closer s' = closer s -> callers s' = upd c pc (callers s) -> panicked s' = panicked s -> close_inv s -> close_inv s'.
Proof.
  intros Hc Hpc E1 E2 E3 [H1 H2 H3]. split; rewrite ?E1, ?E2, ?E3; [|destruct c; cbn; [done| |done]|done].
  - unfold waited, spawner_done, spawning in *. destruct Hpc as [Hpc|[? ->]]; [destruct pc; try done|];
      destruct (closer s), c; cbn; try rewrite Hc in *; intuition congruence.
  - destruct Hpc as [Hpc|[? ->]]; [by destruct pc|done].
Qed.

Lemma spawn_close c s s' : spawn_step MaxPeers has_peerCh webSeeds c s = Some s' -> close_inv s -> close_inv s'.
Proof.
  intros H I. spawn_cases c s H Ec todo st p.
  - destruct I as [H1 H2 H3]. rewrite Ec in H1. destruct (closer s); cbn in H1; [|naive_solver..].
    by destruct has_peerCh; split; red_swarm.
  - eapply (close_caller Retry Waiting), I; [exact Ec|by right|done..].
  - eapply (close_caller Feeder Waiting), I; [exact Ec|by right|done..].
  - eapply (close_caller c (Spawning todo Idle)), I; [exact Ec|by left|done..].
  - eapply (close_caller c (Spawning todo (Stored p))), I; [exact Ec|by left|done..].
  - destruct (_ && _); (eapply (close_caller c (Spawning todo (Listed p))), I; [exact Ec|by left|done..]).
  - eapply (close_caller c (Spawning todo Idle)), I; [exact Ec|by left|done..].
Qed.

(** *** The goroutines *)

Definition phase_rank (ph : worker_phase) : Z :=
  match ph with
  | WaitDial => 8 | Dialing => 7 | Connected => 6 | InSlot => 5 | Registered => 4 | Releasing => 3 | Forgetting => 2
  | WebRunning => 2 | Ending => 1 | Gone => 0
  end.

Inductive g_view (s : swarm) : swarm -> Prop :=
  | gv_move i a ph ph' : goroutines s !! i = Some (a, ph) -> ph' <> Gone -> phase_rank ph' < phase_rank ph ->
      g_held (a, ph') = g_held (a, ph) ->
      ph' <> Dialing \/ dials_held s < cap -> ph' <> InSlot \/ peer_slots s < MaxPeers ->
      (ph' = Registered -> ph = InSlot) -> (ph' = Releasing -> ph = InSlot \/ ph = Registered) ->
      g_view s (set_phase i a ph' s)
  | gv_forget i a : goroutines s !! i = Some (a, Forgetting) ->
      g_view s (set_phase i a Ending (set_seen (seen s ∖ {[ a ]}) s))
  | gv_end i a : goroutines s !! i = Some (a, Ending) ->
      g_view s (set_goroutines (<[i := (a, Gone)]> (goroutines s)) (activeWorkers s - 1) s).

Ltac move_goal := first [ done | lia | by left | by right | by intros | by intros; auto ].

Lemma advance_view i ok s s' : goroutine_step MaxPeers sharedDials i ok s = Some s' -> g_view s s'.
Proof.
  unfold goroutine_step. destruct (goroutines s !! i) as [[a ph]|] eqn:E; [|done]. cbn. destruct ph; intros H; try done.
  all: try (destruct (_ <? _) eqn:El; [|done]; bool_prop); try destruct ok; simplify_eq.
  all: first [by apply gv_forget | by apply gv_end | eapply gv_move; [exact E|..]; cbn; move_goal].
Qed.

Lemma stop_view i s s' : goroutine_stop i s = Some s' -> g_view s s' /\ ctx s = true.
Proof.
  unfold goroutine_stop. destruct (goroutines s !! i) as [[a ph]|] eqn:E; [|done]. cbn. destruct (ctx s) eqn:Ec; [|done].
  destruct ph; intros H; simplify_eq/=; (split; [|done]); eapply gv_move; [exact E|..]; cbn; move_goal.
Qed.

Lemma alive_nonneg g : 0 <= alive g.
Proof. unfold alive. by destruct g as [? []]. Qed.

(** Once [resultCh] is closed no goroutine is left. *)
Lemma closed_gone s : close_inv s -> count_inv MaxPeers cap s -> closer s = Closed -> Forall (fun g => g.2 = Gone) (goroutines s).
Proof.
  intros [C _ _] [A _ _ _] E. rewrite E in C. destruct C as (_ & _ & _ & C). rewrite C in A. symmetry in A.
  apply wsum_zero in A; [|apply alive_nonneg]. eapply Forall_impl; [exact A|]. intros [a ph]. by destruct ph.
Qed.

Lemma send_view i s s' : close_inv s -> count_inv MaxPeers cap s -> send_result i s = Some s' ->
  (s' = s /\ ctx s = false) \/ g_view s s'.
Proof.
  intros C A. unfold send_result. destruct (goroutines s !! i) as [[a ph]|] eqn:E; [|done]. cbn [mbind option_bind].
  destruct (decide (closer s = Closed)) as [Ec|Ec].
  { pose proof (closed_gone _ C A Ec) as F. rewrite Forall_lookup in F. specialize (F _ _ E). cbn in F. by subst ph. }
  assert (Hs : match closer s with Closed => set_panicked s | _ => s end = s) by (by destruct (closer s)).
  destruct ph; try done; rewrite Hs; intros H; destruct (ctx s) eqn:Ex; simplify_eq.
  all: first [by left | right; eapply gv_move; [exact E|..]; cbn; move_goal].
Qed.

Lemma ind_phase phs a ph : ind phs (a, ph) = if bool_decide (ph ∈ phs) then 1 else 0.
Proof. unfold ind, phase_in. cbn. done. Qed.

Lemma view_held s s' : g_view s s' -> held_inv s -> held_inv s'.
Proof.
  intros V I. destruct V as [i a ph ph' E _ _ Eh _ _|i a E|i a E].
  - eapply held_inv_perm, I; [|done]. by erewrite held_phase.
  - eapply (held_inv_drop s _ a), I; [|done]. unfold held. red_swarm.
    rewrite (omap_insert_drop _ _ _ _ Ending E) by done. solve_Permutation.
  - eapply held_inv_perm, I; [|done]. unfold held. red_swarm. by rewrite (omap_insert_same _ _ _ _ _ E).
Qed.

Lemma view_count s s' : g_view s s' -> count_inv MaxPeers cap s -> count_inv MaxPeers cap s'.
Proof.
  intros V [H1 H2 H3 H4].
  destruct V as [i a ph ph' E Hg Hr _ Hd Hs Hreg Hrel|i a E|i a E]; split; red_swarm; try done;
    rewrite ?(wsum_insert _ _ _ _ _ E).
  - assert (ph <> Gone) by (intros ->; destruct ph'; cbn in Hr; lia). destruct ph, ph'; try done; cbn; lia.
  - unfold dials_held in Hd. rewrite count_wsum in Hd. rewrite !ind_phase.
    destruct Hd as [Hd|Hd]; [rewrite (bool_decide_false (ph' ∈ _)) by set_solver|]; repeat case_bool_decide; lia.
  - unfold peer_slots in Hs. rewrite count_wsum in Hs. rewrite !ind_phase.
    destruct Hs as [Hs|Hs]; [|repeat case_bool_decide; lia].
    assert (ph' ∈ [InSlot; Registered; Releasing] -> ph ∈ [InSlot; Registered; Releasing]).
    { rewrite !elem_of_cons, elem_of_nil. intuition congruence. }
    repeat case_bool_decide; try lia. tauto.
  - cbn. lia.
  - change (ind [Dialing] (a, Forgetting)) with 0; change (ind [Dialing] (a, Ending)) with 0. lia.
  - change (ind [InSlot; Registered; Releasing] (a, Forgetting)) with 0.
    change (ind [InSlot; Registered; Releasing] (a, Ending)) with 0. lia.
  - cbn. lia.
  - change (ind [Dialing] (a, Gone)) with 0; change (ind [Dialing] (a, Ending)) with 0. lia.
  - change (ind [InSlot; Registered; Releasing] (a, Gone)) with 0.
    change (ind [InSlot; Registered; Releasing] (a, Ending)) with 0. lia.
Qed.

Lemma view_close s s' : g_view s s' -> count_inv MaxPeers cap s -> close_inv s -> close_inv s'.
Proof.
  intros V A C. pose proof (closed_gone _ C A) as F. destruct C as [H1 H2 H3].
  destruct V as [i a ph ph' E|i a E|i a E]; split; red_swarm; try done.
  destruct (closer s); try done. specialize (F eq_refl). rewrite Forall_lookup in F. by specialize (F _ _ E).
Qed.

Lemma view_all s s' : g_view s s' -> all_inv MaxPeers s -> all_inv MaxPeers s'.
Proof. intros V [H1 H2 H3]. by destruct V; split. Qed.

Record swarm_inv (s : swarm) : Prop := {
  si_held : held_inv s; si_all : all_inv MaxPeers s; si_count : count_inv MaxPeers cap s; si_close : close_inv s
}.

Lemma view_inv s s' : g_view s s' -> swarm_inv s -> swarm_inv s'.
Proof.
  intros V [H1 H2 H3 H4]. split; [by eapply view_held|by eapply view_all|by eapply view_count|by eapply view_close].
Qed.

Lemma start_inv pieces : 0 <= MaxPeers -> 0 <= cap -> swarm_inv (swarm_start initial pieces).
Proof.
  intros Hm Hc. split; split; cbn; try done; try lia; try set_solver; try apply NoDup_nil_2.
  unfold maxAllSeen. case_match; bool_prop; lia.
Qed.

(** A caller that was waiting returns or starts a loop. *)
Lemma waiting_inv c pc l closed s : callers s c = Waiting -> pc = Returned \/ (exists todo, pc = Spawning todo Idle) ->
  swarm_inv s -> swarm_inv (set_caller c pc (set_feed l closed s)).
Proof.
  intros Hc Hpc [H1 H2 H3 [H4 H5 H6]].
  assert (Hm : c <> Main).
  { intros ->. rewrite Hc in H4. destruct (closer s); cbn in H4; intuition congruence. }
  assert (Hp : c_held pc = [] /\ pc <> NotStarted) by (destruct Hpc as [->|[? ->]]; done). destruct Hp as [Hp Hn].
  split; [| by destruct H2; split | by destruct H3; split |].
  - eapply held_inv_perm, H1; [|done]. unfold held. by destruct c; red_swarm; rewrite Hc, ?Hp.
  - split; [|by destruct c; red_swarm|done]. unfold waited, spawner_done in *.
    destruct c; [done| |]; red_swarm; rewrite Hc in H4; destruct (closer s); intuition congruence.
Qed.

Lemma close_step_inv s s' : close_step s = Some s' -> swarm_inv s -> swarm_inv s'.
Proof.
  intros H [[] [] [] [H4 H5 H6]]. unfold close_step, waited, spawner_done in *.
  destruct (closer s) eqn:E; try done.
  - assert (spawner_done (callers s Feeder) /\ s' = set_closer WaitRetry s) as [Hf ->].
    { unfold spawner_done. destruct (callers s Feeder); simplify_eq; auto. }
    by split; split.
  - destruct (callers s Retry) eqn:Er; simplify_eq. split; split; try done; cbn; unfold spawner_done; [tauto|by rewrite Er].
  - destruct (_ =? _) eqn:Ea; simplify_eq. bool_prop. split; split; try done; cbn; unfold spawner_done; tauto.
Qed.

Lemma env_inv ctx' n others s : 0 <= others -> count [Dialing] s + others <= cap -> swarm_inv s ->
  swarm_inv (set_env ctx' n others s).
Proof.
  rewrite count_wsum. intros H1 H2 [[] [] [] []]. split; split; red_swarm; try done; lia.
Qed.

Lemma step_inv l s s' : step l s = Some s' -> swarm_inv s -> swarm_inv s'.
Proof.
  intros H I. pose proof I as [H1 H2 H3 H4]. destruct l as [c| |c| |i ok|i|i| |b| | |n|n]; cbn [pool_step] in H.
  - split; [by eapply spawn_held|by eapply spawn_all|by eapply spawn_count|by eapply spawn_close].
  - unfold retry_tick in H. destruct (callers s Retry) eqn:Ec; try done.
    assert (E : s = set_feed (feed s) (feed_closed s) s) by (by destruct s).
    repeat case_match; simplify_eq; try done; rewrite E; apply waiting_inv; eauto.
  - assert (E : s = set_feed (feed s) (feed_closed s) s) by (by destruct s).
    destruct c; try done; destruct (callers s _) eqn:Ec; try done; destruct (ctx s); simplify_eq; rewrite E; apply waiting_inv; auto.
  - unfold take_batch in H. destruct (callers s Feeder) eqn:Ec; try done. destruct (feed s) as [|b fd] eqn:Ef.
    + destruct (feed_closed s) eqn:Ecl; simplify_eq.
      assert (s = set_feed (feed s) (feed_closed s) s) as -> by (by destruct s). apply waiting_inv; auto.
    + simplify_eq. apply waiting_inv; eauto.
  - by eapply view_inv, I; eapply advance_view.
  - by eapply view_inv, I; eapply stop_view.
  - apply send_view in H as [[-> _]|V]; [done|by eapply view_inv|done..].
  - by eapply close_step_inv.
  - destruct (feed_closed s); simplify_eq. destruct H1, H2, H3, H4. by split; split.
  - destruct (feed_closed s); simplify_eq. destruct H1, H2, H3, H4. by split; split.
  - simplify_eq. destruct H3. apply env_inv; rewrite ?count_wsum; [lia..|done].
  - simplify_eq. destruct H3. apply env_inv; rewrite ?count_wsum; [lia..|done].
  - unfold dial_cap. destruct sharedDials as [n'|] eqn:Es; [|done]. destruct ((_ <=? _) && _) eqn:E; simplify_eq. bool_prop.
    apply env_inv; unfold dial_cap; rewrite ?Es; try done.
Qed.

Lemma pool_reach_inv pieces s : 0 <= MaxPeers -> 0 <= cap -> reach pieces s -> swarm_inv s.
Proof. intros Hm Hc. induction 1; [by apply start_inv|by eapply step_inv]. Qed.

(** *** No initial peer is forgotten *)

Definition inflight (s : swarm) : list bytes :=
  c_held (callers s Main) ++ c_held (callers s Retry) ++ c_held (callers s Feeder).
Definition todo_of (pc : caller_pc) : list Peer := match pc with Spawning todo _ => todo | _ => [] end.
Definition covered (s : swarm) (p : Peer) : Prop :=
  p ∈ todo_of (callers s Main) \/ peer_String p ∈ (goroutines s).*1 \/ peer_String p ∈ inflight s.

Lemma goroutines_insert (l : list (bytes * worker_phase)) (i : nat) a ph ph' : l !! i = Some (a, ph) -> (<[i := (a, ph')]> l).*1 = l.*1.
Proof. intros H. rewrite list_fmap_insert. cbn. apply list_insert_id. by rewrite list_lookup_fmap, H. Qed.

Lemma view_fst s s' : g_view s s' -> (goroutines s').*1 = (goroutines s).*1 /\ callers s' = callers s.
Proof. intros [i a ph ph' E|i a E|i a E]; split; try done; red_swarm; by eapply goroutines_insert. Qed.

Lemma seen_covered s p : held_inv s -> peer_String p ∈ seen s ->
  peer_String p ∈ (goroutines s).*1 \/ peer_String p ∈ inflight s.
Proof.
  intros [_ H] Hp. apply H in Hp. unfold held in Hp. apply elem_of_app in Hp as [Hp|Hp]; [|by right].
  left. apply list_elem_of_omap in Hp as ([a ph] & Hg & E). apply list_elem_of_fmap. exists (a, ph). split; [|done].
  unfold g_held in E. by destruct ph; simplify_eq/=.
Qed.

Lemma covered_mono s s' p : (goroutines s).*1 ⊆ (goroutines s').*1 ->
  todo_of (callers s Main) ⊆ todo_of (callers s' Main) -> inflight s ⊆ inflight s' -> covered s p -> covered s' p.
Proof. unfold covered. set_solver. Qed.

Lemma spawn_covered c s s' p : spawn_step MaxPeers has_peerCh webSeeds c s = Some s' -> close_inv s -> held_inv s ->
  covered s p -> covered s' p.
Proof.
  intros H C I Hp. spawn_cases c s H Ec todo st q.
  - assert (Hf : callers s Feeder = NotStarted).
    { destruct C as [C _ _]. rewrite Ec in C. unfold waited in C. destruct (closer s); naive_solver. }
    eapply covered_mono, Hp; unfold inflight; destruct has_peerCh; red_swarm; rewrite ?Ec, ?Hf, ?fmap_app; set_solver.
  - eapply covered_mono, Hp; unfold inflight; red_swarm; rewrite ?Ec; set_solver.
  - eapply covered_mono, Hp; unfold inflight; red_swarm; rewrite ?Ec; set_solver.
  - assert (Hc : forall p, peer_String p ∈ (goroutines s).*1 \/ peer_String p ∈ inflight s ->
      covered (set_caller c (Spawning todo Idle) s) p).
    { intros p' Hp'. unfold covered, inflight in *. destruct c; red_swarm; rewrite Ec in *; cbn [c_held] in *; tauto. }
    destruct Hp as [Hp|Hp]; [|by apply Hc].
    destruct c; cbn; try (left; exact Hp). rewrite Ec in Hp. cbn in Hp.
    apply elem_of_cons in Hp as [->|Hp]; [by apply Hc, seen_covered|by left].
  - destruct Hp as [Hp|Hp].
    + destruct c; cbn; try (left; exact Hp). rewrite Ec in Hp. cbn in Hp.
      apply elem_of_cons in Hp as [->|Hp]; [|by left]. right; right. unfold inflight. red_swarm. set_solver.
    + right. unfold inflight in *. destruct c; red_swarm; rewrite Ec in *; cbn [c_held] in *; set_solver.
  - eapply covered_mono, Hp; destruct (_ && _); unfold inflight; destruct c; red_swarm; rewrite ?Ec; set_solver.
  - unfold covered, inflight in *. destruct c; red_swarm; rewrite fmap_app, Ec in *; cbn [todo_of c_held] in *; set_solver.
Qed.

Lemma step_covered l s s' p : step l s = Some s' -> swarm_inv s -> covered s p -> covered s' p.
Proof.
  intros H I Hp. pose proof I as [H1 H2 H3 H4]. destruct l as [c| |c| |i ok|i|i| |b| | |n|n]; cbn [pool_step] in H.
  - by eapply spawn_covered.
  - unfold retry_tick in H. destruct (callers s Retry) eqn:Ec; try done.
    repeat case_match; simplify_eq; try done; (eapply covered_mono, Hp; [done|done|]; unfold inflight; red_swarm; by rewrite Ec).
  - assert (Hc : c <> Main /\ callers s c = Waiting /\ s' = set_caller c Returned s).
    { destruct c; try done; destruct (callers s _), (ctx s); simplify_eq; done. }
    destruct Hc as (Hm & Ec & ->). eapply covered_mono, Hp; [done|by destruct c|]. unfold inflight. by destruct c; red_swarm; rewrite Ec.
  - unfold take_batch in H. destruct (callers s Feeder) eqn:Ec; try done.
    repeat case_match; simplify_eq; (eapply covered_mono, Hp; [done|done|]; unfold inflight; red_swarm; by rewrite Ec).
  - apply advance_view, view_fst in H as [Hg Hc]. unfold covered, inflight. by rewrite Hg, Hc.
  - apply stop_view in H as [[Hg Hc]%view_fst _]. unfold covered, inflight. by rewrite Hg, Hc.
  - apply send_view in H as [[-> _]|[Hg Hc]%view_fst]; [done| |done..]. unfold covered, inflight. by rewrite Hg, Hc.
  - unfold close_step in H. repeat case_match; by simplify_eq.
  - by destruct (feed_closed s); simplify_eq.
  - by destruct (feed_closed s); simplify_eq.
  - by simplify_eq.
  - by simplify_eq.
  - by destruct sharedDials; [destruct ((_ <=? _) && _)|]; simplify_eq.
Qed.

Lemma reach_covered pieces s p : 0 <= MaxPeers -> 0 <= cap -> reach pieces s -> p ∈ initial -> covered s p.
Proof.
  intros Hm Hc Hr Hp. induction Hr as [|s l s' Hr IH Hs]; [by left|]. eapply step_covered; [done| |done]. by eapply pool_reach_inv.
Qed.

(** *** The end of the download *)

Definition internal (l : swarm_label) : bool :=
  match l with Spawn _ | StopCaller _ | Take | Advance _ _ | Stop _ | Send _ | Close => true | _ => false end.

(** A step of the pool itself after the context has ended. *)
Definition ending (s' s : swarm) : Prop := ctx s = true /\ exists l, internal l = true /\ step l s = Some s'.

Definition stage_weight (st : spawn_stage) : Z := match st with Idle => 0 | Stored _ => 10 | Listed _ => 9 end.
Definition caller_weight (base : Z) (pc : caller_pc) : Z :=
  match pc with
  | NotStarted | Returned => 0
  | Waiting => 1
  | Spawning todo st => 2 + base + 12 * len todo + stage_weight st
  end.
Definition closer_weight (c : closer_pc) : Z :=
  match c with CloserOff => 4 | WaitFeeder => 3 | WaitRetry => 2 | WaitWorkers => 1 | Closed => 0 end.
Definition swarm_weight (s : swarm) : Z :=
  wsum (fun g => phase_rank g.2) (goroutines s) + caller_weight (10 + 2 * len webSeeds) (callers s Main)
  + caller_weight 0 (callers s Retry) + caller_weight 0 (callers s Feeder)
  + wsum (fun b => 3 + 12 * len b) (feed s) + closer_weight (closer s).

Lemma caller_weight_nonneg b pc : 0 <= b -> 0 <= caller_weight b pc.
Proof. destruct pc as [| |todo []|]; cbn; lia. Qed.

Lemma swarm_weight_nonneg s : 0 <= swarm_weight s.
Proof.
  unfold swarm_weight. pose proof (caller_weight_nonneg (10 + 2 * len webSeeds) (callers s Main)).
  pose proof (caller_weight_nonneg 0 (callers s Retry)). pose proof (caller_weight_nonneg 0 (callers s Feeder)).
  assert (0 <= wsum (fun g : bytes * worker_phase => phase_rank g.2) (goroutines s)) by (apply wsum_nonneg; intros [? []]; cbn; lia).
  assert (0 <= wsum (fun b : list Peer => 3 + 12 * len b) (feed s)) by (apply wsum_nonneg; intros; lia).
  destruct (closer s); cbn; lia.
Qed.

Lemma spawn_weight c s s' : close_inv s -> spawn_step MaxPeers has_peerCh webSeeds c s = Some s' -> swarm_weight s' < swarm_weight s.
Proof.
  intros C H. spawn_cases c s H Ec todo st p; unfold swarm_weight.
  - destruct C as [C _ _]. rewrite Ec in C. destruct (closer s) eqn:E; cbn in C; try (exfalso; intuition congruence).
    destruct C as [_ Hf]. assert (Hw : wsum (fun g => phase_rank g.2) ((fun u : bytes => (u, WebRunning)) <$> webSeeds) = 2 * len webSeeds).
    { clear. induction webSeeds; cbn [fmap list_fmap wsum length snd phase_rank] in *; [done|]. unfold fmap in *. lia. }
    destruct has_peerCh; red_swarm; rewrite Ec, Hf, wsum_app, Hw; cbn [caller_weight closer_weight length stage_weight]; lia.
  - red_swarm. rewrite Ec. cbn. lia.
  - red_swarm. rewrite Ec. cbn. lia.
  - destruct c; red_swarm; rewrite Ec; cbn [caller_weight stage_weight length]; lia.
  - destruct c; red_swarm; rewrite Ec; cbn [caller_weight stage_weight length]; lia.
  - destruct (_ && _), c; red_swarm; rewrite Ec; cbn [caller_weight stage_weight length]; lia.
  - destruct c; red_swarm; rewrite Ec, wsum_app; cbn [caller_weight stage_weight length wsum snd phase_rank]; lia.
Qed.

Lemma view_weight s s' : g_view s s' -> swarm_weight s' < swarm_weight s.
Proof.
  intros [i a ph ph' E Hg Hr|i a E|i a E]; unfold swarm_weight; red_swarm;
    rewrite (wsum_insert _ _ _ _ _ E); cbn [snd phase_rank]; lia.
Qed.

Lemma ending_weight s' s : swarm_inv s -> ending s' s -> swarm_weight s' < swarm_weight s.
Proof.
  intros [H1 H2 H3 H4] (Hx & l & Hl & H). destruct l as [c| |c| |i ok|i|i| |b| | |n|n]; try done; cbn [pool_step] in H.
  - by eapply spawn_weight.
  - assert (Hc : c <> Main /\ callers s c = Waiting /\ s' = set_caller c Returned s).
    { destruct c; try done; destruct (callers s _), (ctx s); simplify_eq; done. }
    destruct Hc as (Hm & Ec & ->). unfold swarm_weight. destruct c; [done|..]; red_swarm; rewrite Ec; cbn [caller_weight]; lia.
  - unfold take_batch in H. destruct (callers s Feeder) eqn:Ec; try done. unfold swarm_weight.
    destruct (feed s) as [|b l] eqn:Ef; [destruct (feed_closed s)|]; simplify_eq; red_swarm; rewrite Ec, ?Ef;
      cbn [caller_weight stage_weight wsum]; lia.
  - by eapply view_weight, advance_view.
  - by apply view_weight, (proj1 (stop_view _ _ _ H)).
  - apply send_view in H as [[_ Hx']|V]; [congruence|by apply view_weight|done..].
  - assert (exists c, s' = set_closer c s /\ closer_weight c < closer_weight (closer s)) as (c & -> & Hc).
    { unfold close_step in H. destruct (closer s); try done; repeat case_match; simplify_eq; by eexists. }
    unfold swarm_weight. red_swarm. lia.
Qed.

Lemma ending_inv s' s : swarm_inv s -> ending s' s -> swarm_inv s'.
Proof. intros I (_ & l & _ & H). by eapply step_inv. Qed.

Lemma caller_goes_on s c : ctx s = true -> spawning (callers s c) \/ (c <> Main /\ callers s c = Waiting) -> exists s', ending s' s.
Proof.
  intros Hx Hc. destruct (callers s c) as [| |todo st|] eqn:Ec; try (exfalso; intuition congruence).
  - destruct Hc as [[]|[Hm _]]. eexists. split; [done|]. exists (StopCaller c). split; [done|]. cbn.
    destruct c; [done|..]; by rewrite Ec, Hx.
  - assert (exists s', spawn_step MaxPeers has_peerCh webSeeds c s = Some s') as [s' Hs].
    { unfold spawn_step. rewrite Ec. destruct st; [|eauto..]. destruct todo; [destruct c; eauto|case_bool_decide; eauto]. }
    exists s'. split; [done|]. by exists (Spawn c).
Qed.

Lemma goroutine_goes_on s i a ph : ctx s = true -> goroutines s !! i = Some (a, ph) -> ph <> Gone -> exists s', ending s' s.
Proof.
  intros Hx E Hg. destruct (decide (ph = WaitDial \/ ph = Connected)) as [Hp|Hp].
  - eexists. split; [done|]. exists (Stop i). split; [done|]. cbn. unfold goroutine_stop. rewrite E, Hx. by destruct Hp as [-> | ->].
  - assert (exists s', goroutine_step MaxPeers sharedDials i true s = Some s') as [s' Hs].
    { unfold goroutine_step. rewrite E. cbn. destruct ph; try (exfalso; tauto); eauto. }
    exists s'. split; [done|]. by exists (Advance i true).
Qed.

Lemma ending_enabled s : swarm_inv s -> ctx s = true -> closer s <> Closed -> exists s', ending s' s.
Proof.
  intros [H1 H2 H3 H4] Hx Hn.
  destruct (callers s Main) as [| |todo st|] eqn:Em; [| |by apply (caller_goes_on _ Main Hx); rewrite Em; left|].
  1, 2: destruct H4 as [C _ _]; rewrite Em in C; destruct (closer s); cbn in C; intuition congruence.
  destruct (callers s Retry) as [| |todo st|] eqn:Er.
  { by destruct (cl_retry _ H4). }
  1: by apply (caller_goes_on _ Retry Hx); right.
  1: by apply (caller_goes_on _ Retry Hx); rewrite Er; left.
  destruct (decide (Forall (fun g => g.2 = Gone) (goroutines s))) as [Hg|Hg].
  - assert (Ha : activeWorkers s = 0).
    { rewrite (ci_active _ _ _ H3). clear -Hg. induction Hg as [|[a ph] l E _ IH]; cbn in *; [done|]. by subst ph. }
    destruct (callers s Feeder) as [| |todo st|] eqn:Ef.
    2: by apply (caller_goes_on _ Feeder Hx); right.
    2: by apply (caller_goes_on _ Feeder Hx); rewrite Ef; left.
    all: assert (exists s', close_step s = Some s') as [s' Hs];
      [destruct H4 as [C _ _]; unfold close_step; destruct (closer s); rewrite ?Er, ?Ef, ?Ha; cbn; eauto; rewrite ?Em in C; cbn in C; intuition congruence|].
    all: exists s'; split; [done|]; by exists Close.
  - apply not_Forall_Exists in Hg; [|intros g; apply _]. apply Exists_exists in Hg as ([a ph] & Hin & Hp).
    apply list_elem_of_lookup in Hin as [i Hi]. by eapply goroutine_goes_on.
Qed.

(** Whether a goroutine stands for a connection to its peer, made or wanted. *)
Definition busy (ph : worker_phase) : bool := match ph with WebRunning | Ending | Gone => false | _ => true end.

Lemma held_unique (l : list (bytes * worker_phase)) i j a ph ph' : NoDup (omap g_held l) ->
  l !! i = Some (a, ph) -> l !! j = Some (a, ph') -> busy ph = true -> busy ph' = true -> i = j.
Proof.
  assert (Hh : forall ph, busy ph = true -> g_held (a, ph) = Some a) by (by intros []).
  revert i j. induction l as [|[b q] l IH]; intros i j Hn Hi Hj Bi Bj; [done|].
  assert (Htail : forall k r, l !! k = Some (a, r) -> busy r = true -> a ∈ omap g_held l).
  { intros k r Hk Hr. apply list_elem_of_omap. exists (a, r). split; [by eapply list_elem_of_lookup_2|by apply Hh]. }
  cbn in Hn. destruct i as [|i], j as [|j]; cbn in Hi, Hj; simplify_eq; [done| | |].
  - rewrite (Hh _ Bi) in Hn. apply NoDup_cons in Hn as [Hn _]. destruct Hn. by eapply Htail.
  - rewrite (Hh _ Bj) in Hn. apply NoDup_cons in Hn as [Hn _]. destruct Hn. by eapply Htail.
  - f_equal. eapply IH; [|done..]. destruct (g_held (b, q)); [by apply NoDup_cons in Hn as [_ Hn]|done].
Qed.

(** C9: at every moment of a download each peer address has at most one goroutine that dials it, waits for it or
    is connected to it; no more than the allowed number of dials is under way and no more than [MaxPeers] peers
    are served; the list for retries has no duplicate and stays within its bound.  When [resultCh] is closed every
    worker is gone, every caller of [spawnWorker] has returned, and every initial peer has had its goroutine;
    nobody ever sends on the closed channel. *)
Theorem Swarm_safe pieces s : 0 <= MaxPeers -> 0 <= cap -> reach pieces s ->
  (forall i j a ph ph', goroutines s !! i = Some (a, ph) -> goroutines s !! j = Some (a, ph') ->
     busy ph = true -> busy ph' = true -> i = j) /\
  dials_held s <= cap /\ peer_slots s <= MaxPeers /\
  NoDup (peer_String <$> allSeenList s) /\ len (allSeenList s) <= maxAllSeen MaxPeers /\
  (closer s = Closed -> Forall (fun g => g.2 = Gone) (goroutines s) /\ (forall c, spawner_done (callers s c)) /\
     forall p, p ∈ initial -> peer_String p ∈ (goroutines s).*1) /\
  panicked s = false.
Proof.
  intros Hm Hc Hr. pose proof (pool_reach_inv _ _ Hm Hc Hr) as [H1 H2 H3 H4].
  destruct H2 as [A1 A2 A3]. pose proof H3 as [B1 B2 B3 B4]. unfold dials_held, peer_slots. rewrite !count_wsum.
  split_and!; try done; [| |by destruct H4].
  { intros i j a ph ph' Hi Hj Bi Bj. eapply held_unique; [|done..]. by apply hi_nodup in H1; apply NoDup_app in H1 as [? _]. }
  intros Hcl. assert (Hd : forall c, spawner_done (callers s c)).
  { destruct H4 as [C _ _]. rewrite Hcl in C. unfold spawner_done in *. destruct C as (C1 & C2 & C3 & _). intros []; auto. }
  split_and!; [by apply closed_gone|done|]. intros p Hp.
  assert (E : forall c, todo_of (callers s c) = [] /\ c_held (callers s c) = []).
  { intros c. by destruct (Hd c) as [-> | ->]. }
  destruct (reach_covered _ _ _ Hm Hc Hr Hp) as [Hi|[Hi|Hi]]; [|done|].
  - rewrite (proj1 (E Main)) in Hi. by apply not_elem_of_nil in Hi.
  - unfold inflight in Hi. rewrite !(proj2 (E _)) in Hi. by apply not_elem_of_nil in Hi.
Qed.

(** *** The retry sweep *)

Lemma sweep_take limit l : sweep limit l = take (Z.to_nat limit) l.
Proof.
  revert limit. induction l as [|p l IH]; intros limit; cbn [sweep]; [by rewrite take_nil|].
  destruct (limit <=? 0) eqn:E; bool_prop.
  - by replace (Z.to_nat limit) with 0%nat by lia.
  - rewrite IH. replace (Z.to_nat limit) with (S (Z.to_nat (limit - 1))) by lia. done.
Qed.

(** A sweep only ever tries the first [MaxPeers] peers of the list, connected or not: a peer further down that
    was lost is not tried again. *)
Lemma retry_prefix_only s s' : retry_tick MaxPeers s = Some s' ->
  todo_of (callers s' Retry) = [] \/ todo_of (callers s' Retry) = take (Z.to_nat MaxPeers) (allSeenList s).
Proof.
  unfold retry_tick. destruct (callers s Retry) eqn:E; try done. repeat case_match; intros; simplify_eq; [by left|right|left].
  - cbn. by rewrite sweep_take.
  - by rewrite E.
Qed.

(** *** What bounds a run after the end *)

Definition pool_own (l : swarm_label) : bool := match l with Tick => true | _ => internal l end.
(** What a label can add to the work of the pool: a sweep that was started, a batch that was sent. *)
Definition brings (l : swarm_label) : Z :=
  match l with Tick => 2 + 12 * MaxPeers | Offer b => 3 + 12 * len b | _ => 0 end.
Definition own_count (ls : list swarm_label) : Z := len (filter (fun l => pool_own l = true) ls).

Lemma pool_ctx_stays l s s' : ctx s = true -> step l s = Some s' -> ctx s' = true.
Proof.
  intros Hx H. destruct l; cbn [pool_step] in H;
    unfold spawn_step, retry_tick, take_batch, goroutine_step, goroutine_stop, send_result, close_step, set_phase in H;
    repeat case_match; simplify_eq; try done;
    try (destruct (goroutines s !! i) as [[a ph]|]; [|done]; cbn in H; repeat case_match; simplify_eq; done).
Qed.

Lemma tick_weight s s' : 0 <= MaxPeers -> retry_tick MaxPeers s = Some s' -> swarm_weight s' <= swarm_weight s + 1 + 12 * MaxPeers.
Proof.
  intros Hm H. unfold retry_tick in H. destruct (callers s Retry) eqn:Ec; try done. unfold swarm_weight.
  destruct (left s =? 0); [|destruct (PeerCount s <? _); [|injection H as <-; lia]]; injection H as <-; red_swarm; rewrite Ec;
    cbn [caller_weight stage_weight]; [lia|].
  rewrite sweep_take. pose proof (length_take_le (allSeenList s) (Z.to_nat MaxPeers)). rewrite length_take. lia.
Qed.

Lemma step_weight l s s' : 0 <= MaxPeers -> swarm_inv s -> ctx s = true -> step l s = Some s' ->
  swarm_weight s' + (if pool_own l then 1 else 0) <= swarm_weight s + brings l.
Proof.
  intros Hm I Hx H. destruct (internal l) eqn:El.
  { assert (ending s' s) as He by (split; eauto). pose proof (ending_weight _ _ I He). destruct l; try done; cbn [pool_own internal brings]; lia. }
  destruct l; try done; cbn [pool_step pool_own internal brings] in *.
  - pose proof (tick_weight _ _ Hm H). lia.
  - destruct (feed_closed s); [done|]. injection H as <-. unfold swarm_weight. red_swarm. rewrite wsum_app. cbn [wsum]. lia.
  - destruct (feed_closed s); [done|]. injection H as <-. unfold swarm_weight. red_swarm. lia.
  - injection H as <-. unfold swarm_weight. red_swarm. lia.
  - injection H as <-. unfold swarm_weight. red_swarm. lia.
  - destruct sharedDials; [|done]. destruct (_ && _); [|done]. injection H as <-. unfold swarm_weight. red_swarm. lia.
Qed.

Lemma run_weight ls : forall s s', 0 <= MaxPeers -> 0 <= cap -> swarm_inv s -> ctx s = true ->
  pool_run MaxPeers sharedDials has_peerCh webSeeds ls s = Some s' ->
  swarm_weight s' + own_count ls <= swarm_weight s + wsum brings ls /\ swarm_inv s' /\ ctx s' = true.
Proof.
  induction ls as [|l ls IH]; intros s s' Hm Hc I Hx H; cbn [pool_run] in H; [injection H as <-; cbn [own_count wsum filter list_filter length]; split; [change (own_count []) with 0; lia|done]|].
  destruct (step l s) as [s1|] eqn:E; [|done]. pose proof (step_weight _ _ _ Hm I Hx E) as Hw.
  destruct (IH s1 s' Hm Hc) as (IH1 & IH2); [by eapply step_inv|by eapply pool_ctx_stays|exact H|]. split; [|done].
  unfold own_count in *. rewrite filter_cons. cbn [wsum]. destruct (pool_own l) eqn:El.
  - rewrite decide_True by done. cbn [length]. lia.
  - rewrite decide_False by congruence. lia.
Qed.

(** C10: once the context of a download has ended the pool winds down. In any run from then on the pool's goroutines take at
    most [swarm_weight] steps, plus a bounded number for every firing of the retry timer and for every batch of peers that is
    still sent; so only endless firings of the timer can keep it up, and whenever the timer may fire, the
    same select can take the ended context instead. Until [resultCh] is closed some goroutine can go on without the timer, whatever
    slots are taken. *)
Theorem Swarm_winds_down pieces s ls s' : 0 <= MaxPeers -> 0 <= cap -> reach pieces s -> ctx s = true ->
  pool_run MaxPeers sharedDials has_peerCh webSeeds ls s = Some s' ->
  own_count ls <= swarm_weight s + wsum brings ls /\
  (is_Some (step Tick s') -> is_Some (step (StopCaller Retry) s')) /\
  (closer s' <> Closed -> exists l s'', internal l = true /\ step l s' = Some s'').
Proof.
  intros Hm Hc Hr Hx H. destruct (run_weight ls s s' Hm Hc (pool_reach_inv _ _ Hm Hc Hr) Hx H) as (Hw & I & Hx').
  split; [pose proof (swarm_weight_nonneg s'); lia|]. split.
  - intros [? Ht]. cbn in Ht |- *. unfold retry_tick in Ht. destruct (callers s' Retry); try done. rewrite Hx'. by eexists.
  - intros Hn. destruct (ending_enabled s' I Hx' Hn) as (s'' & _ & l & Hl & Hs). by exists l, s''.
Qed.

(** With [MaxPeers] of one a lost peer is never tried again: [MaxPeers/2] is zero. *)
Lemma no_retry_with_one_peer s s' : MaxPeers = 1 -> retry_tick MaxPeers s = Some s' -> s' = s \/ callers s' Retry = Returned.
Proof.
  intros ->. unfold retry_tick. destruct (callers s Retry) eqn:E; try done. destruct (left s =? 0); [intros; simplify_eq; by right|].
  assert ((PeerCount s <? Z.quot 1 2) = false) as ->; [|intros; simplify_eq; by left].
  apply Z.ltb_ge. change (Z.quot 1 2) with 0. unfold PeerCount, count. lia.
Qed.
End Pool.

(** Two peers, one slot: both connections are open, the second one idle until the first peer leaves. *)
Lemma connected_beyond_limit :
  let p n := mkPeer [x0a; x00; x00; n] 6881 in
  (s ← pool_run 1 None false [] (replicate 6 (Spawn Main)
         ++ [Advance 0 true; Advance 1 true; Advance 0 true; Advance 1 true; Advance 0 true; Advance 0 true])
         (swarm_start [p x01; p x02] 1);
   Some (PeerCount s, (goroutines s).*2, bool_decide (is_Some (pool_step 1 None false [] (Advance 1 true) s))))
  = Some (1, [Registered; Connected], false).
Proof. vm_compute. reflexivity. Qed.

(** A run from the start to the close of [resultCh]: a peer is dialled, served and left, another fails. *)
Definition demo_peers : list Peer := [mkPeer [x0a; x00; x00; x01] 6881; mkPeer [x0a; x00; x00; x02] 6882].
Definition demo_labels : list swarm_label :=
  replicate 7 (Spawn Main) ++ [Advance 0 true; Advance 0 true; Advance 1 true; Advance 1 false; Advance 0 true; Advance 0 true;
    Send 0; Send 2; Cancel; StopCaller Retry; StopCaller Feeder; Close; Close; Stop 0; Advance 0 true; Advance 0 true; Advance 0 true;
    Advance 1 true; Advance 1 true; Stop 2; Advance 2 true].

Lemma swarm_run_reach MaxPeers sharedDials initial has_peerCh webSeeds pieces ls s s' :
  swarm_reach MaxPeers sharedDials initial has_peerCh webSeeds pieces s ->
  pool_run MaxPeers sharedDials has_peerCh webSeeds ls s = Some s' ->
  swarm_reach MaxPeers sharedDials initial has_peerCh webSeeds pieces s'.
Proof.
  revert s. induction ls as [|l ls IH]; intros s Hr H; cbn in H; [by simplify_eq|].
  destruct (pool_step _ _ _ _ l s) eqn:E; [|done]. cbn in H. eapply IH; [|done]. by eapply swarm_next.
Qed.

Definition swarm_demo_end (ls : list swarm_label) : swarm :=
  default (swarm_start demo_peers 1) (pool_run 4 None true [lit "http://a/"] ls (swarm_start demo_peers 1)).

Lemma swarm_demo_reach ls : bool_decide (is_Some (pool_run 4 None true [lit "http://a/"] ls (swarm_start demo_peers 1))) = true ->
  swarm_reach 4 None demo_peers true [lit "http://a/"] 1 (swarm_demo_end ls).
Proof.
  intros [s Hs]%bool_decide_eq_true. unfold swarm_demo_end. rewrite Hs. eapply swarm_run_reach; [apply swarm_init|exact Hs].
Qed.

Lemma Swarm_safe_witness :
  let s := swarm_demo_end (demo_labels ++ [Close]) in
  closer s = Closed /\ Forall (fun g => g.2 = Gone) (goroutines s) /\ peer_slots s <= 4 /\ panicked s = false /\
  (forall p, p ∈ demo_peers -> peer_String p ∈ (goroutines s).*1).
Proof.
  assert (Hr : swarm_reach 4 None demo_peers true [lit "http://a/"] 1 (swarm_demo_end (demo_labels ++ [Close]))).
  { apply swarm_demo_reach. vm_compute. reflexivity. }
  intros s. assert (Hc : closer s = Closed) by (vm_compute; reflexivity).
  destruct (Swarm_safe 4 None demo_peers true [lit "http://a/"] 1 s) as (_ & _ & Hs & _ & _ & Hcl & Hp);
    [lia|vm_compute; congruence|exact Hr|]. destruct (Hcl Hc) as (Hg & _ & Hi). by split_and!.
Defined.

Lemma Swarm_winds_down_witness :
  let s := swarm_demo_end (take 16 demo_labels) in
  let ls := [Tick; Spawn Retry; StopCaller Feeder; Send 0] in
  let s' := default s (pool_run 4 None true [lit "http://a/"] ls s) in
  own_count ls <= swarm_weight [lit "http://a/"] s + wsum (brings 4) ls /\
  exists l s'', internal l = true /\ pool_step 4 None true [lit "http://a/"] l s' = Some s''.
Proof.
  intros s ls s'. assert (Hr : swarm_reach 4 None demo_peers true [lit "http://a/"] 1 s).
  { apply swarm_demo_reach. vm_compute. reflexivity. }
  destruct (Swarm_winds_down 4 None demo_peers true [lit "http://a/"] 1 s ls s') as (Hw & _ & He);
    [lia|vm_compute; congruence|exact Hr|vm_compute; reflexivity|vm_compute; reflexivity|].
  split; [exact Hw|]. apply He. vm_compute. congruence.
Defined.
