(* ===== verification/Connect.v ===== *)
(** * Connecting to a peer ([download/download.go])

    [dialPeer], [tunePeerSocket], [newClientFull] with its optional encryption and the two handshakes,
    [NewClientEncrypted] with its fallback, and the request handler and write target [DownloadWithParams] wires up.
    A connection is what the network delivers, chunk by chunk, and the number of writes it takes; the random
    bytes of the encryption handshake and how many messages arrive before the short deadline are arguments. *)

From S2P Require Import Prelude Net Bitfield Wire Extension Client Tracker Mse Swarm Torrent Storage.
Set Warnings "-clear-no-such-hyp".
Local Open Scope Z_scope.

(** ** Sockets *)

Definition peerKeepAlivePeriod : Z := 120 * 10 ^ 9.

(** The options of a TCP socket the code sets; [None] where the system's default stands. *)
Record sockopts := mkOpts {
  noDelay : bool; keepAlive : bool; keepAlivePeriod : option Z; writeBuffer : option Z; readBuffer : option Z
}.
Definition default_opts : sockopts := mkOpts true true None None None.
Inductive sockopt := ONoDelay | OKeepAlive | OKeepAlivePeriod | OWriteBuffer | OReadBuffer.

(** The connection's type decides: only a TCP socket has options.  [fails] says which calls the system refuses. *)
Definition tunePeerSocket (fails : sockopt -> bool) (peerSendBuf peerRecvBuf : Z) (conn : option sockopts) : option sockopts :=
  match conn with
  | None => None
  | Some o =>
      let nd := if fails ONoDelay then noDelay o else true in
      let ka := if fails OKeepAlive then keepAlive o else true in
      let per := if fails OKeepAlive || fails OKeepAlivePeriod then keepAlivePeriod o else Some peerKeepAlivePeriod in
      let wb := if (0 <? peerSendBuf) && negb (fails OWriteBuffer) then Some peerSendBuf else writeBuffer o in
      let rb := if (0 <? peerRecvBuf) && negb (fails OReadBuffer) then Some peerRecvBuf else readBuffer o in
      Some (mkOpts nd ka per wb rb)
  end.

Definition setTCPNoDelay (fails : sockopt -> bool) (conn : option sockopts) : option sockopts :=
  match conn with
  | None => None
  | Some o => Some (mkOpts (if fails ONoDelay then noDelay o else true) (keepAlive o) (keepAlivePeriod o)
                      (writeBuffer o) (readBuffer o))
  end.

(** ** Dialling *)

(** A fresh connection: what its reads return and how many writes it takes. *)
Record rawConn := mkRawConn { raw_chunks : list bytes; raw_writes : nat }.

(** The connection and whether it is a uTP connection; [utp] and [tcp] are what the two dials give. *)
Definition dialPeer (utp tcp : option rawConn) (tryUTP : bool) : option (rawConn * bool) :=
  match (if tryUTP then utp else None) with
  | Some c => Some (c, true)
  | None => match tcp with Some c => Some (c, false) | None => None end
  end.

Inductive connect_error :=
  | ConnectFailed | MSEFailed (e : mse_error) | HandshakeWriteFailed | HandshakeReadFailed (e : handshake_error)
  | InfoHashMismatch.

(** The client with the fields of the Go struct that [Client] leaves out. *)
Record dialled := mkDialled {
  d_client : Client; d_Addr : bytes; d_fastExt : bool; d_disablePEX : bool; d_UsingUTP : bool; d_Encrypted : bool;
  d_RemotePeerID : bytes; d_opts : option sockopts
}.

(** All messages in a stream, up to the read error that ends it. *)
Fixpoint messages (fuel : nat) (r : bytes) : list (option Message) :=
  match fuel with
  | O => []
  | S fuel => match ReadMessage r with Ok (m, r) => m :: messages fuel r | Err _ => [] end
  end.

Definition ext_offer (noPEX : bool) : ExtHandshake :=
  mkExtHandshake (if noPEX then ∅ else {[ lit "ut_pex" := 2 ]}) 0 (lit "stor/0.1").

(** The extension handshake of the new client; the encoder's error and a failing write are ignored. *)
Definition send_ext (noPEX : bool) (c : Client) : Client :=
  let payload := match EncodeExtHandshake (ext_offer noPEX) with Ok b => b | Err _ => [] end in
  default c (send (NewExtendedMessage ExtHandshakeID payload) c).

(** The network of one call: the two dials, the random bytes of [mse.HandshakeOutgoing], the number of messages
    that arrive before the two seconds are over. *)
Record attempt_net := mkNet {
  n_utp : option rawConn; n_tcp : option rawConn; n_priv : bytes; n_padC : bytes; n_early : nat;
  n_fails : sockopt -> bool; n_sndbuf : Z; n_rcvbuf : Z
}.

Section NewClient.
Context (sha1 : bytes -> bytes).

(** The stream of plain bytes and the writes left after the optional encryption. *)
Definition encryptConn (infoHash : bytes) (encrypt : bool) (net : attempt_net) (c : rawConn) : result mse_error (bytes * nat) :=
  if encrypt then
    match (HandshakeOutgoing sha1 infoHash (n_priv net) (n_padC net) CryptoRC4 (raw_writes c) (raw_chunks c)).2 with
    | Err e => Err e
    | Ok (conn, _) => Ok ((conn_Read (concat (c_in conn)) conn).1, (raw_writes c - 2)%nat)
    end
  else Ok (concat (raw_chunks c), raw_writes c).

(** An error carries whether the connection was closed. *)
Definition newClientFull (p : Peer) (infoHash peerID : bytes) (encrypt tryUTP noPEX : bool) (net : attempt_net)
    : result (connect_error * bool) dialled :=
  match dialPeer (n_utp net) (n_tcp net) tryUTP with
  | None => Err (ConnectFailed, false)
  | Some (rawConn, isUTP) =>
      let opts := tunePeerSocket (n_fails net) (n_sndbuf net) (n_rcvbuf net) (if isUTP then None else Some default_opts) in
      match encryptConn infoHash encrypt net rawConn with
      | Err e => Err (MSEFailed e, true)
      | Ok (r, writes) =>
          match writes with
          | O => Err (HandshakeWriteFailed, true)
          | S writes =>
              match ReadHandshake r with
              | Err e => Err (HandshakeReadFailed e, true)
              | Ok (resp, r) =>
                  if negb (bool_decide (Wire.InfoHash resp = infoHash)) then Err (InfoHashMismatch, true)
                  else
                    let c := new_client (messages (S (length r)) r) writes in
                    let c := if Extensions resp then send_ext noPEX c else c in
                    let c := init_messages false (Nat.min 3 (n_early net)) (inp c) c in
                    Ok (mkDialled c (peer_String p) (FastExtension resp) noPEX isUTP encrypt (PeerID resp) opts)
              end
          end
      end
  end.

Definition newClient (p : Peer) (infoHash peerID : bytes) (encrypt : bool) (net : attempt_net) :=
  newClientFull p infoHash peerID encrypt false false net.

Definition NewClientWithTimeout (p : Peer) (infoHash peerID : bytes) (net : attempt_net) := newClient p infoHash peerID false net.

(** [prefer] is the shared hint ([None] for a nil pointer); the result comes with its new value. *)
Definition NewClientEncrypted (p : Peer) (infoHash peerID : bytes) (prefer : option bool) (tryUTP noPEX : bool)
    (net1 net2 : attempt_net) : result (connect_error * bool) dialled * option bool :=
  let preferred := default false prefer in
  match newClientFull p infoHash peerID preferred tryUTP noPEX net1 with
  | Ok c => (Ok c, prefer)
  | Err err =>
      match newClientFull p infoHash peerID (negb preferred) tryUTP noPEX net2 with
      | Ok c => (Ok c, match prefer with Some _ => Some (negb preferred) | None => None end)
      | Err _ => (Err err, prefer)
      end
  end.

(** The dial of [spawnWorker]. *)
Definition connect (Encryption : bool) (p : Peer) (infoHash peerID : bytes) (prefer : bool) (tryUTP noPEX : bool)
    (net1 net2 : attempt_net) : result (connect_error * bool) dialled * bool :=
  if Encryption then
    let '(r, prefer) := NewClientEncrypted p infoHash peerID (Some prefer) tryUTP noPEX net1 net2 in (r, default false prefer)
  else (newClientFull p infoHash peerID false tryUTP noPEX net1, prefer).
End NewClient.

(** ** The request handler of a download *)

(** [OnRequest] as [DownloadWithParams] wires it: the block is read from the write target. *)
Definition OnRequest {R} {HR : ReadAtReader R} (haveBF : Bitfield) (r : R) (pieceLen index begin length_ : Z) : option bytes :=
  if negb (HasPiece haveBF index) then None
  else
    let offset := i64 (i64 (index * pieceLen) + begin) in
    let '(_, (block, err)) := readAt r length_ offset in
    match err with
    | Some _ => None
    | None => if len block =? length_ then Some block else None
    end.

Inductive target := TargetFile (path : bytes) | TargetMulti (mw : MultiFileWriter).

(** The write target of [DownloadWithParams]; [can_trunc] says whether [Truncate] succeeds. *)
Definition open_target (can_open can_write can_trunc : bytes -> bool) (tf : TorrentFile) (path : bytes) (F : fs)
    : fs * result storage_error target :=
  if IsMultiFile tf then
    match NewMultiFileWriter can_open path tf with
    | Err e => (F, Err e)
    | Ok mw => match PreallocateFiles can_open can_write mw F with
               | (F, mw, None) => (F, Ok (TargetMulti mw))
               | (F, _, Some e) => (F, Err e)
               end
    end
  else if negb (can_open path) then (F, Err (OpenFailed path))
  else
    let content := contents F path in
    if can_trunc path then (<[path := file_truncate content (Z.to_nat (TotalSize tf))]> F, Ok (TargetFile path))
    else (<[path := content]> F, Err (WriteFailed path)).
