(* ===== verification/ConnectTheorems.v ===== *)
(** * Properties of connecting to a peer *)

From S2P Require Import Prelude Net Bitfield Wire Extension Client Tracker Mse Swarm Torrent Storage Connect.
Set Warnings "-clear-no-such-hyp".
Local Open Scope Z_scope.

(** ** Messages of a stream *)

Lemma messages_frames ms fuel : Forall small_frame ms -> (length ms < fuel)%nat ->
  messages fuel (concat (write_frame <$> ms)) = ms.
Proof.
  intros H. revert fuel. induction H as [|m ms Hm _ IH]; intros [|fuel] Hf; cbn in Hf; try lia; [done|].
  cbn [messages fmap list_fmap concat].
  assert (ReadMessage (write_frame m ++ concat (write_frame <$> ms)) = Ok (m, concat (write_frame <$> ms))) as ->.
  { destruct m; [by apply ReadMessage_Write|apply ReadMessage_KeepAlive]. }
  f_equal. apply IH. lia.
Qed.

Lemma frames_nonempty_length ms : (length ms <= length (concat (write_frame <$> ms)))%nat.
Proof.
  induction ms as [|m ms IH]; cbn [fmap list_fmap concat length]; [lia|]. rewrite length_app. change (list_fmap _ _ write_frame ms) with (write_frame <$> ms).
  assert (1 <= length (write_frame m))%nat; [|lia].
  destruct m as [m|]; cbn [write_frame]; [unfold Write; rewrite length_app, length_be_put; lia|].
  unfold WriteKeepAlive. rewrite ?length_be_put; cbn; lia.
Qed.

(** The initial messages are taken from the front of the input; nothing is written. *)
Lemma init_messages_io sink n l c :
  exists k, (k <= n)%nat /\ inp (init_messages sink n l c) = drop k l /\ out (init_messages sink n l c) = out c /\
    wleft (init_messages sink n l c) = wleft c.
Proof.
  assert (Hx : forall p c, out (handleExtended sink p c) = out c /\ wleft (handleExtended sink p c) = wleft c).
  { intros p c'. unfold handleExtended. repeat case_match; done. }
  revert l c. induction n as [|n IH]; intros l c; [by exists 0%nat|].
  destruct l as [|[m|] l]; cbn [init_messages]; [by exists 0%nat; cbn; split_and!; try lia| |].
  - assert (Hrec : forall c', out c' = out c -> wleft c' = wleft c ->
      exists k, (k <= S n)%nat /\ inp (init_messages sink n l c') = drop k (Some m :: l) /\
        out (init_messages sink n l c') = out c /\ wleft (init_messages sink n l c') = wleft c).
    { intros c' Ho Hw. destruct (IH l c') as (k & ? & ? & ? & ?). exists (S k). cbn. split_and!; [lia|congruence..]. }
    repeat case_match; try (apply Hrec; [done|done]).
    + destruct (Hx (Payload m) c). by apply Hrec.
    + exists 1%nat. cbn. split_and!; [lia|done..].
  - destruct (IH l c) as (k & ? & ? & ? & ?). exists (S k). cbn. split_and!; [lia|congruence..].
Qed.

Definition ext_payload (noPEX : bool) : bytes :=
  match EncodeExtHandshake (ext_offer noPEX) with Ok b => b | Err _ => [] end.

Lemma ext_payload_decodes noPEX : DecodeExtHandshake (ext_payload noPEX) = Ok (ext_offer noPEX).
Proof. destruct noPEX; vm_compute; reflexivity. Qed.

Section Connecting.
Context (sha1 : bytes -> bytes).

(** Connecting in the clear to a peer that sends its handshake for our torrent and then messages succeeds: the
    client knows the peer's identity and extensions, has written the extension handshake exactly when the peer
    supports it (offering peer exchange exactly when it is not disabled, as the peer decodes it), and goes on to
    read the peer's messages in order after at most three of them. *)
Lemma Connect_honest (p : Peer) (infoHash peerID : bytes) (tryUTP noPEX : bool) (net : attempt_net)
    (h : Handshake) (ms : list (option Message)) (conn : rawConn) (isUTP : bool) :
  dialPeer (n_utp net) (n_tcp net) tryUTP = Some (conn, isUTP) ->
  concat (raw_chunks conn) = Wire.WriteHandshake h ++ concat (write_frame <$> ms) ->
  wf_handshake h -> Wire.InfoHash h = infoHash -> Forall small_frame ms -> (2 <= raw_writes conn)%nat ->
  exists d k, newClientFull sha1 p infoHash peerID false tryUTP noPEX net = Ok d /\
    d_RemotePeerID d = PeerID h /\ d_fastExt d = FastExtension h /\ d_UsingUTP d = isUTP /\ d_Addr d = peer_String p /\
    (k <= 3)%nat /\ inp (d_client d) = drop k ms /\
    (if Extensions h
     then exists payload, out (d_client d) = [NewExtendedMessage ExtHandshakeID payload] /\ DecodeExtHandshake payload = Ok (ext_offer noPEX)
     else out (d_client d) = []).
Proof.
  intros Hd Hc Hwf Hi Hms Hw. unfold newClientFull. rewrite Hd. unfold encryptConn.
  destruct (raw_writes conn) as [|[|w]] eqn:Ew; [lia|lia|]. rewrite Hc, ReadHandshake_Write by done.
  rewrite bool_decide_true by done. cbn [negb]. rewrite messages_frames; [|done|pose proof (frames_nonempty_length ms); lia].
  set (c := if Extensions h then send_ext noPEX (new_client ms (S w)) else new_client ms (S w)).
  assert (Ei : inp c = ms) by (unfold c; by destruct (Extensions h)).
  destruct (init_messages_io false (Nat.min 3 (n_early net)) (inp c) c) as (k & Hk & E1 & E2 & _).
  eexists _, k. split; [reflexivity|]. cbn [d_client d_RemotePeerID d_fastExt d_UsingUTP d_Addr]. rewrite E1, E2, Ei. split_and!; try done; [lia|].
  unfold c. destruct (Extensions h); [|done]. exists (ext_payload noPEX). split; [done|apply ext_payload_decodes].
Qed.

(** A client comes only from a peer that showed the torrent's info hash in a valid handshake, on a connection that
    was dialled; every error after the dial has closed the connection. *)
Lemma newClientFull_outcome (p : Peer) (infoHash peerID : bytes) (encrypt tryUTP noPEX : bool) (net : attempt_net) :
  match newClientFull sha1 p infoHash peerID encrypt tryUTP noPEX net with
  | Ok d => exists conn isUTP r w resp r', dialPeer (n_utp net) (n_tcp net) tryUTP = Some (conn, isUTP) /\
      encryptConn sha1 infoHash encrypt net conn = Ok (r, S w) /\ ReadHandshake r = Ok (resp, r') /\
      Wire.InfoHash resp = infoHash /\ d_RemotePeerID d = PeerID resp
  | Err (ConnectFailed, closed) => closed = false /\ dialPeer (n_utp net) (n_tcp net) tryUTP = None
  | Err (_, closed) => closed = true
  end.
Proof.
  unfold newClientFull. destruct (dialPeer _ _ _) as [[conn isUTP]|]; [|done].
  destruct (encryptConn _ _ _ _ _) as [[r [|w]]|e] eqn:E; [done| |done].
  destruct (ReadHandshake r) as [[resp r']|e] eqn:Er; [|done]. case_bool_decide; [|done]. cbn. by eexists _, _, _, _, _, _.
Qed.

(** With encryption enabled a peer is given up only when both methods failed, and the error is that of the preferred
    one; the shared hint changes exactly when the other method won. *)
Lemma NewClientEncrypted_outcome p infoHash peerID prefer tryUTP noPEX net1 net2 :
  let first := newClientFull sha1 p infoHash peerID prefer tryUTP noPEX net1 in
  let second := newClientFull sha1 p infoHash peerID (negb prefer) tryUTP noPEX net2 in
  let '(r, hint) := NewClientEncrypted sha1 p infoHash peerID (Some prefer) tryUTP noPEX net1 net2 in
  (is_ok r = is_ok first || is_ok second) /\ (hint = Some (negb prefer) <-> is_ok first = false /\ is_ok second = true) /\
  (is_ok r = false -> r = first).
Proof.
  cbv zeta. unfold NewClientEncrypted. change (default false (Some prefer)) with prefer.
  destruct (newClientFull _ _ _ _ prefer _ _ _); cbn [is_ok orb].
  - split_and!; [done| |done]. split; [|by intros [? _]]. intros [= H]. by destruct prefer.
  - destruct (newClientFull _ _ _ _ (negb prefer) _ _ _); cbn [is_ok orb]; (split_and!; [done| |done]); split; try done.
    + intros [= H]. by destruct prefer.
    + by intros [_ ?].
Qed.

(** The client counts as encrypted also when the peer chose plain text after the handshake. *)
Lemma encrypted_though_plain p infoHash peerID tryUTP noPEX net d conn isUTP c :
  newClientFull sha1 p infoHash peerID true tryUTP noPEX net = Ok d ->
  dialPeer (n_utp net) (n_tcp net) tryUTP = Some (conn, isUTP) ->
  (HandshakeOutgoing sha1 infoHash (n_priv net) (n_padC net) CryptoRC4 (raw_writes conn) (raw_chunks conn)).2 = Ok (c, CryptoPlaintext) ->
  d_Encrypted d = true /\ c_r c = None /\ c_w c = None.
Proof.
  intros Hd Hn Hh. split.
  - unfold newClientFull in Hd. rewrite Hn in Hd. destruct (encryptConn _ _ _ _ _) as [[r [|w]]|]; try done.
    destruct (ReadHandshake r) as [[resp r']|]; [|done]. destruct (bool_decide _); [|done]. by injection Hd as <-.
  - unfold HandshakeOutgoing in Hh. destruct (generateDHKeyPair _) as [priv pub]. destruct (raw_writes conn) as [|[|w]]; [done| |].
    all: destruct (Mse.ReadFull _ _) as [[yb ch]|]; [|done].
    all: destruct (handshake_message _ _ _ _ _) as [msg enc]; try done.
    cbn [snd] in Hh. destruct (read_answer _ _) as [[[sel dec] ch']|]; [|done]. cbn [mbind result_bind] in Hh.
    injection Hh as Hc Hs. subst sel. by subst c.
Qed.
End Connecting.

(** A message of another kind among the first three ends the initial reading and is lost: here the announcement of
    piece 0 after an empty bitfield. *)
Lemma initial_have_lost :
  let bf := message MsgBitfield [x00] in
  let c := init_messages false 3 [Some bf; Some (NewHaveMessage 0)] (new_client [] 1) in
  bitfield c = Some [x00] /\ inp c = [] /\ client_HasPiece c 0 = false /\
  client_HasPiece (on_have (Payload (NewHaveMessage 0)) c) 0 = true.
Proof. vm_compute. done. Qed.

(** Peer exchange is disabled for a private torrent by not offering it; a peer that sends its list all the same is
    listened to. *)
Lemma private_torrent_takes_pex :
  let pex := mkPEXMessage [mkPEXPeer [x01; x02; x03; x04] 6881 false] [] in
  exists payload, EncodePEX pex = Ok payload /\
    match wait_unchoke None true [Some (NewExtendedMessage localPexID payload); Some (message MsgUnchoke [])]
            (send_ext true (new_client [] 2)) with
    | Ok c => peerSink c = [Added pex]
    | Err _ => False
    end.
Proof. eexists. split; [vm_compute; reflexivity|]. vm_compute. reflexivity. Qed.

Definition demo_net : attempt_net :=
  mkNet None (Some (mkRawConn [take 30 (Wire.WriteHandshake (mkHandshake (replicate 20 x01) (replicate 20 x2d) true true));
                               drop 30 (Wire.WriteHandshake (mkHandshake (replicate 20 x01) (replicate 20 x2d) true true));
                               write_frame None ++ write_frame (Some (message MsgUnchoke []))] 5)) [] [] 1 (fun _ => false) 0 0.

Lemma Connect_honest_witness :
  exists d k, newClientFull (fun _ => []) (mkPeer [x0a; x00; x00; x01] 6881) (replicate 20 x01) (replicate 20 x2d) false true true demo_net = Ok d /\
    d_RemotePeerID d = replicate 20 x2d /\ inp (d_client d) = drop k [None; Some (message MsgUnchoke [])].
Proof.
  destruct (Connect_honest (fun _ => []) (mkPeer [x0a; x00; x00; x01] 6881) (replicate 20 x01) (replicate 20 x2d) true true demo_net
    (mkHandshake (replicate 20 x01) (replicate 20 x2d) true true) [None; Some (message MsgUnchoke [])]
    (default (mkRawConn [] 0) (n_tcp demo_net)) false) as (d & k & H1 & H2 & _ & _ & _ & _ & H3 & _).
  - reflexivity.
  - vm_compute. reflexivity.
  - split; reflexivity.
  - reflexivity.
  - repeat constructor; cbn; unfold max_message; lia.
  - cbn. lia.
  - by exists d, k.
Defined.

(** ** Requests while downloading *)

(** A peer is served only blocks of pieces that are complete, and exactly the bytes of the file. *)
Lemma OnRequest_sound haveBF (content : bytes) pieceLen index begin length_ block :
  0 <= index -> 0 <= begin -> 0 <= pieceLen -> index * pieceLen + begin <= MaxInt64 -> 0 <= length_ ->
  OnRequest haveBF content pieceLen index begin length_ = Some block ->
  HasPiece haveBF index = true /\
  block = take (Z.to_nat length_) (drop (Z.to_nat (index * pieceLen + begin)) content) /\ len block = length_.
Proof.
  intros Hi Hb Hp Hm Hl. unfold OnRequest. destruct (HasPiece haveBF index); [|done]. cbn [negb].
  assert (0 <= index * pieceLen) by nia. assert (MinInt64 <= 0) by (unfold MinInt64; lia).
  rewrite (i64_id (index * pieceLen)), i64_id by (unfold in_i64; lia). cbn. unfold readAt, os_File.
  destruct (len _ <? length_) eqn:E; [done|]. destruct (len _ =? length_) eqn:E'; [|done]. intros [= <-]. bool_prop. done.
Qed.
