(* ===== verification/OneShot.v ===== *)
(** * The one-shot mode ([cmd/stor/main.go]) and the download it uses ([download/download.go], [DownloadToFile])

    [stor <torrent|magnet> dir] finds peers, starts one worker per peer ([startWorkers]) on a channel of pieces and
    writes every result at its offset.  Every channel operation is a step; a run is any interleaving.  The pieces on
    [workCh], in the hands of a worker, on [resultCh] and written are the same pieces throughout.  What the network
    answers, in which order, and the environment of the process are arguments. *)

From S2P Require Import Prelude Config Rpc Strconv Text Net Paths Bencode Wire Torrent Storage Extension PieceQueue Workers Tracker Magnet Resolve Swarm.
Set Warnings "-clear-no-such-hyp".
Local Open Scope Z_scope.

(** ** The download *)

Definition buildWorkQueue (tf : TorrentFile) : list PieceWork :=
  build_pieces None None (PieceLength (t_Info tf)) (TotalSize tf) 0 (PieceHashes (t_Info tf)).

(** Where a worker of [startWorkers] is. *)
Inductive lw_pc :=
  | LwSem | LwDial | LwLoop
  | LwHave (pw : PieceWork)             (** a piece was received from [workCh] *)
  | LwPutBack (pw : PieceWork)          (** sending it back: the peer does not have it *)
  | LwGiveUp (pw : PieceWork)           (** sending it back: the download failed *)
  | LwResult (pw : PieceWork) (data : bytes)
  | LwExited.

Inductive lw_outcome := LwRunning | LwFinished | LwTimedOut | LwWriteFailed.

Record oneshot := mkOneshot {
  os_work : list PieceWork; os_work_closed : bool;
  os_workers : list lw_pc;
  os_results : list (Z * bytes);
  os_file : bytes;
  os_done : list (Z * bytes);           (** results written, in order *)
  os_status : lw_outcome
}.

Definition set_worker_pc (i : nat) (p : lw_pc) (s : oneshot) : oneshot :=
  mkOneshot (os_work s) (os_work_closed s) (<[i := p]> (os_workers s)) (os_results s) (os_file s) (os_done s) (os_status s).
Definition set_work (l : list PieceWork) (c : bool) (s : oneshot) : oneshot :=
  mkOneshot l c (os_workers s) (os_results s) (os_file s) (os_done s) (os_status s).
Definition set_results (l : list (Z * bytes)) (s : oneshot) : oneshot :=
  mkOneshot (os_work s) (os_work_closed s) (os_workers s) l (os_file s) (os_done s) (os_status s).
Definition set_outcome (o : lw_outcome) (s : oneshot) : oneshot :=
  mkOneshot (os_work s) (os_work_closed s) (os_workers s) (os_results s) (os_file s) (os_done s) o.
Definition set_file (f : bytes) (d : list (Z * bytes)) (s : oneshot) : oneshot :=
  mkOneshot (os_work s) (os_work_closed s) (os_workers s) (os_results s) f d (os_status s).

Definition in_sem (p : lw_pc) : Prop := match p with LwSem | LwExited => False | _ => True end.
#[global] Instance in_sem_dec p : Decision (in_sem p).
Proof. destruct p; apply _. Defined.
Definition has_exited (p : lw_pc) : bool := match p with LwExited => true | _ => false end.

Section Download.
(** The pieces of the torrent, their nominal length, and what [DownloadPiece] may return for a piece
    ([DownloadPiece_sound]: data of the piece's length with its hash). *)
Context (pieces : list PieceWork) (pieceLength : Z) (good : PieceWork -> bytes -> bool).

(** The capacity of both channels. *)
Definition os_cap : Z := len pieces.

Definition os_start (npeers : nat) (file : bytes) : oneshot :=
  mkOneshot pieces false (replicate npeers LwSem) [] file [] (if 0 <? len pieces then LwRunning else LwFinished).

Inductive os_label :=
  | OsAcquire (i : nat) | OsDial (i : nat) (ok : bool) | OsTake (i : nat)
  | OsHave (i : nat) (has : bool) (data : option bytes)
  | OsSend (i : nat)
  | OsClose | OsReceive (write_ok : bool) | OsTimeout.

Definition lw_step (l : os_label) (s : oneshot) : option oneshot :=
  match l with
  | OsAcquire i =>
      match os_workers s !! i with
      | Some LwSem => if len (filter in_sem (os_workers s)) <? DefaultMaxPeers then Some (set_worker_pc i LwDial s) else None
      | _ => None
      end
  | OsDial i ok =>
      match os_workers s !! i with
      | Some LwDial => Some (set_worker_pc i (if ok then LwLoop else LwExited) s)
      | _ => None
      end
  | OsTake i =>
      match os_workers s !! i, os_work s with
      | Some LwLoop, pw :: work => Some (set_worker_pc i (LwHave pw) (set_work work (os_work_closed s) s))
      | Some LwLoop, [] => if os_work_closed s then Some (set_worker_pc i LwExited s) else None
      | _, _ => None
      end
  | OsHave i has data =>
      match os_workers s !! i with
      | Some (LwHave pw) =>
          if negb has then Some (set_worker_pc i (LwPutBack pw) s)
          else match data with
               | None => Some (set_worker_pc i (LwGiveUp pw) s)
               | Some data => if good pw data then Some (set_worker_pc i (LwResult pw data) s) else None
               end
      | _ => None
      end
  | OsSend i =>
      match os_workers s !! i with
      | Some (LwPutBack pw) =>
          if len (os_work s) <? os_cap then Some (set_worker_pc i LwLoop (set_work (os_work s ++ [pw]) (os_work_closed s) s)) else None
      | Some (LwGiveUp pw) =>
          if len (os_work s) <? os_cap then Some (set_worker_pc i LwExited (set_work (os_work s ++ [pw]) (os_work_closed s) s)) else None
      | Some (LwResult pw data) =>
          if len (os_results s) <? os_cap then Some (set_worker_pc i LwLoop (set_results (os_results s ++ [(Index pw, data)]) s)) else None
      | _ => None
      end
  | _ => None
  end.

(** The goroutine that closes [workCh] and the loop of [DownloadToFile]. *)
Definition os_step (l : os_label) (s : oneshot) : option oneshot :=
  match l with
  | OsClose =>
      if negb (os_work_closed s) && forallb has_exited (os_workers s) then Some (set_work (os_work s) true s) else None
  | OsReceive write_ok =>
      match os_status s, os_results s with
      | LwRunning, (index, data) :: rest =>
          let s := set_results rest s in
          if write_ok then
            let s := set_file (file_write (os_file s) (Z.to_nat (index * pieceLength)) data) (os_done s ++ [(index, data)]) s in
            Some (if len (os_done s) <? len pieces then s else set_outcome LwFinished s)
          else Some (set_outcome LwWriteFailed s)
      | _, _ => None
      end
  | OsTimeout => match os_status s with LwRunning => Some (set_outcome LwTimedOut s) | _ => None end
  | _ => lw_step l s
  end.

Inductive os_reach (npeers : nat) (file : bytes) : oneshot -> Prop :=
  | os_init : os_reach npeers file (os_start npeers file)
  | os_next s l s' : os_reach npeers file s -> os_step l s = Some s' -> os_reach npeers file s'.

Fixpoint os_run (ls : list os_label) (s : oneshot) : option oneshot :=
  match ls with [] => Some s | l :: ls => s ← os_step l s; os_run ls s end.
End Download.

(** [Download] assembles the results instead of writing them: [results[res.Index] = res.Data], then one buffer. *)
Definition assemble (numPieces : Z) (done : list (Z * bytes)) : bytes :=
  concat ((fun i => default [] ((list_to_map (rev done) : gmap Z bytes) !! i)) <$> seqZ 0 numPieces).

(** The file [DownloadToFile] creates before the first piece: [os.Create] and [Truncate]. *)
Definition created_file (tf : TorrentFile) : bytes := file_truncate [] (Z.to_nat (TotalSize tf)).

(** ** Peers and metainfo *)

Inductive oneshot_error :=
  | ReadFileFailed | TorrentError (e : parse_error) | MagnetError | NoPeersForMagnet | NoMetadataFromAnyPeer | NoPeersFound.

Section Find.
Context (sha1 sha256 : bytes -> bytes) (SplitHostPort : bytes -> option (bytes * bytes)) (ParseIP : bytes -> option IP).

Definition handleTorrentFile (data : option bytes) : result oneshot_error TorrentFile :=
  data ← or_err data ReadFileFailed;
  map_err TorrentError (Parse sha1 sha256 data).

(** [answers] are the peers of the trackers in the order in which their answers were appended; a tracker that failed
    has none. *)
Definition magnet_peers (answers : list (option (list Peer))) (pe : list bytes) : list Peer :=
  concat (default [] <$> answers) ++ parsePeerAddrs SplitHostPort ParseIP pe.

(** The first metainfo a peer delivered; [fetched] lists what the peers gave in the order in which they ended. *)
Fixpoint fetchMetadataConcurrent {E} (fetched : list (result E TorrentFile)) : result oneshot_error TorrentFile :=
  match fetched with
  | [] => Err NoMetadataFromAnyPeer
  | Ok tf :: _ => Ok tf
  | Err _ :: fetched => fetchMetadataConcurrent fetched
  end.

Definition with_trackers (trackers : list bytes) (tf : TorrentFile) : TorrentFile :=
  match trackers with
  | [] => tf
  | tr :: _ => mkTorrentFile tr ((fun t => [t]) <$> trackers) (t_Info tf) (Torrent.InfoHash tf) (InfoHashV2 tf) (MetaVersion tf) (WebSeedURLs tf)
  end.

Definition handleMagnet {E} (m : option Magnet) (answers : list (option (list Peer))) (fetched : list (result E TorrentFile))
    : result oneshot_error TorrentFile :=
  m ← or_err m MagnetError;
  if len (magnet_peers answers (m_Peers m)) =? 0 then Err NoPeersForMagnet
  else tf ← fetchMetadataConcurrent fetched; Ok (with_trackers (Trackers m) tf).

(** The command's own [fetchMetadataFromPeer]: over TCP only. *)
Definition fetch_from_peer (cancelled : bool) (tcp : option conn) (infoHash peerID : bytes) : result fetch_error TorrentFile :=
  fetchMetadataFromPeer sha1 sha256 cancelled false None tcp infoHash peerID.

(** [dht] is what the DHT found, [None] when it could not be started, bootstrapped or asked. *)
Definition announceToTrackers (answers : list (option (list Peer))) (dht : option (list bytes)) : result oneshot_error (list Peer) :=
  let allPeers := concat (default [] <$> answers) ++ parsePeerAddrs SplitHostPort ParseIP (default [] dht) in
  if len allPeers =? 0 then Err NoPeersFound else Ok allPeers.
End Find.

(** The identifier: a fixed prefix and random bytes. *)
Definition generatePeerID (random : bytes) : bytes := lit "-ST0001-" ++ take 12 random.

Inductive command := UsageError | RunDaemon (args : list bytes) | Usage | RunOneShot (input outputDir : bytes).

(** [main] and the arguments of [runOneShot]. *)
Definition main_command (args : list bytes) : command :=
  match args with
  | _ :: a :: rest =>
      if bool_decide (a = lit "daemon") then RunDaemon rest
      else if bool_decide (a ∈ [lit "help"; lit "--help"; lit "-h"]) then Usage
      else RunOneShot a (match rest with d :: _ => d | [] => lit "." end)
  | _ => UsageError
  end.

(** The file [runOneShot] writes. *)
Definition outPath (outputDir : bytes) (tf : TorrentFile) : bytes := Join [outputDir; Name (t_Info tf)].

(** [runOneShot] up to the download: the torrent, its peers and the file.  [data] is what reading the torrent file gives,
    [m] the parsed link. *)
Definition runOneShot {E} (sha1 sha256 : bytes -> bytes) (SplitHostPort : bytes -> option (bytes * bytes)) (ParseIP : bytes -> option IP)
    (input outputDir : bytes) (data : option bytes) (m : option Magnet) (link_answers : list (option (list Peer)))
    (fetched : list (result E TorrentFile)) (answers : list (option (list Peer))) (dht : option (list bytes))
    : result oneshot_error (TorrentFile * list Peer * bytes) :=
  tf ← (if HasPrefix input (lit "magnet:") then handleMagnet SplitHostPort ParseIP m link_answers fetched
        else handleTorrentFile sha1 sha256 data);
  peers ← announceToTrackers SplitHostPort ParseIP answers dht;
  Ok (tf, deduplicatePeers peers, outPath outputDir tf).

(** The flags of [runDaemon]: configuration path, port and directory; [scan] is [fmt.Sscanf] with [%d] into an [int]. *)
Fixpoint daemon_flags (scan : bytes -> option Z) (args : list bytes) (configPath : bytes) (port : Z) (dir : bytes) : bytes * Z * bytes :=
  match args with
  | a :: rest =>
      match rest with
      | v :: rest' =>
          if bool_decide (a = lit "--port") then daemon_flags scan rest' configPath (default port (scan v)) dir
          else if bool_decide (a = lit "--dir") then daemon_flags scan rest' configPath port v
          else if bool_decide (a = lit "--config") then daemon_flags scan rest' v port dir
          else daemon_flags scan rest configPath port dir
      | [] => (configPath, port, dir)
      end
  | [] => (configPath, port, dir)
  end.

(** The flags that were given override the configuration. *)
Definition override (port : Z) (dir : bytes) (c : Config) : Config :=
  let c := if 0 <? port then set_c_Port port c else c in
  if bool_decide (dir = []) then c else set_c_DownloadDir dir c.
