(* ===== verification/OneShotTheorems.v ===== *)
(** * Properties of the one-shot mode *)

From S2P Require Import Prelude Rpc Strconv Text Net Paths Bencode Wire Torrent Storage StorageTheorems Extension PieceQueue Workers Tracker Magnet Resolve Swarm OneShot.
Set Warnings "-clear-no-such-hyp".
Local Open Scope Z_scope.

(** ** Where the pieces are *)

Definition lw_held (p : lw_pc) : option Z :=
  match p with LwHave pw | LwPutBack pw | LwGiveUp pw | LwResult pw _ => Some (Index pw) | _ => None end.

Definition tokens (s : oneshot) : list Z :=
  (Index <$> os_work s) ++ omap lw_held (os_workers s) ++ (os_results s).*1 ++ (os_done s).*1.

Lemma lw_held_insert (l : list lw_pc) (i : nat) (p q : lw_pc) : l !! i = Some p ->
  option_list (lw_held p) ++ omap lw_held (<[i := q]> l) ≡ₚ option_list (lw_held q) ++ omap lw_held l.
Proof.
  revert i. induction l as [|x l IH]; intros [|i] H; cbn in H; simplify_eq.
  - cbn. destruct (lw_held p), (lw_held q); cbn; try done. by constructor.
  - specialize (IH i H). cbn [insert list_insert omap list_omap].
    change (list_omap _ _ lw_held (<[i:=q]> l)) with (omap lw_held (<[i:=q]> l)).
    change (list_omap _ _ lw_held l) with (omap lw_held l).
    destruct (lw_held x) as [z|]; [|done].
    etransitivity; [symmetry; apply Permutation_middle|]. rewrite IH. apply Permutation_middle.
Qed.

Section Download.
Context (pieces : list PieceWork) (pieceLength : Z) (good : PieceWork -> bytes -> bool).
Local Abbreviation step := (os_step pieces pieceLength good).

Definition lw_ok (p : lw_pc) : Prop :=
  match p with
  | LwHave pw | LwPutBack pw | LwGiveUp pw => pw ∈ pieces
  | LwResult pw data => pw ∈ pieces /\ good pw data = true
  | _ => True
  end.
Definition result_ok (r : Z * bytes) : Prop := exists pw, pw ∈ pieces /\ Index pw = r.1 /\ good pw r.2 = true.

Record os_inv (s : oneshot) : Prop := {
  oi_tokens : exists lost, tokens s ++ lost ≡ₚ Index <$> pieces /\ (os_status s <> LwWriteFailed -> lost = []);
  oi_work : Forall (fun pw => pw ∈ pieces) (os_work s);
  oi_workers : Forall lw_ok (os_workers s);
  oi_results : Forall result_ok (os_results s);
  oi_done : Forall result_ok (os_done s);
  oi_finished : os_status s = LwFinished -> len (os_done s) = len pieces
}.

(** A worker's step moves its piece without losing it. *)
Lemma lw_tokens i p q work results s (cl : bool) : os_workers s !! i = Some p ->
  (Index <$> work) ++ option_list (lw_held q) ++ results.*1 ≡ₚ (Index <$> os_work s) ++ option_list (lw_held p) ++ (os_results s).*1 ->
  tokens (mkOneshot work cl (<[i := q]> (os_workers s)) results (os_file s) (os_done s) (os_status s)) ≡ₚ tokens s.
Proof.
  intros Hi Hp. unfold tokens. cbn [os_work os_workers os_results os_done].
  pose proof (lw_held_insert _ _ _ q Hi) as Hh.
  apply (Permutation_app_inv_l (option_list (lw_held p))).
  transitivity ((Index <$> work) ++ results.*1 ++ (os_done s).*1 ++ option_list (lw_held p) ++ omap lw_held (<[i:=q]> (os_workers s))).
  { solve_Permutation. }
  rewrite Hh. transitivity (((Index <$> work) ++ option_list (lw_held q) ++ results.*1) ++ (os_done s).*1 ++ omap lw_held (os_workers s)).
  { solve_Permutation. }
  rewrite Hp. solve_Permutation.
Qed.

Lemma lw_inv i p q work results cl s : os_workers s !! i = Some p ->
  (Index <$> work) ++ option_list (lw_held q) ++ results.*1 ≡ₚ (Index <$> os_work s) ++ option_list (lw_held p) ++ (os_results s).*1 ->
  Forall (fun pw => pw ∈ pieces) work -> lw_ok q -> Forall result_ok results -> os_inv s ->
  os_inv (mkOneshot work cl (<[i := q]> (os_workers s)) results (os_file s) (os_done s) (os_status s)).
Proof.
  intros Hi Hp Hw Hq Hr [H1 H2 H3 H4 H5 H6]. split; cbn [os_work os_workers os_results os_done os_status]; try done.
  - destruct H1 as (lost & Ht & Hl). exists lost. split; [|done]. by rewrite (lw_tokens _ _ _ _ _ _ _ Hi Hp).
  - by apply Forall_insert.
Qed.

Lemma lw_step_inv l s s' : lw_step pieces good l s = Some s' -> os_inv s -> os_inv s'.
Proof.
  intros H I. pose proof I as [H1 H2 H3 H4 H5 H6].
  destruct l as [i|i ok|i|i has data|i| | |]; try done; unfold lw_step in H;
    destruct (os_workers s !! i) as [p|] eqn:Ei; try done; destruct p as [| | |pw|pw|pw|pw d|] eqn:Ep; try done.
  all: assert (Hok : lw_ok p) by (subst p; rewrite Forall_lookup in H3; exact (H3 _ _ Ei)).
  - destruct (_ <? _); simplify_eq. eapply lw_inv; done.
  - destruct ok; simplify_eq; eapply lw_inv; done.
  - destruct (os_work s) as [|pw work] eqn:Ew; [destruct (os_work_closed s)|]; simplify_eq.
    + unfold set_worker_pc. rewrite Ew. eapply lw_inv; try done. by rewrite Ew.
    + apply Forall_cons in H2 as [Hpw H2]. eapply (lw_inv i _ _ _ _ _ s); try done. rewrite Ew. cbn. solve_Permutation.
  - destruct has; cbn in H; [destruct data as [data|]; [destruct (good pw data) eqn:Eg|]|]; simplify_eq; eapply lw_inv; done.
  - destruct (_ <? _); simplify_eq. eapply (lw_inv i _ _ _ _ _ s); try done.
    + cbn [os_work os_results set_work set_results]. rewrite fmap_app. cbn. solve_Permutation.
    + apply Forall_app. split; [done|]. by constructor.
  - destruct (_ <? _); simplify_eq. eapply (lw_inv i _ _ _ _ _ s); try done.
    + cbn [os_work os_results set_work set_results]. rewrite fmap_app. cbn. solve_Permutation.
    + apply Forall_app. split; [done|]. by constructor.
  - destruct (_ <? _); simplify_eq. destruct Hok as [Hin Hg]. eapply (lw_inv i _ _ _ _ _ s); try done.
    + cbn [os_work os_results set_work set_results]. rewrite fmap_app. cbn. solve_Permutation.
    + apply Forall_app. split; [done|]. constructor; [by exists pw|done].
Qed.

Lemma receive_inv ok s s' : step (OsReceive ok) s = Some s' -> os_inv s -> os_inv s'.
Proof.
  cbn [os_step]. intros H [H1 H2 H3 H4 H5 H6]. destruct (os_status s) eqn:Es; try done.
  destruct (os_results s) as [|[index data] rest] eqn:Er; [done|]. apply Forall_cons in H4 as [Hr H4].
  destruct H1 as (lost & Ht & Hl). unfold tokens in Ht. rewrite Er in Ht. cbn [fmap list_fmap fst] in Ht.
  change (list_fmap _ _ fst rest) with (rest.*1) in Ht.
  destruct ok; simplify_eq.
  - assert (Ht' : ((Index <$> os_work s) ++ omap lw_held (os_workers s) ++ rest.*1 ++ (os_done s ++ [(index, data)]).*1) ++ lost
                   ≡ₚ Index <$> pieces).
    { rewrite <- Ht, fmap_app. cbn. solve_Permutation. }
    destruct (_ <? _) eqn:El; split; cbn [tokens set_outcome set_file set_results os_work os_workers os_results os_done os_status] in *;
      rewrite ?Es; try done; try (apply Forall_app; split; [done|by constructor]).
    + exists lost. split; [exact Ht'|done].
    + exists lost. split; [exact Ht'|]. intros _. by apply Hl.
    + intros _. bool_prop. pose proof (Permutation_length Ht') as Hlen. repeat rewrite ?length_app, ?length_fmap in *. lia.
  - split; cbn [tokens set_outcome set_results os_work os_workers os_results os_done os_status]; try done.
    exists (index :: lost). split; [|done]. unfold tokens. cbn. rewrite <- Ht. solve_Permutation.
Qed.

Lemma os_step_inv l s s' : step l s = Some s' -> os_inv s -> os_inv s'.
Proof.
  intros H I. destruct l as [i|i ok|i|i has data|i| |ok|]; cbn [os_step] in H; try (by eapply lw_step_inv).
  - destruct (_ && _); simplify_eq. by destruct I as [H1 H2 H3 H4 H5 H6].
  - by eapply receive_inv.
  - destruct (os_status s) eqn:Es; simplify_eq. destruct I as [(lost & Ht & Hl) H2 H3 H4 H5 H6].
    split; try done. exists lost. split; [done|]. intros _. apply Hl. by rewrite Es.
Qed.

Lemma os_reach_inv n file s : os_reach pieces pieceLength good n file s -> os_inv s.
Proof.
  induction 1 as [|s l s' _ IH Hs]; [|by eapply os_step_inv]. split; cbn; try done.
  - exists []. split; [|done]. unfold tokens. cbn [os_start os_work os_workers os_results os_done].
    assert (omap lw_held (replicate n LwSem) = []) as -> by (induction n; done). by rewrite !app_nil_r.
  - apply Forall_forall. done.
  - apply Forall_forall. intros p Hp. by apply elem_of_replicate in Hp as [-> _].
  - destruct (Z.ltb_spec 0 (len pieces)); [done|]. intros _. lia.
Qed.

(** *** Nothing blocks *)

Lemma held_le s i p z : os_workers s !! i = Some p -> lw_held p = Some z ->
  (length (os_work s) + length (os_results s) < length (tokens s))%nat.
Proof.
  intros Hi Hp. assert (Hin : z ∈ omap lw_held (os_workers s)).
  { apply list_elem_of_omap. exists p. split; [by eapply list_elem_of_lookup_2|done]. }
  unfold tokens. rewrite !length_app, !length_fmap. destruct (omap lw_held (os_workers s)); [by apply not_elem_of_nil in Hin|].
  cbn. lia.
Qed.

Definition wants_to_send (p : lw_pc) : bool :=
  match p with LwPutBack _ | LwGiveUp _ | LwResult _ _ => true | _ => false end.

Lemma send_enabled n file s i p : os_reach pieces pieceLength good n file s -> os_workers s !! i = Some p ->
  wants_to_send p = true -> exists s', step (OsSend i) s = Some s'.
Proof.
  intros Hr Hi Hp. destruct (oi_tokens _ (os_reach_inv _ _ _ Hr)) as (lost & Ht & _).
  apply Permutation_length in Ht. rewrite length_app, length_fmap in Ht.
  assert (exists z, lw_held p = Some z) as [z Hz] by (destruct p; try done; by eexists).
  pose proof (held_le _ _ _ _ Hi Hz) as Hlt. cbn. unfold lw_step, os_cap. rewrite Hi.
  destruct p; try done; destruct (Z.ltb_spec (len (os_work s)) (len pieces)), (Z.ltb_spec (len (os_results s)) (len pieces)); try lia; eauto.
Qed.

(** *** The file *)

Context (tl : Z).
Hypothesis Hpieces : forall pw, pw ∈ pieces -> 0 <= Index pw /\ 0 <= Length pw <= pieceLength /\ Index pw * pieceLength + Length pw <= tl.
Hypothesis Hnodup : NoDup (Index <$> pieces).
Hypothesis Hgood : forall pw data, good pw data = true -> len data = Length pw.

Definition at_place (file : bytes) (r : Z * bytes) : Prop :=
  take (length r.2) (drop (Z.to_nat (r.1 * pieceLength)) file) = r.2.
Definition file_inv (s : oneshot) : Prop := len (os_file s) = tl /\ Forall (at_place (os_file s)) (os_done s).

Lemma result_range r : result_ok r -> 0 <= r.1 /\ len r.2 <= pieceLength /\ r.1 * pieceLength + len r.2 <= tl.
Proof.
  intros (pw & Hin & Hi & Hg). rewrite (Hgood _ _ Hg), <- Hi. destruct (Hpieces _ Hin) as (? & ? & ?). lia.
Qed.

Lemma write_inv file done index data : len file = tl -> Forall (at_place file) done -> Forall result_ok done ->
  result_ok (index, data) -> index ∉ done.*1 ->
  let file' := file_write file (Z.to_nat (index * pieceLength)) data in
  len file' = tl /\ Forall (at_place file') (done ++ [(index, data)]).
Proof.
  intros Hl Hd Hok Hr Hn file'. destruct (result_range _ Hr) as (Hi & Hlen & Htl). cbn in Hi, Hlen, Htl.
  assert (Hb : (Z.to_nat (index * pieceLength) + length data <= length file)%nat) by nia.
  assert (Hf : file' = splice file (Z.to_nat (index * pieceLength)) data) by (by apply file_write_in).
  split; [by rewrite Hf, length_splice|]. rewrite Hf. apply Forall_app. split.
  - rewrite Forall_forall in Hd, Hok |- *. intros [j d] Hj. unfold at_place. cbn.
    destruct (result_range _ (Hok _ Hj)) as (Hj0 & Hjl & Hjt). cbn in Hj0, Hjl, Hjt.
    rewrite splice_keeps_range; [by apply (Hd _ Hj)|done|].
    assert (j <> index) by (intros ->; apply Hn, list_elem_of_fmap; by exists (index, d)).
    destruct (decide (j < index)); [left|right]; nia.
  - constructor; [|done]. unfold at_place. cbn. by apply take_drop_splice.
Qed.

Lemma reach_file n file s : len file = tl -> os_reach pieces pieceLength good n file s -> file_inv s.
Proof.
  intros Hl Hr. induction Hr as [|s l s' Hr IH Hs]; [by split|].
  destruct (os_reach_inv _ _ _ Hr) as [(lost & Ht & _) H2 H3 H4 H5 H6].
  destruct l as [i|i ok|i|i has data|i| |ok|]; cbn in Hs.
  all: try (unfold lw_step in Hs; repeat case_match; simplify_eq; exact IH).
  destruct (os_status s); try done. destruct (os_results s) as [|[index data] rest] eqn:Er; [done|]. destruct ok; simplify_eq; [|exact IH].
  apply Forall_cons in H4 as [Hok _]. destruct IH as [IH1 IH2].
  assert (Hn : index ∉ (os_done s).*1).
  { unfold tokens in Ht. rewrite Er in Ht. rewrite <- Ht in Hnodup. apply NoDup_app in Hnodup as [Hnd _].
    apply NoDup_app in Hnd as (_ & _ & Hnd). apply NoDup_app in Hnd as (_ & _ & Hnd). apply NoDup_app in Hnd as (_ & Hnd & _).
    apply (Hnd index). cbn. apply elem_of_cons. by left. }
  pose proof (write_inv _ _ _ _ IH1 IH2 H5 Hok Hn) as [W1 W2]. destruct (_ <? _); by split.
Qed.

Lemma finished_all s pw : os_inv s -> os_status s = LwFinished -> pw ∈ pieces ->
  exists data, (Index pw, data) ∈ os_done s /\ good pw data = true.
Proof.
  intros [(lost & Ht & Hl) H2 H3 H4 H5 H6] Hs Hin. rewrite (Hl ltac:(by rewrite Hs)), app_nil_r in Ht.
  assert (Hd : (os_done s).*1 ≡ₚ Index <$> pieces).
  { pose proof (Permutation_length Ht) as Hlen. unfold tokens in Hlen, Ht. rewrite !length_app, !length_fmap in Hlen. specialize (H6 Hs).
    destruct (os_work s); [|cbn in Hlen; lia]. destruct (omap lw_held (os_workers s)); [|cbn in Hlen; lia].
    destruct (os_results s); [|cbn in Hlen; lia]. exact Ht. }
  assert (Hi : Index pw ∈ (os_done s).*1) by (rewrite Hd; apply list_elem_of_fmap; by exists pw).
  apply list_elem_of_fmap in Hi as ([j data] & Hj & Hdone). cbn in Hj. subst j. exists data. split; [done|].
  rewrite Forall_forall in H5. destruct (H5 _ Hdone) as (pw' & Hin' & Hj & Hg). cbn in Hj, Hg.
  assert (pw' = pw) as ->; [|done]. apply list_elem_of_lookup in Hin as [a Ha], Hin' as [b Hb].
  assert (b = a) as ->; [|congruence]. apply (NoDup_lookup (Index <$> pieces) b a (Index pw) Hnodup); rewrite list_lookup_fmap, ?Ha, ?Hb; cbn; congruence.
Qed.
End Download.

(** ** A torrent *)

(** [DownloadPiece] returns data of the piece's length with its hash. *)
Definition piece_verified (sha1 : bytes -> bytes) (pw : PieceWork) (data : bytes) : bool :=
  bool_decide (sha1 data = Hash pw) && (len data =? Length pw).

(** The pieces cover the torrent's data. *)
Definition covers (tf : TorrentFile) : Prop :=
  let pl := PieceLength (t_Info tf) in let n := len (PieceHashes (t_Info tf)) in
  0 < pl /\ 0 <= TotalSize tf <= MaxInt64 /\ (n - 1) * pl < TotalSize tf <= n * pl.

Lemma queue_pieces tf pw : covers tf -> pw ∈ buildWorkQueue tf <->
  exists i : nat, PieceHashes (t_Info tf) !! i = Some (Hash pw) /\ Index pw = Z.of_nat i /\
    Length pw = Z.min (PieceLength (t_Info tf)) (TotalSize tf - Z.of_nat i * PieceLength (t_Info tf)).
Proof.
  intros (Hpl & Htl & Hn). unfold buildWorkQueue. rewrite build_pieces_spec. cbn [has_opt].
  assert (Hmin : MinInt64 <= - MaxInt64) by (unfold MinInt64, MaxInt64; lia).
  assert (Hlen : forall i : nat, (i < length (PieceHashes (t_Info tf)))%nat ->
    piece_length (PieceLength (t_Info tf)) (TotalSize tf) (Z.of_nat i)
    = Z.min (PieceLength (t_Info tf)) (TotalSize tf - Z.of_nat i * PieceLength (t_Info tf))).
  { intros i Hi. assert (Z.of_nat i * PieceLength (t_Info tf) < TotalSize tf) by nia. unfold piece_length.
    rewrite (i64_id (_ * _)), i64_id by (unfold in_i64; nia). destruct (Z.ltb_spec (TotalSize tf - Z.of_nat i * PieceLength (t_Info tf)) (PieceLength (t_Info tf))); lia. }
  split.
  - intros (_ & _ & Hi & Hh & Hl). exists (Z.to_nat (Index pw)). rewrite Z.sub_0_r in Hh. rewrite Z2Nat.id by done. split_and!; [done|done|].
    apply lookup_lt_Some, Hlen in Hh. rewrite Z2Nat.id in Hh by done. congruence.
  - intros (i & Hh & Hi & Hl). rewrite Hi, Z.sub_0_r, Nat2Z.id. split_and!; try done; [lia|]. rewrite Hlen by (by eapply lookup_lt_Some). done.
Qed.

(** C31: for a torrent whose hashes cover its total length ([covers]), a one-shot download that reports success leaves a file of the torrent's size in which every piece has its
    hash, whatever the order of steps and however often pieces change hands; and until then no worker is ever stuck
    handing on a piece or a result. *)
Theorem OneShot_success sha1 tf npeers s : covers tf ->
  os_reach (buildWorkQueue tf) (PieceLength (t_Info tf)) (piece_verified sha1) npeers (created_file tf) s ->
  (os_status s = LwFinished -> len (os_file s) = TotalSize tf /\
     forall (i : nat) h, PieceHashes (t_Info tf) !! i = Some h ->
       sha1 (slice (os_file s) (Z.of_nat i * PieceLength (t_Info tf)) (Z.min (TotalSize tf) ((Z.of_nat i + 1) * PieceLength (t_Info tf)))) = h) /\
  (forall i p, os_workers s !! i = Some p -> wants_to_send p = true ->
     exists s', os_step (buildWorkQueue tf) (PieceLength (t_Info tf)) (piece_verified sha1) (OsSend i) s = Some s').
Proof.
  intros Hc Hr. split; [|by intros i p; eapply send_enabled]. intros Hs.
  set (pl := PieceLength (t_Info tf)) in *. pose proof Hc as (Hpl & Htl & Hn). fold pl in Hpl, Hn.
  assert (Hp : forall pw, pw ∈ buildWorkQueue tf -> 0 <= Index pw /\ 0 <= Length pw <= pl /\ Index pw * pl + Length pw <= TotalSize tf).
  { intros pw (i & Hh & -> & ->)%(queue_pieces tf pw Hc). apply lookup_lt_Some in Hh. fold pl.
    assert (Z.of_nat i * pl < TotalSize tf) by nia. lia. }
  assert (Hnd : NoDup (Index <$> buildWorkQueue tf)) by apply build_pieces_NoDup.
  assert (Hg : forall pw data, piece_verified sha1 pw data = true -> len data = Length pw).
  { intros pw data H. unfold piece_verified in H. bool_prop. done. }
  destruct (reach_file _ _ _ (TotalSize tf) Hp Hnd Hg npeers (created_file tf) s) as [Hlen Hfile]; [|done|].
  { unfold created_file, file_truncate. rewrite take_nil, length_app, length_replicate. cbn. lia. }
  split; [done|]. intros i h Hi.
  destruct (finished_all _ (piece_verified sha1) Hnd s (mkPieceWork (Z.of_nat i) h (Z.min pl (TotalSize tf - Z.of_nat i * pl)))) as (data & Hd & Hv).
  - by eapply os_reach_inv.
  - done.
  - apply (queue_pieces tf _ Hc). by exists i.
  - rewrite Forall_forall in Hfile. specialize (Hfile _ Hd). unfold at_place in Hfile. cbn in Hfile.
    pose proof (Hg _ _ Hv) as Hl. cbn in Hl. unfold piece_verified in Hv. bool_prop. cbn in *. subst h. f_equal. unfold slice.
    etransitivity; [|exact Hfile]. f_equal. lia.
Qed.

Definition oneshot_tf (name : bytes) : TorrentFile :=
  mkTorrentFile [] [] (mkInfo name 2 [[x07]; [x07]] 3 [] false None) (replicate 20 x01) [] 1 [].

Definition demo_download : list os_label :=
  [OsAcquire 0; OsAcquire 1; OsDial 0 true; OsDial 1 true; OsTake 0; OsHave 0 false None; OsTake 1; OsSend 0; OsHave 1 true (Some [x63]);
   OsSend 1; OsReceive true; OsTake 1; OsHave 1 true None; OsSend 1; OsTake 0; OsHave 0 true (Some [x61; x62]); OsSend 0; OsReceive true].
Definition demo_sha1 : bytes -> bytes := fun _ => [x07].

Lemma os_run_reach pieces pl good n file ls s s' : os_reach pieces pl good n file s -> os_run pieces pl good ls s = Some s' ->
  os_reach pieces pl good n file s'.
Proof.
  revert s. induction ls as [|l ls IH]; intros s Hr H; cbn in H; [by simplify_eq|].
  destruct (os_step _ _ _ l s) eqn:E; [|done]. cbn in H. eapply IH; [|done]. by eapply os_next.
Qed.

Lemma OneShot_success_witness :
  exists s, os_reach (buildWorkQueue (oneshot_tf [])) 2 (piece_verified demo_sha1) 2 (created_file (oneshot_tf [])) s /\ os_status s = LwFinished /\
    len (os_file s) = 3 /\ demo_sha1 (slice (os_file s) 2 3) = [x07].
Proof.
  assert (Hr : exists s, os_run (buildWorkQueue (oneshot_tf [])) 2 (piece_verified demo_sha1) demo_download
    (os_start (buildWorkQueue (oneshot_tf [])) 2 (created_file (oneshot_tf []))) = Some s) by (eexists; vm_compute; reflexivity).
  destruct Hr as [s Hs]. pose proof Hs as E. vm_compute in E. injection E as <-.
  eapply os_run_reach in Hs; [|apply os_init]. eexists. split; [exact Hs|]. split; [reflexivity|].
  destruct (OneShot_success demo_sha1 (oneshot_tf []) 2 _ ltac:(repeat split; vm_compute; congruence) Hs) as [H _].
  destruct (H eq_refl) as [H1 H2]. split; [exact H1|]. exact (H2 1%nat [x07] eq_refl).
Defined.

(** The worker whose piece was the last waits on [workCh] for good: the channel is closed only when all have gone. *)
Lemma workers_stay_after_success :
  (s ← os_run (buildWorkQueue (oneshot_tf [])) 2 (piece_verified demo_sha1) demo_download (os_start (buildWorkQueue (oneshot_tf [])) 2 (created_file (oneshot_tf [])));
   Some (os_status s, os_workers s, bool_decide (is_Some (os_step (buildWorkQueue (oneshot_tf [])) 2 (piece_verified demo_sha1) (OsTake 0) s)),
         bool_decide (is_Some (os_step (buildWorkQueue (oneshot_tf [])) 2 (piece_verified demo_sha1) OsClose s))))
  = Some (LwFinished, [LwLoop; LwExited], false, false).
Proof. vm_compute. reflexivity. Qed.

(** A peer that lacks the last piece takes it and puts it back without end. *)
Lemma lone_worker_spins pieces pl good pw s : os_work s = [pw] -> os_workers s = [LwLoop] -> os_work_closed s = false -> pieces <> [] ->
  os_run pieces pl good [OsTake 0; OsHave 0 false None; OsSend 0] s = Some s.
Proof.
  intros Hw Hws Hc Hp. destruct s as [work closed ws res file done st]; cbn in Hw, Hws, Hc. subst.
  cbn. unfold os_cap. destruct pieces; [done|]. reflexivity.
Qed.

(** A name of metainfo is not checked in this mode: the file is written outside of the output directory. *)
Lemma oneshot_name_escapes :
  exists data tf, Parse demo_sha1 demo_sha1 data = Ok tf /\ outPath (lit "/home/u/dl") tf = lit "/home/u/.profile".
Proof.
  exists (lit "d4:infod6:lengthi1e4:name11:../.profile12:piece lengthi1e6:pieces20:aaaaaaaaaaaaaaaaaaaaee").
  eexists. split; vm_compute; reflexivity.
Qed.
