(* ===== verification/Portmap.v ===== *)
(** * Port mapping ([engine/portmap.go])

    The mapper asks the gateway to forward the listening port: UPnP first (SSDP search, device description, SOAP
    calls), then NAT-PMP, renews the mapping and removes it on [Stop].  The texts and packets are values; XML and URL
    parsing are parameters, the answers of the network arguments.  The mapper itself is a state machine: the calls
    to the gateway, the critical sections and [Stop] are steps in any order, and the gateway's mappings are part of
    the state. *)

From S2P Require Import Prelude Strconv Text Net Config.
Set Warnings "-clear-no-such-hyp,-register-all".
Local Open Scope Z_scope.

Definition portMapLease : Z := 3600.
Definition ssdpAddr : bytes := lit "239.255.255.250:1900".
Definition ssdpST : bytes := lit "urn:schemas-upnp-org:device:InternetGatewayDevice:1".
Definition portMapDescription : bytes := lit "stor".

(** ** SSDP *)

Definition crlf : bytes := [x0d; x0a].
Definition quoted (s : bytes) : bytes := [x22] ++ s ++ [x22].

Definition ssdp_request : bytes :=
  lit "M-SEARCH * HTTP/1.1" ++ crlf ++ lit "HOST: " ++ ssdpAddr ++ crlf ++ lit "MAN: " ++ quoted (lit "ssdp:discover") ++ crlf ++
  lit "MX: 2" ++ crlf ++ lit "ST: " ++ ssdpST ++ crlf ++ crlf.

(** [bytes.Split] at CR LF. *)
Fixpoint split_crlf (cur s : bytes) : list bytes :=
  match s with
  | [] => [rev cur]
  | x0d :: x0a :: s => rev cur :: split_crlf [] s
  | b :: s => split_crlf (b :: cur) s
  end.

(** [bytes.EqualFold] with [LOCATION:], none of whose letters folds with a character outside of ASCII. *)
Definition is_location (line : bytes) : bool := bool_decide (lower <$> take 9 line = lit "location:").

Fixpoint first_location (lines : list bytes) : bytes :=
  match lines with
  | [] => []
  | line :: lines =>
      if len line <? 9 then first_location lines
      else if negb (is_location line) then first_location lines
      else TrimSpace (drop 9 line)
  end.

Definition parseSSDPLocation (data : bytes) : bytes := first_location (split_crlf [] data).

Record ssdpResponse := mkSsdp { location : bytes; source : option IP }.

(** The datagrams that arrive before the deadline, each cut to the buffer of 4096 bytes. *)
Fixpoint ssdp_collect (seen : gset bytes) (packets : list (bytes * option IP)) : list ssdpResponse :=
  match packets with
  | [] => []
  | (data, src) :: packets =>
      let loc := parseSSDPLocation (take 4096 data) in
      if bool_decide (loc = []) || bool_decide (loc ∈ seen) then ssdp_collect seen packets
      else mkSsdp loc src :: ssdp_collect ({[ loc ]} ∪ seen) packets
  end.

(** ** The device description *)

Record upnpService := mkService { ServiceType : bytes; ControlURL : bytes }.
Inductive upnpDevice := mkDevice (DeviceList : list upnpDevice) (ServiceList : list upnpService).
Record upnpDeviceXML := mkDeviceXML { Device : upnpDevice; URLBase : bytes }.

Inductive upnp_error := BadXML | BadURLBase | NoWANService.

Definition wan_service (st : bytes) : bool :=
  bool_decide (st = lit "urn:schemas-upnp-org:service:WANIPConnection:1")
  || bool_decide (st = lit "urn:schemas-upnp-org:service:WANIPConnection:2")
  || bool_decide (st = lit "urn:schemas-upnp-org:service:WANPPPConnection:1").

Section Description.
(** [xml.Unmarshal] into the struct, [url.Parse], and [ResolveReference] with [String]. *)
Context {URL : Type} (Unmarshal : bytes -> option upnpDeviceXML) (url_Parse : bytes -> option URL) (Resolve : URL -> URL -> bytes).

Fixpoint scan_services (base : URL) (l : list upnpService) : option (bytes * bytes) :=
  match l with
  | [] => None
  | s :: l =>
      if wan_service (ServiceType s) then
        match url_Parse (ControlURL s) with
        | None => scan_services base l
        | Some cu => Some (Resolve base cu, ServiceType s)
        end
      else scan_services base l
  end.

(** [walk]: the services of a device, then its children. *)
Fixpoint walk (base : URL) (d : upnpDevice) : bytes * bytes :=
  match d with
  | mkDevice children services =>
      match scan_services base services with
      | Some r => r
      | None =>
          (fix go (l : list upnpDevice) : bytes * bytes :=
             match l with
             | [] => ([], [])
             | child :: l => let '(cu, st) := walk base child in if bool_decide (cu = []) then go l else (cu, st)
             end) children
      end
  end.

Definition findUPnPControlURL (deviceURL body : bytes) : result upnp_error (bytes * bytes) :=
  root ← or_err (Unmarshal body) BadXML;
  let base := if bool_decide (URLBase root = []) then deviceURL else URLBase root in
  baseURL ← or_err (url_Parse base) BadURLBase;
  let '(cu, st) := walk baseURL (Device root) in
  if bool_decide (cu = []) then Err NoWANService else Ok (cu, st).
End Description.

(** ** SOAP *)

Definition nl : bytes := [x0a].
Definition elem (tag content : bytes) : bytes := lit "<" ++ tag ++ lit ">" ++ content ++ lit "</" ++ tag ++ lit ">".

Definition envelope (body : bytes) : bytes :=
  lit "<?xml version=" ++ quoted (lit "1.0") ++ lit "?>" ++ nl ++
  lit "<s:Envelope xmlns:s=" ++ quoted (lit "http://schemas.xmlsoap.org/soap/envelope/") ++ lit " s:encodingStyle=" ++
  quoted (lit "http://schemas.xmlsoap.org/soap/encoding/") ++ lit ">" ++ nl ++ lit "<s:Body>" ++ nl ++ body ++ nl ++
  lit "</s:Body>" ++ nl ++ lit "</s:Envelope>".

Definition action (name serviceType : bytes) (fields : list bytes) : bytes :=
  lit "<u:" ++ name ++ lit " xmlns:u=" ++ quoted serviceType ++ lit ">" ++ nl ++ concat ((fun f => f ++ nl) <$> fields) ++
  lit "</u:" ++ name ++ lit ">".

Definition add_body (serviceType : bytes) (external : Z) (proto : bytes) (internal : Z) (internalIP : IP) : bytes :=
  envelope (action (lit "AddPortMapping") serviceType
    [elem (lit "NewRemoteHost") []; elem (lit "NewExternalPort") (itoa external); elem (lit "NewProtocol") proto;
     elem (lit "NewInternalPort") (itoa internal); elem (lit "NewInternalClient") (ip_String internalIP);
     elem (lit "NewEnabled") (lit "1"); elem (lit "NewPortMappingDescription") portMapDescription;
     elem (lit "NewLeaseDuration") (itoa portMapLease)]).

Definition delete_body (serviceType : bytes) (external : Z) (proto : bytes) : bytes :=
  envelope (action (lit "DeletePortMapping") serviceType
    [elem (lit "NewRemoteHost") []; elem (lit "NewExternalPort") (itoa external); elem (lit "NewProtocol") proto]).

(** [post] is the HTTP client: the status and body of the answer, or no answer. *)
Definition snippet (b : bytes) : bytes := if 200 <? len b then take 200 b ++ lit "..." else b.

Inductive soap_error := SoapNoAnswer | SoapStatus (action : bytes) (status : Z) (text : bytes).

Definition soapCall (post : bytes -> bytes -> bytes -> option (Z * bytes)) (controlURL serviceType name body : bytes) : option soap_error :=
  match post controlURL (quoted (serviceType ++ lit "#" ++ name)) body with
  | None => Some SoapNoAnswer
  | Some (status, answer) =>
      if Z.quot status 100 =? 2 then None else Some (SoapStatus name status (snippet (take (Z.to_nat 65536) answer)))
  end.

Definition soapAddPortMapping (post : bytes -> bytes -> bytes -> option (Z * bytes)) (controlURL serviceType : bytes) (internal : Z)
    (internalIP : IP) : result (bytes * soap_error) Z :=
  let external := internal in
  let call proto := soapCall post controlURL serviceType (lit "AddPortMapping") (add_body serviceType external proto internal internalIP) in
  match call (lit "TCP") with
  | Some e => Err (lit "TCP", e)
  | None => match call (lit "UDP") with Some e => Err (lit "UDP", e) | None => Ok external end
  end.

Definition soapDeletePortMapping (post : bytes -> bytes -> bytes -> option (Z * bytes)) (controlURL serviceType : bytes) (external : Z)
    : option soap_error :=
  let call proto := soapCall post controlURL serviceType (lit "DeletePortMapping") (delete_body serviceType external proto) in
  let firstErr := call (lit "TCP") in
  match call (lit "UDP"), firstErr with Some e, None => Some e | _, e => e end.

(** ** A usable device *)

(** [get] is the HTTP client's answer. *)
Definition fetchURL (get : bytes -> option (Z * bytes)) (u : bytes) : option bytes :=
  '(status, body) ← get u; if status =? 200 then Some (take (Z.to_nat 262144) body) else None.

(** [net.JoinHostPort]. *)
Definition join_host_port (host port : bytes) : bytes :=
  if bool_decide (x3a ∈ host) then lit "[" ++ host ++ lit "]:" ++ port else host ++ lit ":" ++ port.

Definition route_target (dev : ssdpResponse) : bytes :=
  match source dev with Some ip => join_host_port (ip_String ip) (lit "9") | None => lit "8.8.8.8:80" end.

(** What [tryUPnP] finds out about a device before it asks for a mapping: control URL, service type, local address.
    [localIPTowards] is the system's choice of an address. *)
Definition usable_device {URL} (Unmarshal : bytes -> option upnpDeviceXML) (url_Parse : bytes -> option URL) (Resolve : URL -> URL -> bytes)
    (get : bytes -> option (Z * bytes)) (localIPTowards : bytes -> option IP) (dev : ssdpResponse) : option (bytes * bytes * IP) :=
  body ← fetchURL get (location dev);
  match findUPnPControlURL Unmarshal url_Parse Resolve (location dev) body with
  | Err _ => None
  | Ok (controlURL, serviceType) => localIP ← localIPTowards (route_target dev); Some (controlURL, serviceType, localIP)
  end.

(** ** NAT-PMP *)

Definition natpmp_request (op internal lifetime : Z) : bytes :=
  [x00; byte_of_Z op; x00; x00] ++ be_put 2 internal ++ be_put 2 internal ++ be_put 4 lifetime.

Inductive natpmp_error := NatDial | NatWrite | NatCancelled | NatResult (code : Z) | NatNoResponse.

(** What one try sees: whether the context has ended, whether the write works, the datagram read before its deadline. *)
Record nat_try := mkTry { t_ctx : bool; t_write : bool; t_read : option bytes }.

(** The result code, the external port and the lifetime of a datagram read into the buffer of 16 bytes. *)
Definition natpmp_response (data : bytes) : option (Z * Z * Z) :=
  let resp := take 16 data in
  if 16 <=? len resp then Some (be_get (slice resp 2 4), be_get (slice resp 10 12), be_get (slice resp 12 16)) else None.

(** The loop over the four delays, with the requests sent so far. *)
Fixpoint natpmp_loop (op internal lifetime : Z) (n : nat) (tries : nat -> nat_try) (k : nat) (sent : list bytes)
    : list bytes * result natpmp_error (Z * Z) :=
  match n with
  | O => (sent, Err NatNoResponse)
  | S n =>
      let t := tries k in
      if t_ctx t then (sent, Err NatCancelled)
      else if negb (t_write t) then (sent, Err NatWrite)
      else
        let sent := sent ++ [natpmp_request op internal lifetime] in
        match t_read t with
        | Some data =>
            match natpmp_response data with
            | Some (code, external, granted) => (sent, if code =? 0 then Ok (external, granted) else Err (NatResult code))
            | None => natpmp_loop op internal lifetime n tries (S k) sent
            end
        | None => natpmp_loop op internal lifetime n tries (S k) sent
        end
  end.

Definition natpmpMap (dial_ok : bool) (op internal lifetime : Z) (tries : nat -> nat_try) : list bytes * result natpmp_error (Z * Z) :=
  if dial_ok then natpmp_loop op internal lifetime 4 tries 0 [] else ([], Err NatDial).

(** The gateway is guessed as the first address of the local network of 256. *)
Definition guessGateway (local : option IP) : option IP :=
  local ← local; v4 ← To4 local; Some (<[3%nat := x01]> v4).

(** ** The mapper

    A mapping on a gateway is a device (a number for a UPnP device, [None] for the guessed NAT-PMP gateway) and a
    protocol.  The listening port is fixed. *)

Inductive proto := TCP | UDP.
#[global] Instance proto_eq_dec : EqDecision proto.
Proof. solve_decision. Defined.
#[global] Instance proto_countable : Countable proto.
Proof.
  refine (inj_countable' (fun p => match p with TCP => true | UDP => false end) (fun b : bool => if b then TCP else UDP) _). by intros [].
Defined.
Abbreviation mapping := (option nat * proto)%type.
Definition both (d : option nat) : gset mapping := {[ (d, TCP); (d, UDP) ]}.

Inductive map_method := MethodNone | MethodUPnP | MethodNATPMP.
(** Why the gateways are being asked: the first time, or a renewal of the mapping of a method. *)
Inductive round_kind := FirstRound | RenewUPnP | RenewNATPMP.
Inductive run_pc :=
  | RunOff
  | RunDiscover (k : round_kind)                              (** before [ssdpDiscover] *)
  | RunDevice (k : round_kind) (devs : list nat)              (** the loop of [tryUPnP] *)
  | RunDeviceUDP (k : round_kind) (d : nat) (devs : list nat) (** TCP is mapped *)
  | RunDeviceStore (k : round_kind) (d : nat)                 (** both are mapped, before the lock *)
  | RunNat (k : round_kind)                                   (** before the TCP request of [tryNATPMP] *)
  | RunNatUDP (k : round_kind) (ext : Z)
  | RunNatUnmap (k : round_kind)                              (** UDP failed, TCP is being unmapped *)
  | RunNatStore (k : round_kind) (ext : Z)
  | RunWait                                                   (** on the timer *)
  | RunDone.
Inductive stop_pc := StopNotCalled | StopTearing (td : option (option nat)) | StopWaiting | StopReturned.

Record portMapper := mkMapper {
  m_external : Z; m_method : map_method; m_teardown : option (option nat);  (** the device to unmap *)
  m_started : bool; m_cancelled : bool;
  m_run : run_pc; m_stop : stop_pc;
  gateway : gset mapping
}.

Definition set_run (r : run_pc) (m : portMapper) : portMapper :=
  mkMapper (m_external m) (m_method m) (m_teardown m) (m_started m) (m_cancelled m) r (m_stop m) (gateway m).
Definition set_gateway (g : gset mapping) (m : portMapper) : portMapper :=
  mkMapper (m_external m) (m_method m) (m_teardown m) (m_started m) (m_cancelled m) (m_run m) (m_stop m) g.
Definition set_stop (st : stop_pc) (m : portMapper) : portMapper :=
  mkMapper (m_external m) (m_method m) (m_teardown m) (m_started m) (m_cancelled m) (m_run m) st (gateway m).
Definition store (ext : Z) (me : map_method) (d : option nat) (m : portMapper) : portMapper :=
  mkMapper ext me (Some d) (m_started m) (m_cancelled m) (m_run m) (m_stop m) (gateway m).
Definition cancel_ctx (m : portMapper) : portMapper :=
  mkMapper (m_external m) (m_method m) (m_teardown m) (m_started m) true (m_run m) (m_stop m) (gateway m).
Definition start_run (m : portMapper) : portMapper :=
  mkMapper (m_external m) (m_method m) (m_teardown m) true (m_cancelled m) (RunDiscover FirstRound) (m_stop m) (gateway m).

Definition NewPortMapper : portMapper := mkMapper 0 MethodNone None false false RunOff StopNotCalled ∅.

(** The goroutine after a round that mapped nothing. *)
Definition round_failed (k : round_kind) : run_pc := match k with FirstRound => RunDone | _ => RunWait end.

(** The engine starts the mapper once and stops it later.  [Discovered devs] lists the devices whose description was found, with a control URL and a local address;
    [Call ok mapped ext] is one request to a gateway: whether a positive answer was read, and whether the gateway made the
    mapping.  An answer may be lost, and a request made when the context ends may still be answered.  [ParentDone]: the
    context [Start] was given ends. *)
Inductive pm_label :=
  | PmStart | Discovered (devs : list nat) | Call (ok mapped : bool) (ext : Z) | Unmap (ok : bool) | StoreMapping
  | Timer | ParentDone | ContextDone | StopLock | Teardown (ok_tcp ok_udp : bool) | StopWait.

Definition unmap (d : option nat) (ok_tcp ok_udp : bool) (g : gset mapping) : gset mapping :=
  let g := if ok_tcp then g ∖ {[ (d, TCP) ]} else g in if ok_udp then g ∖ {[ (d, UDP) ]} else g.

Section Mapper.
Context (internal : Z).

(** The gateway made the mapping [x], or did not. *)
Definition taken (mapped : bool) (x : mapping) (m : portMapper) : portMapper :=
  if mapped then set_gateway ({[ x ]} ∪ gateway m) m else m.

(** The next SOAP call of [tryUPnP], or the end of its loop. *)
Definition upnp_call (ok mapped : bool) (m : portMapper) : option portMapper :=
  match m_run m with
  | RunDevice k (d :: devs) =>
      Some (set_run (if ok then RunDeviceUDP k d devs else RunDevice k devs) (taken mapped (Some d, TCP) m))
  | RunDevice k [] => Some (set_run (RunNat k) m)
  | RunDeviceUDP k d devs =>
      Some (set_run (if ok then RunDeviceStore k d else RunDevice k devs) (taken mapped (Some d, UDP) m))
  | _ => None
  end.

(** The next request of [tryNATPMP]; it fails at once when the gateway cannot be guessed. *)
Definition natpmp_call (ok mapped : bool) (ext : Z) (m : portMapper) : option portMapper :=
  match m_run m with
  | RunNat k => Some (set_run (if ok then RunNatUDP k ext else round_failed k) (taken mapped (None, TCP) m))
  | RunNatUDP k extTCP =>
      Some (set_run (if ok then RunNatStore k extTCP else RunNatUnmap k) (taken mapped (None, UDP) m))
  | _ => None
  end.

(** A positive answer is sent by a gateway that made the mapping. *)
Definition call_step (ok mapped : bool) (ext : Z) (m : portMapper) : option portMapper :=
  if ok && negb mapped then None
  else match upnp_call ok mapped m with Some m' => Some m' | None => natpmp_call ok mapped ext m end.

Definition store_step (m : portMapper) : option portMapper :=
  match m_run m with
  | RunDeviceStore _ d => Some (set_run RunWait (store internal MethodUPnP (Some d) m))
  | RunNatStore _ ext => Some (set_run RunWait (store ext MethodNATPMP None m))
  | _ => None
  end.

Definition pm_step (l : pm_label) (m : portMapper) : option portMapper :=
  match l with
  | PmStart =>
      match m_stop m with
      | StopNotCalled => if (internal =? 0) || m_started m then None else Some (start_run m)
      | _ => None
      end
  | Discovered devs => match m_run m with RunDiscover k => Some (set_run (RunDevice k devs) m) | _ => None end
  | Call ok mapped ext => call_step ok mapped ext m
  | Unmap ok =>
      match m_run m with
      | RunNatUnmap k => Some (set_run (round_failed k) (set_gateway (unmap None ok false (gateway m)) m))
      | _ => None
      end
  | StoreMapping => store_step m
  | Timer =>
      match m_run m with
      | RunWait => Some (set_run (match m_method m with
                                  | MethodUPnP => RunDiscover RenewUPnP
                                  | MethodNATPMP => RunNat RenewNATPMP
                                  | MethodNone => RunWait
                                  end) m)
      | _ => None
      end
  | ParentDone => Some (cancel_ctx m)
  | ContextDone => match m_run m with RunWait => if m_cancelled m then Some (set_run RunDone m) else None | _ => None end
  | StopLock =>
      match m_stop m with
      | StopNotCalled => Some (set_stop (StopTearing (m_teardown m)) (if m_started m then cancel_ctx m else m))
      | _ => None
      end
  | Teardown a b =>
      match m_stop m with
      | StopTearing (Some d) => Some (set_stop StopWaiting (set_gateway (unmap d a b (gateway m)) m))
      | StopTearing None => Some (set_stop StopWaiting m)
      | _ => None
      end
  | StopWait =>
      match m_stop m, m_run m with
      | StopWaiting, RunDone | StopWaiting, RunOff => Some (set_stop StopReturned m)
      | _, _ => None
      end
  end.

Fixpoint pm_run (ls : list pm_label) (m : portMapper) : option portMapper :=
  match ls with [] => Some m | l :: ls => m ← pm_step l m; pm_run ls m end.
End Mapper.
