(* ===== verification/PortmapTheorems.v ===== *)
(** * Properties of port mapping *)

From S2P Require Import Prelude Strconv Text Net Config Portmap.
Set Warnings "-clear-no-such-hyp".
Local Open Scope Z_scope.

(** ** The device tree *)

Section Devices.
Context {URL : Type} (url_Parse : bytes -> option URL) (Resolve : URL -> URL -> bytes).

(** Induction over the nested tree. *)
Fixpoint upnpDevice_ind' (P : upnpDevice -> Prop)
    (H : forall children services, Forall P children -> P (mkDevice children services)) (d : upnpDevice) : P d :=
  match d with
  | mkDevice children services =>
      H children services
        ((fix go (l : list upnpDevice) : Forall P l :=
            match l with [] => List.Forall_nil P | d :: l => List.Forall_cons P d l (upnpDevice_ind' P H d) (go l) end) children)
  end.

(** All services of a device tree, a device before its children. *)
Fixpoint services (d : upnpDevice) : list upnpService :=
  match d with mkDevice children own => own ++ (fix go (l : list upnpDevice) := match l with [] => [] | c :: l => services c ++ go l end) children end.

Lemma services_children children own : services (mkDevice children own) = own ++ (children ≫= services).
Proof. cbn. f_equal. Qed.

Lemma scan_services_app base l1 l2 : scan_services url_Parse Resolve base (l1 ++ l2) =
  match scan_services url_Parse Resolve base l1 with Some r => Some r | None => scan_services url_Parse Resolve base l2 end.
Proof. induction l1 as [|s l1 IH]; cbn; [done|]. destruct (wan_service _); [|done]. by destruct (url_Parse _). Qed.

(** The recursive walk finds the first usable service in the order of the document: it is a scan of the flattened
    tree, provided a resolved URL is never empty. *)
Lemma walk_preorder base d : (forall a b, Resolve a b <> []) ->
  walk url_Parse Resolve base d = default ([], []) (scan_services url_Parse Resolve base (services d)).
Proof.
  intros Hr.
  assert (Hne : forall l r, scan_services url_Parse Resolve base l = Some r -> r.1 <> []).
  { induction l as [|s l IH]; intros r H; cbn in H; [done|]. destruct (wan_service _); [|eauto]. destruct (url_Parse _); [|eauto].
    simplify_eq. apply Hr. }
  induction d as [children own IH] using upnpDevice_ind'. rewrite services_children, scan_services_app. cbn [walk].
  destruct (scan_services _ _ base own); [done|]. induction IH as [|c l Hc _ IHl]; [done|].
  change ((c :: l) ≫= services) with (services c ++ (l ≫= services)). rewrite Hc, scan_services_app.
  destruct (scan_services _ _ base (services c)) as [[cu st]|] eqn:E.
  - cbn [from_option id]. rewrite bool_decide_false; [done|]. exact (Hne _ _ E).
  - cbn [from_option id]. rewrite bool_decide_true by done. exact IHl.
Qed.
End Devices.

(** ** NAT-PMP *)

(** A gateway that follows RFC 6886: it reads the request and grants a port and a lifetime. *)
Definition gateway_answer (epoch port lifetime code : Z) (req : bytes) : option bytes :=
  if (len req =? 12) && bool_decide (slice req 0 1 = [x00]) then
    Some ([x00; byte_of_Z (be_get (slice req 1 2) + 128)] ++ be_put 2 code ++ be_put 4 epoch ++ slice req 4 6 ++ be_put 2 port ++ be_put 4 lifetime)
  else None.

Lemma natpmp_response_answer op internal lifetime epoch port granted code : 0 <= port < 65536 -> 0 <= granted < 2 ^ 32 -> 0 <= code < 65536 ->
  exists data, gateway_answer epoch port granted code (natpmp_request op internal lifetime) = Some data /\
    len data = 16 /\ natpmp_response data = Some (code, port, granted).
Proof.
  intros Hp Hg Hc. unfold gateway_answer, natpmp_request.
  assert (Hlen : length ([x00; byte_of_Z op; x00; x00] ++ be_put 2 internal ++ be_put 2 internal ++ be_put 4 lifetime) = 12%nat)
    by (rewrite !length_app, !length_be_put; done).
  rewrite Hlen. change ((Z.of_nat 12 =? 12)) with true. rewrite bool_decide_true by reflexivity. cbn [andb].
  eexists. split; [reflexivity|]. set (mid := slice _ 4 6).
  assert (Hmid : length mid = 2%nat) by (unfold mid, slice; rewrite length_take, length_drop, Hlen; lia).
  destruct mid as [|a [|b [|? ?]]]; cbn in Hmid; try lia.
  split; [rewrite !length_app, !length_be_put; cbn; lia|]. unfold natpmp_response.
  rewrite take_ge by (rewrite !length_app, !length_be_put; cbn; lia).
  rewrite (proj2 (Z.leb_le _ _)) by (rewrite !length_app, !length_be_put; cbn; lia).
  assert (E2 : forall z, 0 <= z < 65536 -> be_get (be_put 2 z) = z) by (intros z Hz; rewrite be_get_put; apply Z.mod_small; done).
  assert (E4 : forall z, 0 <= z < 2 ^ 32 -> be_get (be_put 4 z) = z) by (intros z Hz; rewrite be_get_put; apply Z.mod_small; done).
  transitivity (Some (be_get (be_put 2 code), be_get (be_put 2 port), be_get (be_put 4 granted))); [reflexivity|].
  by rewrite !E2, E4.
Qed.

(** Against a gateway that follows RFC 6886 the exchange works whichever of the four datagrams is answered: with
    [k] requests lost before, the request is sent [k+1] times, and the port and the lifetime the gateway granted are
    returned; a refusal is reported with its code; without an answer four requests are sent. *)
Lemma Natpmp_exchange op internal lifetime epoch port granted code (tries : nat -> nat_try) (k : nat) :
  0 <= port < 65536 -> 0 <= granted < 2 ^ 32 -> 0 <= code < 65536 -> (k < 4)%nat ->
  (forall i, (i < k)%nat -> tries i = mkTry false true None) ->
  tries k = mkTry false true (gateway_answer epoch port granted code (natpmp_request op internal lifetime)) ->
  natpmpMap true op internal lifetime tries =
    (replicate (S k) (natpmp_request op internal lifetime), if code =? 0 then Ok (port, granted) else Err (NatResult code)) /\
  (forall tries', (forall i, (i < 4)%nat -> tries' i = mkTry false true None) ->
     natpmpMap true op internal lifetime tries' = (replicate 4 (natpmp_request op internal lifetime), Err NatNoResponse)).
Proof.
  intros Hp Hg Hc Hk Hlost Hans. destruct (natpmp_response_answer op internal lifetime epoch port granted code Hp Hg Hc) as (data & Ea & _ & Er).
  rewrite Ea in Hans. split.
  - assert (Hloop : forall n j sent, (j <= k)%nat -> (k < j + n)%nat ->
      natpmp_loop op internal lifetime n tries j sent =
      (sent ++ replicate (S (k - j)) (natpmp_request op internal lifetime), if code =? 0 then Ok (port, granted) else Err (NatResult code))).
    { induction n as [|n IH]; intros j sent Hj Hn; [lia|]. cbn [natpmp_loop]. destruct (decide (j = k)) as [->|].
      - rewrite Hans. cbn [t_ctx t_write t_read negb]. rewrite Er, Nat.sub_diag. done.
      - rewrite Hlost by lia. cbn [t_ctx t_write t_read negb]. rewrite IH by lia. rewrite <- (assoc_L (++)).
        replace (S (k - j)) with (S (S (k - S j))) by lia. done. }
    unfold natpmpMap. rewrite Hloop by lia. by rewrite Nat.sub_0_r.
  - intros tries' Ht. unfold natpmpMap. cbn [natpmp_loop]. rewrite !Ht by lia. done.
Qed.

Lemma Natpmp_exchange_witness :
  natpmpMap true 2 6881 3600 (fun i => if (i <? 1)%nat then mkTry false true None
      else mkTry false true (gateway_answer 7 40000 1800 0 (natpmp_request 2 6881 3600))) =
    ([natpmp_request 2 6881 3600; natpmp_request 2 6881 3600], Ok (40000, 1800)).
Proof.
  apply (Natpmp_exchange 2 6881 3600 7 40000 1800 0 _ 1); [lia..| |reflexivity].
  intros [|i] Hi; [reflexivity|lia].
Defined.

(** ** Stop *)

(** What the teardown that [Stop] will run, or has read, removes. *)
Definition removable (m : portMapper) : gset mapping :=
  match m_stop m with
  | StopNotCalled => match m_teardown m with Some d => both d | None => ∅ end
  | StopTearing (Some d) => both d
  | _ => ∅
  end.

(** The mappings of a round that is not over. *)
Definition in_progress (m : portMapper) : gset mapping :=
  match m_run m with
  | RunDeviceUDP _ d _ => {[ (Some d, TCP) ]}
  | RunDeviceStore _ d => both (Some d)
  | RunNatUDP _ _ | RunNatUnmap _ => {[ (None, TCP) ]}
  | RunNatStore _ _ => both None
  | _ => ∅
  end.

Definition is_stopping (st : stop_pc) : bool := match st with StopNotCalled => false | _ => true end.

(** The ways in which a mapping gets out of reach: a gateway makes a mapping after [Stop] has begun; it makes one whose answer
    is lost, or a device takes the TCP mapping and refuses the UDP one, and the teardown is not for that gateway; the TCP
    mapping of NAT-PMP cannot be taken back; a renewal moves to another gateway; [Stop] comes between a gateway's
    answer and the lock; the gateway does not honour the removal. *)
Definition leak (l : pm_label) (m : portMapper) : Prop :=
  match l with
  | Call ok mapped _ =>
      (mapped = true /\ is_stopping (m_stop m) = true) \/
      match ok, m_run m with
      | false, RunDevice _ (d :: _) => mapped = true /\ m_teardown m <> Some (Some d)
      | false, RunDeviceUDP _ d _ => m_teardown m <> Some (Some d)
      | false, RunNat _ | false, RunNatUDP _ _ => mapped = true /\ m_teardown m <> Some None
      | _, _ => False
      end
  | Unmap false => m_teardown m <> Some None
  | StoreMapping =>
      match m_run m, m_teardown m with
      | RunDeviceStore _ d, Some d' => d' <> Some d
      | RunNatStore _ _, Some d' => d' <> None
      | _, _ => False
      end
  | StopLock => ~ (in_progress m ⊆ removable m)
  | Teardown a b => (a && b) = false
  | _ => False
  end.

Section Mapper.
Context (internal : Z).

Inductive clean_reach : portMapper -> Prop :=
  | clean_init : clean_reach NewPortMapper
  | clean_next m l m' : clean_reach m -> ~ leak l m -> pm_step internal l m = Some m' -> clean_reach m'.

Record pm_inv (m : portMapper) : Prop := {
  pi_reach : gateway m ⊆ removable m ∪ in_progress m;
  pi_stopped : m_stop m <> StopNotCalled -> gateway m ⊆ removable m /\ (m_run m = RunOff \/ m_cancelled m = true);
  pi_started : m_started m = false <-> m_run m = RunOff
}.

Ltac red_pm :=
  cbn [m_external m_method m_teardown m_started m_cancelled m_run m_stop gateway set_run set_gateway set_stop store cancel_ctx start_run] in *.

(** A step that moves the goroutine and leaves the rest as it is. *)
Lemma pm_move r m : gateway m ⊆ removable m ∪ in_progress (set_run r m) -> r <> RunOff -> m_run m <> RunOff ->
  pm_inv m -> pm_inv (set_run r m).
Proof.
  intros H Hr Hm [H1 H2 H3]. split; [exact H| |]; red_pm.
  - intros Hs. destruct (H2 Hs) as [? [?|?]]; [done|]. split; [done|by right].
  - split; [|done]. intros Hst. by apply H3 in Hst.
Qed.

(** A request: the gateway may have made one more mapping, not after [Stop] has begun. *)
Lemma pm_called r x mapped m : (mapped = true -> m_stop m = StopNotCalled /\ x ∈ removable m ∪ in_progress (set_run r m)) ->
  gateway m ⊆ removable m ∪ in_progress (set_run r m) ->
  r <> RunOff -> m_run m <> RunOff -> pm_inv m -> pm_inv (set_run r (taken mapped x m)).
Proof.
  intros Hx H Hr Hm I. destruct mapped; [|by apply pm_move]. destruct (Hx eq_refl) as [Hs Hin]. destruct I as [H1 H2 H3]. cbn [taken].
  split; red_pm.
  - change (removable (set_run r (set_gateway ({[x]} ∪ gateway m) m))) with (removable m).
    change (in_progress (set_run r (set_gateway ({[x]} ∪ gateway m) m))) with (in_progress (set_run r m)).
    intros y [Hy%elem_of_singleton|Hy]%elem_of_union; [by subst y|by apply H].
  - by rewrite Hs.
  - split; [|done]. intros Hst. by apply H3 in Hst.
Qed.

Lemma teardown_removable d m : m_stop m = StopNotCalled -> m_teardown m = Some d -> removable m = both d.
Proof. intros Hs Ht. unfold removable. by rewrite Hs, Ht. Qed.

(** The TCP mapping of a round that failed is one the teardown removes. *)
Lemma pm_dropped r d m : in_progress m = {[ (d, TCP) ]} -> m_teardown m = Some d -> pm_inv m ->
  gateway m ⊆ removable m ∪ in_progress (set_run r m).
Proof.
  intros Hp Ht [H1 H2 _]. destruct (m_stop m) eqn:Es; try (destruct H2 as [H2 _]; [congruence|]; set_solver).
  assert (removable m = both d) as E by (unfold removable; by rewrite Es, Ht). rewrite E in *. rewrite Hp in H1. unfold both in *. set_solver.
Qed.

Lemma call_inv ok mapped ext m m' : ~ leak (Call ok mapped ext) m -> call_step ok mapped ext m = Some m' -> pm_inv m -> pm_inv m'.
Proof.
  intros Hl H I. pose proof (pi_reach _ I) as H1. unfold call_step in H. destruct (ok && negb mapped) eqn:Eom; [done|]. cbn [leak] in Hl.
  assert (Hs : mapped = true -> m_stop m = StopNotCalled).
  { intros ->. destruct (m_stop m) eqn:Es; [done|..]; exfalso; apply Hl; left; by rewrite ?Es. }
  assert (Hrem : forall d, mapped = true -> m_teardown m = Some d -> forall x, x ∈ both d -> x ∈ removable m).
  { intros d Hm Ht x Hx. by rewrite (teardown_removable d) by auto. }
  unfold upnp_call, natpmp_call in H. destruct (m_run m) as [|k|k [|d devs]|k d devs|k d|k|k e|k|k e| |] eqn:Er; try done; simplify_eq.
  - apply pm_move; [|done|by rewrite Er|done]. unfold in_progress in *. by rewrite Er in H1.
  - apply pm_called; [|unfold in_progress in *; rewrite Er in H1; destruct ok; red_pm; set_solver|by destruct ok|by rewrite Er|done].
    intros Hm. split; [by apply Hs|]. destruct ok; [unfold in_progress; red_pm; set_solver|]. apply elem_of_union_l, (Hrem (Some d) Hm).
    + apply dec_stable. intros Hn. apply Hl. by right.
    + unfold both. set_solver.
  - destruct ok.
    + apply pm_called; [|unfold in_progress, both in *; rewrite Er in H1; red_pm; set_solver|done|by rewrite Er|done].
      intros Hm. split; [by apply Hs|]. unfold in_progress, both. red_pm. set_solver.
    + assert (Ht : m_teardown m = Some (Some d)) by (apply dec_stable; intros Hn; apply Hl; by right).
      apply pm_called; [|by apply (pm_dropped _ (Some d)); [unfold in_progress; by rewrite Er|..]|done|by rewrite Er|done].
      intros Hm. split; [by apply Hs|]. apply elem_of_union_l, (Hrem (Some d) Hm Ht). unfold both. set_solver.
  - apply pm_called; [|unfold in_progress in *; rewrite Er in H1; destruct ok, k; red_pm; set_solver|by destruct ok, k|by rewrite Er|done].
    intros Hm. split; [by apply Hs|]. destruct ok; [unfold in_progress; red_pm; set_solver|]. apply elem_of_union_l, (Hrem None Hm).
    + apply dec_stable. intros Hn. apply Hl. by right.
    + unfold both. set_solver.
  - apply pm_called; [|unfold in_progress, both in *; rewrite Er in H1; destruct ok; red_pm; set_solver|by destruct ok|by rewrite Er|done].
    intros Hm. split; [by apply Hs|]. destruct ok; [unfold in_progress, both; red_pm; set_solver|]. apply elem_of_union_l, (Hrem None Hm).
    + apply dec_stable. intros Hn. apply Hl. by right.
    + unfold both. set_solver.
Qed.

Lemma unmap_sub (d : option nat) (a b : bool) (g : gset mapping) : unmap d a b g ⊆ g.
Proof. unfold unmap. destruct a, b; set_solver. Qed.

Lemma unmap_inv ok m m' : ~ leak (Unmap ok) m -> pm_step internal (Unmap ok) m = Some m' -> pm_inv m -> pm_inv m'.
Proof.
  cbn [pm_step]. intros Hl H I. destruct (m_run m) eqn:Er; try done. simplify_eq.
  assert (Hsub : gateway m ⊆ removable m ∪ in_progress (set_run (round_failed k) m) \/ ok = true).
  { destruct ok; [by right|left]. apply (pm_dropped _ None); [unfold in_progress; by rewrite Er| |done]. by apply dec_stable. }
  destruct I as [H1 H2 H3]. pose proof (unmap_sub None ok false (gateway m)) as Hs.
  assert (Hn : in_progress (set_run (round_failed k) m) = ∅) by (by destruct k).
  split; red_pm.
  - change (removable (set_run _ (set_gateway _ m))) with (removable m).
    change (in_progress (set_run (round_failed k) (set_gateway _ m))) with (in_progress (set_run (round_failed k) m)).
    rewrite Hn in *. unfold in_progress in H1. rewrite Er in H1. destruct Hsub as [Hsub| ->]; [set_solver|]. unfold unmap. set_solver.
  - intros Hst. destruct (H2 Hst) as [Hg [?|?]]; [congruence|]. split; [|by right].
    change (removable (set_run _ (set_gateway _ m))) with (removable m). set_solver.
  - split; [|by destruct k]. intros Hst. apply H3 in Hst. congruence.
Qed.

Lemma store_inv m m' : ~ leak StoreMapping m -> store_step internal m = Some m' -> pm_inv m -> pm_inv m'.
Proof.
  intros Hl H [H1 H2 H3]. unfold store_step in H. cbn [leak] in Hl.
  assert (exists ext me d, m' = set_run RunWait (store ext me d m) /\ in_progress m = both d /\ m_run m <> RunOff /\
            (m_teardown m = None \/ m_teardown m = Some d)) as (ext & me & d & -> & Hp & Hr & Ht).
  { unfold in_progress. destruct (m_run m) as [| | | |k d| | | |k e| |]; try done; simplify_eq; eexists _, _, _; (split; [reflexivity|]);
      (split_and!; [done|done|]); destruct (m_teardown m) as [d'|]; auto; right; f_equal; by apply dec_stable. }
  split; red_pm.
  - unfold removable. red_pm. destruct (m_stop m) as [|[d'|]| |] eqn:Es; [|destruct H2 as [H2 _]; [congruence|]; unfold removable in H2; rewrite Es in H2; set_solver..].
    rewrite Hp in H1. unfold removable in H1. rewrite Es in H1. destruct Ht as [-> | ->] in H1; set_solver.
  - intros Hs. destruct (H2 Hs) as [Hg [?|?]]; [done|]. split; [|by right]. unfold removable in *. red_pm. by destruct (m_stop m).
  - split; [|done]. intros Hst. by apply H3 in Hst.
Qed.

Lemma pm_step_inv l m m' : ~ leak l m -> pm_step internal l m = Some m' -> pm_inv m -> pm_inv m'.
Proof.
  intros Hl H I. pose proof I as [H1 H2 H3]. destruct l as [|devs|ok mapped ext|ok| | | | | |a b|]; cbn [pm_step] in H.
  - destruct (m_stop m) eqn:Es; try done. destruct ((internal =? 0) || m_started m) eqn:E; simplify_eq. bool_prop.
    assert (Er : m_run m = RunOff) by (by apply H3). split; unfold removable, in_progress in *; rewrite ?Er in *; red_pm; try done.
  - destruct (m_run m) eqn:Er; simplify_eq. apply pm_move; [|done|by rewrite Er|done].
    unfold in_progress in *. rewrite Er in H1. exact H1.
  - by eapply call_inv.
  - by eapply unmap_inv.
  - by eapply store_inv.
  - destruct (m_run m) eqn:Er; simplify_eq. apply pm_move; [|by destruct (m_method m)|by rewrite Er|done].
    unfold in_progress in *. rewrite Er in H1. red_pm. by destruct (m_method m).
  - simplify_eq. split; [exact H1| |exact H3]. intros Hs. destruct (H2 Hs). split; [done|by right].
  - destruct (m_run m) eqn:Er; try done. destruct (m_cancelled m); simplify_eq. apply pm_move; [|done|by rewrite Er|done].
    unfold in_progress in *. rewrite Er in H1. exact H1.
  - destruct (m_stop m) eqn:Es; simplify_eq. cbn [leak] in Hl.
    assert (Hp : in_progress m ⊆ removable m) by (by apply dec_stable).
    assert (Hg : gateway m ⊆ removable m) by set_solver.
    assert (E : forall c, removable (set_stop (StopTearing (m_teardown m)) c) = removable m).
    { intros c. unfold removable. rewrite Es. by red_pm; destruct (m_teardown m). }
    destruct (m_started m) eqn:Est; split; rewrite ?E; red_pm; try done; try set_solver.
    all: first [ by rewrite Est | intros _; split; [done|by right] | intros _; split; [done|left; by apply H3] ].
  - cbn [leak] in Hl. destruct a, b; try (exfalso; by apply Hl). destruct (m_stop m) as [|[d|]| |] eqn:Es; simplify_eq.
    + destruct H2 as [Hg Hc]; [done|]. assert (Hz : gateway m ∖ {[(d, TCP)]} ∖ {[(d, UDP)]} ⊆ (∅ : gset mapping)).
      { unfold removable in Hg. rewrite Es in Hg. unfold both in Hg. set_solver. }
      split; red_pm; [set_solver|intros _; split; [exact Hz|exact Hc]|exact H3].
    + destruct H2 as [Hg Hc]; [done|]. unfold removable in Hg. rewrite Es in Hg.
      split; red_pm; [set_solver|intros _; split; [exact Hg|exact Hc]|exact H3].
  - destruct (m_stop m) eqn:Es; try done. destruct H2 as [Hg Hc]; [done|]. unfold removable in Hg. rewrite Es in Hg.
    destruct (m_run m) eqn:Er; simplify_eq; (split; red_pm; [set_solver|intros _; split; [exact Hg|by rewrite ?Er]|by rewrite ?Er in *]).
Qed.

Inductive pm_reach : portMapper -> Prop :=
  | pm_init : pm_reach NewPortMapper
  | pm_next m l m' : pm_reach m -> pm_step internal l m = Some m' -> pm_reach m'.

Lemma clean_inv m : clean_reach m -> pm_inv m.
Proof. induction 1 as [|m l m' _ IH Hl Hs]; [by split|by eapply pm_step_inv]. Qed.

(** The goroutine of a stopped mapper sees the end of its context. *)
Definition stop_seen (m : portMapper) : Prop :=
  (m_stop m <> StopNotCalled -> m_run m = RunOff \/ m_cancelled m = true) /\ (m_started m = false <-> m_run m = RunOff).

Lemma reach_stop_seen m : pm_reach m -> stop_seen m.
Proof.
  induction 1 as [|m l m' _ [H1 H2] H]; [done|]. unfold stop_seen in *.
  assert (Hrun : forall r g, r <> RunOff -> m_run m <> RunOff -> stop_seen (set_run r (set_gateway g m))).
  { intros r g Hr Hm. split; red_pm; [intros Hs; destruct (H1 Hs); [done|by right]|]. split; [|done]. by intros ?%H2. }
  assert (Hrun' : forall r, r <> RunOff -> m_run m <> RunOff -> stop_seen (set_run r m)).
  { intros r Hr Hm. apply (Hrun r (gateway m)) in Hm; [|done]. by destruct m. }
  destruct l as [|devs|ok mapped ext|ok| | | | | |a b|]; cbn [pm_step] in H.
  - destruct (m_stop m) eqn:Es; try done. destruct (_ || _); simplify_eq. split; red_pm; [by rewrite Es|done].
  - destruct (m_run m) eqn:Er; simplify_eq. by apply Hrun'.
  - unfold call_step, upnp_call, natpmp_call in H. destruct (_ && _); [done|].
    destruct (m_run m) as [|k|k [|d devs]|k d devs|k d|k|k e|k|k e| |] eqn:Er; try done; simplify_eq; destruct ok, mapped; cbn [taken];
      first [apply Hrun; [by try destruct k|done] | apply Hrun'; [by try destruct k|done]].
  - destruct (m_run m) eqn:Er; simplify_eq. apply Hrun; [by destruct k|done].
  - unfold store_step in H. destruct (m_run m) eqn:Er; simplify_eq; split; red_pm; try (intros Hs; destruct (H1 Hs); [done|by right]);
      (split; [|done]); by intros ?%H2.
  - destruct (m_run m) eqn:Er; simplify_eq. apply Hrun'; [by destruct (m_method m)|done].
  - simplify_eq. split; red_pm; [intros _; by right|done].
  - destruct (m_run m) eqn:Er; try done. destruct (m_cancelled m) eqn:Ec; simplify_eq. by apply Hrun'.
  - destruct (m_stop m) eqn:Es; simplify_eq. destruct (m_started m) eqn:Est; split; red_pm; try done.
    all: first [ by rewrite Est | intros _; by right | intros _; left; by apply H2 ].
  - destruct (m_stop m) as [|[d|]| |] eqn:Es; simplify_eq; (split; red_pm; [intros _; by apply H1|done]).
  - destruct (m_stop m) eqn:Es; try done. destruct (m_run m) eqn:Er; simplify_eq; (split; red_pm; rewrite ?Er; [intros _; auto|done]); right; by destruct H1.
Qed.

Lemma run_trans ls1 ls2 m m1 : pm_run internal ls1 m = Some m1 -> pm_run internal (ls1 ++ ls2) m = pm_run internal ls2 m1.
Proof.
  revert m. induction ls1 as [|l ls1 IH]; intros m H; cbn in *; [by simplify_eq|]. destruct (pm_step internal l m); [by apply IH|done].
Qed.

(** Anything but the end of the context [Start] was given. *)
Definition by_itself (l : pm_label) : bool := match l with ParentDone => false | _ => true end.

(** The goroutine can always finish once its context has ended, without touching the rest of [Stop]. *)
Lemma run_finishes m : m_cancelled m = true -> m_run m <> RunOff ->
  exists ls m', forallb by_itself ls = true /\ pm_run internal ls m = Some m' /\ m_run m' = RunDone /\ m_stop m' = m_stop m.
Proof.
  intros Hc Hr.
  assert (Hwait : forall m, m_cancelled m = true -> m_run m = RunWait -> exists ls m', forallb by_itself ls = true /\ pm_run internal ls m = Some m' /\ m_run m' = RunDone /\ m_stop m' = m_stop m).
  { intros m1 H1 H2. exists [ContextDone]. eexists. cbn. rewrite H2, H1. done. }
  assert (Hfail : forall m k, m_cancelled m = true -> m_run m = round_failed k -> exists ls m', forallb by_itself ls = true /\ pm_run internal ls m = Some m' /\ m_run m' = RunDone /\ m_stop m' = m_stop m).
  { intros m1 k H1 H2. destruct k; [by exists [], m1|by apply Hwait..]. }
  assert (Hgo : forall l m1 m2, m_stop m2 = m_stop m1 -> by_itself l = true -> pm_step internal l m1 = Some m2 ->
    (exists ls m', forallb by_itself ls = true /\ pm_run internal ls m2 = Some m' /\ m_run m' = RunDone /\ m_stop m' = m_stop m2) ->
    exists ls m', forallb by_itself ls = true /\ pm_run internal ls m1 = Some m' /\ m_run m' = RunDone /\ m_stop m' = m_stop m1).
  { intros l m1 m2 Es Hl Hs (ls & m' & Hls & H1 & H2 & H3). exists (l :: ls), m'. cbn. rewrite Hs, Hl. cbn. split_and!; congruence. }
  assert (Hnat : forall m k, m_cancelled m = true -> m_run m = RunNat k -> exists ls m', forallb by_itself ls = true /\ pm_run internal ls m = Some m' /\ m_run m' = RunDone /\ m_stop m' = m_stop m).
  { intros m1 k H1 H2. apply (Hgo (Call false false 0) m1 (set_run (round_failed k) m1)); [done|done|cbn; unfold call_step, upnp_call, natpmp_call; by rewrite H2|by apply (Hfail _ k)]. }
  assert (Hdev : forall devs m k, m_cancelled m = true -> m_run m = RunDevice k devs -> exists ls m', forallb by_itself ls = true /\ pm_run internal ls m = Some m' /\ m_run m' = RunDone /\ m_stop m' = m_stop m).
  { induction devs as [|d devs IH]; intros m1 k H1 H2.
    - apply (Hgo (Call false false 0) m1 (set_run (RunNat k) m1)); [done|done|cbn; unfold call_step, upnp_call, natpmp_call; by rewrite H2|by apply (Hnat _ k)].
    - apply (Hgo (Call false false 0) m1 (set_run (RunDevice k devs) m1)); [done|done|cbn; unfold call_step, upnp_call, natpmp_call; by rewrite H2|by apply (IH _ k)]. }
  destruct (m_run m) as [|k|k devs|k d devs|k d|k|k e|k|k e| |] eqn:Er; [done|..].
  - apply (Hgo (Discovered []) m (set_run (RunDevice k []) m)); [done|done|cbn; by rewrite Er|by apply (Hdev [] _ k)].
  - by apply (Hdev devs m k).
  - apply (Hgo (Call false false 0) m (set_run (RunDevice k devs) m)); [done|done|cbn; unfold call_step, upnp_call, natpmp_call; by rewrite Er|by apply (Hdev devs _ k)].
  - apply (Hgo StoreMapping m (set_run RunWait (store internal MethodUPnP (Some d) m))); [done|done|cbn; unfold store_step; by rewrite Er|by apply Hwait].
  - by apply (Hnat m k).
  - apply (Hgo (Call false false 0) m (set_run (RunNatUnmap k) m)); [done|done|cbn; unfold call_step, upnp_call, natpmp_call; by rewrite Er|].
    eapply (Hgo (Unmap true)); [|done|cbn; reflexivity|by apply (Hfail _ k)]. done.
  - eapply (Hgo (Unmap true)); [|done|cbn; rewrite Er; reflexivity|by apply (Hfail _ k)]. done.
  - apply (Hgo StoreMapping m (set_run RunWait (store e MethodNATPMP None m))); [done|done|cbn; unfold store_step; by rewrite Er|by apply Hwait].
  - by apply Hwait.
  - by exists [], m.
Qed.

(** C32: [Stop] removes what was mapped.  In every run in which no mapping gets out of reach ([leak] lists the
    ways, lost answers and requests a gateway still honours after [Stop] has begun among them), no mapping is left on any gateway when [Stop] has returned, however its steps and those of the
    refreshing goroutine interleave; and whatever happened, a [Stop] that was called can come to its end by itself,
    without the context of [Start] ending. *)
Theorem Portmap_stop_clean m :
  (clean_reach m -> m_stop m = StopReturned -> gateway m = ∅) /\
  (pm_reach m -> m_stop m <> StopNotCalled -> exists ls m', forallb by_itself ls = true /\ pm_run internal ls m = Some m' /\ m_stop m' = StopReturned).
Proof.
  split.
  - intros Hr Hs. apply clean_inv in Hr as [_ H _]. destruct H as [H _]; [by rewrite Hs|].
    unfold removable in H. rewrite Hs in H. set_solver.
  - intros Hr Hs. apply reach_stop_seen in Hr as Hseen.
    assert (Hw : exists ls m', forallb by_itself ls = true /\ pm_run internal ls m = Some m' /\ (m_stop m' = StopWaiting \/ m_stop m' = StopReturned) /\ stop_seen m').
    { destruct (m_stop m) as [|[d|]| |] eqn:Es; [done| | | |].
      - exists [Teardown true true]. eexists. cbn. rewrite Es. cbn. split; [reflexivity|]. split; [reflexivity|]. split; [by left|].
        destruct Hseen as [H1 H2]. split; red_pm; [intros _; apply H1; by rewrite Es|done].
      - exists [Teardown true true]. eexists. cbn. rewrite Es. cbn. split; [reflexivity|]. split; [reflexivity|]. split; [by left|].
        destruct Hseen as [H1 H2]. split; red_pm; [intros _; apply H1; by rewrite Es|done].
      - exists [], m. split_and!; [done|done|by left|done].
      - exists [], m. split_and!; [done|done|by right|done]. }
    destruct Hw as (ls1 & m1 & F1 & E1 & [Hst|Hst] & [Hseen1 _]); [|by exists ls1, m1].
    destruct (Hseen1 ltac:(by rewrite Hst)) as [Hoff|Hc].
    + exists (ls1 ++ [StopWait]). eexists. rewrite !forallb_app, F1, ?F2, (run_trans _ _ _ _ E1). cbn. rewrite Hst, Hoff. done.
    + assert (m_run m1 = RunOff \/ m_run m1 <> RunOff) as [Hoff|Hon] by (destruct (m_run m1); auto).
      { exists (ls1 ++ [StopWait]). eexists. rewrite !forallb_app, F1, ?F2, (run_trans _ _ _ _ E1). cbn. rewrite Hst, Hoff. done. }
      destruct (run_finishes m1 Hc Hon) as (ls2 & m2 & F2 & E2 & Hd & Hst2).
      exists (ls1 ++ ls2 ++ [StopWait]). eexists. rewrite !forallb_app, F1, ?F2, (run_trans _ _ _ _ E1), (run_trans _ _ _ _ E2). cbn. rewrite Hst2, Hst, Hd. done.
Qed.
End Mapper.

Definition pm_after (ls : list pm_label) : portMapper := default NewPortMapper (pm_run 6881 ls NewPortMapper).
Definition map_and_stop : list pm_label :=
  [PmStart; Discovered [0%nat]; Call true true 0; Call true true 0; StoreMapping; StopLock; Teardown true true; ContextDone; StopWait].

#[global] Instance leak_dec l m : Decision (leak l m).
Proof.
  destruct l as [|devs|ok mapped ext|[]| | | | | |a b|]; cbn; try apply _.
  - destruct ok, (m_run m) as [|k|k []|k d devs|k d|k|k e|k|k e| |]; apply _.
  - destruct (m_run m); try apply _; destruct (m_teardown m); apply _.
Defined.

(** Run the labels as long as nothing leaks. *)
Fixpoint clean_run (internal : Z) (ls : list pm_label) (m : portMapper) : option portMapper :=
  match ls with
  | [] => Some m
  | l :: ls => if decide (leak l m) then None else m ← pm_step internal l m; clean_run internal ls m
  end.

Lemma clean_run_reach internal ls m m' : clean_reach internal m -> clean_run internal ls m = Some m' -> clean_reach internal m'.
Proof.
  revert m. induction ls as [|l ls IH]; intros m Hr H; cbn in H; [by simplify_eq|]. destruct (decide (leak l m)); [done|].
  destruct (pm_step internal l m) eqn:E; [|done]. cbn in H. eapply IH; [|done]. by eapply clean_next.
Qed.

Lemma Portmap_stop_clean_witness : m_stop (pm_after map_and_stop) = StopReturned /\ gateway (pm_after map_and_stop) = ∅.
Proof.
  assert (Hr : clean_reach 6881 (pm_after map_and_stop)).
  { apply (clean_run_reach 6881 map_and_stop NewPortMapper); [apply clean_init|]. vm_compute. reflexivity. }
  split; [reflexivity|]. apply (proj1 (Portmap_stop_clean 6881 (pm_after map_and_stop)) Hr). reflexivity.
Defined.

(** A device that takes the TCP mapping and refuses the UDP one keeps the TCP mapping for its whole lease: the error
    path of [soapAddPortMapping] does not take it back. *)
Lemma refused_udp_leaves_tcp :
  let m := pm_after [PmStart; Discovered [0%nat]; Call true true 0; Call false false 0; Call false false 0; Call false false 0; StopLock; Teardown true true; StopWait] in
  m_stop m = StopReturned /\ gateway m = {[ (Some 0%nat, TCP) ]}.
Proof. split; [reflexivity|]. vm_compute. reflexivity. Qed.

(** When a renewal over UPnP fails and NAT-PMP takes over, the teardown of the UPnP mapping is forgotten. *)
Lemma fallback_forgets_upnp :
  let m := pm_after [PmStart; Discovered [0%nat]; Call true true 0; Call true true 0; StoreMapping; Timer; Discovered []; Call true true 0; Call true true 6881;
                     Call true true 0; StoreMapping; StopLock; Teardown true true; ContextDone; StopWait] in
  m_stop m = StopReturned /\ gateway m = both (Some 0%nat).
Proof. split; [reflexivity|]. vm_compute. reflexivity. Qed.

(** A [Stop] between the gateway's last answer and the lock in [tryUPnP] reads no teardown: the mapping stays. *)
Lemma stop_before_store_leaves_mapping :
  let m := pm_after [PmStart; Discovered [0%nat]; Call true true 0; Call true true 0; StopLock; Teardown true true; StoreMapping; ContextDone; StopWait] in
  m_stop m = StopReturned /\ gateway m = both (Some 0%nat).
Proof. split; [reflexivity|]. vm_compute. reflexivity. Qed.

(** The gateway makes the mapping and its answer is lost: nothing takes the mapping back. *)
Lemma lost_answer_leaves_mapping :
  let m := pm_after [PmStart; Discovered []; Call false false 0; Call false true 0; StopLock; Teardown true true; StopWait] in
  m_stop m = StopReturned /\ gateway m = {[ (None, TCP) ]}.
Proof. split; [reflexivity|]. vm_compute. reflexivity. Qed.

(** [ExternalPort] and [Method] still tell of a mapping after [Stop]. *)
Lemma external_after_stop : m_external (pm_after map_and_stop) = 6881 /\ m_method (pm_after map_and_stop) = MethodUPnP.
Proof. split; reflexivity. Qed.

(** An answer to another request (here: for UDP, another port) is taken for the one that was asked for. *)
Lemma natpmp_answer_unchecked :
  exists data, gateway_answer 0 1234 60 0 (natpmp_request 1 9999 60) = Some data /\
    (natpmpMap true 2 6881 3600 (fun _ => mkTry false true (Some data))).2 = Ok (1234, 60).
Proof. eexists. split; [vm_compute; reflexivity|]. vm_compute. reflexivity. Qed.
