(* ===== verification/Display.v ===== *)
(** * What a client of the engine is shown ([download/peerinfo.go], [download/progress.go], [engine/session.go], [engine/engine.go])

    The client's name in a peer id, the snapshots of peers, of progress and of files, and the statistics of the engine.
    A floating-point number is an element of [float]; the divisions that make one are arguments, as are the rates, the
    transfer speeds and the free space at the moment of the call. *)

From S2P Require Import Prelude Strconv Net Bitfield Torrent Paths Client Engine Queue Announcer Lifecycle.
Set Warnings "-clear-no-such-hyp".
Local Open Scope Z_scope.

(** ** Peer ids *)

Definition azureusClientNames : list (bytes * bytes) := (fun p => (lit p.1, lit p.2)) <$> [
  ("7T", "aTorrent"); ("AB", "AnyEvent::BitTorrent"); ("AT", "Artemis"); ("AX", "BitPump"); ("AZ", "Azureus");
  ("BB", "BitBuddy"); ("BC", "BitComet"); ("BE", "BitTorrent SDK"); ("BF", "BitFlu"); ("BG", "BTG"); ("BI", "BiglyBT");
  ("BL", "BitBlinder"); ("BP", "BitTorrent Pro"); ("BR", "BitRocket"); ("BS", "BTSlave"); ("BT", "BitTorrent");
  ("BW", "BitWombat"); ("BX", "BittorrentX"); ("CD", "Enhanced CTorrent"); ("CT", "CTorrent"); ("DE", "Deluge");
  ("DP", "Propagate Data Client"); ("EB", "EBit"); ("ES", "electric sheep"); ("FC", "FileCroc");
  ("FD", "Free Download Manager"); ("FT", "FoxTorrent"); ("FW", "FrostWire"); ("FX", "Freebox BitTorrent");
  ("GS", "GSTorrent"); ("HK", "Hekate"); ("HL", "Halite"); ("HN", "Hydranode"); ("KG", "KGet"); ("KT", "KTorrent");
  ("LC", "LeechCraft"); ("LH", "LH-ABC"); ("LP", "Lphant"); ("LT", "libtorrent"); ("lt", "libTorrent");
  ("LW", "LimeWire"); ("MK", "Meerkat"); ("MO", "MonoTorrent"); ("MP", "MooPolice"); ("MR", "Miro");
  ("MT", "MoonlightTorrent"); ("NB", "Net::BitTorrent"); ("NX", "Net Transport"); ("OS", "OneSwarm");
  ("OT", "OmegaTorrent"); ("PB", "Protocol::BitTorrent"); ("PD", "Pando"); ("PI", "PicoTorrent"); ("qB", "qBittorrent");
  ("QD", "QQDownload"); ("RT", "Retriever"); ("RZ", "RezTorrent"); ("S~", "Shareaza alpha/beta"); ("SB", "Swiftbit");
  ("SD", "Thunder"); ("SM", "SoMud"); ("SP", "BitSpirit"); ("SS", "SwarmScope"); ("ST", "stor"); ("st", "SharkTorrent");
  ("SZ", "Shareaza"); ("TB", "Torch"); ("TE", "terasaur Seed Bank"); ("TL", "Tribler"); ("TN", "TorrentDotNET");
  ("TR", "Transmission"); ("TS", "Torrentstorm"); ("TT", "TuoTu"); ("UL", "uLeecher!"); ("UM", "µTorrent Mac");
  ("UT", "µTorrent"); ("VG", "Vagaa"); ("WD", "WebTorrent Desktop"); ("WT", "BitLet"); ("WW", "WebTorrent");
  ("WY", "FireTorrent"); ("XF", "Xfplay"); ("XL", "Xunlei"); ("XS", "XSwifter"); ("XT", "XanTorrent"); ("XX", "Xtorrent");
  ("ZT", "ZipTorrent")]%string.

Definition shadowClientNames : list (bytes * bytes) := (fun p => (lit p.1, lit p.2)) <$> [
  ("A", "ABC"); ("O", "Osprey Permaseed"); ("Q", "BTQueue"); ("R", "Tribler"); ("S", "Shadow"); ("T", "BitTornado");
  ("U", "UPnP NAT BT")]%string.

Definition name_of (names : list (bytes * bytes)) (code : bytes) : option bytes :=
  snd <$> List.find (fun p => bool_decide (p.1 = code)) names.

(** The second test for digits comes after a return on the same condition. *)
Definition decodeAzureusVersion (v : bytes) : bytes :=
  match v with
  | [a; b; c; d] =>
      if forallb is_digit v then
        let patch := if Byte.eqb d x30 then [c] else [c; d] in
        let patch := match parse_int64 patch with Some n => itoa n | None => patch end in
        [a] ++ lit "." ++ [b] ++ lit "." ++ patch
      else v
  | _ => v
  end.

Definition dash : byte := x2d.
Definition Unknown : bytes := lit "Unknown".

(** [id] has 20 bytes. *)
Definition DecodePeerID (id : bytes) : bytes :=
  if bool_decide (id = replicate 20 x00) then Unknown
  else if bool_decide (id !! 0%nat = Some dash) && bool_decide (id !! 7%nat = Some dash) then
    let code := slice id 1 3 in
    match name_of azureusClientNames code with
    | None => lit "Unknown (" ++ code ++ lit ")"
    | Some name =>
        match decodeAzureusVersion (slice id 3 7) with
        | [] => name
        | version => name ++ lit " " ++ version
        end
    end
  else
    let first := match id with b :: _ => u8 b | [] => 0 end in
    if (65 <=? first) && (first <=? 90) && bool_decide (id !! 6%nat = Some dash) then
      default Unknown (name_of shadowClientNames (slice id 0 1))
    else if bool_decide (id !! 0%nat = Some x4d) && bool_decide (id !! 2%nat = Some dash) then
      lit "Mainline " ++ slice id 1 6
    else Unknown.

(** [strings.TrimRight] with a zero byte. *)
Fixpoint trim_zeros (s : bytes) : bytes :=
  match s with
  | [] => []
  | b :: s => match trim_zeros s with [] => if Byte.eqb b x00 then [] else [b] | t => b :: t end
  end.

(** ** Snapshots *)

Section Display.
Context {float : Type} (f0 f100 : float) (of_int : Z -> float).
(** [float64(a) / float64(b)], and the same in percent. *)
Context (ratio percent : Z -> Z -> float).

(** The fields of a connection that [Client] of the peer protocol does not have; [ci_rates] while it is registered with
    the rate sampler; [ci_speed] and [ci_upspeed] are [Speed] and [UploadSpeed]. *)
Record conn_info := mkInfo_ {
  ci_Addr : bytes; ci_Incoming : bool; ci_UsingUTP : bool; ci_Encrypted : bool; ci_PeerID : bytes;
  ci_rates : option (Z * Z); ci_speed : float; ci_upspeed : float
}.

Record PeerSnap := mkPeerSnap {
  sn_Addr : bytes; sn_IPVersion : Z; sn_Incoming : bool; sn_UsingUTP : bool; sn_Encrypted : bool; sn_Client : bytes;
  sn_PeerID : bytes; sn_DownRate : float; sn_UpRate : float; sn_Choked : bool; sn_Choking : bool; sn_Progress : float
}.

Section Peers.
Context (SplitHostPort : bytes -> option (bytes * bytes)) (ParseIP : bytes -> option IP).

Definition ip_version (addr : bytes) : Z :=
  match SplitHostPort addr with
  | Some (host, _) => match ParseIP host with Some ip => if bool_decide (To4 ip = None) then 6 else 4 | None => 4 end
  | None => 4
  end.

(** The pieces of [numPieces] that the peer has. *)
Definition peer_have (numPieces : Z) (c : Client) : Z :=
  if haveAll c then numPieces
  else match bitfield c with Some bf => len (filter (fun i => HasPiece bf i = true) (seqZ 0 numPieces)) | None => 0 end.

Definition client_Snapshot (numPieces : Z) (c : Client) (i : conn_info) : PeerSnap :=
  mkPeerSnap (ci_Addr i) (ip_version (ci_Addr i)) (ci_Incoming i) (ci_UsingUTP i) (ci_Encrypted i) (DecodePeerID (ci_PeerID i))
    (trim_zeros (ci_PeerID i))
    (match ci_rates i with Some (d, _) => of_int d | None => ci_speed i end)
    (match ci_rates i with Some (_, u) => of_int u | None => ci_upspeed i end)
    (choked c) (choking c)
    (if 0 <? numPieces then ratio (peer_have numPieces c) numPieces else f0).

(** [PeerManager.Snapshot] and [Uploader.Snapshot], over the clients each lists. *)
Definition peers_Snapshot (numPieces : Z) (peers : list (Client * conn_info)) : list PeerSnap :=
  (fun p => client_Snapshot numPieces p.1 p.2) <$> peers.

(** [Session.PeerList]: the peers of the manager and of the uploader, where there are such. *)
Definition PeerList (tf : option TorrentFile) (pm up : option (list (Client * conn_info))) : list PeerSnap :=
  let numPieces := match tf with Some tf => len (PieceHashes (t_Info tf)) | None => 0 end in
  match pm with Some ps => peers_Snapshot numPieces ps | None => [] end ++
  match up with Some ps => peers_Snapshot numPieces ps | None => [] end.
End Peers.

Definition state_text (st : State) : bytes :=
  match st with
  | StateAdding => lit "adding" | StateMetadata => lit "metadata" | StateVerifying => lit "verifying"
  | StateDownloading => lit "downloading" | StateSeeding => lit "seeding" | StateComplete => lit "complete"
  | StatePaused => lit "paused" | StateError => lit "error"
  end.

(** [VerifyPercent] is never set. *)
Record ProgressSnap := mkSnap {
  ps_State : bytes; ps_Downloaded : Z; ps_Uploaded : Z; ps_Total : Z; ps_Percent : float; ps_DownSpeed : Z; ps_UpSpeed : Z;
  ps_ActivePeers : Z; ps_KnownPeers : Z; ps_TotalPieces : Z; ps_DonePieces : Z; ps_LastTrackerError : bytes
}.

(** [Progress.Snap]; [downRate] and [upRate] are what the sampler wrote last. *)
Definition progress_Snap (downRate upRate : Z) (p : Progress) : ProgressSnap :=
  mkSnap [] (downloaded p) (p_uploaded p) (totalBytes p)
    (if 0 <? totalBytes p then percent (downloaded p) (totalBytes p) else f0)
    (if completed p <? totalPieces p then downRate else 0) upRate (activePeers p) 0 (totalPieces p) (completed p) [].

Definition inactive (st : State) : bool := match st with StatePaused | StateComplete | StateError => true | _ => false end.

(** What [Snap] reads besides the session: the rates, [TotalUploadSpeed] and [PeerCount] of the uploader, and
    [lastTrackerError]. *)
Record moment := mkMoment { m_down : Z; m_up : Z; m_served : Z; m_clients : Z; m_tracker : bytes }.

Definition session_Snap (m : moment) (s : sess) : ProgressSnap :=
  let st := sess_state s in
  let total := TotalBytes (rec s) in
  match prog s, uploader s with
  | Some p, u =>
      let q := progress_Snap (m_down m) (m_up m) p in
      let '(down, up, peers) :=
        if inactive st then (0, 0, ps_ActivePeers q)
        else match u with
             | Some _ => (ps_DownSpeed q, i64 (m_up m + m_served m), i64 (ps_ActivePeers q + m_clients m))
             | None => (ps_DownSpeed q, m_up m, ps_ActivePeers q)
             end in
      mkSnap (state_text st) (ps_Downloaded q) (ps_Uploaded q) (ps_Total q) (ps_Percent q) down up peers (knownPeers s)
        (ps_TotalPieces q) (ps_DonePieces q) (m_tracker m)
  | None, Some _ => mkSnap (state_text st) total 0 total f100 0 (m_served m) (m_clients m) (knownPeers s) 0 0 (m_tracker m)
  | None, None =>
      let '(pct, got) := if bool_decide (st = StateComplete) then (f100, total) else (f0, 0) in
      mkSnap (state_text st) got 0 total pct 0 0 0 (knownPeers s) 0 0 (m_tracker m)
  end.

(** ** Files *)

Record FileEntry := mkFileEntry { fe_Path : bytes; fe_Length : Z; fe_Downloaded : Z; fe_Priority : Z }.

Definition priorityOf (prios : list Z) (i : nat) : Z := default PriorityNormal (prios !! i).

Fixpoint list_files (bf : option Bitfield) (prios : list Z) (pl total np : Z) (i : nat) (offset : Z) (files : list File) : list FileEntry :=
  match files with
  | [] => []
  | f :: files =>
      mkFileEntry (Join (f_Path f)) (f_Length f) (computeFileDownloaded bf offset (f_Length f) pl total np) (priorityOf prios i)
        :: list_files bf prios pl total np (S i) (i64 (offset + f_Length f)) files
  end.

(** The live bitfield, else the stored one when it is not empty. *)
Definition shown_bitfield (s : sess) : option Bitfield :=
  match haveBF s with
  | Some bf => Some bf
  | None => if bool_decide (Bitfield_ (rec s) = []) then None else Some (Bitfield_ (rec s))
  end.

Definition shown_meta (sha1 sha256 : bytes -> bytes) (s : sess) : option TorrentFile :=
  match meta s with
  | Some tf => Some tf
  | None => match TorrentData (rec s) with [] => None | data => match Parse sha1 sha256 data with Ok tf => Some tf | Err _ => None end end
  end.

Definition Files_of (bf : option Bitfield) (prios : list Z) (tf : TorrentFile) : list FileEntry :=
  let info := t_Info tf in
  let np := len (PieceHashes info) in
  match Files info with
  | [] => [mkFileEntry (Name info) (i_Length info) (computeFileDownloaded bf 0 (i_Length info) (PieceLength info) (TotalSize tf) np)
             (priorityOf prios 0)]
  | files => list_files bf prios (PieceLength info) (TotalSize tf) np 0 0 files
  end.

Definition session_Files (sha1 sha256 : bytes -> bytes) (s : sess) : list FileEntry :=
  match shown_meta sha1 sha256 s with
  | None => []
  | Some tf => Files_of (shown_bitfield s) (FilePriorities (rec s)) tf
  end.

(** ** The engine *)

Record TorrentInfo := mkTorrentInfo {
  ti_ID : bytes; ti_Name : bytes; ti_Source : bytes; ti_State : State; ti_QueuePosition : Z; ti_Progress : ProgressSnap;
  ti_SavePath : bytes; ti_TotalBytes : Z; ti_AddedAt : Z; ti_CompletedAt : Z; ti_Error : bytes
}.

(** The sessions of the engine, each with the moment at which it is read. *)
Abbreviation engine_sessions := (gmap bytes (sess * moment)).

Definition sessionToInfo (x : sess * moment) : TorrentInfo :=
  let r := rec x.1 in
  mkTorrentInfo (ID r) (Name_ r) (Source r) (State_ r) (QueuePosition r) (session_Snap x.2 x.1) (SavePath r) (TotalBytes r)
    (AddedAt r) (CompletedAt r) (Error_ r).

Definition GetTorrent (id : bytes) (m : engine_sessions) : option TorrentInfo := sessionToInfo <$> m !! id.

(** [order] is the iteration order of the map. *)
Definition ListTorrents (order : list bytes) (m : engine_sessions) : list TorrentInfo := omap (fun id => GetTorrent id m) order.

Definition TorrentFiles (sha1 sha256 : bytes -> bytes) (id : bytes) (m : engine_sessions) : option (list FileEntry) :=
  (fun x => session_Files sha1 sha256 x.1) <$> m !! id.

Record EngineStats := mkStats {
  st_DownSpeed : Z; st_UpSpeed : Z; st_Downloaded : Z; st_Uploaded : Z; st_Active : Z; st_Seeding : Z; st_Torrents : Z;
  st_MaxActive : Z; st_Peers : Z; st_KnownPeers : Z; st_DHTNodes : Z; st_FreeSpace : Z
}.

Definition add_snap (st : EngineStats) (q : ProgressSnap) : EngineStats :=
  let live := bool_decide (ps_State q = state_text StateDownloading) || bool_decide (ps_State q = state_text StateVerifying) in
  let seeding := bool_decide (ps_State q = state_text StateSeeding) in
  mkStats (if live then i64 (st_DownSpeed st + ps_DownSpeed q) else st_DownSpeed st) (i64 (st_UpSpeed st + ps_UpSpeed q))
    (i64 (st_Downloaded st + ps_Downloaded q)) (i64 (st_Uploaded st + ps_Uploaded q))
    (if live then st_Active st + 1 else st_Active st) (if seeding then st_Seeding st + 1 else st_Seeding st) (st_Torrents st)
    (st_MaxActive st) (i64 (st_Peers st + ps_ActivePeers q)) (i64 (st_KnownPeers st + ps_KnownPeers q)) (st_DHTNodes st)
    (st_FreeSpace st).

(** [GetStats] without the copy of the configuration; [nodes] is the size of the DHT's table, [free] what [diskFreeSpace]
    returns. *)
Definition GetStats (order : list bytes) (maxActive nodes free : Z) (m : engine_sessions) : EngineStats :=
  let st := foldl add_snap (mkStats 0 0 0 0 0 0 (Z.of_nat (base.size m)) maxActive 0 0 0 0)
              (omap (fun id => (fun x => session_Snap x.2 x.1) <$> m !! id) order) in
  mkStats (st_DownSpeed st) (st_UpSpeed st) (st_Downloaded st) (st_Uploaded st) (st_Active st) (st_Seeding st) (st_Torrents st)
    (st_MaxActive st) (st_Peers st) (st_KnownPeers st) nodes free.
End Display.

Arguments conn_info : clear implicits.
Arguments PeerSnap : clear implicits.
Arguments ProgressSnap : clear implicits.
Arguments TorrentInfo : clear implicits.
