(* ===== verification/DisplayTheorems.v ===== *)
(** * The snapshots of [Display] agree with the state they show

    The files' progress adds up to the bytes of the complete pieces, the statistics count every torrent once whatever the
    order of iteration, the snapshot of a session carries its state, and a peer id of the common form gives its client's
    name and version. *)

From S2P Require Import Prelude Strconv Net Bitfield Torrent Paths Client Engine EngineTheorems Queue Announcer Lifecycle LifecycleTheorems Display.
Set Warnings "-clear-no-such-hyp".
Local Open Scope Z_scope.

(** ** Files *)

Record shown_ok (tf : TorrentFile) : Prop := {
  ok_pl : 0 < PieceLength (t_Info tf);
  ok_np : len (PieceHashes (t_Info tf)) * PieceLength (t_Info tf) <= MaxInt64;
  ok_cover : TotalSize tf <= len (PieceHashes (t_Info tf)) * PieceLength (t_Info tf);
  ok_files : match Files (t_Info tf) with
             | [] => 0 <= i_Length (t_Info tf)
             | files => i_Length (t_Info tf) = 0 /\ Forall (fun f => 0 <= f_Length f) files /\ wsum f_Length files <= MaxInt64
             end
}.

Lemma file_within bf offset n pl total np :
  0 <= offset -> 0 <= n -> offset + n <= total -> total <= np * pl -> 0 < pl -> 0 <= np -> np * pl <= MaxInt64 ->
  computeFileDownloaded (Some bf) offset n pl total np = count_bytes (complete bf pl) offset (offset + n).
Proof.
  intros H0 Hn Hin Hcov Hpl Hnp Hmax. rewrite FileDownloaded_exact by lia. unfold count_bytes.
  rewrite Z.add_simpl_l. do 2 f_equal. apply filter_ext_in. intros x [Hx1 Hx2]%elem_of_seqZ.
  split; [by intros [H _]|intros H; split; [done|lia]].
Qed.

Lemma foldl_total (files : list File) a :
  0 <= a -> Forall (fun f => 0 <= f_Length f) files -> a + wsum f_Length files <= MaxInt64 ->
  foldl (fun total f => i64 (total + f_Length f)) a files = a + wsum f_Length files.
Proof.
  revert a. induction files as [|f files IH]; intros a Ha Hf Hs; cbn [foldl wsum] in *; [lia|].
  apply Forall_cons in Hf as [Hf Hfs].
  assert (0 <= wsum f_Length files).
  { clear -Hfs. induction Hfs; cbn [wsum]; lia. }
  rewrite i64_id by (unfold in_i64, MinInt64 in *; lia). rewrite IH by (done || lia). lia.
Qed.

(** The entries from [offset] on: each within its file's length, together the complete bytes of the range. *)
Lemma list_files_account bf prios pl total np files : forall i offset,
  0 < pl -> 0 <= np -> np * pl <= MaxInt64 -> total <= np * pl -> 0 <= offset ->
  Forall (fun f => 0 <= f_Length f) files -> offset + wsum f_Length files <= total ->
  let l := list_files (Some bf) prios pl total np i offset files in
  (fun e => (fe_Path e, fe_Length e)) <$> l = (fun f => (Join (f_Path f), f_Length f)) <$> files /\
  Forall (fun e => 0 <= fe_Downloaded e <= fe_Length e) l /\
  wsum fe_Downloaded l = count_bytes (complete bf pl) offset (offset + wsum f_Length files).
Proof.
  induction files as [|f files IH]; intros i offset Hpl Hnp Hmax Hcov Hoff Hf Hs; cbn [list_files wsum fmap list_fmap] in *.
  { split; [done|]. split; [constructor|]. by rewrite count_empty by lia. }
  apply Forall_cons in Hf as [Hf Hfs].
  assert (0 <= wsum f_Length files) by (clear -Hfs; induction Hfs; cbn [wsum]; lia).
  rewrite file_within by lia. rewrite i64_id by (unfold in_i64, MinInt64 in *; lia).
  destruct (IH (S i) (offset + f_Length f)) as (H1 & H2 & H3); try done; try lia.
  split; [by rewrite H1|]. split.
  - constructor; [|done]. cbn [fe_Downloaded fe_Length]. pose proof (count_range (complete bf pl) offset (offset + f_Length f)). lia.
  - cbn [fe_Downloaded]. rewrite H3, Z.add_assoc. symmetry. apply count_split. lia.
Qed.

(** The file list shown for a torrent has the torrent's files, in their order and with their lengths; no file shows
    more than its length, and the bytes shown as downloaded add up to exactly the bytes of the torrent that lie in
    complete pieces: a piece across several files is split between them, nothing is counted twice or lost. *)
Lemma Files_account (bf : Bitfield) (prios : list Z) (tf : TorrentFile) :
  shown_ok tf ->
  let l := Files_of (Some bf) prios tf in
  (fun e => (fe_Path e, fe_Length e)) <$> l =
    match Files (t_Info tf) with
    | [] => [(Name (t_Info tf), i_Length (t_Info tf))]
    | files => (fun f => (Join (f_Path f), f_Length f)) <$> files
    end /\
  Forall (fun e => 0 <= fe_Downloaded e <= fe_Length e) l /\
  wsum fe_Downloaded l = len (filter (complete bf (PieceLength (t_Info tf))) (seqZ 0 (TotalSize tf))).
Proof.
  intros [Hpl Hnp Hcov Hf]. cbn zeta. set (P := complete bf (PieceLength (t_Info tf))).
  assert (HS : forall n, len (filter P (seqZ 0 n)) = count_bytes P 0 (0 + n)) by (intros n; unfold count_bytes; by replace (0 + n - 0) with n by lia).
  rewrite HS. unfold Files_of. destruct (Files (t_Info tf)) as [|f files] eqn:E.
  - assert (HT : TotalSize tf = i_Length (t_Info tf)).
    { unfold TotalSize. destruct (Z.ltb_spec 0 (i_Length (t_Info tf))); [done|]. rewrite E. cbn. lia. }
    rewrite HT in *. rewrite file_within by lia. split; [done|]. cbn [wsum fe_Downloaded].
    split; [|subst P; lia]. constructor; [|constructor]. cbn [fe_Downloaded fe_Length].
    pose proof (count_range P 0 (0 + i_Length (t_Info tf))). subst P. lia.
  - destruct Hf as (HL & Hf & Hm). assert (HT : TotalSize tf = wsum f_Length (f :: files)).
    { unfold TotalSize. rewrite HL, E. cbn [Z.ltb Z.compare]. by rewrite foldl_total by (done || lia). }
    rewrite HT. apply list_files_account; try done; try lia.
Qed.

(** ** Statistics *)

Section Stats.
Context {float : Type} (f0 f100 : float) (percent : Z -> Z -> float).
Abbreviation snap := (ProgressSnap float).
Abbreviation Snap x := (session_Snap f0 f100 percent x.2 x.1).

Definition is_live (q : snap) : Prop := ps_State q = state_text StateDownloading \/ ps_State q = state_text StateVerifying.
#[export] Instance is_live_dec q : Decision (is_live q).
Proof. unfold is_live. apply _. Defined.
Definition is_seeding (q : snap) : Prop := ps_State q = state_text StateSeeding.
#[export] Instance is_seeding_dec q : Decision (is_seeding q).
Proof. unfold is_seeding. apply _. Defined.

(** The counters fit their width. *)
Record normal (st : EngineStats) : Prop := {
  nm_down : i64 (st_DownSpeed st) = st_DownSpeed st; nm_up : i64 (st_UpSpeed st) = st_UpSpeed st;
  nm_downloaded : i64 (st_Downloaded st) = st_Downloaded st; nm_uploaded : i64 (st_Uploaded st) = st_Uploaded st;
  nm_peers : i64 (st_Peers st) = st_Peers st; nm_known : i64 (st_KnownPeers st) = st_KnownPeers st
}.

Lemma add_normal st (q : snap) : normal st -> normal (add_snap st q).
Proof.
  intros []. constructor; cbn [add_snap st_DownSpeed st_UpSpeed st_Downloaded st_Uploaded st_Peers st_KnownPeers];
    rewrite ?i64_idem; try done. case_match; by rewrite ?i64_idem.
Qed.

(** The statistics [st] after the snapshots [l], starting from [st0]. *)
Record accounts (st0 st : EngineStats) (l : list snap) : Prop := {
  acc_active : st_Active st = st_Active st0 + len (filter is_live l);
  acc_seeding : st_Seeding st = st_Seeding st0 + len (filter is_seeding l);
  acc_torrents : st_Torrents st = st_Torrents st0;
  acc_down : st_DownSpeed st = i64 (st_DownSpeed st0 + wsum ps_DownSpeed (filter is_live l));
  acc_up : st_UpSpeed st = i64 (st_UpSpeed st0 + wsum ps_UpSpeed l);
  acc_downloaded : st_Downloaded st = i64 (st_Downloaded st0 + wsum ps_Downloaded l);
  acc_uploaded : st_Uploaded st = i64 (st_Uploaded st0 + wsum ps_Uploaded l);
  acc_peers : st_Peers st = i64 (st_Peers st0 + wsum ps_ActivePeers l);
  acc_known : st_KnownPeers st = i64 (st_KnownPeers st0 + wsum ps_KnownPeers l)
}.

Lemma add_accounts (l : list snap) : forall st0, normal st0 -> accounts st0 (foldl add_snap st0 l) l.
Proof.
  induction l as [|q l IH]; intros st0 HN.
  { destruct HN. constructor; cbn [foldl filter list_filter wsum length]; rewrite ?Z.add_0_r; done. }
  cbn [foldl]. destruct (IH (add_snap st0 q) (add_normal _ _ HN)) as [H1 H2 H3 H4 H5 H6 H7 H8 H9].
  assert (HL : bool_decide (is_live q) = bool_decide (ps_State q = state_text StateDownloading) || bool_decide (ps_State q = state_text StateVerifying)).
  { apply Bool.eq_iff_eq_true. by rewrite orb_true_iff, !bool_decide_eq_true. }
  constructor; rewrite ?H1, ?H2, ?H3, ?H4, ?H5, ?H6, ?H7, ?H8, ?H9; unfold add_snap; rewrite <- ?HL;
    cbn [wsum st_DownSpeed st_UpSpeed st_Downloaded st_Uploaded st_Active st_Seeding st_Torrents st_Peers st_KnownPeers];
    rewrite ?i64_add_l, ?Z.add_assoc; try done.
  - rewrite filter_cons. destruct (decide (is_live q)) as [H|H];
      [rewrite bool_decide_true by done; cbn [length]; lia|by rewrite bool_decide_false by done].
  - rewrite filter_cons. unfold is_seeding. destruct (decide _) as [H|H];
      [rewrite bool_decide_true by done; cbn [length]; lia|by rewrite bool_decide_false by done].
  - rewrite filter_cons. destruct (decide (is_live q)) as [H|H];
      [rewrite bool_decide_true by done; cbn [wsum]; by rewrite i64_add_l, Z.add_assoc|by rewrite bool_decide_false by done].
Qed.

Lemma wsum_perm {A} (f : A -> Z) (l l' : list A) : l ≡ₚ l' -> wsum f l = wsum f l'.
Proof. induction 1; cbn [wsum]; lia. Qed.

Lemma state_text_inj : Inj (=) (=) state_text.
Proof. intros [] [] H; try done; by vm_compute in H. Qed.

Lemma disjoint_filters {A} (P Q : A -> Prop) {HP : forall x, Decision (P x)} {HQ : forall x, Decision (Q x)} (l : list A) :
  (forall x, P x -> ~ Q x) -> len (filter P l) + len (filter Q l) <= len l.
Proof.
  intros H. induction l as [|x l IH]; [done|]. rewrite !filter_cons.
  destruct (decide (P x)), (decide (Q x)); cbn [length]; try lia. by destruct (H x).
Qed.

Lemma omap_keys {A B} (f : A -> B) (m : gmap bytes A) :
  omap (fun id => f <$> m !! id) (map_to_list m).*1 = (fun p => f p.2) <$> map_to_list m.
Proof.
  assert (H : Forall (fun p => m !! p.1 = Some p.2) (map_to_list m))
    by (apply Forall_forall; intros [i x] Hi%elem_of_map_to_list; done).
  induction H as [|[i x] l Hx _ IH]; [done|]. cbn [fst snd] in Hx.
  rewrite (fmap_cons (fun p => f p.2)), <- IH. cbn [fmap list_fmap omap list_omap fst snd]. by rewrite Hx.
Qed.

(** The statistics are the same whatever the order in which the map of sessions is iterated: every torrent is counted
    once, the active torrents are those that download or verify, the seeding ones those that seed, the two never exceed
    the number of torrents, and the totals are the sums of the sessions' snapshots at 64 bits. *)
Lemma Stats_exact (order : list bytes) (maxActive nodes free : Z) (m : gmap bytes (sess * moment)) :
  order ≡ₚ (map_to_list m).*1 ->
  let st := GetStats f0 f100 percent order maxActive nodes free m in
  let l := (fun p => Snap p.2) <$> map_to_list m in
  st_Torrents st = Z.of_nat (base.size m) /\
  st_Active st = len (filter is_live l) /\ st_Seeding st = len (filter is_seeding l) /\
  st_Active st + st_Seeding st <= st_Torrents st /\
  st_Downloaded st = i64 (wsum ps_Downloaded l) /\ st_Uploaded st = i64 (wsum ps_Uploaded l) /\
  st_UpSpeed st = i64 (wsum ps_UpSpeed l) /\ st_DownSpeed st = i64 (wsum ps_DownSpeed (filter is_live l)) /\
  st_Peers st = i64 (wsum ps_ActivePeers l) /\ st_KnownPeers st = i64 (wsum ps_KnownPeers l).
Proof.
  intros Ho. cbn zeta. unfold GetStats.
  cbn [st_Torrents st_Active st_Seeding st_Downloaded st_Uploaded st_UpSpeed st_DownSpeed st_Peers st_KnownPeers].
  set (l' := omap _ order). set (l := _ <$> map_to_list m).
  assert (Hl : l' ≡ₚ l) by (subst l l'; rewrite <- (omap_keys (fun x => Snap x)); by rewrite Ho).
  destruct (add_accounts l' (mkStats 0 0 0 0 0 0 (Z.of_nat (base.size m)) maxActive 0 0 0 0)) as [H1 H2 H3 H4 H5 H6 H7 H8 H9];
    [by constructor|].
  cbn [st_Torrents st_Active st_Seeding st_Downloaded st_Uploaded st_UpSpeed st_DownSpeed st_Peers st_KnownPeers] in *.
  rewrite H1, H2, H3, H4, H5, H6, H7, H8, H9, !Z.add_0_l.
  rewrite !(wsum_perm _ l' l Hl), !(wsum_perm _ (filter is_live l') (filter is_live l)) by (by rewrite Hl).
  rewrite Hl. split; [done|]. split; [done|]. split; [done|]. split; [|done].
  trans (len l); [|subst l; by rewrite length_fmap, length_map_to_list].
  apply disjoint_filters. unfold is_live, is_seeding. intros q [-> | ->] H; by apply state_text_inj in H.
Qed.

(** ** The snapshot of a session *)

(** The text of the state is the session's, and a session that is paused, complete or failed shows no transfer. *)
Lemma Snap_state m (s : sess) :
  let q := session_Snap f0 f100 percent m s in
  ps_State q = state_text (sess_state s) /\
  (inactive (sess_state s) = true -> uploader s = None -> ps_DownSpeed q = 0 /\ ps_UpSpeed q = 0) /\
  (sess_state s = StateComplete -> prog s = None -> ps_Downloaded q = ps_Total q).
Proof.
  unfold session_Snap. destruct (prog s) as [p|], (uploader s) as [u|]; cbn zeta.
  - destruct (inactive _); by cbn.
  - destruct (inactive _) eqn:E; cbn; (split; [done|]; split; [|done]; intros H; congruence || done).
  - by cbn.
  - destruct (bool_decide _) eqn:E; cbn; (split; [done|]; split; [done|]).
    + done.
    + intros H. apply bool_decide_eq_false in E. congruence.
Qed.
End Stats.

(** ** Peer ids *)

Definition version_text (a b c d : Z) : bytes :=
  itoa a ++ lit "." ++ itoa b ++ lit "." ++ itoa (if d =? 0 then c else 10 * c + d).

Lemma digit_cases (P : Z -> bool) : forallb P (seqZ 0 10) = true -> forall d, 0 <= d < 10 -> P d = true.
Proof. intros H d Hd. rewrite forallb_forall in H. apply H, list_elem_of_In, elem_of_seqZ. lia. Qed.

Lemma itoa_digit d : 0 <= d < 10 -> itoa d = [digit d].
Proof.
  intros H. pose (ok d := bool_decide (itoa d = [digit d])). assert (E : ok d = true); [|by apply bool_decide_eq_true in E].
  apply (digit_cases ok); [by vm_compute|done].
Qed.

Lemma patch_text c d : 0 <= c < 10 -> 0 <= d < 10 ->
  (let patch := if Byte.eqb (digit d) x30 then [digit c] else [digit c; digit d] in
   match parse_int64 patch with Some n => itoa n | None => patch end) = itoa (if d =? 0 then c else 10 * c + d).
Proof.
  intros Hc Hd.
  pose (ok c d := bool_decide ((let patch := if Byte.eqb (digit d) x30 then [digit c] else [digit c; digit d] in
    match parse_int64 patch with Some n => itoa n | None => patch end) = itoa (if d =? 0 then c else 10 * c + d))).
  assert (H : ok c d = true); [|by apply bool_decide_eq_true in H].
  apply (digit_cases (ok c)); [|done]. apply (digit_cases (fun c => forallb (ok c) (seqZ 0 10))); [by vm_compute|done].
Qed.

Lemma version_digits a b c d : 0 <= a < 10 -> 0 <= b < 10 -> 0 <= c < 10 -> 0 <= d < 10 ->
  decodeAzureusVersion [digit a; digit b; digit c; digit d] = version_text a b c d.
Proof.
  intros Ha Hb Hc Hd. unfold decodeAzureusVersion, version_text. cbn [forallb]. rewrite !is_digit_digit by done. cbn [andb].
  cbv zeta. rewrite <- (patch_text c d Hc Hd), !itoa_digit by done. reflexivity.
Qed.

(** An id of the common form, with a known code of two bytes and a version of four digits, gives the name and the version. *)
Lemma DecodePeerID_azureus c1 c2 (name rest : bytes) a b c d :
  name_of azureusClientNames [c1; c2] = Some name -> 0 <= a < 10 -> 0 <= b < 10 -> 0 <= c < 10 -> 0 <= d < 10 ->
  DecodePeerID (dash :: c1 :: c2 :: digit a :: digit b :: digit c :: digit d :: dash :: rest) = name ++ lit " " ++ version_text a b c d.
Proof.
  intros Hn Ha Hb Hc Hd. unfold DecodePeerID. rewrite bool_decide_false by done. cbn [lookup list_lookup].
  rewrite !bool_decide_true by done. cbn [andb].
  change (slice _ 1 3) with [c1; c2]. change (slice _ 3 7) with [digit a; digit b; digit c; digit d].
  rewrite Hn, version_digits by done. unfold version_text. by rewrite (itoa_digit a) by done.
Qed.

(** The engine's own id. *)
Example own_peer_id : DecodePeerID (lit "-ST0001-" ++ replicate 12 x41) = lit "stor 0.0.1".
Proof. by vm_compute. Qed.

(** The example of a Mainline id takes the branch for the one-letter form and is not recognised. *)
Lemma mainline_unknown : DecodePeerID (lit "M3-4-2--" ++ replicate 12 x61) = Unknown.
Proof. by vm_compute. Qed.

(** Two versions are shown as the same one. *)
Lemma versions_collide : decodeAzureusVersion (lit "1203") = decodeAzureusVersion (lit "1230").
Proof. by vm_compute. Qed.

(** ** Examples *)

Definition seeder_record : TorrentRecord := mkRecord (lit "s") (lit "a") (lit "src") [] 100 StateSeeding 0 0 0 [] [] [] [] 0.
Definition seeder : sess := with_uploader (Some (lit "/dl/a")) (session_start seeder_record).
Definition quiet : moment := mkMoment 0 0 0 0 [].
Definition stats_of (m : gmap bytes (sess * moment)) : EngineStats := GetStats 0 100 Z.quot (map_to_list m).*1 3 0 0 m.

(** A torrent that was complete before the engine started counts as downloaded, and removing it takes the bytes away:
    the total is neither of the bytes since the start nor does it only grow. *)
Lemma downloaded_total_falls :
  st_Downloaded (stats_of {[ lit "s" := (seeder, quiet) ]}) = 100 /\
  st_Downloaded (stats_of (delete (lit "s") {[ lit "s" := (seeder, quiet) ]})) = 0.
Proof. split; by vm_compute. Qed.

Definition two_files : TorrentFile :=
  mkTorrentFile [] [] (mkInfo (lit "d") 4 [[]; []; []] 0 [mkFile 3 [lit "a"]; mkFile 7 [lit "b"]] false None) [] [] 0 [].

Lemma Files_account_witness :
  fe_Downloaded <$> Files_of (Some [x60]) [0; -1] two_files = [0; 6] /\
  wsum fe_Downloaded (Files_of (Some [x60]) [0; -1] two_files) = len (filter (complete [x60] 4) (seqZ 0 10)).
Proof.
  split; [by vm_compute|]. apply (Files_account [x60] [0; -1] two_files).
  constructor; [by vm_compute|by vm_compute|by vm_compute|].
  split; [done|]. split; [repeat constructor; by vm_compute|by vm_compute].
Defined.

Lemma Stats_exact_witness :
  st_Seeding (stats_of {[ lit "s" := (seeder, quiet) ]}) = 1 /\
  st_Active (stats_of {[ lit "s" := (seeder, quiet) ]}) + st_Seeding (stats_of {[ lit "s" := (seeder, quiet) ]})
    <= st_Torrents (stats_of {[ lit "s" := (seeder, quiet) ]}).
Proof. split; [by vm_compute|]. apply (Stats_exact 0 100 Z.quot). done. Defined.
