(* ===== verification/Rates.v ===== *)
(** * The rate sampler ([download/rate.go], [download/progress.go])

    One goroutine ticks for every registered counter.  A tick copies the list of entries under the lock and then drains the
    counters one by one without it, so registrations, deregistrations and additions happen between the entries of a tick:
    each critical section and each entry of a tick is a step.  The averages are floating-point numbers: the type [float], the average after
    a sample and its conversion to an integer are arguments.  [e_added] and [e_drained] record what a counter was given and
    what ticks took from it; no step reads them. *)

From S2P Require Import Prelude.
Set Warnings "-clear-no-such-hyp".
Local Open Scope Z_scope.

Section Rates.
Context {float : Type} (f0 : float).
(** [ema avg bytes ms]: [avg*0.8 + (bytes*1000/ms)*0.2]; [trunc]: the conversion to an [int64]. *)
Context (ema : float -> Z -> Z -> float) (trunc : float -> Z).

(** An entry with the fields of its target. *)
Record rateEntry := mkRate { e_counter : Z; e_rate : Z; e_average : float; e_added : Z; e_drained : Z }.

Record rateRegistry := mkRegistry {
  r_entries : list Z;                 (** [entries], by the entries' addresses *)
  r_started : bool;
  r_heap : gmap Z rateEntry;
  r_once : gset Z;                    (** the deregistrations that ran *)
  r_tick : option (Z * list Z)        (** under [tickMu]: the elapsed time and the entries left *)
}.

Definition newRateRegistry : rateRegistry := mkRegistry [] false ∅ ∅ None.

(** [register]: the caller's counter and rate may be in use already. *)
Definition register (id counter rate : Z) (r : rateRegistry) : rateRegistry :=
  mkRegistry (r_entries r ++ [id]) true (<[id := mkRate counter rate f0 counter 0]> (r_heap r)) (r_once r) (r_tick r).

(** The loop of the deregistration: the last entry takes the place of the removed one. *)
Definition swap_delete (id : Z) (l : list Z) : list Z :=
  match list_find (eq id) l with
  | Some (i, _) => take (length l - 1) (match last l with Some x => <[i := x]> l | None => l end)
  | None => l
  end.

Definition unregister (id : Z) (r : rateRegistry) : rateRegistry :=
  if bool_decide (id ∈ r_once r) then r
  else mkRegistry (swap_delete id (r_entries r)) (r_started r) (r_heap r) ({[id]} ∪ r_once r) (r_tick r).

(** [counter.Add]. *)
Definition add_bytes (n : Z) (e : rateEntry) : rateEntry :=
  mkRate (i64 (e_counter e + n)) (e_rate e) (e_average e) (e_added e + n) (e_drained e).

(** The body of the loop of [tickLocked]. *)
Definition sample_entry (elapsed : Z) (e : rateEntry) : rateEntry :=
  let avg := ema (e_average e) (e_counter e) elapsed in
  mkRate 0 (trunc avg) avg (e_added e) (e_drained e + e_counter e).

Inductive rate_label :=
  | Register (id counter rate : Z) | Unregister (id : Z) | AddCounter (id n : Z)
  | TickStart (elapsedMs : Z) | TickEntry | TickEnd.

Definition rate_step (l : rate_label) (r : rateRegistry) : option rateRegistry :=
  match l with
  | Register id counter rate =>
      if bool_decide (is_Some (r_heap r !! id)) then None else Some (register id counter rate r)
  | Unregister id => if bool_decide (is_Some (r_heap r !! id)) then Some (unregister id r) else None
  | AddCounter id n => Some (mkRegistry (r_entries r) (r_started r) (alter (add_bytes n) id (r_heap r)) (r_once r) (r_tick r))
  | TickStart ms =>
      match r_tick r with
      | Some _ => None
      | None => if r_started r then
                  Some (mkRegistry (r_entries r) (r_started r) (r_heap r) (r_once r)
                          (Some (if ms <=? 0 then 1000 else ms, r_entries r)))
                else None
      end
  | TickEntry =>
      match r_tick r with
      | Some (ms, id :: left_) =>
          Some (mkRegistry (r_entries r) (r_started r) (alter (sample_entry ms) id (r_heap r)) (r_once r) (Some (ms, left_)))
      | _ => None
      end
  | TickEnd => match r_tick r with Some (_, []) => Some (mkRegistry (r_entries r) (r_started r) (r_heap r) (r_once r) None) | _ => None end
  end.

Inductive rate_reach : rateRegistry -> Prop :=
  | rate_init : rate_reach newRateRegistry
  | rate_next l r r' : rate_reach r -> rate_step l r = Some r' -> rate_reach r'.

Fixpoint rate_run (ls : list rate_label) (r : rateRegistry) : option rateRegistry :=
  match ls with [] => Some r | l :: ls => r' ← rate_step l r; rate_run ls r' end.

(** ** The counters of a client and of a [Progress] *)

(** [attachRateTargets] and the registrations of [NewProgress]: the two counters of one owner. *)
Definition attachRateTargets (down up : Z) (r : rateRegistry) : rateRegistry := register up 0 0 (register down 0 0 r).

(** [unregRate]. *)
Definition detachRateTargets (down up : Z) (r : rateRegistry) : rateRegistry := unregister up (unregister down r).

(** [Progress.Close]: [unregRate] is called while it is not nil. *)
Definition progress_Close (attached : bool) (down up : Z) (r : rateRegistry) : bool * rateRegistry :=
  (false, if attached then detachRateTargets down up r else r).

(** ** Invariant *)

Lemma swap_delete_perm id l : id ∈ l -> l ≡ₚ id :: swap_delete id l.
Proof.
  intros Hin. unfold swap_delete. destruct (list_find (eq id) l) as [[i y]|] eqn:E.
  - apply list_find_Some in E as (Hi & <- & _). destruct (last l) as [x|] eqn:Ex.
    + apply last_Some in Ex as [l' ->]. rewrite length_app. cbn [length]. replace (length l' + 1 - 1)%nat with (length l') by lia.
      apply lookup_app_Some in Hi as [Hi|[Hle Hi]].
      * rewrite insert_app_l by (by eapply lookup_lt_Some). rewrite take_app_length' by (by rewrite length_insert).
        rewrite insert_take_drop by (by eapply lookup_lt_Some). rewrite <- (take_drop_middle l' i id Hi) at 1.
        rewrite <- app_assoc. solve_Permutation.
      * apply list_lookup_singleton_Some in Hi as [Hi <-]. rewrite insert_app_r_alt by lia.
        rewrite take_app_length. by rewrite Permutation_app_comm.
    + apply last_None in Ex as ->. by rewrite lookup_nil in Hi.
  - apply list_find_None in E. rewrite Forall_forall in E. by destruct (E id).
Qed.

Lemma swap_delete_absent id l : id ∉ l -> swap_delete id l = l.
Proof.
  intros H. unfold swap_delete. destruct (list_find (eq id) l) as [[i y]|] eqn:E; [|done].
  apply list_find_Some in E as (Hi & <- & _). by apply list_elem_of_lookup_2 in Hi.
Qed.

Record rates_inv (r : rateRegistry) : Prop := {
  ri_nodup : NoDup (r_entries r);
  ri_live : forall id, id ∈ r_entries r <-> is_Some (r_heap r !! id) /\ (id ∉ r_once r);
  ri_once : forall id, id ∈ r_once r -> is_Some (r_heap r !! id);
  ri_bytes : forall id e, r_heap r !! id = Some e -> i64 (e_added e) = i64 (e_drained e + e_counter e);
  ri_started : r_started r = false -> r_heap r = ∅;
  ri_tick : forall ms left_, r_tick r = Some (ms, left_) -> 0 < ms /\ NoDup left_ /\ forall id, id ∈ left_ -> is_Some (r_heap r !! id)
}.

Lemma register_inv id counter rate r : r_heap r !! id = None -> rates_inv r -> rates_inv (register id counter rate r).
Proof.
  intros Hn [H1 H2 H3 H4 H5 H6]. assert (Hid : id ∉ r_entries r) by (intros [[? ?] _]%H2; congruence).
  assert (Hk : forall k, is_Some (r_heap r !! k) -> is_Some (<[id := mkRate counter rate f0 counter 0]> (r_heap r) !! k)).
  { intros k Hk. rewrite lookup_insert_is_Some'. by right. }
  constructor; cbn [register r_entries r_heap r_once r_started r_tick]; [| |by auto| |done|].
  - apply NoDup_app. split; [done|]. split; [|apply NoDup_singleton]. by intros x Hx ->%list_elem_of_singleton.
  - intros k. rewrite elem_of_app, list_elem_of_singleton, lookup_insert_is_Some', H2. destruct (decide (k = id)) as [->|Hne].
    + split; [|by right]. intros _. split; [by left|]. intros Ho%H3. destruct Ho. congruence.
    + split; [intros [?|?]; [by destruct_and!; auto|done]|intros [[?|?] ?]; [by destruct Hne|by left]].
  - intros k e. rewrite lookup_insert_Some. intros [[_ <-]|[_ He]]; [done|eauto].
  - intros ms left_ Ht. destruct (H6 _ _ Ht) as (? & ? & ?). split; [done|]. split; [done|]. auto.
Qed.

Lemma unregister_inv id r : is_Some (r_heap r !! id) -> rates_inv r -> rates_inv (unregister id r).
Proof.
  intros Hs Hinv. unfold unregister. case_bool_decide as Ho; [done|]. destruct Hinv as [H1 H2 H3 H4 H5 H6].
  assert (Hin : id ∈ r_entries r) by (by apply H2). pose proof (swap_delete_perm id _ Hin) as Hp.
  assert (HN : NoDup (id :: swap_delete id (r_entries r))) by (by rewrite <- Hp). apply NoDup_cons in HN as [HN1 HN2].
  constructor; cbn [r_entries r_heap r_once r_started r_tick]; [done| | |done|done|done].
  - intros k. specialize (H2 k). rewrite Hp, elem_of_cons in H2. rewrite not_elem_of_union, not_elem_of_singleton.
    destruct (decide (k = id)) as [->|Hne]; [by split; [|intros (_ & [] & _)]|]. tauto.
  - intros k [->%elem_of_singleton|Hk]%elem_of_union; [done|by apply H3].
Qed.

Lemma alter_inv f id r t :
  (forall e, i64 (e_added e) = i64 (e_drained e + e_counter e) -> i64 (e_added (f e)) = i64 (e_drained (f e) + e_counter (f e))) ->
  (forall ms left_, t = Some (ms, left_) -> 0 < ms /\ NoDup left_ /\ forall id, id ∈ left_ -> is_Some (r_heap r !! id)) ->
  rates_inv r -> rates_inv (mkRegistry (r_entries r) (r_started r) (alter f id (r_heap r)) (r_once r) t).
Proof.
  intros Hf Ht [H1 H2 H3 H4 H5 H6].
  assert (Hk : forall k, is_Some (alter f id (r_heap r) !! k) <-> is_Some (r_heap r !! k)) by (intros k; apply lookup_alter_is_Some).
  constructor; cbn [r_entries r_heap r_once r_started r_tick]; [done| | | | |].
  - intros k. by rewrite Hk.
  - intros k. rewrite Hk. apply H3.
  - intros k e. rewrite lookup_alter_Some. intros [(-> & e' & He & ->)|[_ He]]; eauto.
  - intros Hs. rewrite (H5 Hs). apply map_eq. intros k. rewrite lookup_alter, !lookup_empty. by case_decide.
  - intros ms left_ E. destruct (Ht _ _ E) as (? & ? & Hl). split; [done|]. split; [done|]. intros k Hkl. by apply Hk, Hl.
Qed.

Lemma rate_step_inv l r r' : rates_inv r -> rate_step l r = Some r' -> rates_inv r'.
Proof.
  intros Hinv. destruct l as [id c rt|id|id n|ms| |]; cbn [rate_step]; intros Hst.
  - case_bool_decide as Hs; [done|]. injection Hst as <-. apply register_inv; [|done]. by apply eq_None_not_Some.
  - case_bool_decide as Hs; [|done]. injection Hst as <-. by apply unregister_inv.
  - injection Hst as <-. apply alter_inv; [|apply ri_tick, Hinv|done]. intros e He. cbn [add_bytes e_added e_drained e_counter].
    rewrite (i64_plus _ _ n He). rewrite <- Z.add_assoc, (Z.add_comm (e_drained e)), (Z.add_comm (e_drained e)).
    apply i64_plus. by rewrite i64_idem.
  - destruct (r_tick r) eqn:Et; [done|]. destruct (r_started r) eqn:Es; [|done]. injection Hst as <-.
    destruct Hinv as [H1 H2 H3 H4 H5 H6]. constructor; cbn [r_entries r_heap r_once r_started r_tick]; try done.
    intros m left_ [= <- <-]. split; [destruct (Z.leb_spec ms 0); lia|]. split; [done|]. intros k Hk%H2. tauto.
  - destruct (r_tick r) as [[ms [|id left_]]|] eqn:Et; try done. injection Hst as <-.
    apply alter_inv; [|intros m l [= <- <-]|done].
    + intros e He. cbn [sample_entry e_added e_drained e_counter]. by rewrite Z.add_0_r.
    + destruct (ri_tick _ Hinv _ _ Et) as (? & Hn & Hl). apply NoDup_cons in Hn as [? ?]. split; [done|]. split; [done|].
      intros k Hk. apply Hl. by right.
  - destruct (r_tick r) as [[ms [|id left_]]|] eqn:Et; try done. injection Hst as <-.
    destruct Hinv as [H1 H2 H3 H4 H5 H6]. by constructor.
Qed.

Lemma new_inv : rates_inv newRateRegistry.
Proof.
  constructor; cbn [newRateRegistry r_entries r_heap r_once r_tick]; [constructor| | | |done|done].
  - intros id. rewrite lookup_empty. split; [by intros ?%not_elem_of_nil|intros [[? ?] _]; congruence].
  - by intros id ?%not_elem_of_empty.
  - intros id e. rewrite lookup_empty. congruence.
Qed.

(** In every interleaving of registrations, deregistrations, additions and ticks, the sampler's list holds exactly the
    registered entries that were not deregistered, each once (removing one by moving the last into its place loses no
    other), a tick visits no entry twice, and the bytes a counter was given are the bytes that ticks took from it plus what
    it holds, at 64 bits. *)
Lemma Rates_account (r : rateRegistry) : rate_reach r -> rates_inv r.
Proof.
  induction 1 as [|l r r' _ IH Hst]; [apply new_inv|by eapply rate_step_inv].
Qed.

(** A tick that no other step interrupts samples the registered counters and no others. *)
Lemma entries_sampled ms left_ : forall r,
  NoDup left_ -> r_tick r = Some (ms, left_) ->
  exists r', rate_run (replicate (length left_) TickEntry) r = Some r' /\ r_tick r' = Some (ms, []) /\
    r_entries r' = r_entries r /\
    forall id, r_heap r' !! id = (if decide (id ∈ left_) then sample_entry ms <$> r_heap r !! id else r_heap r !! id).
Proof.
  induction left_ as [|i left_ IH]; intros r HN Ht; cbn [length replicate rate_run].
  { exists r. split; [done|]. split; [done|]. split; [done|]. intros id. by rewrite decide_False by apply not_elem_of_nil. }
  apply NoDup_cons in HN as [Hi HN]. cbn [rate_step]. rewrite Ht. cbn [mbind option_bind].
  destruct (IH (mkRegistry (r_entries r) (r_started r) (alter (sample_entry ms) i (r_heap r)) (r_once r) (Some (ms, left_))) HN eq_refl)
    as (r' & Hr & Ht' & He & Hh). exists r'. split; [exact Hr|]. split; [done|]. split; [done|].
  intros id. rewrite Hh. cbn [r_heap]. destruct (decide (id = i)) as [->|Hne].
  - rewrite decide_False by done. rewrite lookup_alter_eq. by rewrite decide_True by (by left).
  - rewrite lookup_alter_ne by done.
    destruct (decide (id ∈ left_)); [rewrite decide_True by (by right)|rewrite decide_False by (by intros [?|?]%elem_of_cons)]; done.
Qed.

Lemma tick_samples ms r : rate_reach r -> r_tick r = None -> r_started r = true ->
  exists r', rate_run (TickStart ms :: replicate (length (r_entries r)) TickEntry) r = Some r' /\
    forall id e, r_heap r !! id = Some e ->
      r_heap r' !! id = Some (if decide (id ∈ r_entries r) then sample_entry (if ms <=? 0 then 1000 else ms) e else e).
Proof.
  intros Hr Ht Hs. cbn [rate_run rate_step]. rewrite Ht, Hs. cbn [mbind option_bind].
  assert (HN : NoDup (r_entries r)).
  { clear -Hr. assert (rates_inv r); [|by apply ri_nodup]. induction Hr as [|l r r' _ IH Hst]; [apply new_inv|by eapply rate_step_inv]. }
  set (ms' := if ms <=? 0 then 1000 else ms).
  destruct (entries_sampled ms' (r_entries r) (mkRegistry (r_entries r) true (r_heap r) (r_once r) (Some (ms', r_entries r))) HN eq_refl)
    as (r' & Hrun & _ & _ & Hh). exists r'. split; [exact Hrun|].
  intros id e He. rewrite Hh. cbn [r_heap]. rewrite He. by case_decide.
Qed.

(** What an owner registers and gives back leaves the other entries. *)
Lemma attach_detach down up r : rates_inv r -> r_heap r !! down = None -> r_heap r !! up = None -> down <> up ->
  r_entries (detachRateTargets down up (attachRateTargets down up r)) ≡ₚ r_entries r.
Proof.
  intros Hinv Hd Hu Hne. assert (H1 : rates_inv (attachRateTargets down up r)).
  { apply register_inv; [cbn [register r_heap]; by rewrite lookup_insert_ne|by apply register_inv]. }
  assert (Ho : (down ∉ r_once r) /\ (up ∉ r_once r)) by (split; intros [? ?]%(ri_once _ Hinv); congruence).
  set (r1 := attachRateTargets down up r) in *.
  assert (E1 : r_entries r1 = r_entries r ++ [down] ++ [up]) by (subst r1; cbn; by rewrite <- app_assoc).
  assert (Eo : r_once r1 = r_once r) by done.
  assert (Hdin : down ∈ r_entries r1) by (rewrite E1; set_solver).
  assert (Huin : up ∈ r_entries r1) by (rewrite E1; set_solver).
  unfold detachRateTargets. unfold unregister at 2. rewrite Eo, bool_decide_false by tauto.
  unfold unregister. cbn [r_once r_entries]. rewrite bool_decide_false by set_solver.
  cbn [r_entries]. pose proof (swap_delete_perm down _ Hdin) as P1.
  assert (Hu1 : up ∈ swap_delete down (r_entries r1)).
  { rewrite P1 in Huin. apply elem_of_cons in Huin as [?|?]; [congruence|done]. }
  pose proof (swap_delete_perm up _ Hu1) as P2. rewrite P2 in P1.
  apply (Permutation_app_inv_l [down; up]). cbn [app]. rewrite <- P1, E1. solve_Permutation.
Qed.
End Rates.

(** ** The measuring window of a client *)

Section Window.
Context {float : Type} (f0 : float) (of_int : Z -> float) (trunc : float -> Z).
(** [float64(bytes) / elapsed], the time in nanoseconds. *)
Context (per_second : Z -> Z -> float).

Record speed_window := mkWindow { w_start : Z; w_downloaded : Z; w_uploaded : Z; w_last : Z }.

Definition Speed (now : Z) (w : speed_window) : float * speed_window :=
  if now - w_start w <? 10 ^ 9 then (of_int (w_last w), w)
  else let speed := trunc (per_second (w_downloaded w) (now - w_start w)) in
       (of_int speed, mkWindow (w_start w) (w_downloaded w) (w_uploaded w) speed).

Definition UploadSpeed (now : Z) (w : speed_window) : float :=
  if now - w_start w <? 10 ^ 9 then f0 else per_second (w_uploaded w) (now - w_start w).

Definition ResetSpeed (now : Z) (w : speed_window) : speed_window := mkWindow now 0 0 (w_last (Speed now w).2).

(** For a second after a reset a client keeps the speed measured before it and uploads at no speed; after that it shows only
    what it transferred since. *)
Lemma reset_window now later w : now <= later ->
  (Speed later (ResetSpeed now w)).1 =
    (if later - now <? 10 ^ 9 then (Speed now w).1 else of_int (trunc (per_second 0 (later - now)))) /\
  (later - now < 10 ^ 9 -> UploadSpeed later (ResetSpeed now w) = f0).
Proof.
  intros H. unfold UploadSpeed, ResetSpeed at 1, Speed at 1. cbn [w_start w_downloaded w_uploaded w_last]. split.
  - destruct (Z.ltb_spec (later - now) (10 ^ 9)); [|done]. unfold Speed. by destruct (_ <? _).
  - intros Hl. unfold ResetSpeed. cbn [w_start]. by destruct (Z.ltb_spec (later - now) (10 ^ 9)); [|lia].
Qed.
End Window.

Arguments rateRegistry : clear implicits.
Arguments rateEntry : clear implicits.

Definition demo_rates : list rate_label := [Register 1 0 0; Register 2 0 0; Register 3 0 0; AddCounter 2 50; TickStart 1000; TickEntry; Unregister 1].
Definition demo_ema (avg bytes_ ms : Z) : Z := (avg * 8 + bytes_ * 1000 / ms * 2) / 10.

Lemma rate_run_reach {float} (f0 : float) ema trunc ls : forall r r',
  rate_reach f0 ema trunc r -> rate_run f0 ema trunc ls r = Some r' -> rate_reach f0 ema trunc r'.
Proof.
  induction ls as [|l ls IH]; intros r r' H Hr; cbn [rate_run] in Hr; [congruence|].
  destruct (rate_step f0 ema trunc l r) as [r1|] eqn:E; [|done]. eapply IH; [by eapply rate_next|done].
Qed.

Lemma Rates_account_witness : exists r, rate_run 0 demo_ema id demo_rates newRateRegistry = Some r /\ r_entries r = [3; 2] /\ rates_inv r.
Proof.
  eexists. split; [by vm_compute|]. split; [done|]. apply (Rates_account 0 demo_ema id).
  apply (rate_run_reach 0 demo_ema id demo_rates newRateRegistry); [constructor|by vm_compute].
Defined.
