(* ===== verification/Metrics.v ===== *)
(** * The metrics page, event frames and the process file ([daemon/metrics.go], [daemon/daemon.go], [daemon/sse.go], [daemon/pidfile.go])

    The text that [/metrics] answers, the counters behind it, the frames of [/api/events] and the file that names the
    running daemon.  A metric's value is a floating-point number: the type [float] and its conversions are arguments. *)

From S2P Require Import Prelude Strconv Net Text Torrent Engine Queue Lifecycle Display.
Set Warnings "-clear-no-such-hyp".
Local Open Scope Z_scope.

Definition newline : byte := x0a.
Definition quote_mark : byte := x22.
Definition backslash : byte := x5c.

(** [strings.ReplaceAll] of a single byte. *)
Definition ReplaceAll (c : byte) (new s : bytes) : bytes := s ≫= fun b => if Byte.eqb b c then new else [b].

Definition escapeHelp (s : bytes) : bytes := ReplaceAll newline [backslash; x6e] (ReplaceAll backslash [backslash; backslash] s).

Definition escapeLabelValue (s : bytes) : bytes :=
  ReplaceAll newline [backslash; x6e] (ReplaceAll quote_mark [backslash; quote_mark] (ReplaceAll backslash [backslash; backslash] s)).

(** ** Event counters *)

Record eventCounters := mkCounters { published : gmap bytes Z; dropped : gmap bytes Z }.
Definition newEventCounters : eventCounters := mkCounters ∅ ∅.
Definition count_up (k : bytes) (m : gmap bytes Z) : gmap bytes Z := <[k := i64 (default 0 (m !! k) + 1)]> m.
(** [onPublish] of an event's type and [onDrop] of a subscription's name. *)
Definition onPublish (typ : bytes) (c : eventCounters) : eventCounters := mkCounters (count_up typ (published c)) (dropped c).
Definition onDrop (name : bytes) (c : eventCounters) : eventCounters := mkCounters (published c) (count_up name (dropped c)).

(** The hooks of the bus; the engine and the counters may be missing. *)
Definition installEventHooks (engine counters : bool) (hooks : bool * bool) : bool * bool :=
  if negb engine || negb counters then hooks else (true, true).
Definition uninstallEventHooks (engine : bool) (hooks : bool * bool) : bool * bool := if negb engine then hooks else (false, false).

(** ** The page *)

Section Page.
Context {float : Type} (of_int : Z -> float) (to_int : float -> Z) (eqf : float -> float -> bool).
(** [strconv.FormatFloat(v, 'g', -1, 64)]; [seconds n] is [float64(n) / 1e9]. *)
Context (format_g : float -> bytes) (seconds : Z -> float).

Definition formatFloat (v : float) : bytes := if eqf v (of_int (to_int v)) then itoa (to_int v) else format_g v.

Record metric_sample := mkSample { s_labels : gmap bytes bytes; s_value : float }.

Definition label_list (m : gmap bytes bytes) : list (bytes * bytes) :=
  (fun k => (k, default [] (m !! k))) <$> sort_strings (elements (dom m)).

Definition write_label (p : bytes * bytes) : bytes := p.1 ++ [x3d; quote_mark] ++ escapeLabelValue p.2 ++ [quote_mark].

Definition write_sample (name : bytes) (s : metric_sample) : bytes :=
  name ++ (if bool_decide (s_labels s = ∅) then []
           else [x7b] ++ join_with (lit ",") (write_label <$> label_list (s_labels s)) ++ [x7d]) ++
  lit " " ++ formatFloat (s_value s) ++ [newline].

Inductive metricKind := kindCounter | kindGauge.
Definition kind_text (k : metricKind) : bytes := match k with kindCounter => lit "counter" | kindGauge => lit "gauge" end.

Record family := mkFamily { fm_name : bytes; fm_help : bytes; fm_kind : metricKind; fm_samples : list metric_sample }.

Definition writeMetric (f : family) : bytes :=
  lit "# HELP " ++ fm_name f ++ lit " " ++ escapeHelp (fm_help f) ++ [newline] ++
  lit "# TYPE " ++ fm_name f ++ lit " " ++ kind_text (fm_kind f) ++ [newline] ++
  (fm_samples f ≫= write_sample (fm_name f)).

Definition labelled (key value : bytes) (n : Z) : metric_sample := mkSample {[ key := value ]} (of_int n).
Definition plain (v : float) : list metric_sample := [mkSample ∅ v].

(** The samples of a counter, in the order of the label. *)
Definition counter_samples (key : bytes) (m : gmap bytes Z) : list metric_sample :=
  (fun k => labelled key k (default 0 (m !! k))) <$> sort_strings (elements (dom m)).

Definition event_families (c : option eventCounters) : list family :=
  match c with
  | None => []
  | Some c =>
      [mkFamily (lit "stor_events_published_total") (lit "Total number of events published on the engine bus, labeled by type.")
         kindCounter (counter_samples (lit "type") (published c));
       mkFamily (lit "stor_events_dropped_total")
         (lit "Total number of events dropped because a subscriber's buffer was full, labeled by subscriber name.")
         kindCounter (counter_samples (lit "subscriber") (dropped c))]
  end.

(** [order] is the iteration order of [stateCounts]: all eight states. *)
Definition state_samples (order : list State) (torrents : list State) : list metric_sample :=
  (fun st => labelled (lit "state") (state_text st) (len (filter (fun t => t = st) torrents))) <$> order.

Record process_stats := mkProcess { g_version : bytes; g_go : bytes; g_goroutines : Z; g_alloc : Z; g_sys : Z; g_pause : Z; g_gc : Z }.

Definition metric_families (order : list State) (torrents : list State) (st : EngineStats) (g : process_stats) (c : option eventCounters)
    : list family :=
  [mkFamily (lit "stor_torrents_total") (lit "Number of torrents tracked by the engine, labeled by state.") kindGauge
     (state_samples order torrents);
   mkFamily (lit "stor_peers_total") (lit "Total number of currently connected peers across all torrents.") kindGauge
     (plain (of_int (st_Peers st)));
   mkFamily (lit "stor_dht_nodes_total") (lit "Number of nodes in the DHT routing table.") kindGauge (plain (of_int (st_DHTNodes st)));
   mkFamily (lit "stor_download_bytes_total") (lit "Total bytes downloaded since the daemon started (cumulative).") kindCounter
     (plain (of_int (st_Downloaded st)));
   mkFamily (lit "stor_upload_bytes_total") (lit "Total bytes uploaded since the daemon started (cumulative).") kindCounter
     (plain (of_int (st_Uploaded st)));
   mkFamily (lit "stor_download_speed_bytes_per_second") (lit "Current aggregate download speed in bytes per second.") kindGauge
     (plain (of_int (st_DownSpeed st)));
   mkFamily (lit "stor_upload_speed_bytes_per_second") (lit "Current aggregate upload speed in bytes per second.") kindGauge
     (plain (of_int (st_UpSpeed st)));
   mkFamily (lit "stor_free_space_bytes") (lit "Free disk space on the download volume, in bytes.") kindGauge
     (plain (of_int (st_FreeSpace st)));
   mkFamily (lit "stor_build_info") (lit "Build metadata for stor. Constant 1 with version/go_version labels.") kindGauge
     [mkSample (<[lit "version" := g_version g]> {[ lit "go_version" := g_go g ]}) (of_int 1)];
   mkFamily (lit "go_goroutines") (lit "Number of goroutines that currently exist.") kindGauge (plain (of_int (g_goroutines g)));
   mkFamily (lit "go_memstats_alloc_bytes") (lit "Number of bytes allocated and still in use.") kindGauge (plain (of_int (g_alloc g)));
   mkFamily (lit "go_memstats_sys_bytes") (lit "Number of bytes obtained from the OS.") kindGauge (plain (of_int (g_sys g)));
   mkFamily (lit "go_gc_duration_seconds_sum") (lit "Sum of all GC pauses in seconds.") kindCounter (plain (seconds (g_pause g)));
   mkFamily (lit "go_gc_duration_seconds_count") (lit "Total number of GC cycles.") kindCounter (plain (of_int (g_gc g)))]
  ++ event_families c.

Definition handleMetrics (order torrents : list State) (st : EngineStats) (g : process_stats) (c : option eventCounters) : bytes :=
  metric_families order torrents st g c ≫= writeMetric.
End Page.

Arguments metric_sample : clear implicits.
Arguments family : clear implicits.

(** ** Event frames *)

(** [writeSSEEvent]; [data] is the event's JSON, [nanos] its time. *)
Definition writeSSEEvent (typ : bytes) (nanos : Z) (data : result bytes bytes) : bytes :=
  match data with
  | Err e => lit ": marshal error: " ++ e ++ [newline; newline]
  | Ok data => lit "event: " ++ typ ++ [newline] ++ lit "id: " ++ itoa nanos ++ [newline] ++ lit "data: " ++ data ++ [newline; newline]
  end.

Definition keepalive : bytes := lit ": keepalive" ++ [newline; newline].

Inductive sse_event := SSE (typ : bytes) (nanos : Z) (data : result bytes bytes) | Keepalive | ContextDone | BusClosed.

(** The loop of [handleEvents]: what is written and flushed, and whether it returned; for each round whether the write and the
    flush work. *)
Fixpoint handleEvents (rounds : list (sse_event * bool)) : bytes * bool :=
  match rounds with
  | [] => ([], false)
  | (ev, ok) :: rounds =>
      match ev with
      | ContextDone | BusClosed => ([], true)
      | _ =>
          let frame := match ev with SSE t n d => writeSSEEvent t n d | _ => keepalive end in
          if ok then let '(out, done) := handleEvents rounds in (frame ++ out, done) else ([], true)
      end
  end.

(** ** The process file *)

Inductive process_signal := Exists | SIGTERM | SIGKILL.

(** The signals sent to [pid]: [alive] answers the successive tests for existence, [false] once it has no more answers. *)
Fixpoint wait_gone (n : nat) (alive : list bool) : list process_signal * list bool :=
  match n with
  | O => ([], alive)
  | S n => match alive with
           | true :: alive => let '(sent, rest) := wait_gone n alive in (Exists :: sent, rest)
           | _ => ([Exists], tail alive)
           end
  end.

Definition stop_previous (alive : list bool) : list process_signal :=
  match alive with
  | true :: alive =>
      let '(sent, rest) := wait_gone 20 alive in
      [Exists; SIGTERM] ++ sent ++ [Exists] ++ (match rest with true :: _ => [SIGKILL] | _ => [] end)
  | _ => [Exists]
  end.

(** [AcquirePIDFile]: the file's content, the own pid, whether the directory and the file can be written; the signals with
    the process they go to, and the file afterwards. *)
Definition AcquirePIDFile (content : option bytes) (self : Z) (mkdir_ok write_ok : bool) (alive : list bool)
    : list (Z * process_signal) * option bytes * bool :=
  if negb mkdir_ok then ([], content, false)
  else
    let sent := match content with
                | None => []
                | Some data =>
                    match parse_int64 (TrimSpace data) with
                    | Some pid => if (0 <? pid) && negb (pid =? self) then (fun s => (pid, s)) <$> stop_previous alive else []
                    | None => []
                    end
                end in
    if write_ok then (sent, Some (itoa self), true) else (sent, content, false).

Definition ReleasePIDFile (content : option bytes) : option bytes := None.
