(* ===== verification/MetricsTheorems.v ===== *)
(** * Reading back what [Metrics] writes

    A reader of the exposition format gets from the metrics page exactly the families and samples that were written,
    whatever the label values; a reader of an event stream gets the events; and taking over the process file signals only
    the process it names. *)

From S2P Require Import Prelude Strconv Net Text Torrent Engine Queue Lifecycle Display Metrics.
Set Warnings "-clear-no-such-hyp".
Local Open Scope Z_scope.

(** ** A reader of the format *)

Inductive item := IHelp (name text : bytes) | IType (name kind : bytes) | ISample (name : bytes) (labels : list (bytes * bytes)) (value : bytes).

(** The text up to the first byte that [stop] accepts, and the rest from it on. *)
Fixpoint break_at (stop : byte -> bool) (s : bytes) : bytes * bytes :=
  match s with
  | [] => ([], [])
  | b :: s' => if stop b then ([], s) else let '(h, t) := break_at stop s' in (b :: h, t)
  end.

Fixpoint unescape (s : bytes) : option bytes :=
  match s with
  | [] => Some []
  | b :: s =>
      if Byte.eqb b backslash then
        match s with
        | c :: s => if Byte.eqb c x6e then cons newline <$> unescape s
                    else if Byte.eqb c backslash then cons c <$> unescape s else None
        | [] => None
        end
      else cons b <$> unescape s
  end.

(** A label's value up to its closing quote, and what follows. *)
Fixpoint read_quoted (s : bytes) : option (bytes * bytes) :=
  match s with
  | [] => None
  | b :: s =>
      if Byte.eqb b quote_mark then Some ([], s)
      else if Byte.eqb b backslash then
        match s with
        | c :: s => (fun p => ((if Byte.eqb c x6e then newline else c) :: p.1, p.2)) <$> read_quoted s
        | [] => None
        end
      else (fun p => (b :: p.1, p.2)) <$> read_quoted s
  end.

Fixpoint read_labels (fuel : nat) (s : bytes) : option (list (bytes * bytes) * bytes) :=
  match fuel with
  | O => None
  | S fuel =>
      let '(k, r) := break_at (Byte.eqb x3d) s in
      match r with
      | _ :: q :: r =>
          if Byte.eqb q quote_mark then
            '(v, r) ← read_quoted r;
            match r with
            | c :: r => if Byte.eqb c x2c then '(ls, r) ← read_labels fuel r; Some ((k, v) :: ls, r)
                        else if Byte.eqb c x7d then Some ([(k, v)], r) else None
            | [] => None
            end
          else None
      | _ => None
      end
  end.

Definition is_space : byte -> bool := Byte.eqb x20.
Definition ends_name (b : byte) : bool := Byte.eqb x20 b || Byte.eqb x7b b.

Definition read_value (name : bytes) (labels : list (bytes * bytes)) (s : bytes) : option item :=
  match s with b :: v => if is_space b then Some (ISample name labels v) else None | [] => None end.

Definition read_line (l : bytes) : option item :=
  if starts_with (lit "# HELP ") l then
    let '(n, t) := break_at is_space (drop 7 l) in IHelp n <$> unescape (tail t)
  else if starts_with (lit "# TYPE ") l then
    let '(n, t) := break_at is_space (drop 7 l) in Some (IType n (tail t))
  else
    let '(n, t) := break_at ends_name l in
    match t with
    | x7b :: t => '(ls, t) ← read_labels (length t) t; read_value n ls t
    | _ => read_value n [] t
    end.

(** The lines of a text, each ended by a newline. *)
Fixpoint text_lines (s : bytes) : list bytes :=
  match s with
  | [] => []
  | b :: s => if Byte.eqb b newline then [] :: text_lines s
              else match text_lines s with h :: t => (b :: h) :: t | [] => [[b]] end
  end.

Definition read_page (s : bytes) : option (list item) := mapM read_line (text_lines s).

(** ** Escapes *)

Definition esc_help (b : byte) : bytes :=
  if Byte.eqb b backslash then [backslash; backslash] else if Byte.eqb b newline then [backslash; x6e] else [b].
Definition esc_label (b : byte) : bytes := if Byte.eqb b quote_mark then [backslash; quote_mark] else esc_help b.

Lemma ReplaceAll_app c new s t : ReplaceAll c new (s ++ t) = ReplaceAll c new s ++ ReplaceAll c new t.
Proof. apply bind_app. Qed.

Lemma escapeHelp_cons b s : escapeHelp (b :: s) = esc_help b ++ escapeHelp s.
Proof.
  unfold escapeHelp. change (b :: s) with ([b] ++ s). rewrite !ReplaceAll_app. f_equal. unfold esc_help, ReplaceAll. cbn [mbind list_bind].
  destruct (Byte.eqb b backslash) eqn:E; [done|]. cbn [app mbind list_bind]. by destruct (Byte.eqb b newline).
Qed.

Lemma escapeLabel_cons b s : escapeLabelValue (b :: s) = esc_label b ++ escapeLabelValue s.
Proof.
  unfold escapeLabelValue. change (b :: s) with ([b] ++ s). rewrite !ReplaceAll_app. f_equal. unfold esc_label, esc_help, ReplaceAll.
  cbn [mbind list_bind]. destruct (Byte.eqb b backslash) eqn:E; [apply byte_eqb_true in E as ->; done|].
  cbn [app mbind list_bind]. destruct (Byte.eqb b quote_mark) eqn:E2; [by apply byte_eqb_true in E2 as ->|].
  cbn [app mbind list_bind]. by destruct (Byte.eqb b newline).
Qed.

Lemma unescape_escape s : unescape (escapeHelp s) = Some s.
Proof.
  induction s as [|b s IH]; [done|]. rewrite escapeHelp_cons. unfold esc_help.
  destruct (Byte.eqb b backslash) eqn:E; [apply byte_eqb_true in E as ->; cbn [app unescape]; by rewrite IH|].
  destruct (Byte.eqb b newline) eqn:E2; [apply byte_eqb_true in E2 as ->; cbn [app unescape]; by rewrite IH|].
  cbn [app unescape]. rewrite E. by rewrite IH.
Qed.

Lemma read_quoted_escape s rest : read_quoted (escapeLabelValue s ++ quote_mark :: rest) = Some (s, rest).
Proof.
  induction s as [|b s IH]; [done|]. rewrite escapeLabel_cons, <- app_assoc. unfold esc_label, esc_help.
  destruct (Byte.eqb b quote_mark) eqn:E1; [apply byte_eqb_true in E1 as ->; cbn [app read_quoted]; by rewrite IH|].
  destruct (Byte.eqb b backslash) eqn:E; [apply byte_eqb_true in E as ->; cbn [app read_quoted]; by rewrite IH|].
  destruct (Byte.eqb b newline) eqn:E2; [apply byte_eqb_true in E2 as ->; cbn [app read_quoted]; by rewrite IH|].
  cbn [app read_quoted]. rewrite E1, E. by rewrite IH.
Qed.

Lemma esc_no_newline b : (newline ∉ esc_help b) /\ (newline ∉ esc_label b).
Proof.
  unfold esc_label, esc_help. destruct (Byte.eqb b quote_mark) eqn:E1, (Byte.eqb b backslash) eqn:E2, (Byte.eqb b newline) eqn:E3;
    try apply byte_eqb_false in E3; split; rewrite ?elem_of_cons; intros H; rewrite ?elem_of_nil in H;
    repeat destruct H as [H|H]; try done; congruence.
Qed.

Lemma escapeHelp_clean s : newline ∉ escapeHelp s.
Proof. induction s as [|b s IH]; [apply not_elem_of_nil|]. rewrite escapeHelp_cons, not_elem_of_app. split; [apply esc_no_newline|done]. Qed.

Lemma escapeLabel_clean s : newline ∉ escapeLabelValue s.
Proof. induction s as [|b s IH]; [apply not_elem_of_nil|]. rewrite escapeLabel_cons, not_elem_of_app. split; [apply esc_no_newline|done]. Qed.

(** ** Lines *)

(** A decidable fact about closed terms. *)
Ltac closed := apply (bool_decide_unpack _); vm_compute; exact I.

Lemma text_lines_cons l s : newline ∉ l -> text_lines (l ++ newline :: s) = l :: text_lines s.
Proof.
  induction l as [|b l IH]; intros H; [done|]. apply not_elem_of_cons in H as [Hb Hl]. cbn [app text_lines].
  destruct (Byte.eqb b newline) eqn:E; [apply byte_eqb_true in E; congruence|]. by rewrite IH.
Qed.

Lemma break_at_app stop h c t : forallb (fun b => negb (stop b)) h = true -> stop c = true -> break_at stop (h ++ c :: t) = (h, c :: t).
Proof.
  intros Hh Hc. induction h as [|b h IH]; cbn [app break_at forallb] in *; [by rewrite Hc|].
  apply andb_true_iff in Hh as [Hb Hh]. apply negb_true_iff in Hb. by rewrite Hb, IH.
Qed.

(** The bytes of metric names, label names and metric kinds. *)
Definition word_byte (b : byte) : bool := forallb (fun c => negb (Byte.eqb c b)) [x20; x7b; x3d; newline; x23].
Definition word (s : bytes) : bool := forallb word_byte s && negb (bool_decide (s = [])).

Lemma word_stop (stop : byte -> bool) s : word s = true -> (forall b, word_byte b = true -> stop b = false) ->
  forallb (fun b => negb (stop b)) s = true.
Proof.
  intros [H _]%andb_true_iff Hs. rewrite forallb_forall in *. intros b Hb. by rewrite (Hs b) by auto.
Qed.

Ltac word_byte_solve := unfold word_byte; cbn [forallb]; intros b H; repeat (apply andb_true_iff in H as [?%negb_true_iff H]); rewrite ?orb_false_iff; done.

Lemma word_space b : word_byte b = true -> is_space b = false.
Proof. revert b. unfold is_space. word_byte_solve. Qed.
Lemma word_ends b : word_byte b = true -> ends_name b = false.
Proof. revert b. unfold ends_name. word_byte_solve. Qed.
Lemma word_equals b : word_byte b = true -> Byte.eqb x3d b = false.
Proof. revert b. word_byte_solve. Qed.

Lemma word_clean s : word s = true -> newline ∉ s.
Proof.
  intros [H _]%andb_true_iff Hin%list_elem_of_In. rewrite forallb_forall in H. by specialize (H _ Hin).
Qed.

Lemma word_not_comment (s t p : bytes) : word s = true -> starts_with (x23 :: p) (s ++ t) = false.
Proof.
  intros H. apply bool_decide_eq_false. destruct s as [|b s]; [done|]. cbn [app take length]. intros [= -> _].
  cbn in H. done.
Qed.

Lemma type_is_not_help t : starts_with (lit "# HELP ") (lit "# TYPE " ++ t) = false.
Proof. by apply bool_decide_eq_false. Qed.

Lemma read_help name help : word name = true -> read_line (lit "# HELP " ++ name ++ lit " " ++ escapeHelp help) = Some (IHelp name help).
Proof.
  intros Hn. unfold read_line. rewrite starts_with_app.
  change (drop 7 (lit "# HELP " ++ ?x)) with x. change (name ++ lit " " ++ escapeHelp help) with (name ++ x20 :: escapeHelp help).
  rewrite break_at_app; [|by apply word_stop, word_space|done]. cbn [tail]. by rewrite unescape_escape.
Qed.

Lemma read_type name kind : word name = true -> read_line (lit "# TYPE " ++ name ++ lit " " ++ kind) = Some (IType name kind).
Proof.
  intros Hn. unfold read_line. rewrite type_is_not_help, starts_with_app.
  change (name ++ lit " " ++ kind) with (name ++ x20 :: kind). change (drop 7 (lit "# TYPE " ++ ?x)) with x.
  rewrite break_at_app; [done|by apply word_stop, word_space|done].
Qed.

Lemma read_labels_write (ls : list (bytes * bytes)) rest : forall fuel,
  ls <> [] -> Forall (fun p => word p.1 = true) ls -> (length ls <= fuel)%nat ->
  read_labels fuel (join_with (lit ",") (write_label <$> ls) ++ x7d :: rest) = Some (ls, rest).
Proof.
  induction ls as [|[k v] ls IH]; intros fuel Hne Hw Hf; [done|]. destruct fuel as [|fuel]; [cbn [length] in Hf; lia|].
  apply Forall_cons in Hw as [Hk Hw]. cbn [fst] in Hk.
  assert (E : forall t, read_labels (S fuel) (write_label (k, v) ++ t) =
    match t with
    | c :: r => if Byte.eqb c x2c then '(ls, r) ← read_labels fuel r; Some ((k, v) :: ls, r)
                else if Byte.eqb c x7d then Some ([(k, v)], r) else None
    | [] => None
    end).
  { intros t. cbn [read_labels]. unfold write_label. cbn [fst snd]. rewrite <- !app_assoc. cbn [app].
    rewrite break_at_app; [|by apply word_stop, word_equals|done]. cbn [Byte.eqb].
    change (Byte.eqb quote_mark quote_mark) with true. cbn iota. by rewrite read_quoted_escape. }
  destruct ls as [|p ls].
  - cbn [fmap list_fmap join_with]. rewrite E. done.
  - assert (IH' : read_labels fuel (join_with (lit ",") (write_label <$> p :: ls) ++ x7d :: rest) = Some (p :: ls, rest))
      by (apply IH; [done|done|cbn [length] in *; lia]).
    change (join_with (lit ",") (write_label <$> (k, v) :: p :: ls))
      with (write_label (k, v) ++ lit "," ++ join_with (lit ",") (write_label <$> p :: ls)).
    rewrite <- !app_assoc, E. change (lit "," ++ ?x) with (x2c :: x). cbn iota. by rewrite IH'.
Qed.

(** ** The page *)

Section Page.
Context {float : Type} (of_int : Z -> float) (to_int : float -> Z) (eqf : float -> float -> bool) (format_g : float -> bytes) (seconds : Z -> float).
(** A formatted number has digits, a sign, a point and an exponent, or is [NaN] or [Inf]. *)
Context (Hg : forall v, newline ∉ format_g v).
Local Abbreviation formatFloat := (formatFloat of_int to_int eqf format_g).
Local Abbreviation write_sample := (write_sample of_int to_int eqf format_g).
Local Abbreviation writeMetric := (writeMetric of_int to_int eqf format_g).

Definition sample_item (name : bytes) (s : metric_sample float) : item := ISample name (label_list (s_labels s)) (formatFloat (s_value s)).

(** What a family says. *)
Definition items (f : family float) : list item :=
  IHelp (fm_name f) (fm_help f) :: IType (fm_name f) (kind_text (fm_kind f)) :: (sample_item (fm_name f) <$> fm_samples f).

Definition sample_ok (s : metric_sample float) : Prop := forall k, is_Some (s_labels s !! k) -> word k = true.
Definition family_ok (f : family float) : Prop := word (fm_name f) = true /\ Forall sample_ok (fm_samples f).

Lemma itoa_clean z : newline ∉ itoa z.
Proof.
  assert (H : forall n, 0 <= n -> newline ∉ digits n).
  { intros n Hn Hin%list_elem_of_In. destruct (digits_spec n Hn) as (_ & Hd & _). rewrite forallb_forall in Hd. by specialize (Hd _ Hin). }
  unfold itoa. destruct (Z.ltb_spec z 0); [|by apply H].
  rewrite not_elem_of_cons. split; [done|]. apply H. lia.
Qed.

Lemma value_clean v : newline ∉ formatFloat v.
Proof. unfold Metrics.formatFloat. destruct (eqf v _); [apply itoa_clean|apply Hg]. Qed.

Definition labels_text (m : gmap bytes bytes) : bytes :=
  if bool_decide (m = ∅) then [] else [x7b] ++ join_with (lit ",") (write_label <$> label_list m) ++ [x7d].
Definition sample_line (name : bytes) (s : metric_sample float) : bytes := name ++ labels_text (s_labels s) ++ lit " " ++ formatFloat (s_value s).

Lemma write_sample_line name s rest : write_sample name s ++ rest = sample_line name s ++ newline :: rest.
Proof. unfold Metrics.write_sample, sample_line, labels_text. by rewrite <- !app_assoc. Qed.

Lemma label_keys (m : gmap bytes bytes) (P : bytes -> Prop) : (forall k, is_Some (m !! k) -> P k) -> Forall (fun p => P p.1) (label_list m).
Proof.
  intros H. unfold label_list. apply Forall_fmap, Forall_forall. intros k Hk. cbn [fst compose]. apply H.
  unfold sort_strings in Hk. rewrite merge_sort_Permutation, elem_of_elements in Hk. by apply elem_of_dom in Hk.
Qed.

Lemma label_list_nonempty (m : gmap bytes bytes) : m <> ∅ -> label_list m <> [].
Proof.
  intros Hm H. apply Hm, dom_empty_inv_L, leibniz_equiv, elements_empty_iff, Permutation_nil_r.
  rewrite <- (merge_sort_Permutation bytes_le). unfold label_list, sort_strings in H. by apply fmap_nil_inv in H as ->.
Qed.

Lemma join_clean (ls : list bytes) : Forall (fun l => newline ∉ l) ls -> newline ∉ join_with (lit ",") ls.
Proof.
  induction 1 as [|l ls Hl H IH]; [apply not_elem_of_nil|]. destruct ls as [|l' ls]; [done|].
  change (join_with (lit ",") (l :: l' :: ls)) with (l ++ [x2c] ++ join_with (lit ",") (l' :: ls)).
  rewrite !not_elem_of_app. split; [done|]. split; [by intros ?%list_elem_of_singleton|done].
Qed.

Lemma sample_line_clean name s : word name = true -> sample_ok s -> newline ∉ sample_line name s.
Proof.
  intros Hn Hs. unfold sample_line, labels_text. rewrite !not_elem_of_app. split; [by apply word_clean|]. split.
  - case_bool_decide; [apply not_elem_of_nil|]. rewrite !not_elem_of_app. split; [by intros ?%list_elem_of_singleton|].
    split; [|by intros ?%list_elem_of_singleton]. apply join_clean, Forall_fmap. eapply Forall_impl; [by apply label_keys, Hs|].
    intros [k v] Hk. cbn [fst] in Hk. unfold compose, write_label. cbn [fst snd]. rewrite !not_elem_of_app.
    split; [by apply word_clean|]. split; [by intros [?|?%list_elem_of_singleton]%elem_of_cons|].
    split; [apply escapeLabel_clean|by intros ?%list_elem_of_singleton].
  - split; [by intros ?%list_elem_of_singleton|apply value_clean].
Qed.

Lemma join_length (ls : list (bytes * bytes)) : (length ls <= length (join_with (lit ",") (write_label <$> ls)))%nat.
Proof.
  induction ls as [|p ls IH]; [done|]. assert (1 <= length (write_label p))%nat by (unfold write_label; rewrite length_app; cbn; lia).
  destruct ls as [|q ls]; [cbn; lia|]. change (join_with (lit ",") (write_label <$> p :: q :: ls)) with (write_label p ++ [x2c] ++ join_with (lit ",") (write_label <$> q :: ls)).
  rewrite !length_app. cbn [length] in *. lia.
Qed.

Lemma read_sample name s : word name = true -> sample_ok s -> read_line (sample_line name s) = Some (sample_item name s).
Proof.
  intros Hn Hs. unfold read_line, sample_line. change (lit "# HELP ") with (x23 :: lit " HELP "). change (lit "# TYPE ") with (x23 :: lit " TYPE ").
  rewrite !word_not_comment by done. unfold labels_text. case_bool_decide as He.
  - change ([] ++ lit " " ++ ?v) with (x20 :: v). rewrite break_at_app; [|by apply word_stop, word_ends|done].
    unfold sample_item. rewrite He. done.
  - rewrite <- !app_assoc. change ([x7b] ++ ?t) with (x7b :: t). rewrite break_at_app; [|by apply word_stop, word_ends|done].
    change ([x7d] ++ ?t) with (x7d :: t). rewrite read_labels_write; [done|by apply label_list_nonempty|by apply (label_keys _ (fun k => word k = true)), Hs|].
    rewrite length_app. pose proof (join_length (label_list (s_labels s))). lia.
Qed.

Lemma read_samples name (ss : list (metric_sample float)) rest : word name = true -> Forall sample_ok ss ->
  read_page ((ss ≫= write_sample name) ++ rest) = (fun l => (sample_item name <$> ss) ++ l) <$> read_page rest.
Proof.
  intros Hn Hs. induction Hs as [|s ss Hs _ IH]; [change (read_page rest = (fun l => l) <$> read_page rest); by destruct (read_page rest)|].
  cbn [mbind list_bind]. rewrite <- app_assoc, write_sample_line. unfold read_page in *.
  rewrite text_lines_cons by (by apply sample_line_clean). cbn [mapM]. rewrite read_sample by done. cbn [mbind option_bind].
  setoid_rewrite IH. by destruct (mapM read_line (text_lines rest)).
Qed.

Lemma word_kind k : word (kind_text k) = true.
Proof. destruct k; by vm_compute. Qed.

Lemma read_family f rest : family_ok f -> read_page (writeMetric f ++ rest) = (fun l => items f ++ l) <$> read_page rest.
Proof.
  intros [Hn Hs]. unfold Metrics.writeMetric.
  replace ((lit "# HELP " ++ _) ++ rest) with
    ((lit "# HELP " ++ fm_name f ++ lit " " ++ escapeHelp (fm_help f)) ++ newline ::
     (lit "# TYPE " ++ fm_name f ++ lit " " ++ kind_text (fm_kind f)) ++ newline :: (fm_samples f ≫= write_sample (fm_name f)) ++ rest)
    by (by rewrite <- !app_assoc; cbn [app]; rewrite <- ?app_assoc).
  unfold read_page at 1. rewrite !text_lines_cons.
  - cbn [mapM]. rewrite read_help, read_type by done. cbn [mbind option_bind]. fold (read_page ((fm_samples f ≫= write_sample (fm_name f)) ++ rest)).
    rewrite read_samples by done. by destruct (read_page rest).
  - rewrite !not_elem_of_app. split; [closed|]. split; [by apply word_clean|]. split; [closed|apply word_clean, word_kind].
  - rewrite !not_elem_of_app. split; [closed|]. split; [by apply word_clean|]. split; [closed|apply escapeHelp_clean].
Qed.

Lemma read_families (fs : list (family float)) : Forall family_ok fs -> read_page (fs ≫= writeMetric) = Some (fs ≫= items).
Proof.
  induction 1 as [|f fs Hf _ IH]; [done|]. cbn [mbind list_bind]. rewrite read_family by done. setoid_rewrite IH. done.
Qed.

Lemma plain_ok v : Forall sample_ok (plain v : list (metric_sample float)).
Proof. constructor; [|constructor]. intros k [x H]. cbn [s_labels] in H. by rewrite lookup_empty in H. Qed.

Lemma labelled_ok key value n : word key = true -> sample_ok (labelled of_int key value n).
Proof. intros Hk k [x H]. cbn [labelled s_labels] in H. by apply lookup_singleton_Some in H as [<- _]. Qed.

Lemma counter_samples_ok key m : word key = true -> Forall sample_ok (counter_samples of_int key m).
Proof. intros Hk. apply Forall_fmap, Forall_forall. intros k _. by apply labelled_ok. Qed.

Lemma families_ok order torrents st g c : Forall family_ok (metric_families of_int seconds order torrents st g c).
Proof.
  unfold metric_families. apply Forall_app. split.
  - repeat (apply Forall_cons; split; [split; [by vm_compute|first [apply plain_ok|idtac]]|]); [| |constructor]; cbn [fm_samples].
    + apply Forall_fmap, Forall_forall. intros x _. by apply labelled_ok.
    + constructor; [|constructor]. intros k [x H]. cbn [s_labels] in H. apply lookup_insert_Some in H as [[<- _]|[_ H]]; [by vm_compute|].
      by apply lookup_singleton_Some in H as [<- _].
  - destruct c as [c|]; [|constructor]. repeat constructor; try (by vm_compute); by apply counter_samples_ok.
Qed.

(** C29: A reader of the exposition format gets from the metrics page exactly the families that were written, with their help
    texts, kinds, label values and numbers, in their order: no value of a label (a subscriber's remote address, an event's
    type, a version), whatever quotes, backslashes or newlines it has, can end its line or add a sample. *)
Theorem Metrics_page (order torrents : list State) (st : EngineStats) (g : process_stats) (c : option eventCounters) :
  read_page (handleMetrics of_int to_int eqf format_g seconds order torrents st g c) =
  Some (metric_families of_int seconds order torrents st g c ≫= items).
Proof. apply read_families, families_ok. Qed.
End Page.

(** ** Counters *)

Lemma count_up_all (ks : list bytes) : forall m : gmap bytes Z, (forall k v, m !! k = Some v -> i64 v = v) -> forall k,
  foldl (fun m k => count_up k m) m ks !! k =
  (if decide (k ∈ ks) then Some (i64 (default 0 (m !! k) + len (filter (eq k) ks))) else m !! k).
Proof.
  induction ks as [|x ks IH]; intros m Hm k; cbn [foldl]; [by rewrite decide_False by apply not_elem_of_nil|].
  rewrite IH.
  2:{ intros k' v. unfold count_up. rewrite lookup_insert_Some. intros [[_ <-]|[_ H]]; [|by eapply Hm]. apply i64_id, i64_range. }
  rewrite filter_cons. unfold count_up. destruct (decide (k = x)) as [->|Hne].
  - rewrite lookup_insert_eq. rewrite (decide_True (P := x ∈ x :: ks)) by (by left). cbn [default length].
    destruct (decide (x ∈ ks)) as [Hin|Hin].
    + f_equal. rewrite Nat2Z.inj_succ. unfold Z.succ. rewrite (Z.add_comm (len _) 1), Z.add_assoc.
      apply i64_add_l.
    + rewrite filter_none; [done|]. intros y Hy ->. done.
  - rewrite lookup_insert_ne by done.
    destruct (decide (k ∈ ks)); [rewrite decide_True by (by right)|rewrite decide_False by (by intros [?|?]%elem_of_cons)]; done.
Qed.

(** The published counters are the numbers of events of each type since the hooks were installed. *)
Lemma counters_exact (types : list bytes) k :
  published (foldl (fun c t => onPublish t c) newEventCounters types) !! k =
  (if decide (k ∈ types) then Some (i64 (len (filter (eq k) types))) else None).
Proof.
  assert (E : forall c, published (foldl (fun c t => onPublish t c) c types) = foldl (fun m k => count_up k m) (published c) types).
  { induction types as [|t ts IH]; intros c; [done|]. cbn [foldl]. by rewrite IH. }
  rewrite E, count_up_all; cbn [newEventCounters published]; [by rewrite lookup_empty|]. intros x v. by rewrite lookup_empty.
Qed.

(** ** Event frames *)

(** A reader of the event stream: fields, comments, and a blank line that delivers what was collected. *)
Record pending_event := mkPending { pe_type : bytes; pe_id : bytes; pe_data : bytes }.
Definition no_event : pending_event := mkPending [] [] [].

Definition read_field (l : bytes) (p : pending_event) : pending_event :=
  if starts_with (lit "event: ") l then mkPending (drop 7 l) (pe_id p) (pe_data p)
  else if starts_with (lit "id: ") l then mkPending (pe_type p) (drop 4 l) (pe_data p)
  else if starts_with (lit "data: ") l then mkPending (pe_type p) (pe_id p) (drop 6 l)
  else p.

Fixpoint read_stream (ls : list bytes) (p : pending_event) : list pending_event :=
  match ls with
  | [] => []
  | [] :: ls => if bool_decide (pe_data p = []) then read_stream ls no_event else p :: read_stream ls no_event
  | l :: ls => read_stream ls (read_field l p)
  end.

Definition frame_ok (r : sse_event * bool) : Prop :=
  r.2 = true /\ match r.1 with
                | SSE t _ (Ok d) => (newline ∉ t) /\ (newline ∉ d) /\ d <> []
                | Keepalive => True
                | _ => False
                end.

Definition sent_event (r : sse_event * bool) : option pending_event :=
  match r.1 with SSE t n (Ok d) => Some (mkPending t (itoa n) d) | _ => None end.

Lemma clean_app p l : newline ∉ p -> newline ∉ l -> newline ∉ p ++ l.
Proof. intros ? ?. by apply not_elem_of_app. Qed.

(** What the client reads is the events that were sent, in their order, with nothing between them. *)
Lemma stream_read (rounds : list (sse_event * bool)) : Forall frame_ok rounds ->
  read_stream (text_lines (handleEvents rounds).1) no_event = omap sent_event rounds.
Proof.
  induction 1 as [|[ev ok] rounds [Hok Hf] _ IH]; [done|]. cbn [fst snd] in *. subst ok.
  destruct ev as [t n [d|e]| | |]; try done; cbn [handleEvents].
  - destruct Hf as (Ht & Hd & Hne). destruct (handleEvents rounds) as [out dn]. cbn [fst] in *.
    replace (writeSSEEvent t n (Ok d) ++ out) with
      ((lit "event: " ++ t) ++ newline :: (lit "id: " ++ itoa n) ++ newline :: (lit "data: " ++ d) ++ newline :: [] ++ newline :: out)
      by (unfold writeSSEEvent; by rewrite <- !app_assoc; cbn [app]; rewrite <- ?app_assoc).
    rewrite !text_lines_cons; [|closed|apply clean_app; [closed|done]|apply clean_app; [closed|apply itoa_clean]|apply clean_app; [closed|done]].
    cbn [omap list_omap sent_event fst]. rewrite <- IH.
    change (read_stream (?a :: ?b :: ?c :: [] :: ?l) no_event) with
      (if bool_decide (pe_data (read_field c (read_field b (read_field a no_event))) = []) then read_stream l no_event
       else read_field c (read_field b (read_field a no_event)) :: read_stream l no_event).
    change (read_field _ (read_field _ (read_field _ no_event))) with (mkPending t (itoa n) d). cbn [pe_data].
    by rewrite bool_decide_false.
  - destruct (handleEvents rounds) as [out dn]. cbn [fst] in *.
    replace (keepalive ++ out) with (lit ": keepalive" ++ newline :: [] ++ newline :: out) by done.
    rewrite !text_lines_cons by closed. cbn [omap list_omap sent_event fst]. exact IH.
Qed.

(** ** The process file *)

(** Taking over sends signals to the process the file names, if it is another, and to no other; the file then names the
    new daemon. *)
Lemma acquire_only_named content self alive sent file :
  AcquirePIDFile content self true true alive = (sent, file, true) ->
  file = Some (itoa self) /\
  Forall (fun s => s.1 <> self /\ 0 < s.1 /\ exists data, content = Some data /\ parse_int64 (TrimSpace data) = Some s.1) sent.
Proof.
  unfold AcquirePIDFile. cbn [negb]. intros [= <- <-]. split; [done|]. destruct content as [data|]; [|constructor].
  destruct (parse_int64 (TrimSpace data)) as [pid|] eqn:E; [|constructor]. destruct (_ && _) eqn:Hc; [|constructor].
  apply andb_true_iff in Hc as [H1%Z.ltb_lt H2%negb_true_iff%Z.eqb_neq]. apply Forall_fmap, Forall_forall. intros s _.
  cbn [compose fst]. eauto.
Qed.

#[export] Instance process_signal_eq_dec : EqDecision process_signal.
Proof. solve_decision. Defined.

(** A process that is gone within two seconds of SIGTERM, twenty tests, is not killed. *)
Lemma leaves_in_time (k : nat) : (k <= 20)%nat -> SIGKILL ∉ stop_previous (replicate (S k) true).
Proof. intros H. do 21 (destruct k as [|k]; [closed|]). lia. Qed.

(** The file of a daemon that ended without removing it: whatever process has the pid now is stopped. *)
Lemma any_process_stopped : ((4711, SIGTERM) ∈ (AcquirePIDFile (Some (lit "4711")) 9 true true (replicate 30 true)).1.1) /\
  ((4711, SIGKILL) ∈ (AcquirePIDFile (Some (lit "4711")) 9 true true (replicate 30 true)).1.1).
Proof. split; closed. Qed.

(** A page with a hostile subscriber name. *)
Definition demo_stats : EngineStats := mkStats 0 0 0 0 0 0 0 3 0 0 0 0.
Definition demo_process : process_stats := mkProcess (lit "1.0") (lit "go1.22") 1 2 3 4 5.
Definition demo_counters : eventCounters := onDrop ([quote_mark; x7d; newline] ++ lit "evil 1") newEventCounters.

Lemma Metrics_page_witness :
  read_page (handleMetrics id id Z.eqb itoa (fun n => n / 10 ^ 9) [StateAdding] [] demo_stats demo_process (Some demo_counters)) =
  Some (metric_families id (fun n => n / 10 ^ 9) [StateAdding] [] demo_stats demo_process (Some demo_counters) ≫= items id id Z.eqb itoa).
Proof. apply (Metrics_page id id Z.eqb itoa (fun n => n / 10 ^ 9)). intros v. apply itoa_clean. Defined.
