(* ===== verification/Host.v ===== *)
(** * Start and stop of the engine and of the daemon ([engine/engine.go], [cmd/stor/main.go])

    What [Start] brings up, with its errors, and [Stop] step by step beside the goroutines that still run: the sessions, the
    periodic save and the queue orchestrator.  Each step of [Stop] and each action of a goroutine is a step.  Of the records only
    whether they changed since they were last saved is kept, of the sessions how many goroutines run. [h_late] records that
    the orchestrator or a call of the interface worked after [Stop] had waited, [h_failed] that the save of [Stop] failed; no step reads them. *)

From S2P Require Import Prelude Strconv Net Paths Queue Config Rpc.
Set Warnings "-clear-no-such-hyp".
Local Open Scope Z_scope.

(** ** New *)

(** [New]: the peer id; [random] is what [rand.Read] gives. *)
Definition new_peer_id (random : bytes) : bytes := take 20 (lit "-ST0001-" ++ random).

Definition dhtNodesPath (statePath : bytes) : bytes := Join [Dir statePath; lit "dht_nodes.dat"].

(** The settings of [downloadConfig]: [Encryption] is always on, the semaphore is the engine's. *)
Record download_settings := mkDownload {
  dc_MaxPeers : Z; dc_MaxPipeline : Z; dc_PipelineMin : Z; dc_PipelineMax : Z; dc_PipelineWindowSecs : Z; dc_DialTimeout : Z;
  dc_Encryption : bool; dc_EnableUTP : bool; dc_PrioritizeFirstLast : bool; dc_Sequential : bool
}.
Definition downloadConfig (g : EngineCfg) : download_settings :=
  mkDownload (e_MaxPeers g) (e_MaxPipeline g) (e_PipelineMin g) (e_PipelineMax g) (e_PipelineWindowSecs g) (e_DialTimeout g)
    true (e_EnableUTP g) (e_PrioritizeFirstLast g) (e_Sequential g).

(** The configuration in [GetStats]; the daemon adds the log level. *)
Record EngineConfig := mkShown {
  sc_DownloadDir : bytes; sc_TmpDir : bytes; sc_MaxActive : Z; sc_MaxPeers : Z; sc_MaxPipeline : Z; sc_DialTimeout : Z;
  sc_MaxGlobalDials : Z; sc_NumWant : Z; sc_LogLevel : bytes; sc_EnableUTP : bool; sc_PrioritizeFirstLast : bool; sc_Sequential : bool;
  sc_PipelineMin : Z; sc_PipelineMax : Z; sc_PipelineWindowSecs : Z; sc_SocketSendBuffer : Z; sc_SocketRecvBuffer : Z
}.
Definition shown_config (g : EngineCfg) : EngineConfig :=
  mkShown (e_DownloadDir g) (e_TmpDir g) (e_MaxActive g) (e_MaxPeers g) (e_MaxPipeline g) (e_DialTimeout g) (e_MaxGlobalDials g)
    (e_NumWant g) [] (e_EnableUTP g) (e_PrioritizeFirstLast g) (e_Sequential g) (e_PipelineMin g) (e_PipelineMax g)
    (e_PipelineWindowSecs g) (e_SocketSendBuffer g) (e_SocketRecvBuffer g).

(** ** Start *)

Inductive host_stage :=
  | Up | Cancelled | SaverTold | ListenerClosed | PortmapStopped | DhtClosed | Waited | Saved | Stopped.

Record host := mkHost {
  h_listener : bool; h_portmap : bool; h_dht : bool;   (** open *)
  h_saver : bool; h_orch : bool;                       (** the goroutines run *)
  h_done : bool;                                       (** [ctx] *)
  h_running : nat;                                     (** [sessionWG] *)
  h_dirty : bool; h_nodes : bool;                      (** unsaved records; saved DHT nodes *)
  h_bus : bool; h_at : host_stage; h_late : bool; h_failed : bool
}.

Inductive start_error := DownloadDirFailed | TmpDirFailed.

(** [Start]: the two directories, the DHT, the listener with the port mapper; [resumed] sessions are started. *)
Definition host_Start (disableDHT disableListener hasTmp : bool) (mkdir mktmp dht listen : bool) (resumed : nat) : result start_error host :=
  if negb mkdir then Err DownloadDirFailed
  else if hasTmp && negb mktmp then Err TmpDirFailed
  else
    let dht := negb disableDHT && dht in
    let pl := negb disableListener && listen in
    Ok (mkHost pl pl dht true true false resumed true false true Up false false).

(** ** Stop *)

(** [saved]: whether the save that belongs to the step was written; an error is only logged. *)
Inductive host_label :=
  | Api (started : nat)               (** a call of the interface: it changes records and may start sessions.  [main] shuts the
                                          interface down before the engine, but gives up after five seconds: a handler may
                                          still be running at any time *)
  | SessionChange | SessionDone (started : nat) (saved : bool)
  | SaveTick (saved : bool) | SaverExit | OrchAdvance (started : nat) (saved : bool) | OrchExit
  | StopStep (ok : bool).             (** [ok]: whether the nodes or the records could be saved *)

Definition stop_rank (p : host_stage) : nat :=
  match p with
  | Up => 0 | Cancelled => 1 | SaverTold => 2 | ListenerClosed => 3 | PortmapStopped => 4 | DhtClosed => 5 | Waited => 6 | Saved => 7
  | Stopped => 8
  end.

Section Updates.
Implicit Types h : host.
Definition with_work (n : nat) (dirty late : bool) h : host :=
  mkHost (h_listener h) (h_portmap h) (h_dht h) (h_saver h) (h_orch h) (h_done h) n dirty (h_nodes h) (h_bus h) (h_at h) late (h_failed h).
Definition with_stop (p : host_stage) (listener portmap dht done dirty nodes bus failed : bool) h : host :=
  mkHost listener portmap dht (h_saver h) (h_orch h) done (h_running h) dirty nodes bus p (h_late h) failed.
Definition with_goroutines (saver orch : bool) h : host :=
  mkHost (h_listener h) (h_portmap h) (h_dht h) saver orch (h_done h) (h_running h) (h_dirty h) (h_nodes h) (h_bus h) (h_at h) (h_late h) (h_failed h).
End Updates.

(** The next statement of [Stop]. *)
Definition stop_step (ok : bool) (h : host) : option host :=
  let '(l, p, d, f) := (h_listener h, h_portmap h, h_dht h, h_failed h) in
  match h_at h with
  | Up => Some (with_stop Cancelled l p d true (h_dirty h) (h_nodes h) (h_bus h) f h)
  | Cancelled => Some (with_stop SaverTold l p d (h_done h) (h_dirty h) (h_nodes h) (h_bus h) f h)
  | SaverTold => Some (with_stop ListenerClosed false p d (h_done h) (h_dirty h) (h_nodes h) (h_bus h) f h)
  | ListenerClosed => Some (with_stop PortmapStopped l false d (h_done h) (h_dirty h) (h_nodes h) (h_bus h) f h)
  | PortmapStopped => Some (with_stop DhtClosed l p false (h_done h) (h_dirty h) (if d then ok else h_nodes h) (h_bus h) f h)
  | DhtClosed => match h_running h with
                 | O => Some (with_stop Waited l p d (h_done h) (h_dirty h) (h_nodes h) (h_bus h) f h)
                 | S _ => None
                 end
  | Waited => Some (with_stop Saved l p d (h_done h) (h_dirty h && negb ok) (h_nodes h) (h_bus h) (negb ok) h)
  | Saved => Some (with_stop Stopped l p d (h_done h) (h_dirty h) (h_nodes h) false f h)
  | Stopped => None
  end.

(** [Stop] has waited for the sessions. *)
Definition waited (h : host) : bool := bool_decide (6 <= stop_rank (h_at h))%nat.

(** [onSessionDone] saves and then starts queued torrents, all before [Done]; the orchestrator starts them and saves. *)
Definition host_step (l : host_label) (h : host) : option host :=
  match l with
  | Api k => Some (with_work (h_running h + k) true (h_late h || waited h) h)
  | SessionChange => match h_running h with O => None | n => Some (with_work n true (h_late h) h) end
  | SessionDone k saved => match h_running h with O => None | S n => Some (with_work (n + k) (negb saved) (h_late h) h) end
  | SaveTick saved => if h_saver h then Some (with_work (h_running h) (h_dirty h && negb saved) (h_late h) h) else None
  | SaverExit =>
      if h_saver h && bool_decide (2 <= stop_rank (h_at h))%nat then Some (with_goroutines false (h_orch h) h) else None
  | OrchAdvance k saved =>
      if h_orch h then Some (with_work (h_running h + k) (negb saved) (h_late h || waited h) h) else None
  | OrchExit => if h_orch h && h_done h then Some (with_goroutines (h_saver h) false h) else None
  | StopStep ok => stop_step ok h
  end.

Inductive host_reach (h0 : host) : host -> Prop :=
  | host_init : host_reach h0 h0
  | host_next l h h' : host_reach h0 h -> host_step l h = Some h' -> host_reach h0 h'.

Fixpoint host_run (ls : list host_label) (h : host) : option host :=
  match ls with [] => Some h | l :: ls => h' ← host_step l h; host_run ls h' end.

(** ** Taking over from a running daemon *)

(** What the two daemons share: the records on disk, and the peer port. *)
Record shared (A : Type) := mkShared { on_disk : A; port_held : bool }.
Arguments mkShared {A}.
Arguments on_disk {A}.
Arguments port_held {A}.

(** [main]: the new engine loads its records and starts its listener before [AcquirePIDFile] stops the old daemon, whose
    [Stop] saves its own records; [old] holds them. *)
Definition take_over {A} (old : option A) (w : shared A) : A * bool * shared A :=
  let loaded := on_disk w in
  let listening := negb (port_held w) in
  (loaded, listening, match old with Some records => mkShared records listening | None => mkShared (on_disk w) listening end).
(** The next save of the new daemon. *)
Definition save_records {A} (records : A) (w : shared A) : shared A := mkShared records (port_held w).

(** ** What [Stop] leaves *)

Record host_inv (h : host) : Prop := {
  hi_done : (1 <= stop_rank (h_at h))%nat -> h_done h = true;
  hi_listener : (3 <= stop_rank (h_at h))%nat -> h_listener h = false;
  hi_portmap : (4 <= stop_rank (h_at h))%nat -> h_portmap h = false;
  hi_dht : (5 <= stop_rank (h_at h))%nat -> h_dht h = false;
  hi_running : (6 <= stop_rank (h_at h))%nat -> h_late h = false -> h_running h = 0%nat;
  hi_saved : (7 <= stop_rank (h_at h))%nat -> h_late h = false -> h_failed h = false -> h_dirty h = false;
  hi_bus : (8 <= stop_rank (h_at h))%nat -> h_bus h = false
}.

Lemma with_work_inv n dirty late h : host_inv h ->
  ((6 <= stop_rank (h_at h))%nat -> late = false -> h_late h = false /\ n = 0%nat /\
     ((7 <= stop_rank (h_at h))%nat -> h_failed h = false -> dirty = false)) ->
  host_inv (with_work n dirty late h).
Proof.
  intros [] Hn. constructor; cbn [with_work h_at h_done h_listener h_portmap h_dht h_running h_late h_dirty h_bus h_failed]; try done.
  - intros Hr Hl. by apply Hn.
  - intros Hr Hl Hf. apply Hn; [lia|done..].
Qed.

Lemma stop_inv ok h h' : host_inv h -> stop_step ok h = Some h' -> host_inv h'.
Proof.
  intros [H1 H2 H3 H4 H5 H6 H7]. unfold stop_step. intros Hs.
  destruct (h_at h) eqn:E; cbn [stop_rank] in *; [..|done]; try (destruct (h_running h) eqn:En; [|done]); injection Hs as <-;
    constructor; cbn [with_stop stop_rank h_at h_done h_listener h_portmap h_dht h_running h_late h_dirty h_bus h_failed]; try done; intros; try lia;
    (rewrite ?En; first [done | apply H1; lia | apply H2; lia | apply H3; lia | apply H4; lia | apply H5; done || lia | apply H6; done || lia | idtac]).
  by destruct ok; rewrite ?andb_false_r.
Qed.

Lemma host_step_inv l h h' : host_inv h -> host_step l h = Some h' -> host_inv h'.
Proof.
  intros Hinv. assert (Hw : forall b, (6 <= stop_rank (h_at h))%nat -> b || waited h = false -> False).
  { intros b Hr Hb. unfold waited in Hb. rewrite bool_decide_eq_true_2, orb_true_r in Hb by done. done. }
  destruct l as [k| |k sv|sv| |k sv| |ok]; cbn [host_step]; intros Hs.
  - injection Hs as <-. apply with_work_inv; [done|]. intros Hr Hl. by destruct (Hw _ Hr Hl).
  - destruct (h_running h) eqn:En; [done|]. injection Hs as <-.
    apply with_work_inv; [done|]. intros Hr Hl. pose proof (hi_running _ Hinv Hr Hl). congruence.
  - destruct (h_running h) eqn:En; [done|]. injection Hs as <-.
    apply with_work_inv; [done|]. intros Hr Hl. pose proof (hi_running _ Hinv Hr Hl). congruence.
  - destruct (h_saver h); [|done]. injection Hs as <-. apply with_work_inv; [done|]. intros Hr Hl.
    split; [done|]. split; [by apply (hi_running _ Hinv)|]. intros Hr' Hf. by rewrite (hi_saved _ Hinv).
  - destruct (_ && _); [|done]. injection Hs as <-. by destruct Hinv; constructor.
  - destruct (h_orch h); [|done]. injection Hs as <-. apply with_work_inv; [done|]. intros Hr Hl. by destruct (Hw _ Hr Hl).
  - destruct (_ && _); [|done]. injection Hs as <-. by destruct Hinv; constructor.
  - by eapply stop_inv.
Qed.

Lemma host_start_inv a b c d e f g n h : host_Start a b c d e f g n = Ok h -> host_inv h /\ h_at h = Up /\ h_late h = false.
Proof.
  unfold host_Start. destruct (negb d); [done|]. destruct (_ && _); [done|]. intros [= <-].
  split; [|done]. constructor; cbn [h_at stop_rank]; lia.
Qed.

(** A stop always gets past the sessions once they have ended: no step of it but the wait can be blocked. *)
Lemma stop_proceeds ok h : h_at h <> Stopped -> (h_at h = DhtClosed -> h_running h = 0%nat) -> is_Some (stop_step ok h).
Proof.
  intros Hn Hr. unfold stop_step. destruct (h_at h); try done; try (rewrite Hr by done); by eexists.
Qed.


Lemma host_run_reach h0 ls : forall h h', host_reach h0 h -> host_run ls h = Some h' -> host_reach h0 h'.
Proof.
  induction ls as [|l ls IH]; intros h h' H Hr; cbn [host_run] in Hr; [congruence|].
  destruct (host_step l h) as [h1|] eqn:E; [|done]. eapply IH; [by eapply host_next|done].
Qed.

Definition demo_host : host := mkHost true true true true true false 2 true false true Up false false.
Definition demo_shutdown : list host_label :=
  [SaveTick false; SessionChange; StopStep true; StopStep true; StopStep true; OrchAdvance 1 false; StopStep true; StopStep true; Api 0;
   SessionDone 0 false; SessionDone 0 true; SessionDone 0 false; OrchExit; StopStep true; StopStep true; StopStep true].


(** The orchestrator's goroutine is not waited for: a session can start after the wait. *)
Lemma late_start : exists ls h, host_run ls demo_host = Some h /\ h_at h = Stopped /\ h_running h = 1%nat.
Proof.
  exists [StopStep true; StopStep true; StopStep true; StopStep true; StopStep true; SessionDone 0 true; SessionDone 0 true; StopStep true;
          OrchAdvance 1 true; StopStep true; StopStep true]. eexists. split; [by vm_compute|done].
Qed.

(** A failed save is only logged: [Stop] returns with changes unsaved. *)
Lemma failed_save_lost : exists ls h, host_run ls demo_host = Some h /\ h_at h = Stopped /\ h_late h = false /\ h_dirty h = true.
Proof.
  exists [StopStep true; StopStep true; StopStep true; StopStep true; StopStep true; SessionDone 0 false; SessionDone 0 false; StopStep true;
          StopStep false; StopStep true]. eexists. split; [by vm_compute|done].
Qed.

(** A daemon that takes over from a running one has no listener, and the records it saves are those from before the old one
    stopped. *)
Lemma take_over_loses {A} (before last_ : A) :
  let '(loaded, listening, w) := take_over (Some last_) (mkShared before true) in
  listening = false /\ on_disk w = last_ /\ on_disk (save_records loaded w) = before.
Proof. done. Qed.
